(** * Manual-edit reconciliation and change-log engine of the funding advisor

    A shallow embedding of the backend's store module (db.js): the
    manual company update engine, the manual investor-report update engine,
    the structural JSON diff and the history feed assembler, together with
    the properties the specification states about them. *)

From Stdlib Require Import ZArith String Ascii List Lia Bool Permutation Sorted.
From Stdlib Require Import Decimal DecimalString DecimalZ DecimalPos DecimalFacts.
From stdpp Require Import base option list gmap strings pretty sorting.
Import ListNotations.

Local Open Scope string_scope.
Local Open Scope list_scope.
Local Open Scope Z_scope.

Set Warnings "-register-all,-clear-no-such-hyp".

(** ** The JavaScript runtime the module runs on *)

(** Numbers.  The module never computes with numbers: it converts strings
    to numbers ([Number]), tests them ([Number.isFinite]), compares them
    ([===]) and prints them.  A number that travels through a JSON request
    body or an SQLite column is finite, so [num] stands for the finite
    numbers and the builtins are the fields of this class. *)
Class JsRuntime := {
  num : Type;
  (** [===] on finite numbers *)
  num_eq_dec :: EqDecision num;
  (** [0] and [-0], the falsy finite numbers *)
  num_isZero : num → bool;
  (** [Number(s)] on a trimmed, non-empty string, when [Number.isFinite]
      accepts the result; [None] otherwise *)
  Number_finite : string → option num;
  (** [Number.prototype.toString], which is also what [JSON.stringify]
      prints for a finite number *)
  num_toString : num → string;
  (** [Math.floor] on a finite number *)
  num_floor : num → Z;
  (** [new Date(text).getTime()]; [None] is the [NaN] of an invalid date *)
  Date_getTime : string → option Z;
}.

(** *** Strings *)

(** A string is the UTF-8 text of the JavaScript string: a character of
    ASCII is one byte, any other character two to four bytes, none of them
    a byte of ASCII. *)

(** The white space and line terminators of one byte: U+0009 to U+000D and
    U+0020. *)
Definition is_js_whitespace (c : ascii) : bool :=
  let n := nat_of_ascii c in
  ((9 <=? n) && (n <=? 13) || (n =? 32))%nat.

(** The one of two bytes: U+00A0. *)
Definition is_js_whitespace2 (c1 c2 : ascii) : bool :=
  ((nat_of_ascii c1 =? 194) && (nat_of_ascii c2 =? 160))%nat.

(** Those of three bytes: U+1680, U+2000 to U+200A, U+2028, U+2029,
    U+202F, U+205F, U+3000 and U+FEFF. *)
Definition is_js_whitespace3 (c1 c2 c3 : ascii) : bool :=
  let n1 := nat_of_ascii c1 in
  let n2 := nat_of_ascii c2 in
  let n3 := nat_of_ascii c3 in
  ((n1 =? 225) && ((n2 =? 154) && (n3 =? 128))
   || (n1 =? 226)
      && ((n2 =? 128)
          && ((128 <=? n3) && (n3 <=? 138) || (n3 =? 168) || (n3 =? 169)
              || (n3 =? 175))
          || (n2 =? 129) && (n3 =? 159))
   || (n1 =? 227) && ((n2 =? 128) && (n3 =? 128))
   || (n1 =? 239) && ((n2 =? 187) && (n3 =? 191)))%nat.

(** What follows the white space character a text starts with, if it
    starts with one; [backwards] when the text is read from its end. *)
Definition after_whitespace (backwards : bool) (cs : list ascii)
  : option (list ascii) :=
  match cs with
  | c1 :: rest1 =>
      if is_js_whitespace c1 then Some rest1
      else
        match rest1 with
        | c2 :: rest2 =>
            if (if backwards then is_js_whitespace2 c2 c1
                else is_js_whitespace2 c1 c2)
            then Some rest2
            else
              match rest2 with
              | c3 :: rest3 =>
                  if (if backwards then is_js_whitespace3 c3 c2 c1
                      else is_js_whitespace3 c1 c2 c3)
                  then Some rest3
                  else None
              | [] => None
              end
        | [] => None
        end
  | [] => None
  end.

(** The text without the white space it starts with; a text has no more
    white space characters than it has bytes. *)
Fixpoint drop_whitespace (backwards : bool) (fuel : nat) (cs : list ascii)
  : list ascii :=
  match fuel with
  | O => cs
  | S fuel =>
      match after_whitespace backwards cs with
      | Some rest => drop_whitespace backwards fuel rest
      | None => cs
      end
  end.

(** [String.prototype.trim] *)
Definition trim (s : string) : string :=
  let cs := list_ascii_of_string s in
  let start := drop_whitespace false (length cs) cs in
  string_of_list_ascii
    (rev (drop_whitespace true (length start) (rev start))).

(** [Array.prototype.join] on strings *)
Fixpoint join (sep : string) (parts : list string) : string :=
  match parts with
  | [] => ""
  | [p] => p
  | p :: rest => p +:+ sep +:+ join sep rest
  end.

Definition hex_digit (n : nat) : ascii :=
  match n with
  | 0 => "0" | 1 => "1" | 2 => "2" | 3 => "3" | 4 => "4" | 5 => "5"
  | 6 => "6" | 7 => "7" | 8 => "8" | 9 => "9" | 10 => "a" | 11 => "b"
  | 12 => "c" | 13 => "d" | 14 => "e" | _ => "f"
  end%nat%char.

Definition dquote : ascii := "034"%char.

(** The line feed, which a string literal of JavaScript writes with a
    backslash. *)
Definition line_feed : string := String "010"%char "".

(** One character of a string literal as [JSON.stringify] quotes it. *)
Definition quote_char (c : ascii) : string :=
  let n := nat_of_ascii c in
  if (n =? 34)%nat then String "\" (String dquote "")
  else if (n =? 92)%nat then "\\"
  else if (n =? 8)%nat then "\b"
  else if (n =? 9)%nat then "\t"
  else if (n =? 10)%nat then "\n"
  else if (n =? 12)%nat then "\f"
  else if (n =? 13)%nat then "\r"
  else if (n <? 32)%nat then
    "\u00" +:+ String (hex_digit (n / 16)) (String (hex_digit (n mod 16)) "")
  else String c "".

Fixpoint quote_chars (s : string) : string :=
  match s with
  | EmptyString => ""
  | String c rest => quote_char c +:+ quote_chars rest
  end.

Definition quote_string (s : string) : string :=
  String dquote (quote_chars s +:+ String dquote "").

Section Values.
Context `{JsRuntime}.

(** ** JavaScript values *)

(** JavaScript values as far as JSON bodies and SQLite columns produce
    them.  An object is the list of its own enumerable properties in
    [Object.keys] order; an object has no two properties with one key, so
    [value[key]] for a listed [key] is the value listed with it. *)
Inductive jsval :=
| JUndefined
| JNull
| JBool (b : bool)
| JNum (n : num)
| JStr (s : string)
| JArr (items : list jsval)
| JObj (props : list (string * jsval)).

(** [JSON.stringify].  An [undefined] array element prints as [null] and
    a property whose value is [undefined] is left out; no call site of the
    module passes [undefined] itself. *)
Fixpoint JSON_stringify (v : jsval) : string :=
  match v with
  | JUndefined => "null"
  | JNull => "null"
  | JBool b => if b then "true" else "false"
  | JNum n => num_toString n
  | JStr s => quote_string s
  | JArr items => "[" +:+ join "," (map JSON_stringify items) +:+ "]"
  | JObj props =>
      "{" +:+ join ","
        (flat_map (fun kv =>
           match snd kv with
           | JUndefined => []
           | _ => [quote_string (fst kv) +:+ ":" +:+ JSON_stringify (snd kv)]
           end) props) +:+ "}"
  end.

(** ** Structural JSON diff *)

(** A [Map] from path to canonical text, in insertion order. *)
Definition jsmap := list (string * string).

(** [Map.prototype.set]: an existing key keeps its place. *)
Fixpoint map_set (k v : string) (m : jsmap) : jsmap :=
  match m with
  | [] => [(k, v)]
  | (k', v') :: rest =>
      if String.eqb k' k then (k', v) :: rest else (k', v') :: map_set k v rest
  end.

(** [Map.prototype.get], [None] where [has] is false. *)
Fixpoint map_get (m : jsmap) (k : string) : option string :=
  match m with
  | [] => None
  | (k', v') :: rest => if String.eqb k' k then Some v' else map_get rest k
  end.

Definition map_keys (m : jsmap) : list string := map fst m.

(** [Set.prototype.add] and [new Set(iterable)], in insertion order. *)
Definition set_add (x : string) (s : list string) : list string :=
  if existsb (String.eqb x) s then s else s ++ [x].

Definition Set_from (xs : list string) : list string :=
  fold_left (fun s x => set_add x s) xs [].

Fixpoint flattenJsonValue (value : jsval) (path : string) (acc : jsmap)
  {struct value} : jsmap :=
  match value with
  | JUndefined => map_set path "undefined" acc
  | JNull => map_set path "null" acc
  | JArr items =>
      match items with
      | [] => map_set path "[]" acc
      | _ =>
          (fix forEach (items : list jsval) (index : nat) (acc : jsmap) :=
             match items with
             | [] => acc
             | item :: rest =>
                 forEach rest (S index)
                   (flattenJsonValue item
                      (path +:+ "[" +:+ pretty index +:+ "]") acc)
             end) items 0%nat acc
      end
  | JObj props =>
      match props with
      | [] => map_set path "{}" acc
      | _ =>
          (fix forEach (props : list (string * jsval)) (acc : jsmap) :=
             match props with
             | [] => acc
             | (key, item) :: rest =>
                 let nextPath :=
                   if String.eqb path "$" then "$." +:+ key
                   else path +:+ "." +:+ key in
                 forEach rest (flattenJsonValue item nextPath acc)
             end) props acc
      end
  | JBool _ | JNum _ | JStr _ => map_set path (JSON_stringify value) acc
  end.

(** One row of the diff. *)
Record report_change := {
  jsonPath : string;
  fromValue : string;
  toValue : string;
}.

(** [flat.has(path) ? flat.get(path) : "undefined"] *)
Definition rendered (flat : jsmap) (path : string) : string :=
  match map_get flat path with
  | Some text => text
  | None => "undefined"
  end.

Definition diffRecommendationPayloads (currentPayload nextPayload : jsval)
  : list report_change :=
  let currentFlat := flattenJsonValue currentPayload "$" [] in
  let nextFlat := flattenJsonValue nextPayload "$" [] in
  let allPaths := Set_from (map_keys currentFlat ++ map_keys nextFlat) in
  flat_map (fun path =>
    let before := rendered currentFlat path in
    let after := rendered nextFlat path in
    if String.eqb before after then []
    else [{| jsonPath := path; fromValue := before; toValue := after |}])
    allPaths.

(** The rows one path contributes to the diff. *)
Definition rows_at (currentFlat nextFlat : jsmap) (path : string)
  : list report_change :=
  let before := rendered currentFlat path in
  let after := rendered nextFlat path in
  if String.eqb before after then []
  else [{| jsonPath := path; fromValue := before; toValue := after |}].

(** The leaves of a value under a path, each with its path and its
    canonical text, in the order in which the traversal meets them: the
    flattening as section 4.3 of the specification describes it, without
    the map it fills. *)
Fixpoint leaves (value : jsval) (path : string) {struct value}
  : list (string * string) :=
  match value with
  | JUndefined => [(path, "undefined")]
  | JNull => [(path, "null")]
  | JArr items =>
      match items with
      | [] => [(path, "[]")]
      | _ =>
          (fix each (items : list jsval) (index : nat) :=
             match items with
             | [] => []
             | item :: rest =>
                 leaves item (path +:+ "[" +:+ pretty index +:+ "]")
                 ++ each rest (S index)
             end) items 0%nat
      end
  | JObj props =>
      match props with
      | [] => [(path, "{}")]
      | _ =>
          (fix each (props : list (string * jsval)) :=
             match props with
             | [] => []
             | (key, item) :: rest =>
                 leaves item
                   (if String.eqb path "$" then "$." +:+ key
                    else path +:+ "." +:+ key)
                 ++ each rest
             end) props
      end
  | JBool _ | JNum _ | JStr _ => [(path, JSON_stringify value)]
  end.

(** The leaves set into a map one after the other. *)
Definition set_leaves (found : list (string * string)) (acc : jsmap) : jsmap :=
  fold_left (fun m leaf => map_set (fst leaf) (snd leaf) m) found acc.

(** The text of the last of the leaves at a path. *)
Fixpoint last_leaf (found : list (string * string)) (path : string)
  : option string :=
  match found with
  | [] => None
  | (p, text) :: rest =>
      match last_leaf rest path with
      | Some later => Some later
      | None => if String.eqb p path then Some text else None
      end
  end.

(** A path as one side of the diff shows it. *)
Definition shown_at (value : jsval) (path : string) : string :=
  default "undefined" (last_leaf (leaves value "$") path).

(** [!!value] *)
Definition truthy (value : jsval) : bool :=
  match value with
  | JUndefined | JNull => false
  | JBool b => b
  | JNum n => negb (num_isZero n)
  | JStr s => negb (String.eqb s "")
  | JArr _ | JObj _ => true
  end.

Definition typeof (value : jsval) : string :=
  match value with
  | JUndefined => "undefined"
  | JNull | JArr _ | JObj _ => "object"
  | JBool _ => "boolean"
  | JNum _ => "number"
  | JStr _ => "string"
  end.

Definition Array_isArray (value : jsval) : bool :=
  match value with JArr _ => true | _ => false end.

(** [Object.entries] of a value that passed the object checks. *)
Definition Object_entries (value : jsval) : list (string * jsval) :=
  match value with JObj props => props | _ => [] end.

(** [a === b] where one side was read from a column: primitives compare by
    value, and an array or object of the request is no stored value. *)
Definition strict_eq (a b : jsval) : bool :=
  match a, b with
  | JUndefined, JUndefined => true
  | JNull, JNull => true
  | JBool x, JBool y => Bool.eqb x y
  | JNum x, JNum y => bool_decide (x = y)
  | JStr x, JStr y => String.eqb x y
  | _, _ => false
  end.

(** [value === null || value === undefined] *)
Definition nullish (value : jsval) : bool :=
  match value with JUndefined | JNull => true | _ => false end.

(** [value ?? null] *)
Definition or_null (value : jsval) : jsval :=
  if nullish value then JNull else value.

End Values.

(** [JSON.parse]; [None] when it throws a [SyntaxError]. *)
Class JsonParser `{JsRuntime} := {
  JSON_parse : string → option jsval;
}.

(** A thrown [Error] with its optional [statusCode]. *)
Record js_error := {
  message : string;
  statusCode : option Z;
}.

Definition plain_error (msg : string) : js_error :=
  {| message := msg; statusCode := None |}.

Definition status_error (msg : string) (code : Z) : js_error :=
  {| message := msg; statusCode := Some code |}.

Inductive outcome (A : Type) :=
| Returned (response : A)
| Threw (e : js_error).
Arguments Returned {A} response.
Arguments Threw {A} e.

Section Store.
Context `{JsRuntime} `{!JsonParser}.

(** ** The record store *)

(** What a column holds, as better-sqlite3 hands it to JavaScript. *)
Inductive cell :=
| CNull
| CText (s : string)
| CNum (n : num).

Definition cell_to_js (c : cell) : jsval :=
  match c with
  | CNull => JNull
  | CText s => JStr s
  | CNum n => JNum n
  end.

(** A parameter as better-sqlite3 binds it: numbers, strings and [null],
    and [undefined] as [NULL]; it throws a [TypeError] on anything else. *)
Definition bind_value (value : jsval) : option cell :=
  match value with
  | JUndefined | JNull => Some CNull
  | JStr s => Some (CText s)
  | JNum n => Some (CNum n)
  | JBool _ | JArr _ | JObj _ => None
  end.

(** A row of [company_cases], with the columns the history reads. *)
Record case_record := {
  case_id : Z;
  case_company_id : Z;
  company_summary_text : cell;
  case_created_at : string;
}.

(** A row of [investor_reports]. *)
Record report_record := {
  ir_id : Z;
  ir_company_id : Z;
  ir_company_name : string;
  ir_recommendation : string;
  ir_created_at : string;
}.

(** A row of [investor_report_changes]. *)
Record change_record := {
  report_id : Z;
  json_path : string;
  from_value : string;
  to_value : string;
  changed_at : string;
}.

(** The tables.  A company row maps a column name to its cell; lists are
    in rowid order. *)
Record db := {
  companies : gmap Z (gmap string cell);
  company_cases : list case_record;
  investor_reports : list report_record;
  investor_report_changes : list change_record;
}.

(** What a call reads from its surroundings: the two clocks, and which
    of the statements it runs (counted from 0) the store refuses for a
    reason of its own (disk full, database locked, I/O error). *)
Record env := {
  js_now : string;
  sql_now : string;
  store_fault : nat → bool;
}.

(** ** Manual company update engine *)

Definition MANUAL_FIELD_NAME_MAP : list (string * string) := [
  ("funding_need_type_guess", "funding_need_type");
  ("funding_need_min_eur_guess", "funding_need_min_eur");
  ("funding_need_max_eur_guess", "funding_need_max_eur");
  ("funding_need_summary_guess", "funding_need_summary")
].

Definition MANUAL_EDITABLE_COLUMNS : list string := [
  "name"; "business_id"; "website_url"; "country"; "city";
  "industry_code"; "industry_text"; "employee_count"; "employee_range";
  "revenue_eur"; "revenue_range"; "stage"; "funding_need_type";
  "funding_need_min_eur"; "funding_need_max_eur"; "funding_need_summary";
  "description"; "tags"
].

Definition MANUAL_NUMERIC_COLUMNS : list string := [
  "employee_count"; "revenue_eur"; "funding_need_min_eur";
  "funding_need_max_eur"
].

(** [Set.prototype.has] *)
Definition set_has (s : list string) (x : string) : bool :=
  existsb (String.eqb x) s.

(** [Map.prototype.get] on a map of names *)
Fixpoint name_map_get (m : list (string * string)) (k : string)
  : option string :=
  match m with
  | [] => None
  | (k', v) :: rest => if String.eqb k' k then Some v else name_map_get rest k
  end.

Definition resolveManualColumn (field : string) : option string :=
  match name_map_get MANUAL_FIELD_NAME_MAP field with
  | Some column => Some column
  | None => if set_has MANUAL_EDITABLE_COLUMNS field then Some field else None
  end.

(** The object [coerceManualValue] returns; an absent [value] is
    [undefined], an absent [error] is [None]. *)
Record coerced := {
  shouldPersist : bool;
  value : jsval;
  error : option string;
}.

Definition persist (v : jsval) : coerced :=
  {| shouldPersist := true; value := v; error := None |}.

Definition coerceManualValue (column : string) (rawValue : jsval) : coerced :=
  match rawValue with
  | JUndefined =>
      {| shouldPersist := false; value := JUndefined; error := None |}
  | JNull => persist JNull
  | JStr s =>
      let trimmed := trim s in
      if String.eqb trimmed "" then persist JNull
      else if set_has MANUAL_NUMERIC_COLUMNS column then
        match Number_finite trimmed with
        | None =>
            {| shouldPersist := false; value := JUndefined;
               error := Some ("Invalid numeric value for " +:+ column) |}
        | Some numeric => persist (JNum numeric)
        end
      else persist (JStr trimmed)
  | JNum n =>
      if set_has MANUAL_NUMERIC_COLUMNS column then persist (JNum n)
      else persist (JStr (num_toString n))
  | JBool _ | JArr _ | JObj _ => persist rawValue
  end.

(** [String(rawLog)] for a truthy cell, the text [JSON.parse] reads. *)
Definition cell_text (c : cell) : string :=
  match c with
  | CNull => "null"
  | CText s => s
  | CNum n => num_toString n
  end.

(** [rawLog] is a column of a row object: [None] is [undefined]. *)
Definition parseManualLog (rawLog : option cell) : list jsval :=
  match rawLog with
  | None => []
  | Some c =>
      if negb (truthy (cell_to_js c)) then []
      else
        match JSON_parse (cell_text c) with
        | Some parsed =>
            match parsed with JArr entries => entries | _ => [] end
        | None => []
        end
  end.

(** One entry of the manual change log. *)
Record log_entry := {
  column : string;
  from : jsval;
  to : jsval;
  changedAt : string;
}.

Definition log_entry_js (e : log_entry) : jsval :=
  JObj [("column", JStr (column e)); ("from", from e); ("to", to e);
        ("changedAt", JStr (changedAt e))].

(** [obj[key] = value] on an object used as a record of parameters. *)
Fixpoint obj_set (key : string) (v : jsval) (obj : list (string * jsval))
  : list (string * jsval) :=
  match obj with
  | [] => [(key, v)]
  | (k, old) :: rest =>
      if String.eqb k key then (k, v) :: rest
      else (k, old) :: obj_set key v rest
  end.

(** The three accumulators of the loop over the entries. *)
Record scan := {
  changes : list log_entry;
  updatePayload : list (string * jsval);
  validationErrors : list string;
}.

(** [previousValue === undefined ? null : previousValue] *)
Definition normalizedPrevious_of (existingRow : gmap string cell)
  (columnName : string) : jsval :=
  match existingRow !! columnName with
  | None => JNull
  | Some stored => cell_to_js stored
  end.

Definition isSame (normalizedPrevious value : jsval) : bool :=
  if nullish normalizedPrevious && nullish value then true
  else strict_eq normalizedPrevious value.

Definition scan_entry (existingRow : gmap string cell) (timestamp : string)
  (st : scan) (entry : string * jsval) : scan :=
  let '(field, rawValue) := entry in
  match resolveManualColumn field with
  | None => st
  | Some columnName =>
      let c := coerceManualValue columnName rawValue in
      match error c with
      | Some e =>
          {| changes := changes st; updatePayload := updatePayload st;
             validationErrors := validationErrors st ++ [e] |}
      | None =>
          if negb (shouldPersist c) then st
          else
            let normalizedPrevious :=
              normalizedPrevious_of existingRow columnName in
            if isSame normalizedPrevious (value c) then st
            else
              {| changes := changes st ++
                   [{| column := columnName;
                       from := or_null normalizedPrevious;
                       to := or_null (value c);
                       changedAt := timestamp |}];
                 updatePayload := obj_set columnName (value c) (updatePayload st);
                 validationErrors := validationErrors st |}
      end
  end.

Definition scan_entries (existingRow : gmap string cell) (timestamp : string)
  (entries : list (string * jsval)) : scan :=
  fold_left (scan_entry existingRow timestamp) entries
    {| changes := []; updatePayload := []; validationErrors := [] |}.

(** The named parameters of a statement, bound one by one. *)
Fixpoint bind_all (params : list (string * jsval))
  : option (list (string * cell)) :=
  match params with
  | [] => Some []
  | (k, v) :: rest =>
      match bind_value v, bind_all rest with
      | Some c, Some bound => Some ((k, c) :: bound)
      | _, _ => None
      end
  end.

(** [name] is the one editable column the schema declares [NOT NULL]. *)
Definition violates_not_null (bound : list (string * cell)) : bool :=
  existsb (fun kc =>
    String.eqb (fst kc) "name" &&
    match snd kc with CNull => true | _ => false end) bound.

(** [SET c1 = @c1, ...] on a row *)
Definition set_columns (bound : list (string * cell)) (r : gmap string cell)
  : gmap string cell :=
  fold_left (fun acc kc => <[fst kc := snd kc]> acc) bound r.

(** [UPDATE companies SET c1 = @c1, ..., updated_at = CURRENT_TIMESTAMP]
    on one row.  It throws, and writes nothing, when the store refuses the
    statement, when a parameter cannot be bound, or when [name] would become
    null. *)
Definition run_company_update (e : env) (params : list (string * jsval))
  (r : gmap string cell) : js_error + gmap string cell :=
  if store_fault e 0%nat then inl (plain_error "SqliteError")
  else
    match bind_all params with
    | None =>
        inl (plain_error
          "SQLite3 can only bind numbers, strings, bigints, buffers, and null")
    | Some bound =>
        if violates_not_null bound
        then inl (plain_error "NOT NULL constraint failed: companies.name")
        else inr (<["updated_at" := CText (sql_now e)]> (set_columns bound r))
    end.

(** The object [applyManualCompanyUpdates] returns; [changes] is absent
    from the no-change response. *)
Record company_response := {
  updated : bool;
  response_changes : option (list log_entry);
  manualChangeLog : list jsval;
  response_message : string;
}.

(** [companyId] is given as [Number(companyId)] when that is an integer,
    and as [None] when [Number.isInteger] rejects it. *)
Definition applyManualCompanyUpdates (d : db) (e : env)
  (companyId : option Z) (updates : jsval)
  : outcome company_response * db :=
  match companyId with
  | None => (Threw (plain_error "Valid companyId is required"), d)
  | Some numericId =>
    if negb (truthy updates) || negb (String.eqb (typeof updates) "object")
       || Array_isArray updates
    then (Threw (plain_error "updates payload must be an object"), d)
    else
      match companies d !! numericId with
      | None => (Threw (status_error "Company not found" 404), d)
      | Some existingRow =>
        let timestamp := js_now e in
        let st := scan_entries existingRow timestamp (Object_entries updates) in
        if negb (length (validationErrors st) =? 0)%nat then
          (Threw (status_error (join "; " (validationErrors st)) 400), d)
        else if (length (updatePayload st) =? 0)%nat then
          (Returned
             {| updated := false;
                response_changes := None;
                manualChangeLog :=
                  parseManualLog (existingRow !! "manual_change_log");
                response_message := "No changes detected" |}, d)
        else
          let baseLog := parseManualLog (existingRow !! "manual_change_log") in
          let updatedLog := baseLog ++ map log_entry_js (changes st) in
          let params :=
            obj_set "manual_change_log"
              (JStr (JSON_stringify (JArr updatedLog))) (updatePayload st) in
          match run_company_update e params existingRow with
          | inl err => (Threw err, d)
          | inr newRow =>
            (Returned
               {| updated := true;
                  response_changes := Some (changes st);
                  manualChangeLog := updatedLog;
                  response_message :=
                    pretty (length (changes st)) +:+ " field(s) updated" |},
             {| companies := <[numericId := newRow]> (companies d);
                company_cases := company_cases d;
                investor_reports := investor_reports d;
                investor_report_changes := investor_report_changes d |})
          end
      end
  end.

(** ** Queries of the store *)

(** A sort that keeps the order of entries neither of which has to come
    first, as [Array.prototype.sort] and an [ORDER BY] over rowid order do:
    [precedes y x] says that [y] has to come before [x]. *)
Fixpoint insert_sorted {A} (precedes : A → A → bool) (x : A) (l : list A)
  : list A :=
  match l with
  | [] => [x]
  | y :: rest =>
      if precedes y x then y :: insert_sorted precedes x rest
      else x :: y :: rest
  end.

Definition stable_sort {A} (precedes : A → A → bool) (l : list A) : list A :=
  fold_right (insert_sorted precedes) [] l.

(** [ORDER BY key DESC] on a text column *)
Definition order_by_desc {A} (key : A → string) (rows : list A) : list A :=
  stable_sort (fun y x => String.ltb (key x) (key y)) rows.

(** A row of the change log of a report as the module returns it. *)
Record change_view := {
  view_jsonPath : string;
  view_fromValue : string;
  view_toValue : string;
  view_changedAt : string;
}.

Definition selectInvestorReportChanges (d : db) (reportId : Z)
  : list change_view :=
  map (fun row =>
         {| view_jsonPath := json_path row;
            view_fromValue := from_value row;
            view_toValue := to_value row;
            view_changedAt := changed_at row |})
    (order_by_desc changed_at
       (filter (fun row => report_id row = reportId)
          (investor_report_changes d))).

(** [selectInvestorReportByIdStmt.get(id)] *)
Definition selectInvestorReportById (d : db) (id : Z) : option report_record :=
  find (fun r => Z.eqb (ir_id r) id) (investor_reports d).

(** The report with a new payload. *)
Definition with_recommendation (r : report_record) (text : string)
  : report_record :=
  {| ir_id := ir_id r;
     ir_company_id := ir_company_id r;
     ir_company_name := ir_company_name r;
     ir_recommendation := text;
     ir_created_at := ir_created_at r |}.

(** [updateInvestorReportStmt.run], a statement of its own: it commits as
    soon as it has run. *)
Definition run_report_update (e : env) (id : Z) (text : string) (d : db)
  : js_error + db :=
  if store_fault e 0%nat then inl (plain_error "SqliteError")
  else
    inr {| companies := companies d;
           company_cases := company_cases d;
           investor_reports :=
             map (fun r =>
                    if Z.eqb (ir_id r) id then with_recommendation r text
                    else r) (investor_reports d);
           investor_report_changes := investor_report_changes d |}.

(** The body of [insertMany]: one [insertInvestorReportChangeStmt.run] per
    item, the statements counted from [k]. *)
Fixpoint insert_changes (e : env) (id : Z) (k : nat)
  (items : list report_change) (rows : list change_record)
  : js_error + list change_record :=
  match items with
  | [] => inr rows
  | change :: rest =>
      if store_fault e k then inl (plain_error "SqliteError")
      else
        insert_changes e id (S k) rest
          (rows ++ [{| report_id := id;
                       json_path := jsonPath change;
                       from_value := fromValue change;
                       to_value := toValue change;
                       changed_at := sql_now e |}])
  end.

(** [db.transaction(fn)(items)]: when [fn] throws, the rows it inserted
    are rolled back and the exception goes on to the caller. *)
Definition insertMany (e : env) (id : Z) (items : list report_change) (d : db)
  : js_error + db :=
  match insert_changes e id 1%nat items (investor_report_changes d) with
  | inl err => inl err
  | inr rows =>
      inr {| companies := companies d;
             company_cases := company_cases d;
             investor_reports := investor_reports d;
             investor_report_changes := rows |}
  end.

(** ** Manual investor report update engine *)

(** The object [applyManualInvestorReportUpdates] returns; [changes] is
    absent from the no-change response and [message] from the other. *)
Record report_response := {
  report_updated : bool;
  report_changes : option (list report_change);
  report_message : option string;
  report_manualChangeLog : list change_view;
  report_recommendation : jsval;
}.

(** [reportId] is given as [Number(reportId)], like [companyId] above. *)
Definition applyManualInvestorReportUpdates (d : db) (e : env)
  (reportId : option Z) (recommendation : jsval)
  : outcome report_response * db :=
  match reportId with
  | None => (Threw (plain_error "Valid reportId is required"), d)
  | Some numericId =>
    if negb (truthy recommendation)
       || negb (String.eqb (typeof recommendation) "object")
    then (Threw (plain_error "recommendation payload must be an object"), d)
    else
      match selectInvestorReportById d numericId with
      | None => (Threw (status_error "Investor report not found" 404), d)
      | Some existing =>
        let parsedExisting :=
          match JSON_parse (ir_recommendation existing) with
          | Some parsed => parsed
          | None => JObj []
          end in
        let changes := diffRecommendationPayloads parsedExisting recommendation in
        if (length changes =? 0)%nat then
          (Returned
             {| report_updated := false;
                report_changes := None;
                report_message := Some "No changes detected";
                report_manualChangeLog := selectInvestorReportChanges d numericId;
                report_recommendation := parsedExisting |}, d)
        else
          let updateRecommendation := JSON_stringify recommendation in
          match run_report_update e numericId updateRecommendation d with
          | inl err => (Threw err, d)
          | inr updatedDb =>
            match insertMany e numericId changes updatedDb with
            | inl err => (Threw err, updatedDb)
            | inr finalDb =>
              (Returned
                 {| report_updated := true;
                    report_changes := Some changes;
                    report_message := None;
                    report_manualChangeLog :=
                      selectInvestorReportChanges finalDb numericId;
                    report_recommendation := recommendation |}, finalDb)
            end
          end
      end
  end.

(** ** History feed assembler *)

(** [ORDER BY key DESC] answered by walking an index on the column
    backwards: of two rows with one key the one inserted last comes
    first. *)
Definition index_backwards {A} (key : A → string) (rows : list A) : list A :=
  order_by_desc key (rev rows).

(** A row of [selectRecentCasesStmt]: a case joined with its company.  The
    cases are read off [idx_company_cases_created_at], which serves the
    [ORDER BY]; the reports and the change rows have no such index and are
    sorted, which keeps rows of one time in rowid order. *)
Definition selectRecentCases (d : db) (limit : Z)
  : list (case_record * gmap string cell) :=
  take (Z.to_nat limit)
    (index_backwards (fun row => case_created_at (fst row))
       (omap (fun cc =>
                match companies d !! case_company_id cc with
                | Some c => Some (cc, c)
                | None => None
                end) (company_cases d))).

Definition selectRecentInvestorReports (d : db) (limit : Z)
  : list report_record :=
  take (Z.to_nat limit) (order_by_desc ir_created_at (investor_reports d)).

(** A selected column of a company: a column the row does not list is
    SQL NULL. *)
Definition company_column (c : gmap string cell) (name : string) : jsval :=
  cell_to_js (default CNull (c !! name)).

(** [a || b] *)
Definition js_or (a b : jsval) : jsval := if truthy a then a else b.

Definition shapeMetricsFromRow (row : case_record * gmap string cell) : jsval :=
  let c := snd row in
  JObj [
    ("name", company_column c "name");
    ("business_id", company_column c "business_id");
    ("website_url", company_column c "website_url");
    ("country", company_column c "country");
    ("city", company_column c "city");
    ("industry_code", company_column c "industry_code");
    ("industry_text", company_column c "industry_text");
    ("employee_count", company_column c "employee_count");
    ("employee_range", company_column c "employee_range");
    ("revenue_eur", company_column c "revenue_eur");
    ("revenue_range", company_column c "revenue_range");
    ("stage", company_column c "stage");
    ("funding_need_type_guess", company_column c "funding_need_type");
    ("funding_need_min_eur_guess", company_column c "funding_need_min_eur");
    ("funding_need_max_eur_guess", company_column c "funding_need_max_eur");
    ("funding_need_summary_guess", company_column c "funding_need_summary");
    ("description", company_column c "description");
    ("summary",
       js_or (cell_to_js (company_summary_text (fst row)))
         (js_or (company_column c "description") JNull))
  ].

(** An entry of the feed.  The fields the two kinds share are [entryType],
    [companyId], [companyName], [createdAt] and [manualChangeLog]; an entry
    of a case has [caseId], [summary] and [metrics], an entry of a report has
    [reportId] and [investmentReport]. *)
Inductive entry_body :=
| CaseBody (caseId : Z) (summary : jsval) (metrics : jsval)
    (manualChangeLog : list jsval)
| ReportBody (reportId : Z) (investmentReport : jsval)
    (manualChangeLog : list change_view).

Record history_entry := {
  entryType : string;
  companyId : Z;
  companyName : jsval;
  createdAt : string;
  body : entry_body;
}.

(** The comparator handed to [sort], [None] where the subtraction is
    [NaN]. *)
Definition compare_createdAt (a b : history_entry) : option Z :=
  match Date_getTime (createdAt b), Date_getTime (createdAt a) with
  | Some tb, Some ta => Some (tb - ta)
  | _, _ => None
  end.

(** [Array.prototype.sort] with a comparator: a [NaN] counts as 0, and
    [y] has to come before [x] when the comparator is positive at [x], [y]. *)
Definition Array_sort {A} (comparator : A → A → option Z) (l : list A)
  : list A :=
  stable_sort (fun y x => 0 <? default 0 (comparator x y)) l.

(** [limit] is the argument as passed, [JUndefined] an absent one, which
    the default 20 replaces; 20 is finite and its own floor. *)
Definition safeLimit_of (limit : jsval) : Z :=
  match limit with
  | JUndefined => Z.min (Z.max 20 1) 100
  | JNum n => Z.min (Z.max (num_floor n) 1) 100
  | _ => 20
  end.

(** The entry [caseRows.map] makes of a row. *)
Definition case_entry (row : case_record * gmap string cell) : history_entry :=
  {| entryType := "lookup";
     companyId := case_company_id (fst row);
     companyName := company_column (snd row) "name";
     createdAt := case_created_at (fst row);
     body :=
       CaseBody (case_id (fst row))
         (cell_to_js (company_summary_text (fst row)))
         (shapeMetricsFromRow row)
         (parseManualLog
            (Some (default CNull (snd row !! "manual_change_log")))) |}.

(** The entry [reportRows.map] makes of a row. *)
Definition report_entry (d : db) (row : report_record) : history_entry :=
  let recommendation :=
    match JSON_parse (ir_recommendation row) with
    | Some parsed => parsed
    | None => JNull
    end in
  {| entryType := "investment_report";
     companyId := ir_company_id row;
     companyName := JStr (ir_company_name row);
     createdAt := ir_created_at row;
     body :=
       ReportBody (ir_id row) recommendation
         (selectInvestorReportChanges d (ir_id row)) |}.

Definition getRecentCompanyHistory (d : db) (limit : jsval)
  : list history_entry :=
  let safeLimit := safeLimit_of limit in
  let caseRows := selectRecentCases d safeLimit in
  let reportRows := selectRecentInvestorReports d safeLimit in
  let mappedCases := map case_entry caseRows in
  let mappedReports := map (report_entry d) reportRows in
  let combined := mappedCases ++ mappedReports in
  take (Z.to_nat safeLimit) (Array_sort compare_createdAt combined).

(** ** Vocabulary of the properties *)

(** [obj[key]], [None] for a key the object does not have. *)
Fixpoint obj_get (obj : list (string * jsval)) (key : string) : option jsval :=
  match obj with
  | [] => None
  | (k, v) :: rest => if String.eqb k key then Some v else obj_get rest key
  end.

Fixpoint cell_get (bound : list (string * cell)) (key : string) : option cell :=
  match bound with
  | [] => None
  | (k, c) :: rest => if String.eqb k key then Some c else cell_get rest key
  end.

(** The message an entry of the request adds to the validation errors. *)
Definition entry_error (entry : string * jsval) : option string :=
  match resolveManualColumn (fst entry) with
  | Some columnName => error (coerceManualValue columnName (snd entry))
  | None => None
  end.

(** The column and value an entry asks to persist: its key resolves, its
    value is valid and is not [undefined]. *)
Definition entry_request (entry : string * jsval) : option (string * jsval) :=
  match resolveManualColumn (fst entry) with
  | Some columnName =>
      let c := coerceManualValue columnName (snd entry) in
      match error c with
      | Some _ => None
      | None => if shouldPersist c then Some (columnName, value c) else None
      end
  | None => None
  end.

(** The request of an entry when it differs from what the row holds. *)
Definition entry_change (existingRow : gmap string cell)
  (entry : string * jsval) : option (string * jsval) :=
  match entry_request entry with
  | Some (columnName, v) =>
      if isSame (normalizedPrevious_of existingRow columnName) v then None
      else Some (columnName, v)
  | None => None
  end.

(** The columns the keys of a request resolve to, one per resolving key. *)
Definition resolved_columns (entries : list (string * jsval)) : list string :=
  omap (fun entry => resolveManualColumn (fst entry)) entries.

(** The message of a string that is not blank and is no finite number, sent
    to a numeric column. *)
Definition offending_message (entry : string * jsval) : option string :=
  match resolveManualColumn (fst entry), snd entry with
  | Some columnName, JStr s =>
      if set_has MANUAL_NUMERIC_COLUMNS columnName
         && negb (String.eqb (trim s) "")
         && bool_decide (Number_finite (trim s) = None)
      then Some ("Invalid numeric value for " +:+ columnName)
      else None
  | _, _ => None
  end.




(** Whether a call reported a change, [None] when it threw. *)
Definition reported_update (o : outcome company_response) : option bool :=
  match o with
  | Returned r => Some (updated r)
  | Threw _ => None
  end.

(** What a column of a company holds. *)
Definition stored (d : db) (id : Z) (columnName : string) : option cell :=
  companies d !! id ≫= (fun row => row !! columnName).



(** [a] was created no earlier than [b]. *)
Definition newer_or_same (a b : history_entry) : Prop :=
  ∃ ta tb, Date_getTime (createdAt a) = Some ta
           ∧ Date_getTime (createdAt b) = Some tb ∧ tb ≤ ta.

(** A value JSON can carry: no [undefined] in it, no key twice. *)
Fixpoint json_value (v : jsval) : bool :=
  match v with
  | JUndefined => false
  | JNull | JBool _ | JNum _ | JStr _ => true
  | JArr items => forallb json_value items
  | JObj props =>
      forallb (fun kv => json_value (snd kv)) props
      && bool_decide (NoDup (map fst props))
  end.

(** The value the loop leaves in the payload for a column: that of the
    last entry that changes the column. *)
Fixpoint written (row : gmap string cell) (entries : list (string * jsval))
  (columnName : string) : option jsval :=
  match entries with
  | [] => None
  | entry :: rest =>
      match written row rest columnName with
      | Some v => Some v
      | None =>
          match entry_change row entry with
          | Some (c, v) => if String.eqb c columnName then Some v else None
          | None => None
          end
      end
  end.

(** An entry the loop passes over: its key resolves to no column, or its
    value is [undefined]. *)
Definition passed_over (entry : string * jsval) : bool :=
  match resolveManualColumn (fst entry) with
  | None => true
  | Some _ => match snd entry with JUndefined => true | _ => false end
  end.

(** The request without the entries the loop passes over. *)
Definition effective_entries (updates : jsval) : jsval :=
  match updates with
  | JObj props => JObj (filter (fun entry => negb (passed_over entry)) props)
  | _ => updates
  end.

(** A row of the diff read backwards. *)
Definition reversed (row : report_change) : report_change :=
  {| jsonPath := jsonPath row;
     fromValue := toValue row;
     toValue := fromValue row |}.

(** The row [insertInvestorReportChangeStmt] writes for a row of the diff. *)
Definition change_row (e : env) (id : Z) (change : report_change)
  : change_record :=
  {| report_id := id;
     json_path := jsonPath change;
     from_value := fromValue change;
     to_value := toValue change;
     changed_at := sql_now e |}.

(** A row of the diff as the change log of the report shows it. *)
Definition change_shown (e : env) (change : report_change) : change_view :=
  {| view_jsonPath := jsonPath change;
     view_fromValue := fromValue change;
     view_toValue := toValue change;
     view_changedAt := sql_now e |}.

(** The cases the feed can show, each with its company: the inner join of
    [selectRecentCasesStmt], in rowid order. *)
Definition joined_cases (d : db) : list (case_record * gmap string cell) :=
  omap (fun cc =>
          match companies d !! case_company_id cc with
          | Some c => Some (cc, c)
          | None => None
          end) (company_cases d).

(** Every entry the store has for the feed. *)
Definition all_entries (d : db) : list history_entry :=
  map case_entry (joined_cases d) ++ map (report_entry d) (investor_reports d).

(** The creation stamps of the cases and the reports. *)
Definition stamps (d : db) : list string :=
  map case_created_at (company_cases d) ++ map ir_created_at (investor_reports d).

(** The stamps are dates, and a stamp that is not before another as a text
    is not before it as a date: what holds of stamps written by
    [CURRENT_TIMESTAMP]. *)
Definition chronological (texts : list string) : bool :=
  forallb (fun a =>
    forallb (fun b =>
      match Date_getTime a, Date_getTime b with
      | Some ta, Some tb => implb (negb (String.ltb a b)) (tb <=? ta)
      | _, _ => false
      end) texts) texts.

(** The time of a stamp that is a date. *)
Definition time_of (stamp : string) : Z := default 0 (Date_getTime stamp).

(** [top] holds the [n] latest of [rows]: with some rows left out it makes
    up [rows], it has [n] rows, or all of them when there are fewer, and
    each of its rows is at least as new as each row left out. *)
Definition latest_of {A} (newer : A → A → Prop) (n : nat) (top rows : list A)
  : Prop :=
  ∃ left_out,
    rows ≡ₚ top ++ left_out
    ∧ length top = (n `min` length rows)%nat
    ∧ ∀ shown old, shown ∈ top → old ∈ left_out → newer shown old.

(** No stamp of [texts] is after [now], as a text or as a date. *)
Definition none_after (now : string) (texts : list string) : bool :=
  forallb (fun stamp =>
    negb (String.ltb now stamp)
    && match Date_getTime stamp, Date_getTime now with
       | Some t, Some t_now => t <=? t_now
       | _, _ => false
       end) texts.

(** Every stamp of [texts] is before [now], as a text and as a date. *)
Definition all_before (now : string) (texts : list string) : bool :=
  forallb (fun stamp =>
    String.ltb stamp now
    && match Date_getTime stamp, Date_getTime now with
       | Some t, Some t_now => t <? t_now
       | _, _ => false
       end) texts.

End Store.

(** What the module relies on of [JSON.parse] and [JSON.stringify]: a
    parsed text is a JSON value, and the text of a JSON value parses back
    to it. *)
Class JsonLaws `{JsRuntime} `{!JsonParser} := {
  JSON_parse_json_value :
    ∀ s v, JSON_parse s = Some v → json_value v = true;
  JSON_parse_stringify :
    ∀ v, json_value v = true → JSON_parse (JSON_stringify v) = Some v;
}.

(** ** Recording lookups, cases and reports *)

(** What SQLite does to a value on its way into a column: a number that
    goes into a [TEXT] column is stored as its text, and a text that goes
    into an [INTEGER] or [REAL] column is stored as the number it spells,
    when it spells one. *)
Class SqliteAffinity `{JsRuntime} := {
  sql_text : num → string;
  sql_number : string → option num;
}.

Section Recording.
Context `{JsRuntime} `{!JsonParser} `{!SqliteAffinity}.

(** *** The tables nothing reads *)

(** A literal of the source in a row that is written and never read. *)
Inductive literal :=
| LNull
| LText (s : string)
| LNumber (source : string).

(** An item of [insertDemoRecommendations], and the row of
    [recommendations] it becomes. *)
Record recommendation_item := {
  item_case_id : Z;
  item_fields : list (string * literal);
}.

Record recommendation_row := {
  rec_item : recommendation_item;
  rec_created_at : string;
}.

(** A row of [history]. *)
Record history_row := {
  hist_company_id : Z;
  hist_case_id : Z;
  hist_action : string;
  hist_created_at : string;
}.

(** The whole database: the tables of the engines and the two tables that
    are only written. *)
Record database := {
  tables : db;
  recommendation_rows : list recommendation_row;
  history_rows : list history_row;
}.

Definition with_tables (s : database) (d : db) : database :=
  {| tables := d;
     recommendation_rows := recommendation_rows s;
     history_rows := history_rows s |}.

(** *** Calls that run several statements *)

(** A piece of a call: it reads the clocks, runs statements, the [k]
    statements the call has run before it being counted, and returns or
    throws. *)
Definition step (A : Type) : Type :=
  env → nat → database → outcome A * nat * database.

#[export] Instance step_ret : MRet step :=
  fun A a _ k s => (Returned a, k, s).

#[export] Instance step_bind : MBind step :=
  fun A B f m e k s =>
    match m e k s with
    | (Returned a, k', s') => f a e k' s'
    | (Threw err, k', s') => (Threw err, k', s')
    end.

(** A [get] or [all] of a prepared statement that reads. *)
Definition query {A} (read : database → A) : step A :=
  fun _ k s => (Returned (read s), k, s).

(** A [run] of a prepared statement that writes: the store may refuse it,
    and the statement itself may throw; either way nothing is written. *)
Definition statement {A} (run : env → database → js_error + A * database)
  : step A :=
  fun e k s =>
    if store_fault e k then (Threw (plain_error "SqliteError"), S k, s)
    else
      match run e s with
      | inl err => (Threw err, S k, s)
      | inr (a, s') => (Returned a, S k, s')
      end.

(** [db.transaction(fn)(...)]: when [fn] throws, what it wrote is rolled
    back and the exception goes on to the caller. *)
Definition transaction {A} (m : step A) : step A :=
  fun e k s =>
    match m e k s with
    | (Threw err, k', _) => (Threw err, k', s)
    | returned => returned
    end.

(** An exported function called on a database. *)
Definition call {A} (m : step A) (e : env) (s : database)
  : outcome A * database :=
  match m e 0%nat s with (o, _, s') => (o, s') end.

Definition bind_error : js_error :=
  plain_error
    "SQLite3 can only bind numbers, strings, bigints, buffers, and null".

(** [lastInsertRowid] of an insertion into an [AUTOINCREMENT] table: one
    more than the largest id the table has had.  No statement of the module
    deletes a row, so that is the largest id the table has. *)
Definition next_rowid (ids : list Z) : Z := 1 + foldr Z.max 0 ids.

(** *** Companies *)

Definition has_name (name : string) (row : gmap string cell) : bool :=
  match row !! "name" with
  | Some (CText s) => String.eqb s name
  | _ => false
  end.

(** The ids of the companies with a name. *)
Definition companies_named (d : db) (name : string) : list Z :=
  map fst (filter (fun entry => has_name name (snd entry))
             (map_to_list (companies d))).

(** [selectCompanyByNameStmt.get(name)]: the first row of the index on
    [name], the one with the least id. *)
Definition selectCompanyByName (d : db) (name : string) : option Z :=
  foldr (fun id found =>
           match found with
           | Some least => Some (Z.min id least)
           | None => Some id
           end) None (companies_named d name).

(** The row [insertCompanyStmt] makes: the columns without a default are
    [NULL]. *)
Definition new_company (e : env) (name : string) : gmap string cell :=
  list_to_map [
    ("name", CText name); ("country", CText "FI");
    ("created_at", CText (sql_now e)); ("updated_at", CText (sql_now e))
  ].

Definition insertCompany (name : string) : step Z :=
  statement (fun e s =>
    let d := tables s in
    let id := next_rowid (map fst (map_to_list (companies d))) in
    inr (id,
         with_tables s
           {| companies := <[id := new_company e name]> (companies d);
              company_cases := company_cases d;
              investor_reports := investor_reports d;
              investor_report_changes := investor_report_changes d |})).

Definition getOrCreateCompanyIdByName (name : string) : step Z :=
  let trimmed := trim name in
  existing ← query (fun s => selectCompanyByName (tables s) trimmed);
  match existing with
  | Some id => mret id
  | None => insertCompany trimmed
  end.

(** [obj[key]] of a value that passed the object checks: an array has none
    of the keys the module asks for. *)
Definition get_property (obj : jsval) (key : string) : jsval :=
  match obj with
  | JObj props => default JUndefined (obj_get props key)
  | _ => JUndefined
  end.

(** The columns [updateCompanyFromMetricsStmt] sets, each with the key of
    the metrics it is read from. *)
Definition METRIC_COLUMNS : list (string * string) := [
  ("business_id", "business_id");
  ("website_url", "website_url");
  ("country", "country");
  ("city", "city");
  ("industry_code", "industry_code");
  ("industry_text", "industry_text");
  ("employee_count", "employee_count");
  ("employee_range", "employee_range");
  ("revenue_eur", "revenue_eur");
  ("revenue_range", "revenue_range");
  ("stage", "stage");
  ("funding_need_type", "funding_need_type_guess");
  ("funding_need_min_eur", "funding_need_min_eur_guess");
  ("funding_need_max_eur", "funding_need_max_eur_guess");
  ("funding_need_summary", "funding_need_summary_guess");
  ("description", "description")
].

(** The [payload] of [updateCompanyWithMetrics], without its [id]. *)
Definition metrics_payload (metrics : jsval) : list (string * jsval) :=
  map (fun ck => (fst ck, or_null (get_property metrics (snd ck))))
    METRIC_COLUMNS.

(** The columns of [companies] the schema declares [INTEGER] or [REAL]. *)
Definition NUMBER_COLUMNS : list string := [
  "employee_count"; "revenue_eur"; "funding_need_min_eur";
  "funding_need_max_eur"
].

Definition text_affinity (c : cell) : cell :=
  match c with
  | CNum n => CText (sql_text n)
  | _ => c
  end.

Definition number_affinity (c : cell) : cell :=
  match c with
  | CText s =>
      match sql_number s with
      | Some n => CNum n
      | None => c
      end
  | _ => c
  end.

Definition column_affinity (columnName : string) (c : cell) : cell :=
  if set_has NUMBER_COLUMNS columnName then number_affinity c
  else text_affinity c.

(** [SET c1 = COALESCE(@c1, c1), ...] on a row: a parameter that is
    [NULL] leaves the column as it is. *)
Definition coalesce_columns (bound : list (string * cell))
  (r : gmap string cell) : gmap string cell :=
  fold_left (fun acc kc =>
               match snd kc with
               | CNull => acc
               | c => <[fst kc := column_affinity (fst kc) c]> acc
               end) bound r.

Definition updateCompanyWithMetrics (companyId : Z) (metrics : jsval)
  : step unit :=
  if negb (truthy metrics) || negb (String.eqb (typeof metrics) "object")
  then mret tt
  else
    statement (fun e s =>
      match bind_all (metrics_payload metrics) with
      | None => inl bind_error
      | Some bound =>
          let d := tables s in
          inr (tt,
               with_tables s
                 {| companies :=
                      alter (fun r =>
                               <["updated_at" := CText (sql_now e)]>
                                 (coalesce_columns bound r))
                        companyId (companies d);
                    company_cases := company_cases d;
                    investor_reports := investor_reports d;
                    investor_report_changes := investor_report_changes d |})
      end).

(** *** History and reports *)

Definition recordHistory (companyId caseId : Z) (action : string)
  : step unit :=
  statement (fun e s =>
    inr (tt,
         {| tables := tables s;
            recommendation_rows := recommendation_rows s;
            history_rows :=
              history_rows s ++
              [{| hist_company_id := companyId;
                  hist_case_id := caseId;
                  hist_action := action;
                  hist_created_at := sql_now e |}] |})).

(** [companyId] is the integer the store reads the id as, [companyName] a
    string, as at the call site.  [JSON.stringify(undefined)] is
    [undefined], which is bound as [NULL], and the column is declared
    [NOT NULL]. *)
Definition recordInvestorReport (companyId : Z) (companyName : string)
  (recommendation : jsval) : step unit :=
  statement (fun e s =>
    match recommendation with
    | JUndefined =>
        inl (plain_error
               "NOT NULL constraint failed: investor_reports.recommendation")
    | _ =>
        let d := tables s in
        inr (tt,
             with_tables s
               {| companies := companies d;
                  company_cases := company_cases d;
                  investor_reports :=
                    investor_reports d ++
                    [{| ir_id := next_rowid (map ir_id (investor_reports d));
                        ir_company_id := companyId;
                        ir_company_name := companyName;
                        ir_recommendation := JSON_stringify recommendation;
                        ir_created_at := sql_now e |}];
                  investor_report_changes := investor_report_changes d |})
    end).

(** *** Demo recommendations *)

Definition demo_funding_program (caseId : Z) : recommendation_item :=
  {| item_case_id := caseId;
     item_fields := [
       ("kind", LText "funding_program");
       ("name", LText "Example public R&D funding programme (demo)");
       ("provider", LText "Business Finland (demo)");
       ("url", LText "https://www.businessfinland.fi/");
       ("stage_match", LNull);
       ("funding_type", LText "grant");
       ("instrument_category", LText "national");
       ("min_amount_eur", LNumber "50000");
       ("max_amount_eur", LNumber "500000");
       ("geography_focus", LText "FI");
       ("sector_focus", LText "general innovation");
       ("score", LNumber "0.8");
       ("rank", LNumber "1");
       ("explanation_text",
        LText "Demo recommendation: in the real system this would represent a specific public funding instrument that matches the company profile.");
       ("raw_metadata_json", LNull)
     ] |}.

Definition demo_investor (caseId : Z) : recommendation_item :=
  {| item_case_id := caseId;
     item_fields := [
       ("kind", LText "investor");
       ("name", LText "Example Nordic VC fund (demo)");
       ("provider", LText "Demo Capital Partners");
       ("url", LText "https://example-vc.demo/");
       ("stage_match", LText "seed");
       ("funding_type", LText "equity");
       ("instrument_category", LText "private");
       ("min_amount_eur", LNumber "250000");
       ("max_amount_eur", LNumber "2000000");
       ("geography_focus", LText "Nordic");
       ("sector_focus", LText "technology, digital");
       ("score", LNumber "0.75");
       ("rank", LNumber "2");
       ("explanation_text",
        LText "Demo investor recommendation: in the real system, investors would be filtered and ranked based on stage, ticket size and sector focus.");
       ("raw_metadata_json", LNull)
     ] |}.

Definition insertRecommendation (item : recommendation_item) : step unit :=
  statement (fun e s =>
    inr (tt,
         {| tables := tables s;
            recommendation_rows :=
              recommendation_rows s ++
              [{| rec_item := item; rec_created_at := sql_now e |}];
            history_rows := history_rows s |})).

(** The loop of [insertMany] over the items. *)
Fixpoint insert_recommendations (items : list recommendation_item)
  : step unit :=
  match items with
  | [] => mret tt
  | item :: rest =>
      _ ← insertRecommendation item;
      insert_recommendations rest
  end.

Definition insertDemoRecommendations (caseId : Z) (type : string)
  : step unit :=
  let isDetailed := String.eqb type "detailed" in
  let recommendations :=
    [demo_funding_program caseId]
    ++ (if isDetailed then [demo_investor caseId] else []) in
  transaction (insert_recommendations recommendations).

(** *** Cases *)

(** [insertCaseStmt.run(caseInfo)]: [caseInfo] without its [company_id],
    which is a row id.  Of the columns it writes the model keeps those that
    are read. *)
Definition insertCase (companyId : Z) (caseInfo : list (string * jsval))
  : step Z :=
  statement (fun e s =>
    match bind_all caseInfo with
    | None => inl bind_error
    | Some bound =>
        let d := tables s in
        let id := next_rowid (map case_id (company_cases d)) in
        inr (id,
             with_tables s
               {| companies := companies d;
                  company_cases :=
                    company_cases d ++
                    [{| case_id := id;
                        case_company_id := companyId;
                        company_summary_text :=
                          text_affinity
                            (default CNull
                               (cell_get bound "company_summary_text"));
                        case_created_at := sql_now e |}];
                  investor_reports := investor_reports d;
                  investor_report_changes := investor_report_changes d |})
    end).

(** The [caseInfo] of the two functions below. *)
Definition case_info (title : string) (details rawInput summary : jsval)
  : list (string * jsval) := [
  ("case_title", JStr title);
  ("stage", JNull);
  ("funding_need_type", JNull);
  ("funding_need_min_eur", JNull);
  ("funding_need_max_eur", JNull);
  ("funding_need_details", details);
  ("extra_input_json",
   if truthy rawInput then JStr (JSON_stringify rawInput) else JNull);
  ("company_summary_text", summary)
].

(** The fields of the argument are given one by one; [companyName] is a
    string, as at the call sites. *)
Definition recordBasicCase (companyName : string)
  (summary metrics rawInput : jsval) : step (Z * Z) :=
  companyId ← getOrCreateCompanyIdByName companyName;
  _ ← updateCompanyWithMetrics companyId metrics;
  caseId ← insertCase companyId
             (case_info "Quick lookup" JNull rawInput summary);
  _ ← insertDemoRecommendations caseId "basic";
  _ ← recordHistory companyId caseId "summary-basic";
  mret (companyId, caseId).

Definition recordDetailedCase (companyName : string)
  (summary metrics extraInfo rawInput : jsval) : step (Z * Z) :=
  companyId ← getOrCreateCompanyIdByName companyName;
  _ ← updateCompanyWithMetrics companyId metrics;
  caseId ← insertCase companyId
             (case_info "Detailed profile" (js_or extraInfo JNull) rawInput
                summary);
  _ ← insertDemoRecommendations caseId "detailed";
  _ ← recordHistory companyId caseId "summary-detailed";
  mret (companyId, caseId).

(** *** The profile of a company *)

(** The object [getCompanyProfileById] returns; [createdAt] is [None] for
    the [NULL] of a company without a case. *)
Record profile := {
  profile_companyId : Z;
  profile_createdAt : option string;
  profile_metrics : jsval;
}.

(** The case the [LEFT JOIN] keeps: [ORDER BY cc.created_at DESC LIMIT 1]
    over the cases of the company. *)
Definition latest_case (d : db) (companyId : Z) : option case_record :=
  head (order_by_desc case_created_at
          (filter (fun cc => case_company_id cc = companyId)
             (company_cases d))).

(** The columns of [company_cases] in the row of a company without a case,
    all [NULL], as far as [shapeMetricsFromRow] reads them. *)
Definition no_case (companyId : Z) : case_record :=
  {| case_id := 0;
     case_company_id := companyId;
     company_summary_text := CNull;
     case_created_at := "" |}.

Definition getCompanyProfileById (d : db) (companyId : Z) : option profile :=
  match companies d !! companyId with
  | None => None
  | Some c =>
      let latest := latest_case d companyId in
      Some {| profile_companyId := companyId;
              profile_createdAt := case_created_at <$> latest;
              profile_metrics :=
                shapeMetricsFromRow (default (no_case companyId) latest, c) |}
  end.

(** *** Vocabulary of the properties *)

(** The steps [recordBasicCase] and [recordDetailedCase] have in common. *)
Definition record_steps (title : string) (details : jsval)
  (type action : string) (companyName : string)
  (summary metrics rawInput : jsval) : step (Z * Z) :=
  companyId ← getOrCreateCompanyIdByName companyName;
  _ ← updateCompanyWithMetrics companyId metrics;
  caseId ← insertCase companyId (case_info title details rawInput summary);
  _ ← insertDemoRecommendations caseId type;
  _ ← recordHistory companyId caseId action;
  mret (companyId, caseId).

(** A lookup of either kind. *)
Definition record_case (detailed : bool) (companyName : string)
  (summary metrics extraInfo rawInput : jsval) : step (Z * Z) :=
  if detailed
  then recordDetailedCase companyName summary metrics extraInfo rawInput
  else recordBasicCase companyName summary metrics rawInput.

(** The rows a lookup adds to [recommendations] and to [history]. *)
Definition demo_rows (detailed : bool) (e : env) (caseId : Z)
  : list recommendation_row :=
  map (fun item => {| rec_item := item; rec_created_at := sql_now e |})
    ([demo_funding_program caseId]
     ++ (if detailed then [demo_investor caseId] else [])).

Definition history_of (detailed : bool) (e : env) (companyId caseId : Z)
  : history_row :=
  {| hist_company_id := companyId;
     hist_case_id := caseId;
     hist_action := if detailed then "summary-detailed" else "summary-basic";
     hist_created_at := sql_now e |}.

(** The calls of the exported functions that write. *)
Inductive api_call :=
| RecordBasicCase (companyName : string) (summary metrics rawInput : jsval)
| RecordDetailedCase (companyName : string)
    (summary metrics extraInfo rawInput : jsval)
| RecordInvestorReport (companyId : Z) (companyName : string)
    (recommendation : jsval)
| ApplyManualCompanyUpdates (companyId : option Z) (updates : jsval)
| ApplyManualInvestorReportUpdates (reportId : option Z)
    (recommendation : jsval).

(** The database after a call, whether the call returned or threw. *)
Definition perform (s : database) (c : env * api_call) : database :=
  let e := fst c in
  match snd c with
  | RecordBasicCase companyName summary metrics rawInput =>
      snd (call (recordBasicCase companyName summary metrics rawInput) e s)
  | RecordDetailedCase companyName summary metrics extraInfo rawInput =>
      snd (call (recordDetailedCase companyName summary metrics extraInfo
                   rawInput) e s)
  | RecordInvestorReport companyId companyName recommendation =>
      snd (call (recordInvestorReport companyId companyName recommendation)
             e s)
  | ApplyManualCompanyUpdates companyId updates =>
      with_tables s
        (snd (applyManualCompanyUpdates (tables s) e companyId updates))
  | ApplyManualInvestorReportUpdates reportId recommendation =>
      with_tables s
        (snd (applyManualInvestorReportUpdates (tables s) e reportId
                recommendation))
  end.

(** The database the schema creates. *)
Definition empty_database : database :=
  {| tables :=
       {| companies := ∅;
          company_cases := [];
          investor_reports := [];
          investor_report_changes := [] |};
     recommendation_rows := [];
     history_rows := [] |}.

(** The rows refer to rows that exist: a case to its company, a change row
    to its report, a recommendation to its case, a history row to a case of
    its company that has a recommendation; no two cases and no two reports
    share an id; every company has a name. *)
Definition consistent (s : database) : Prop :=
  let d := tables s in
  (∀ cc, cc ∈ company_cases d → is_Some (companies d !! case_company_id cc))
  ∧ NoDup (map case_id (company_cases d))
  ∧ NoDup (map ir_id (investor_reports d))
  ∧ (∀ ch, ch ∈ investor_report_changes d →
       report_id ch ∈ map ir_id (investor_reports d))
  ∧ (∀ r, r ∈ recommendation_rows s →
       item_case_id (rec_item r) ∈ map case_id (company_cases d))
  ∧ (∀ h, h ∈ history_rows s →
       (∃ cc, cc ∈ company_cases d ∧ case_id cc = hist_case_id h
              ∧ case_company_id cc = hist_company_id h)
       ∧ ∃ r, r ∈ recommendation_rows s
              ∧ item_case_id (rec_item r) = hist_case_id h)
  ∧ (∀ id row, companies d !! id = Some row →
       ∃ name, row !! "name" = Some (CText name)).

(** The keys of the metrics of a profile that show a column of the company,
    each with its column: all its keys but [summary]. *)
Definition PROFILE_COLUMNS : list (string * string) :=
  ("name", "name") :: METRIC_COLUMNS.

(** *** The routes of the manual engines *)







End Recording.

(** ** The editor of the front end *)

Section Frontend.
Context `{JsRuntime} `{!JsonParser}.

Definition METRIC_SECTIONS : list (string * list string) := [
  ("Identity & Location",
   ["business_id"; "website_url"; "country"; "city"; "industry_text";
    "industry_code"]);
  ("Scale Indicators",
   ["employee_count"; "employee_range"; "revenue_eur"; "revenue_range";
    "stage"]);
  ("Funding Outlook",
   ["funding_need_type_guess"; "funding_need_min_eur_guess";
    "funding_need_max_eur_guess"; "funding_need_summary_guess"])
].

Definition EDITABLE_FIELDS : list string := flat_map snd METRIC_SECTIONS.

(** [String(value)]: an array prints its elements with commas between
    them, [null] and [undefined] among them as nothing. *)
Fixpoint js_String (v : jsval) : string :=
  match v with
  | JUndefined => "undefined"
  | JNull => "null"
  | JBool b => if b then "true" else "false"
  | JNum n => num_toString n
  | JStr s => s
  | JArr items =>
      join ","
        (map (fun item =>
                match item with
                | JUndefined | JNull => ""
                | _ => js_String item
                end) items)
  | JObj _ => "[object Object]"
  end.

(** [value?.[key]] and, for a value that is neither [null] nor
    [undefined], [value[key]], for a key that is no index and no
    [length]. *)
Definition field_of (value : jsval) (key : string) : jsval :=
  match value with
  | JObj props => default JUndefined (obj_get props key)
  | _ => JUndefined
  end.

(** The buffer of the editor as [createBufferFromMetrics] fills it: an
    absent argument is [{}]. *)
Definition createBufferFromMetrics (metrics : jsval)
  : list (string * jsval) :=
  map (fun field =>
         let value := field_of metrics field in
         (field,
          if nullish value then JStr ""
          else JStr (js_String (if nullish value then JStr "" else value))))
    EDITABLE_FIELDS.

Definition normalizeForComparison (value : jsval) : string :=
  match value with
  | JUndefined | JNull => ""
  | JStr s => trim s
  | JNum n => js_String value
  | _ => js_String (if nullish value then JStr "" else value)
  end.

(** The loop of [buildUpdatesPayload] over the fields. *)
Definition pending_field (buffer metrics : jsval) (field : string)
  : list (string * jsval) :=
  let bufferedValue :=
    if nullish (field_of buffer field) then JStr ""
    else field_of buffer field in
  let baseline := normalizeForComparison (field_of metrics field) in
  if negb (String.eqb (normalizeForComparison bufferedValue) baseline)
  then [(field, bufferedValue)]
  else [].

(** [buildUpdatesPayload(buffer, metrics)]: [undefined] stands for an
    absent argument, which is [{}]; reading a field of [null] throws. *)
Definition buildUpdatesPayload (buffer metrics : jsval)
  : outcome (list (string * jsval)) :=
  let buffer := match buffer with JUndefined => JObj [] | _ => buffer end in
  let metrics := match metrics with JUndefined => JObj [] | _ => metrics end in
  match buffer, metrics with
  | JNull, _ | _, JNull =>
      Threw (plain_error
               "Cannot read properties of null (reading 'business_id')")
  | _, _ => Returned (flat_map (pending_field buffer metrics) EDITABLE_FIELDS)
  end.

(** The value prints without white space around it, as the strings, the
    booleans and the objects do of themselves. *)
Definition prints_trimmed (v : jsval) : bool :=
  match v with
  | JNum _ | JArr _ => String.eqb (trim (js_String v)) (js_String v)
  | _ => true
  end.

(** [String(n)] of an integer below [10^21]. *)
Definition integer_String (n : Z) : string :=
  NilZero.string_of_int (Z.to_int n).

(** [formatRelativeTime(timestamp)] at the time [now] of [Date.now()];
    [timestamp] is the [createdAt] of an entry of the feed, a string, or
    [None] when the entry has none.  The times of [Date] lie within
    8.64e15 milliseconds of 1970, where the divisions are exact; an invalid
    date makes every comparison fail. *)
Definition formatRelativeTime (now : Z) (timestamp : option string) : string :=
  match timestamp with
  | None | Some "" => "unknown"
  | Some text =>
      match Date_getTime text with
      | None => "NaN months ago"
      | Some created =>
          let diffMs := now - created in
          let minutes := diffMs / 60000 in
          if minutes <? 60 then "<1 hour ago"
          else
            let hours := minutes / 60 in
            if hours <? 24
            then integer_String hours +:+ " hour"
                 +:+ (if hours =? 1 then "" else "s") +:+ " ago"
            else
              let days := hours / 24 in
              if days =? 1 then "1 day ago"
              else if days <? 30 then integer_String days +:+ " days ago"
              else
                let months := days / 30 in
                if months =? 1 then "1 month ago"
                else integer_String months +:+ " months ago"
      end
  end.

(** The lengths of an hour, a day and a month of thirty days, in
    milliseconds. *)
Definition HOUR_MS : Z := 3600000.
Definition DAY_MS : Z := 86400000.
Definition MONTH_MS : Z := 2592000000.

End Frontend.

(** ** The agents *)

(** What the modules of the agents throw: an [Error] with its message and
    its optional [code]. *)
Record raised := {
  raised_message : string;
  raised_code : option string;
}.

Inductive attempt (A : Type) :=
| Succeeded (result : A)
| Raised (err : raised).
Arguments Succeeded {A} result.
Arguments Raised {A} err.

#[export] Instance attempt_ret : MRet attempt := fun A a => Succeeded a.

#[export] Instance attempt_bind : MBind attempt :=
  fun A B f m =>
    match m with
    | Succeeded a => f a
    | Raised err => Raised err
    end.

Definition error_of (msg : string) : raised :=
  {| raised_message := msg; raised_code := None |}.

(** [text.indexOf(c)] and [text.lastIndexOf(c)], [None] for [-1] *)
Fixpoint indexOf (c : ascii) (s : string) : option nat :=
  match s with
  | EmptyString => None
  | String x rest =>
      if Ascii.eqb x c then Some 0%nat else S <$> indexOf c rest
  end.

Fixpoint lastIndexOf (c : ascii) (s : string) : option nat :=
  match s with
  | EmptyString => None
  | String x rest =>
      match lastIndexOf c rest with
      | Some i => Some (S i)
      | None => if Ascii.eqb x c then Some 0%nat else None
      end
  end.

(** [text.slice(from, to)] for indices of the text *)
Definition slice (s : string) (from to : nat) : string :=
  substring from (to - from) s.

Section Agents.
Context `{JsRuntime} `{!JsonParser}.

(** The [SyntaxError] of [JSON.parse] and the [TypeError]s of property
    access and of calls, with the messages V8 gives them. *)
Definition syntax_error : raised :=
  error_of "Unexpected token in JSON".

Definition not_readable (of_null : bool) (key : string) : raised :=
  error_of ("Cannot read properties of "
            +:+ (if of_null then "null" else "undefined")
            +:+ " (reading '" +:+ key +:+ "')").

(** [value[key]], which throws on [null] and [undefined] *)
Definition property (value : jsval) (key : string) : attempt jsval :=
  match value with
  | JUndefined => Raised (not_readable false key)
  | JNull => Raised (not_readable true key)
  | _ => Succeeded (field_of value key)
  end.

(** [items.join(separator)] *)
Definition Array_join (separator : string) (items : list jsval) : string :=
  join separator
    (map (fun item =>
            match item with
            | JUndefined | JNull => ""
            | _ => js_String item
            end) items).

(** [typeof value === "string"] *)
Definition is_string (value : jsval) : bool :=
  match value with JStr _ => true | _ => false end.

(** The text of a string that is known to be one. *)
Definition string_of (value : jsval) : string :=
  match value with JStr s => s | _ => "" end.

(** The body of the [try] and of the [catch] of both [tryParse]: the text
    as it is, or what lies between its first [{] and its last [}]. *)
Definition parse_or_slice (text : string) : attempt jsval :=
  match JSON_parse text with
  | Some parsed => Succeeded parsed
  | None =>
      match indexOf "{" text, lastIndexOf "}" text with
      | Some firstBrace, Some lastBrace =>
          match JSON_parse (slice text firstBrace (lastBrace + 1)) with
          | Some parsed => Succeeded parsed
          | None => Raised syntax_error
          end
      | _, _ => Raised syntax_error
      end
  end.

(** *** Company enrichment *)

(** [tryParse] of [companyEnrichment.js]; the [null] it returns for an
    empty text is [JNull]. *)
Definition tryParse (text : string) : attempt jsval :=
  if String.eqb text "" then Succeeded JNull
  else
    let trimmed := trim text in
    if String.eqb trimmed "" then Succeeded JNull
    else parse_or_slice trimmed.

(** The callback of [block.content.map]. *)
Definition text_chunk (item : jsval) : attempt string :=
  type ← property item "type";
  if strict_eq type (JStr "output_text")
     && is_string (field_of item "text")
  then mret (string_of (field_of item "text"))
  else if strict_eq type (JStr "text") && is_string (field_of item "text")
  then mret (string_of (field_of item "text"))
  else mret "".

Fixpoint text_chunks (items : list jsval) : attempt (list string) :=
  match items with
  | [] => mret []
  | item :: rest =>
      chunk ← text_chunk item;
      chunks ← text_chunks rest;
      mret (chunk :: chunks)
  end.

Definition empty_response : raised :=
  error_of "Empty response from OpenAI reasoning model".

(** The loop over [response.output], up to the [throw] after it. *)
Fixpoint first_parsed (blocks : list jsval) : attempt jsval :=
  match blocks with
  | [] => Raised empty_response
  | block :: rest =>
      let content :=
        match block with
        | JUndefined | JNull => JUndefined
        | _ => field_of block "content"
        end in
      if negb (truthy content) then first_parsed rest
      else
        match content with
        | JArr items =>
            chunks ← text_chunks items;
            parsed ←
              tryParse
                (join "" (filter (fun chunk => negb (String.eqb chunk ""))
                            chunks));
            if truthy parsed then mret parsed else first_parsed rest
        | _ => Raised (error_of "block.content.map is not a function")
        end
  end.

Definition extractJsonPayload (response : jsval) : attempt jsval :=
  output_text ← property response "output_text";
  parsed ←
    match output_text with
    | JArr (item :: items) => tryParse (Array_join line_feed (item :: items))
    | _ => mret JNull
    end;
  if truthy parsed then mret parsed
  else
    match field_of response "output" with
    | JArr blocks => first_parsed blocks
    | _ => Raised empty_response
    end.

Definition LOOKUP_AGENT_MISSING_MESSAGE : string :=
  "LOOKUP_AGENT prompt is missing. Add it to backend/.env to enable company lookups.".

(** [buildEnrichmentPrompt]; [LOOKUP_AGENT] is the variable of the
    environment, [None] when it is not set; a message is its role and its
    content. *)
Definition buildEnrichmentPrompt (LOOKUP_AGENT : option string)
  (companyName : string) : attempt (list (string * string)) :=
  match LOOKUP_AGENT with
  | None | Some "" =>
      Raised {| raised_message := LOOKUP_AGENT_MISSING_MESSAGE;
                raised_code := Some "MISSING_LOOKUP_AGENT" |}
  | Some agent =>
      mret [
        ("system", agent);
        ("user",
         "Investigate " +:+ String dquote companyName +:+ String dquote ""
         +:+ " using web search. "
         +:+ "Populate the JSON row for the `companies` table (columns listed in the system prompt). "
         +:+ "Run as many searches as necessary to ensure the values are up to date.")
      ]
  end.

Definition fallbackSummary (companyName : string) : string :=
  "Basic information for company " +:+ companyName
  +:+ ": an AI enrichment call failed, so only minimal data is available.".

(** The metrics [inferCompanyBaseMetrics] falls back on. *)
Definition fallback_metrics (companyName : string) : jsval :=
  JObj [
    ("name", JStr companyName);
    ("business_id", JNull);
    ("website_url", JNull);
    ("country", JStr "Finland");
    ("city", JNull);
    ("industry_text", JNull);
    ("industry_code", JNull);
    ("employee_count", JNull);
    ("employee_range", JNull);
    ("revenue_eur", JNull);
    ("revenue_range", JNull);
    ("stage", JNull);
    ("funding_need_type_guess", JNull);
    ("funding_need_min_eur_guess", JNull);
    ("funding_need_max_eur_guess", JNull);
    ("funding_need_summary_guess", JNull);
    ("description", JNull);
    ("summary", JStr (fallbackSummary companyName))
  ].

(** [inferCompanyBaseMetrics]; [reply] is what the call of the model
    resolves to, or what it rejects with.  The result is the pair of
    [metrics] and [raw]. *)
Definition inferCompanyBaseMetrics (LOOKUP_AGENT : option string)
  (reply : attempt jsval) (companyName : string) : attempt (jsval * jsval) :=
  _ ← buildEnrichmentPrompt LOOKUP_AGENT companyName;
  match (response ← reply; extractJsonPayload response) with
  | Succeeded parsed => mret (parsed, JStr (JSON_stringify parsed))
  | Raised _ => mret (fallback_metrics companyName, JNull)
  end.

(** *** Investor advisor *)

Definition EMPTY_RECOMMENDATION : jsval :=
  JObj [
    ("company_name", JNull);
    ("country", JNull);
    ("stage_inferred", JNull);
    ("funding_need_type_inferred", JNull);
    ("funding_instrument_mix", JArr []);
    ("recommended_investors", JArr []);
    ("search_summary", JStr "");
    ("uncertainty_flags", JStr "")
  ].

(** [Array.isArray(value) ? value : []] *)
Definition array_or_empty (value : jsval) : jsval :=
  if Array_isArray value then value else JArr [].

(** [value ?? ""] *)
Definition or_empty (value : jsval) : jsval :=
  if nullish value then JStr "" else value.

Definition coerceRecommendationShape (payload : jsval) : jsval :=
  if negb (truthy payload) || negb (String.eqb (typeof payload) "object")
  then EMPTY_RECOMMENDATION
  else
    JObj [
      ("company_name", or_null (field_of payload "company_name"));
      ("country", or_null (field_of payload "country"));
      ("stage_inferred", or_null (field_of payload "stage_inferred"));
      ("funding_need_type_inferred",
       or_null (field_of payload "funding_need_type_inferred"));
      ("funding_instrument_mix",
       array_or_empty (field_of payload "funding_instrument_mix"));
      ("recommended_investors",
       array_or_empty (field_of payload "recommended_investors"));
      ("search_summary", or_empty (field_of payload "search_summary"));
      ("uncertainty_flags", or_empty (field_of payload "uncertainty_flags"))
    ].

(** The chunks one block of [response.output] contributes; a string is
    iterated letter by letter, and a letter has no [type]. *)
Definition advisor_item_chunk (item : jsval) : attempt (list jsval) :=
  type ← property item "type";
  if (strict_eq type (JStr "output_text") || strict_eq type (JStr "text"))
     && is_string (field_of item "text")
  then mret [field_of item "text"]
  else mret [].

Fixpoint advisor_item_chunks (items : list jsval) : attempt (list jsval) :=
  match items with
  | [] => mret []
  | item :: rest =>
      chunk ← advisor_item_chunk item;
      chunks ← advisor_item_chunks rest;
      mret (chunk ++ chunks)
  end.

Fixpoint advisor_block_chunks (blocks : list jsval) : attempt (list jsval) :=
  match blocks with
  | [] => mret []
  | block :: rest =>
      let content :=
        match block with
        | JUndefined | JNull => JUndefined
        | _ => field_of block "content"
        end in
      chunk ←
        (if negb (truthy content) then mret []
         else
           match content with
           | JArr items => advisor_item_chunks items
           | JStr _ => mret []
           | _ => Raised (error_of "block.content is not iterable")
           end);
      chunks ← advisor_block_chunks rest;
      mret (chunk ++ chunks)
  end.

(** [extractJsonPayload] of [investorAdvisor.js] *)
Definition advisor_extractJsonPayload (response : jsval) : attempt jsval :=
  output_text ← property response "output_text";
  let first :=
    match output_text with JArr items => items | _ => [] end in
  rest ←
    match field_of response "output" with
    | JArr blocks => advisor_block_chunks blocks
    | _ => mret []
    end;
  let combined := trim (Array_join line_feed (first ++ rest)) in
  if String.eqb combined ""
  then Raised (error_of "Empty response from OpenAI investor advisor")
  else parse_or_slice combined.

Definition FUNDING_AGENT_MISSING_MESSAGE : string :=
  "FUNDING_ADVISOR_AGENT prompt is missing. Add it to backend/.env to enable investor searches.".

(** [buildInvestorPrompt], as far as it throws. *)
Definition investor_prompt_ready (FUNDING_ADVISOR_AGENT : option string)
  : attempt unit :=
  match FUNDING_ADVISOR_AGENT with
  | None | Some "" =>
      Raised {| raised_message := FUNDING_AGENT_MISSING_MESSAGE;
                raised_code := Some "MISSING_FUNDING_ADVISOR_AGENT" |}
  | Some _ => mret tt
  end.

(** [recommendInvestorsForCompany]; [reply] is read as above. *)
Definition recommendInvestorsForCompany (FUNDING_ADVISOR_AGENT : option string)
  (reply : attempt jsval) (companyProfile : jsval) : attempt jsval :=
  if negb (truthy companyProfile)
     || negb (String.eqb (typeof companyProfile) "object")
  then Raised (error_of "Company profile is required")
  else
    _ ← investor_prompt_ready FUNDING_ADVISOR_AGENT;
    response ← reply;
    parsed ← advisor_extractJsonPayload response;
    mret (coerceRecommendationShape parsed).

(** *** Vocabulary of the properties *)

(** What [trim] leaves of a text that something follows, and of a text
    that follows something. *)
Definition trimmed_start (s : string) : string :=
  let cs := list_ascii_of_string s in
  string_of_list_ascii (drop_whitespace false (length cs) cs).

Definition trimmed_end (s : string) : string :=
  let cs := list_ascii_of_string s in
  string_of_list_ascii (rev (drop_whitespace true (length cs) (rev cs))).

(** The keys of a recommendation, in the order of [EMPTY_RECOMMENDATION]. *)
Definition RECOMMENDATION_KEYS : list string := [
  "company_name"; "country"; "stage_inferred"; "funding_need_type_inferred";
  "funding_instrument_mix"; "recommended_investors"; "search_summary";
  "uncertainty_flags"
].

End Agents.

(** ** The lookup routes *)

Section Lookups.
Context `{JsRuntime} `{!JsonParser} `{!SqliteAffinity}.

(** What [respondIfAgentMissing] answers with, when it answers: the
    [error] and the [details] of a response with status 500. *)
Definition respondIfAgentMissing (err : raised) : option (string * string) :=
  match raised_code err with
  | Some code =>
      if String.eqb code "MISSING_LOOKUP_AGENT"
      then Some ("Missing LOOKUP_AGENT configuration",
                 "Set LOOKUP_AGENT in backend/.env to enable company lookup.")
      else if String.eqb code "MISSING_FUNDING_ADVISOR_AGENT"
      then Some ("Missing FUNDING_ADVISOR_AGENT configuration",
                 "Set FUNDING_ADVISOR_AGENT in backend/.env to enable investor match.")
      else None
  | None => None
  end.

(** The body of the answer of a lookup: [extraInfo] is there for a
    detailed lookup only; [source] is the same text in every answer. *)
Record lookup_result := {
  result_companyName : string;
  result_extraInfo : option string;
  result_summary : jsval;
  result_metrics : jsval;
  result_companyId : Z;
  result_caseId : Z;
}.

Inductive lookup_body :=
| LookupResult (result : lookup_result)
| LookupFailure (error : string) (details : option string).

Record lookup_response := {
  lookup_status : Z;
  lookup_answer : lookup_body;
}.

(** [{ ...req.body, llmMetrics: metrics, llmRaw: raw }] *)
Definition raw_input (body metrics raw : jsval) : jsval :=
  JObj (obj_set "llmRaw" raw
          (obj_set "llmMetrics" metrics (Object_entries body))).

(** [typeof extraInfo === "string" ? extraInfo.trim() : ""] *)
Definition extra_context (extraInfo : jsval) : string :=
  match extraInfo with
  | JStr text => trim text
  | _ => ""
  end.

(** The name [inferCompanyBaseMetrics] is asked about. *)
Definition asked_name (detailed : bool) (cleanedName extra : string)
  : string :=
  if detailed
  then cleanedName +:+ " ("
       +:+ (if String.eqb extra "" then "no extra context" else extra)
       +:+ ")"
  else cleanedName.

Definition default_summary (detailed : bool) (cleanedName : string)
  : string :=
  if detailed
  then "Profile summary for company " +:+ cleanedName
       +:+ " based on the provided context."
  else "Basic information for company " +:+ cleanedName +:+ ".".

(** [metrics.summary || ...] of metrics that are truthy *)
Definition summary_of (detailed : bool) (cleanedName : string)
  (metrics : jsval) : jsval :=
  js_or (field_of metrics "summary")
    (JStr (default_summary detailed cleanedName)).

(** [POST /api/company/summary-basic] and, for [detailed],
    [POST /api/company/summary-detailed]: [body] is [req.body], [reply]
    what the call of the model resolves to or rejects with. *)
Definition summary_route (detailed : bool) (LOOKUP_AGENT : option string)
  (reply : attempt jsval) (body : jsval) (e : env) (s : database)
  : lookup_response * database :=
  let fields := if truthy body then body else JObj [] in
  match field_of fields "companyName" with
  | JStr companyName =>
      if String.eqb companyName ""
      then ({| lookup_status := 400;
               lookup_answer :=
                 LookupFailure "companyName is required" None |}, s)
      else
        let cleanedName := trim companyName in
        let extra := extra_context (field_of fields "extraInfo") in
        match inferCompanyBaseMetrics LOOKUP_AGENT reply
                (asked_name detailed cleanedName extra) with
        | Raised err =>
            match respondIfAgentMissing err with
            | Some (error, details) =>
                ({| lookup_status := 500;
                    lookup_answer := LookupFailure error (Some details) |}, s)
            | None =>
                ({| lookup_status := 500;
                    lookup_answer :=
                      LookupFailure "Failed to enrich company information"
                        None |}, s)
            end
        | Succeeded (metrics, raw) =>
            let summary := summary_of detailed cleanedName metrics in
            match call (record_case detailed cleanedName summary metrics
                          (JStr extra) (raw_input body metrics raw)) e s with
            | (Returned (companyId, caseId), s') =>
                ({| lookup_status := 200;
                    lookup_answer :=
                      LookupResult
                        {| result_companyName := cleanedName;
                           result_extraInfo :=
                             if detailed then Some extra else None;
                           result_summary := summary;
                           result_metrics := metrics;
                           result_companyId := companyId;
                           result_caseId := caseId |} |}, s')
            | (Threw _, s') =>
                ({| lookup_status := 500;
                    lookup_answer :=
                      LookupFailure "Failed to enrich company information"
                        None |}, s')
            end
        end
  | _ =>
      ({| lookup_status := 400;
          lookup_answer := LookupFailure "companyName is required" None |}, s)
  end.

(** *** Vocabulary of the properties *)

(** The request names a company. *)
Definition names_company (body : jsval) (companyName : string) : Prop :=
  field_of (if truthy body then body else JObj []) "companyName"
  = JStr companyName
  ∧ companyName ≠ "".

(** What a lookup asks the model about, and what it records. *)
Definition lookup_asks (detailed : bool) (body : jsval)
  (companyName : string) : string :=
  asked_name detailed (trim companyName)
    (extra_context (field_of body "extraInfo")).

Definition lookup_records (detailed : bool) (body : jsval)
  (companyName : string) (metrics raw : jsval) : step (Z * Z) :=
  record_case detailed (trim companyName)
    (summary_of detailed (trim companyName) metrics) metrics
    (JStr (extra_context (field_of body "extraInfo")))
    (raw_input body metrics raw).

(** The answer of a lookup that went through. *)
Definition lookup_done (detailed : bool) (body : jsval)
  (companyName : string) (metrics : jsval) (companyId caseId : Z)
  : lookup_response :=
  {| lookup_status := 200;
     lookup_answer :=
       LookupResult
         {| result_companyName := trim companyName;
            result_extraInfo :=
              if detailed
              then Some (extra_context (field_of body "extraInfo"))
              else None;
            result_summary := summary_of detailed (trim companyName) metrics;
            result_metrics := metrics;
            result_companyId := companyId;
            result_caseId := caseId |} |}.

End Lookups.

(** ** A runtime to run the model on *)

(** The runtime of the examples: its numbers are the integers.  It agrees
    with JavaScript on texts whose numbers are decimal integer literals and
    whose [\u] escapes denote ASCII characters, and on timestamps in the
    form SQLite's [CURRENT_TIMESTAMP] writes, read in a process whose
    local time is UTC; it rejects the other texts. *)
Module IntRuntime.

Definition is_digit (c : ascii) : bool :=
  let n := nat_of_ascii c in ((48 <=? n) && (n <=? 57))%nat.

(** The decimal digit [c] in front of the digits [d]. *)
Definition cons_digit (c : ascii) (d : Decimal.uint) : Decimal.uint :=
  match (nat_of_ascii c - 48)%nat with
  | 0 => Decimal.D0 d | 1 => Decimal.D1 d | 2 => Decimal.D2 d
  | 3 => Decimal.D3 d | 4 => Decimal.D4 d | 5 => Decimal.D5 d
  | 6 => Decimal.D6 d | 7 => Decimal.D7 d | 8 => Decimal.D8 d
  | _ => Decimal.D9 d
  end%nat.

(** The longest prefix of digits, and what follows it. *)
Fixpoint read_digits (s : string) : Decimal.uint * string :=
  match s with
  | String c rest =>
      if is_digit c
      then let '(d, rest') := read_digits rest in (cons_digit c d, rest')
      else (Decimal.Nil, s)
  | EmptyString => (Decimal.Nil, EmptyString)
  end.

Definition unsigned_integer (s : string) : option Z :=
  match read_digits s with
  | (Decimal.Nil, _) => None
  | (d, EmptyString) => Some (Z.of_uint d)
  | (_, String _ _) => None
  end.

(** [Number] on a trimmed, non-empty string that is an integer literal. *)
Definition int_Number (s : string) : option Z :=
  match s with
  | String "-" rest => Z.opp <$> unsigned_integer rest
  | String "+" rest => unsigned_integer rest
  | _ => unsigned_integer s
  end.

Definition int_toString (z : Z) : string :=
  DecimalString.NilZero.string_of_int (Z.to_int z).

(** Days from 1970-01-01 to a date of the proleptic Gregorian calendar. *)
Definition days_from_civil (y m d : Z) : Z :=
  let y := if m <=? 2 then y - 1 else y in
  let era := y / 400 in
  let yoe := y - era * 400 in
  let mp := (m + 9) mod 12 in
  let doy := (153 * mp + 2) / 5 + d - 1 in
  let doe := yoe * 365 + yoe / 4 - yoe / 100 + doy in
  era * 146097 + doe - 719468.

(** The digits of [s] from [pos], [len] of them, as a number. *)
Definition field (s : string) (pos len : nat) : option Z :=
  unsigned_integer (substring pos len s).

Definition separators_ok (s : string) : bool :=
  String.eqb (substring 4 1 s) "-" && String.eqb (substring 7 1 s) "-"
  && String.eqb (substring 10 1 s) " " && String.eqb (substring 13 1 s) ":"
  && String.eqb (substring 16 1 s) ":" && (String.length s =? 19)%nat.

(** [new Date("YYYY-MM-DD HH:MM:SS").getTime()] *)
Definition sql_Date_getTime (s : string) : option Z :=
  if separators_ok s then
    y ← field s 0 4; m ← field s 5 2; d ← field s 8 2;
    hh ← field s 11 2; mm ← field s 14 2; ss ← field s 17 2;
    if (1 <=? m) && (m <=? 12) && (1 <=? d) && (d <=? 31)
       && (hh <=? 23) && (mm <=? 59) && (ss <=? 59)
    then Some ((((days_from_civil y m d * 24 + hh) * 60 + mm) * 60 + ss) * 1000)
    else None
  else None.

#[export] Instance runtime : JsRuntime := {|
  num := Z;
  num_isZero := Z.eqb 0;
  Number_finite := int_Number;
  num_toString := int_toString;
  num_floor := fun z => z;
  Date_getTime := sql_Date_getTime;
|}.

(** *** [JSON.parse] *)

Definition is_json_whitespace (c : ascii) : bool :=
  let n := nat_of_ascii c in
  ((n =? 32) || (n =? 9) || (n =? 10) || (n =? 13))%nat.

Fixpoint skip_whitespace (s : string) : string :=
  match s with
  | String c rest => if is_json_whitespace c then skip_whitespace rest else s
  | EmptyString => s
  end.

Definition hex_value (c : ascii) : option nat :=
  let n := nat_of_ascii c in
  if ((48 <=? n) && (n <=? 57))%nat then Some (n - 48)%nat
  else if ((97 <=? n) && (n <=? 102))%nat then Some (n - 87)%nat
  else if ((65 <=? n) && (n <=? 70))%nat then Some (n - 55)%nat
  else None.

(** The character a one-letter escape denotes. *)
Definition unescape (c : ascii) : option ascii :=
  let n := nat_of_ascii c in
  if (n =? 34)%nat then Some dquote
  else if (n =? 92)%nat then Some "\"%char
  else if (n =? 47)%nat then Some "/"%char
  else if (n =? 98)%nat then Some "008"%char
  else if (n =? 116)%nat then Some "009"%char
  else if (n =? 110)%nat then Some "010"%char
  else if (n =? 102)%nat then Some "012"%char
  else if (n =? 114)%nat then Some "013"%char
  else None.

Definition prepend (c : ascii) (r : option (string * string))
  : option (string * string) :=
  match r with
  | Some (text, rest) => Some (String c text, rest)
  | None => None
  end.

(** The characters of a string literal after its opening quote, and what
    follows its closing quote. *)
Fixpoint parse_chars (s : string) : option (string * string) :=
  match s with
  | EmptyString => None
  | String c rest =>
      let n := nat_of_ascii c in
      if (n =? 34)%nat then Some (EmptyString, rest)
      else if (n =? 92)%nat then
        match rest with
        | String e rest1 =>
            match unescape e with
            | Some ch => prepend ch (parse_chars rest1)
            | None =>
                if (nat_of_ascii e =? 117)%nat then
                  match rest1 with
                  | String h1 (String h2 (String h3 (String h4 rest2))) =>
                      match hex_value h1, hex_value h2,
                            hex_value h3, hex_value h4 with
                      | Some 0%nat, Some 0%nat, Some a, Some b =>
                          if (a <? 8)%nat
                          then prepend (ascii_of_nat (a * 16 + b))
                                 (parse_chars rest2)
                          else None
                      | _, _, _, _ => None
                      end
                  | _ => None
                  end
                else None
            end
        | EmptyString => None
        end
      else if (n <? 32)%nat then None
      else prepend c (parse_chars rest)
  end.

Definition leading_zero (d : Decimal.uint) : bool :=
  match d with
  | Decimal.D0 Decimal.Nil => false
  | Decimal.D0 _ => true
  | _ => false
  end.

(** A fraction or an exponent follows. *)
Definition continues (rest : string) : bool :=
  match rest with
  | String c _ =>
      let n := nat_of_ascii c in
      ((n =? 46) || (n =? 101) || (n =? 69))%nat
  | EmptyString => false
  end.

(** Digits with no leading zero; a fraction or an exponent is rejected. *)
Definition parse_digits (s : string) : option (Z * string) :=
  match read_digits s with
  | (Decimal.Nil, _) => None
  | (d, rest) =>
      if leading_zero d || continues rest then None
      else Some (Z.of_uint d, rest)
  end.

(** An integer literal: an optional minus sign and digits. *)
Definition parse_number (s : string) : option (Z * string) :=
  match s with
  | String "-" rest => '(z, rest') ← parse_digits rest; Some (- z, rest')
  | _ => parse_digits s
  end.

(** [s] without the prefix [word], when it starts with it. *)
Fixpoint expect (word s : string) : option string :=
  match word, s with
  | EmptyString, _ => Some s
  | String w word', String c rest =>
      if Ascii.eqb w c then expect word' rest else None
  | String _ _, EmptyString => None
  end.

Section Loops.
Variable parse_value : string → option (jsval * string).

(** The elements of an array after its first bracket, at most [n]. *)
Fixpoint parse_items (n : nat) (s : string) (acc : list jsval)
  : option (list jsval * string) :=
  match n with
  | O => None
  | S n' =>
      match parse_value s with
      | None => None
      | Some (v, rest) =>
          match skip_whitespace rest with
          | String "," rest' => parse_items n' rest' (acc ++ [v])
          | String "]" rest' => Some (acc ++ [v], rest')
          | _ => None
          end
      end
  end.

(** The members of an object after its first brace, at most [n]; a key
    that comes again replaces the value it had. *)
Fixpoint parse_members (n : nat) (s : string) (acc : list (string * jsval))
  : option (list (string * jsval) * string) :=
  match n with
  | O => None
  | S n' =>
      match skip_whitespace s with
      | String q rest =>
          if negb (Ascii.eqb q dquote) then None
          else
            match parse_chars rest with
            | None => None
            | Some (key, rest1) =>
                match skip_whitespace rest1 with
                | String ":" rest2 =>
                    match parse_value rest2 with
                    | None => None
                    | Some (v, rest3) =>
                        match skip_whitespace rest3 with
                        | String "," rest' =>
                            parse_members n' rest' (obj_set key v acc)
                        | String "}" rest' => Some (obj_set key v acc, rest')
                        | _ => None
                        end
                    end
                | _ => None
                end
            end
      | EmptyString => None
      end
  end.

End Loops.

(** A value at the head of [s], nested at most [fuel] deep. *)
Fixpoint parse_value (fuel : nat) (s : string) : option (jsval * string) :=
  match fuel with
  | O => None
  | S fuel' =>
      match skip_whitespace s with
      | EmptyString => None
      | String c rest =>
          let n := nat_of_ascii c in
          if (n =? 110)%nat then
            rest' ← expect "ull" rest; Some (JNull, rest')
          else if (n =? 116)%nat then
            rest' ← expect "rue" rest; Some (JBool true, rest')
          else if (n =? 102)%nat then
            rest' ← expect "alse" rest; Some (JBool false, rest')
          else if (n =? 34)%nat then
            '(text, rest') ← parse_chars rest; Some (JStr text, rest')
          else if (n =? 91)%nat then
            match skip_whitespace rest with
            | String "]" rest' => Some (JArr [], rest')
            | _ =>
                '(items, rest') ←
                  parse_items (parse_value fuel') (String.length rest) rest [];
                Some (JArr items, rest')
            end
          else if (n =? 123)%nat then
            match skip_whitespace rest with
            | String "}" rest' => Some (JObj [], rest')
            | _ =>
                '(props, rest') ←
                  parse_members (parse_value fuel') (String.length rest) rest [];
                Some (JObj props, rest')
            end
          else
            '(z, rest') ← parse_number (String c rest); Some (JNum z, rest')
      end
  end.

Definition int_JSON_parse (s : string) : option jsval :=
  match parse_value (S (String.length s)) s with
  | Some (v, rest) =>
      match skip_whitespace rest with
      | EmptyString => Some v
      | String _ _ => None
      end
  | None => None
  end.

#[export] Instance parser : JsonParser := {|
  JSON_parse := int_JSON_parse;
|}.

(** What may follow a value inside a text that [JSON.stringify] wrote. *)
Definition delimited (rest : string) : Prop :=
  match rest with
  | EmptyString => True
  | String c _ => c = ","%char ∨ c = "]"%char ∨ c = "}"%char
  end.

(** The first character of the text of a value. *)
Definition value_head (c : ascii) : Prop :=
  In c ["n"; "t"; "f"; dquote; "["; "{"; "-"; "0"; "1"; "2"; "3"; "4"; "5";
        "6"; "7"; "8"; "9"]%char.

(** The text of a member of an object. *)
Definition member_text (kv : string * jsval) : string :=
  quote_string (fst kv) +:+ ":" +:+ JSON_stringify (snd kv).

(** The affinities of the examples: they agree with SQLite on the integers,
    on the texts that are decimal integer literals and on the texts that
    spell no number. *)
#[export] Instance affinity : SqliteAffinity := {|
  sql_text := int_toString;
  sql_number := int_Number;
|}.

End IntRuntime.

(** ** The data of the scenarios *)

Module ScenarioData.
Import IntRuntime.

(** The company of the scenarios: a seed-stage company whose head count
    is not known and whose change log was never written. *)
Definition acme : gmap string cell :=
  list_to_map [
    ("name", CText "Acme"); ("country", CText "FI");
    ("employee_count", CNull); ("stage", CText "seed");
    ("funding_need_type", CNull); ("manual_change_log", CNull)
  ].

(** The report of the scenarios. *)
Definition report1 : report_record :=
  {| ir_id := 1; ir_company_id := 1; ir_company_name := "Acme";
     ir_recommendation :=
       JSON_stringify
         (JObj [("search_summary", JStr "a"); ("recommended_investors", JArr [])]);
     ir_created_at := "2025-03-01 10:00:00" |}.

Definition store0 : db :=
  {| companies := {[ 1 := acme ]};
     company_cases := [];
     investor_reports := [report1];
     investor_report_changes := [] |}.

(** A call at a given time that the store does not disturb. *)
Definition at_time (iso sql : string) : env :=
  {| js_now := iso; sql_now := sql; store_fault := fun _ => false |}.

Definition morning : env :=
  at_time "2025-03-02T08:00:00.000Z" "2025-03-02 08:00:00".

Definition noon : env :=
  at_time "2025-03-02T12:00:00.000Z" "2025-03-02 12:00:00".

(** A call during which the store refuses the second statement. *)
Definition disk_full : env :=
  {| js_now := "2025-03-02T08:00:00.000Z";
     sql_now := "2025-03-02 08:00:00";
     store_fault := fun k => (k =? 1)%nat |}.

(** The update of the first scenario. *)
Definition head_count : jsval :=
  JObj [("employee_count", JStr "12"); ("stage", JStr "seed")].



(** Two numeric columns sent words, next to a valid change. *)
Definition bad_numbers : list (string * jsval) :=
  [("stage", JStr "growth"); ("employee_count", JStr "twelve");
   ("revenue_eur", JStr "a lot")].

(** A store with three cases and four reports. *)
Definition case_at (id : Z) (created : string) : case_record :=
  {| case_id := id; case_company_id := 1;
     company_summary_text := CText "Summary"; case_created_at := created |}.

Definition report_at (id : Z) (created : string) : report_record :=
  {| ir_id := id; ir_company_id := 1; ir_company_name := "Acme";
     ir_recommendation := ir_recommendation report1;
     ir_created_at := created |}.

Definition busy_store : db :=
  {| companies := {[ 1 := acme ]};
     company_cases :=
       [case_at 1 "2025-03-01 09:00:00"; case_at 2 "2025-03-03 09:00:00";
        case_at 3 "2025-03-05 09:00:00"];
     investor_reports :=
       [report_at 1 "2025-03-02 09:00:00"; report_at 2 "2025-03-04 09:00:00";
        report_at 3 "2025-03-06 09:00:00"; report_at 4 "2025-03-07 09:00:00"];
     investor_report_changes := [] |}.

(** The number [z] of the runtime. *)
Definition number (z : Z) : jsval := JNum z.

(** The store after the update of the first scenario, and its response. *)
Definition after_head_count : db :=
  snd (applyManualCompanyUpdates store0 morning (Some 1) head_count).

Definition head_count_response : company_response :=
  {| updated := true;
     response_changes :=
       Some [{| column := "employee_count"; from := JNull; to := number 12;
                changedAt := "2025-03-02T08:00:00.000Z" |}];
     manualChangeLog :=
       [JObj [("column", JStr "employee_count"); ("from", JNull);
              ("to", number 12);
              ("changedAt", JStr "2025-03-02T08:00:00.000Z")]];
     response_message := "1 field(s) updated" |}.

(** The new payload of the second scenario. *)
Definition new_summary : jsval :=
  JObj [("search_summary", JStr "b"); ("recommended_investors", JArr [])].

(** The store after the update of the second scenario, and its response. *)
Definition after_new_summary : db :=
  snd (applyManualInvestorReportUpdates store0 morning (Some 1) new_summary).

Definition summary_change : report_change :=
  {| jsonPath := "$.search_summary";
     fromValue := quote_string "a";
     toValue := quote_string "b" |}.

Definition new_summary_response : report_response :=
  {| report_updated := true;
     report_changes := Some [summary_change];
     report_message := None;
     report_manualChangeLog := [change_shown morning summary_change];
     report_recommendation := new_summary |}.

(** A database around the store of the scenarios. *)
Definition base0 : database :=
  {| tables := store0; recommendation_rows := []; history_rows := [] |}.

(** What an enrichment found: a head count and a stage, and no country. *)
Definition found_metrics : jsval :=
  JObj [("employee_count", number 40); ("stage", JStr "growth");
        ("country", JNull); ("summary", JStr "Acme makes anvils.")].

(** The database after the enrichment of the company of the scenarios. *)
Definition enriched : database :=
  snd (updateCompanyWithMetrics 1 found_metrics morning 0%nat base0).

(** A call during which the store refuses the third statement. *)
Definition third_refused : env :=
  {| js_now := "2025-03-02T08:00:00.000Z";
     sql_now := "2025-03-02 08:00:00";
     store_fault := fun k => (k =? 2)%nat |}.

(** A basic lookup of a company the store does not have, and the same
    lookup when the store refuses the insertion of the case. *)
Definition after_lookup : database :=
  snd (call (recordBasicCase " Beta Oy " (JStr "Beta in short.")
               found_metrics JNull) morning base0).

Definition after_failed_lookup : database :=
  snd (call (recordBasicCase " Beta Oy " (JStr "Beta in short.")
               found_metrics JNull) third_refused base0).

(** The database after a second lookup, of another company, within the
    same second as the first. *)
Definition after_second_lookup : database :=
  snd (call (recordBasicCase "Gamma Ab" (JStr "Gamma in short.")
               found_metrics JNull) morning after_lookup).

(** The database after a report on the company of the scenarios. *)
Definition after_report : database :=
  snd (call (recordInvestorReport 1 "Acme" new_summary) morning base0).

(** The metrics the feed shows for the company of the scenarios after the
    update of the first scenario, and the buffer of an editor in which the
    stage was changed. *)
Definition shown_metrics_12 : jsval :=
  default JNull (profile_metrics <$> getCompanyProfileById after_head_count 1).

Definition edited_stage : jsval :=
  JObj (obj_set "stage" (JStr " growth ")
          (createBufferFromMetrics shown_metrics_12)).

(** U+00A0, the no-break space, in its two bytes, and the name of the
    company of the scenarios with blanks of both kinds around it. *)
Definition no_break_space : string := String "194" (String "160" "").

Definition padded_acme : string :=
  no_break_space +:+ " Acme " +:+ no_break_space.

(** The update of the first scenario with such blanks around the number. *)
Definition padded_head_count : jsval :=
  JObj [("employee_count", JStr (no_break_space +:+ "12 " +:+ no_break_space));
        ("stage", JStr "seed")].

(** The row of a reply, and a reply that wraps it in prose and ends in a
    no-break space. *)
Definition row_text : string :=
  String dquote "city" +:+ String dquote ":" +:+ String dquote "Espoo"
  +:+ String dquote "".

Definition wrapped_reply : string :=
  "Here is the row: " +:+ String "{" (row_text +:+ "}") +:+ " Done."
  +:+ no_break_space.

(** A request for a lookup of Acme, and a response of the model out of
    which nothing can be read: two chunks of prose. *)
Definition lookup_acme : jsval := JObj [("companyName", JStr padded_acme)].

Definition no_row : attempt jsval :=
  Succeeded (JObj [("output_text", JArr [JStr "I found"; JStr "no row."])]).

Definition fallback_answer : lookup_response * database :=
  summary_route false (Some "Look the company up.") no_row lookup_acme
    noon base0.

Definition asked_acme : string := lookup_asks false lookup_acme padded_acme.

(** The response of the model that carries the row in prose, in two
    chunks. *)
Definition prose_response : attempt jsval :=
  Succeeded
    (JObj [("output_text",
            JArr [JStr "Here is the row:";
                  JStr (String "{" (row_text +:+ "}") +:+ " Done.")])]).

(** A company whose change log already holds an entry, and its store. *)
Definition earlier_entry : jsval :=
  JObj [("column", JStr "stage"); ("from", JNull); ("to", JStr "seed");
        ("changedAt", JStr "2025-02-01T08:00:00.000Z")].

Definition acme_logged : gmap string cell :=
  <["manual_change_log" := CText (JSON_stringify (JArr [earlier_entry]))]> acme.

Definition logged_store : db :=
  {| companies := {[ 1 := acme_logged ]};
     company_cases := [];
     investor_reports := [report1];
     investor_report_changes := [] |}.



End ScenarioData.

(** * Properties *)

(** ** Structural JSON diff *)

Section DiffProperties.
Context `{JsRuntime}.

Lemma jsval_nested_ind (P : jsval → Prop) :
  P JUndefined → P JNull → (∀ b, P (JBool b)) → (∀ n, P (JNum n)) →
  (∀ s, P (JStr s)) →
  (∀ items, Forall P items → P (JArr items)) →
  (∀ props, Forall (fun kv => P (snd kv)) props → P (JObj props)) →
  ∀ v, P v.
Proof.
  intros HU HN HB HNum HS HA HO. fix IH 1.
  intros [| |b|n|s|items|props];
    [apply HU | apply HN | apply HB | apply HNum | apply HS | |].
  - apply HA. induction items as [|x items IHitems]; constructor;
      [apply IH | apply IHitems].
  - apply HO. induction props as [|[k x] props IHprops]; constructor;
      [apply IH | apply IHprops].
Qed.


Lemma set_has_elem_of (s : list string) (x : string) :
  existsb (String.eqb x) s = true ↔ x ∈ s.
Proof.
  rewrite existsb_exists. split.
  - intros (y & Hy & Heq). apply String.eqb_eq in Heq. subst.
    by apply list_elem_of_In.
  - intros Hx. exists x. split; [by apply list_elem_of_In | apply String.eqb_refl].
Qed.

Lemma elem_of_set_add (x y : string) (s : list string) :
  y ∈ set_add x s ↔ y ∈ s ∨ y = x.
Proof.
  unfold set_add. destruct (existsb (String.eqb x) s) eqn:E.
  - apply set_has_elem_of in E. split; [auto | intros [?| ->]; done].
  - rewrite elem_of_app, list_elem_of_singleton. done.
Qed.

Lemma NoDup_set_add (x : string) (s : list string) :
  NoDup s → NoDup (set_add x s).
Proof.
  intros Hs. unfold set_add. destruct (existsb (String.eqb x) s) eqn:E; [done|].
  apply NoDup_app. split_and!; [done | | apply NoDup_singleton].
  intros y Hy Hx. apply list_elem_of_singleton in Hx. subst.
  apply set_has_elem_of in Hy. congruence.
Qed.

Lemma elem_of_set_fold (xs s : list string) (y : string) :
  y ∈ fold_left (fun s x => set_add x s) xs s ↔ y ∈ s ∨ y ∈ xs.
Proof.
  revert s. induction xs as [|x xs IH]; intros s; simpl.
  - rewrite elem_of_nil. tauto.
  - rewrite IH, elem_of_set_add, elem_of_cons. tauto.
Qed.

Lemma NoDup_set_fold (xs s : list string) :
  NoDup s → NoDup (fold_left (fun s x => set_add x s) xs s).
Proof.
  revert s. induction xs as [|x xs IH]; intros s Hs; simpl; [done|].
  apply IH. by apply NoDup_set_add.
Qed.

Lemma elem_of_Set_from (xs : list string) (y : string) :
  y ∈ Set_from xs ↔ y ∈ xs.
Proof.
  unfold Set_from. rewrite elem_of_set_fold, elem_of_nil. tauto.
Qed.

Lemma NoDup_Set_from (xs : list string) : NoDup (Set_from xs).
Proof. apply NoDup_set_fold, NoDup_nil_2. Qed.

Lemma map_get_None (m : jsmap) (k : string) :
  map_get m k = None ↔ k ∉ map_keys m.
Proof.
  induction m as [|[k' v'] m IH]; simpl.
  - split; [intros _; apply not_elem_of_nil | done].
  - destruct (String.eqb k' k) eqn:E.
    + apply String.eqb_eq in E. subst. split; [done|].
      intros Hn. exfalso. apply Hn. left.
    + apply String.eqb_neq in E. rewrite IH, not_elem_of_cons. naive_solver.
Qed.

Lemma diff_unfold (X Y : jsval) :
  diffRecommendationPayloads X Y =
  flat_map (rows_at (flattenJsonValue X "$" []) (flattenJsonValue Y "$" []))
    (Set_from (map_keys (flattenJsonValue X "$" []) ++
               map_keys (flattenJsonValue Y "$" []))).
Proof. reflexivity. Qed.

Lemma rows_at_same (flat : jsmap) (paths : list string) :
  flat_map (rows_at flat flat) paths = [].
Proof.
  induction paths as [|p paths IH]; simpl; [done|].
  rewrite IH. unfold rows_at. by rewrite String.eqb_refl.
Qed.

Lemma elem_of_rows_at (cur next : jsmap) (p : string) (row : report_change) :
  row ∈ rows_at cur next p ↔
  row = {| jsonPath := p; fromValue := rendered cur p;
           toValue := rendered next p |}
  ∧ rendered cur p ≠ rendered next p.
Proof.
  unfold rows_at. destruct (String.eqb _ _) eqn:E.
  - apply String.eqb_eq in E. rewrite elem_of_nil. naive_solver.
  - apply String.eqb_neq in E. rewrite list_elem_of_singleton. naive_solver.
Qed.

Lemma NoDup_rows_paths (cur next : jsmap) (paths : list string) :
  NoDup paths → NoDup (map jsonPath (flat_map (rows_at cur next) paths)).
Proof.
  induction 1 as [|p paths Hp Hnd IH]; simpl; [apply NoDup_nil_2|].
  rewrite map_app. apply NoDup_app. split_and!; [| | done].
  - unfold rows_at. destruct (String.eqb _ _); simpl;
      [apply NoDup_nil_2 | apply NoDup_singleton].
  - intros q Hq Hq'. apply list_elem_of_In, in_map_iff in Hq as (r & <- & Hr).
    apply list_elem_of_In, elem_of_rows_at in Hr as [-> _]. simpl in Hq'.
    apply list_elem_of_In, in_map_iff in Hq' as (r & Hpr & Hr).
    apply in_flat_map in Hr as (q & Hq & Hr).
    apply list_elem_of_In, elem_of_rows_at in Hr as [-> _]. simpl in Hpr.
    subst. by apply list_elem_of_In in Hq.
Qed.

(** C4: the diff of a value against itself is empty, whatever the value:
    objects, arrays, scalars, null, undefined and nested empty containers. *)
Theorem diff_self_is_empty (X : jsval) : diffRecommendationPayloads X X = [].
Proof. rewrite diff_unfold. apply rows_at_same. Qed.

(** *** Reading the diff *)

Lemma elem_of_diff (X Y : jsval) (row : report_change) :
  row ∈ diffRecommendationPayloads X Y ↔
  (jsonPath row ∈ map_keys (flattenJsonValue X "$" [])
   ∨ jsonPath row ∈ map_keys (flattenJsonValue Y "$" []))
  ∧ fromValue row = rendered (flattenJsonValue X "$" []) (jsonPath row)
  ∧ toValue row = rendered (flattenJsonValue Y "$" []) (jsonPath row)
  ∧ rendered (flattenJsonValue X "$" []) (jsonPath row)
    ≠ rendered (flattenJsonValue Y "$" []) (jsonPath row).
Proof.
  rewrite diff_unfold, list_elem_of_In, in_flat_map. split.
  - intros (p & Hp & Hrow).
    apply list_elem_of_In, elem_of_Set_from, elem_of_app in Hp.
    apply list_elem_of_In, elem_of_rows_at in Hrow as [-> Hne]. done.
  - intros (Hp & Hfrom & Hto & Hne). exists (jsonPath row). split.
    + apply list_elem_of_In, elem_of_Set_from, elem_of_app. done.
    + apply list_elem_of_In, elem_of_rows_at. split; [|done].
      destruct row. simpl in *. by subst.
Qed.

Lemma NoDup_diff_paths (X Y : jsval) :
  NoDup (map jsonPath (diffRecommendationPayloads X Y)).
Proof. rewrite diff_unfold. apply NoDup_rows_paths, NoDup_Set_from. Qed.

Lemma rendered_absent (flat : jsmap) (path : string) :
  path ∉ map_keys flat → rendered flat path = "undefined".
Proof.
  intros Hp. apply map_get_None in Hp. unfold rendered. by rewrite Hp.
Qed.

(** *** The flattening, leaf by leaf *)

Lemma set_leaves_app (found more : list (string * string)) (acc : jsmap) :
  set_leaves (found ++ more) acc = set_leaves more (set_leaves found acc).
Proof. apply fold_left_app. Qed.

Lemma flatten_sets_leaves (value : jsval) :
  ∀ path acc,
    flattenJsonValue value path acc = set_leaves (leaves value path) acc.
Proof.
  induction value as [| |b|n|s|items IH|props IH] using jsval_nested_ind;
    intros path acc; try reflexivity.
  - destruct items as [|first rest]; [reflexivity|].
    cbn [flattenJsonValue leaves]. inversion IH as [|? ? Hfirst Hrest]; subst.
    rewrite set_leaves_app, <-Hfirst.
    generalize (flattenJsonValue first (path +:+ "[" +:+ pretty 0%nat +:+ "]")
                  acc).
    generalize 1%nat. clear Hfirst IH.
    induction Hrest as [|item others Hitem _ IHothers]; intros index acc';
      [reflexivity|].
    cbn -[flattenJsonValue leaves set_leaves pretty append].
    rewrite set_leaves_app, <-Hitem. apply IHothers.
  - destruct props as [|[key0 first] rest]; [reflexivity|].
    cbn [flattenJsonValue leaves]. inversion IH as [|? ? Hfirst Hrest]; subst.
    cbn [snd] in Hfirst. cbn zeta. rewrite set_leaves_app, <-Hfirst.
    generalize (flattenJsonValue first
                  (if String.eqb path "$" then "$." +:+ key0
                   else path +:+ "." +:+ key0) acc).
    clear Hfirst IH.
    induction Hrest as [|[key item] others Hitem _ IHothers]; intros acc';
      [reflexivity|].
    cbn -[flattenJsonValue leaves set_leaves pretty append String.eqb].
    rewrite set_leaves_app, <-Hitem. apply IHothers.
Qed.

Lemma elem_of_leaves_array (items : list jsval) (path : string)
  (leaf : string * string) :
  items ≠ [] →
  leaf ∈ leaves (JArr items) path ↔
  ∃ (i : nat) item,
    items !! i = Some item
    ∧ leaf ∈ leaves item (path +:+ "[" +:+ pretty i +:+ "]").
Proof.
  intros Hitems. destruct items as [|first rest]; [done|]. clear Hitems.
  cbn [leaves].
  assert (∀ all (k : nat),
            leaf ∈ (fix each (items : list jsval) (index : nat) :=
                      match items with
                      | [] => []
                      | item :: rest =>
                          leaves item (path +:+ "[" +:+ pretty index +:+ "]")
                          ++ each rest (S index)
                      end) all k ↔
            ∃ (i : nat) item,
              all !! i = Some item
              ∧ leaf ∈ leaves item
                         (path +:+ "[" +:+ pretty (k + i)%nat +:+ "]"))
    as Hall; [|apply (Hall (first :: rest) 0%nat)].
  induction all as [|item others IHall]; intros k.
  - split; [by intros ?%elem_of_nil|]. by intros (i & item & ? & _).
  - rewrite elem_of_app, IHall. split.
    + intros [Hhere|(i & found & Hfound & Hleaf)].
      * exists 0%nat, item. by rewrite Nat.add_0_r.
      * exists (S i), found. split; [done|].
        by replace (k + S i)%nat with (S k + i)%nat by lia.
    + intros ([|i] & found & Hfound & Hleaf).
      * left. injection Hfound as <-. by rewrite Nat.add_0_r in Hleaf.
      * right. exists i, found. split; [done|].
        by replace (S k + i)%nat with (k + S i)%nat by lia.
Qed.

Lemma elem_of_leaves_object (props : list (string * jsval)) (path : string)
  (leaf : string * string) :
  props ≠ [] →
  leaf ∈ leaves (JObj props) path ↔
  ∃ key item,
    (key, item) ∈ props
    ∧ leaf ∈ leaves item
               (if String.eqb path "$" then "$." +:+ key
                else path +:+ "." +:+ key).
Proof.
  intros Hprops. destruct props as [|first rest]; [done|]. clear Hprops.
  cbn [leaves].
  assert (∀ all,
            leaf ∈ (fix each (props : list (string * jsval)) :=
                      match props with
                      | [] => []
                      | (key, item) :: rest =>
                          leaves item
                            (if String.eqb path "$" then "$." +:+ key
                             else path +:+ "." +:+ key)
                          ++ each rest
                      end) all ↔
            ∃ key item,
              (key, item) ∈ all
              ∧ leaf ∈ leaves item
                         (if String.eqb path "$" then "$." +:+ key
                          else path +:+ "." +:+ key))
    as Hall; [|apply (Hall (first :: rest))].
  induction all as [|[key item] others IHall].
  - split; [by intros ?%elem_of_nil|].
    intros (key & item & Hin & _). by apply elem_of_nil in Hin.
  - rewrite elem_of_app, IHall. split.
    + intros [Hhere|(k & found & Hfound & Hleaf)].
      * exists key, item. split; [by left|done].
      * exists k, found. split; [by right|done].
    + intros (k & found & Hfound & Hleaf).
      apply elem_of_cons in Hfound as [[= -> ->]|Hfound]; [by left|].
      right. by exists k, found.
Qed.

Lemma map_get_set (k v : string) (m : jsmap) (q : string) :
  map_get (map_set k v m) q
  = if String.eqb k q then Some v else map_get m q.
Proof.
  induction m as [|[k' v'] m IH]; cbn [map_set map_get]; [done|].
  destruct (String.eqb k' k) eqn:Hk; cbn [map_get].
  - apply String.eqb_eq in Hk as ->. by destruct (String.eqb k q).
  - destruct (String.eqb k' q) eqn:Hq; [|done].
    apply String.eqb_eq in Hq as ->. apply String.eqb_neq in Hk.
    destruct (String.eqb k q) eqn:Hkq; [|done].
    apply String.eqb_eq in Hkq. congruence.
Qed.

Lemma map_get_set_leaves (found : list (string * string)) (acc : jsmap)
  (path : string) :
  map_get (set_leaves found acc) path
  = match last_leaf found path with
    | Some text => Some text
    | None => map_get acc path
    end.
Proof.
  revert acc. induction found as [|[p text] found IH]; intros acc; [done|].
  cbn [set_leaves fold_left last_leaf fst snd].
  change (fold_left _ found ?m) with (set_leaves found m).
  rewrite IH, map_get_set. destruct (last_leaf found path); [done|].
  by destruct (String.eqb p path).
Qed.

Lemma last_leaf_Some (found : list (string * string)) (path : string) :
  is_Some (last_leaf found path) ↔ ∃ text, (path, text) ∈ found.
Proof.
  induction found as [|[p text] found IH]; cbn [last_leaf].
  - split; [by intros [? ?]|]. intros [? Hin]. by apply elem_of_nil in Hin.
  - destruct (last_leaf found path) as [later|].
    + split; [|by eexists]. intros _.
      destruct (proj1 IH) as [t Ht]; [by eexists|]. exists t. by right.
    + destruct (String.eqb p path) eqn:Hp.
      * apply String.eqb_eq in Hp as ->. split; [|by eexists].
        intros _. exists text. by left.
      * apply String.eqb_neq in Hp. split; [by intros [? ?]|].
        intros [t Ht]. apply elem_of_cons in Ht as [[= <- _]|Ht]; [done|].
        apply IH. by exists t.
Qed.

Lemma last_leaf_elem_of (found : list (string * string)) (path text : string) :
  last_leaf found path = Some text → (path, text) ∈ found.
Proof.
  induction found as [|[p t] found IH]; cbn [last_leaf]; [done|].
  destruct (last_leaf found path) as [later|].
  - intros [= ->]. right. by apply IH.
  - destruct (String.eqb p path) eqn:Hp; [|done].
    apply String.eqb_eq in Hp as ->. intros [= ->]. by left.
Qed.

Lemma rendered_shown (value : jsval) (path : string) :
  rendered (flattenJsonValue value "$" []) path = shown_at value path.
Proof.
  unfold rendered, shown_at. rewrite flatten_sets_leaves, map_get_set_leaves.
  by destruct (last_leaf _ _).
Qed.

Lemma flattened_paths (value : jsval) (path : string) :
  path ∈ map_keys (flattenJsonValue value "$" []) ↔
  ∃ text, (path, text) ∈ leaves value "$".
Proof.
  rewrite <-last_leaf_Some.
  destruct (decide (path ∈ map_keys (flattenJsonValue value "$" [])))
    as [Hin|Hnot].
  - split; [|done]. intros _.
    destruct (last_leaf (leaves value "$") path) as [text|] eqn:Hlast;
      [by eexists|].
    exfalso. revert Hin. apply map_get_None.
    by rewrite flatten_sets_leaves, map_get_set_leaves, Hlast.
  - split; [done|]. intros [text Hlast]. exfalso.
    apply map_get_None in Hnot.
    by rewrite flatten_sets_leaves, map_get_set_leaves, Hlast in Hnot.
Qed.

(** C6: the flattening is the leaves of the value set into the map in the
    order of the traversal.  A leaf is [undefined], [null], an empty array,
    an empty object or a scalar, with the text ["undefined"], ["null"],
    ["[]"], ["{}"] or its JSON text; the leaves of an array that is not
    empty are those of its elements, under the path with the index in
    brackets, and the leaves of an object that is not empty those of its
    properties, under the path with a dot and the key.  The diff has
    exactly one row for each path of a leaf of either side at which the
    two sides show different texts, where a side shows the text of its last
    leaf at the path, and ["undefined"] where it has none. *)
Theorem diff_canonical_leaves_and_union :
  (∀ value path acc,
     flattenJsonValue value path acc = set_leaves (leaves value path) acc)
  ∧ (∀ path,
       leaves JUndefined path = [(path, "undefined")]
       ∧ leaves JNull path = [(path, "null")]
       ∧ leaves (JArr []) path = [(path, "[]")]
       ∧ leaves (JObj []) path = [(path, "{}")]
       ∧ (∀ b, leaves (JBool b) path = [(path, JSON_stringify (JBool b))])
       ∧ (∀ n, leaves (JNum n) path = [(path, JSON_stringify (JNum n))])
       ∧ (∀ s, leaves (JStr s) path = [(path, JSON_stringify (JStr s))]))
  ∧ (∀ items path leaf,
       items ≠ [] →
       leaf ∈ leaves (JArr items) path ↔
       ∃ (i : nat) item,
         items !! i = Some item
         ∧ leaf ∈ leaves item (path +:+ "[" +:+ pretty i +:+ "]"))
  ∧ (∀ props path leaf,
       props ≠ [] →
       leaf ∈ leaves (JObj props) path ↔
       ∃ key item,
         (key, item) ∈ props
         ∧ leaf ∈ leaves item
                    (if String.eqb path "$" then "$." +:+ key
                     else path +:+ "." +:+ key))
  ∧ (∀ value path,
       (∀ text, (path, text) ∉ leaves value "$") →
       shown_at value path = "undefined")
  ∧ (∀ X Y,
       (∀ row,
          row ∈ diffRecommendationPayloads X Y ↔
          (∃ text, (jsonPath row, text) ∈ leaves X "$"
                   ∨ (jsonPath row, text) ∈ leaves Y "$")
          ∧ fromValue row = shown_at X (jsonPath row)
          ∧ toValue row = shown_at Y (jsonPath row)
          ∧ shown_at X (jsonPath row) ≠ shown_at Y (jsonPath row))
       ∧ NoDup (map jsonPath (diffRecommendationPayloads X Y))).
Proof.
  split_and!.
  - apply flatten_sets_leaves.
  - intros path. split_and!; reflexivity.
  - apply elem_of_leaves_array.
  - apply elem_of_leaves_object.
  - intros value path Hnone. unfold shown_at.
    destruct (last_leaf (leaves value "$") path) as [text|] eqn:Hlast; [|done].
    apply last_leaf_elem_of in Hlast. by destruct (Hnone text).
  - intros X Y. split; [|apply NoDup_diff_paths].
    intros row. rewrite elem_of_diff, !rendered_shown, !flattened_paths.
    split.
    + intros ([[text Hleaf]|[text Hleaf]] & Hrest);
        (split; [exists text; by (left + right)|done]).
    + intros ([text [Hleaf|Hleaf]] & Hrest);
        (split; [(left + right); by exists text|done]).
Qed.

(** X5: the diff of [Y] against [X] is the diff of [X] against [Y] read
    backwards: the same paths, each once, with [from] and [to] exchanged (the
    rows may come in another order). *)
Theorem diff_backwards (X Y : jsval) :
  map reversed (diffRecommendationPayloads X Y)
  ≡ₚ diffRecommendationPayloads Y X.
Proof.
  apply NoDup_Permutation.
  - apply (NoDup_fmap_1 jsonPath). rewrite <- list_fmap_compose.
    apply (NoDup_diff_paths X Y).
  - apply (NoDup_fmap_1 jsonPath), NoDup_diff_paths.
  - intros row. rewrite list_elem_of_fmap. split.
    + intros (row0 & -> & Hrow0). apply elem_of_diff in Hrow0.
      apply elem_of_diff. cbn [reversed jsonPath fromValue toValue].
      naive_solver.
    + intros Hrow. apply elem_of_diff in Hrow. exists (reversed row). split.
      * by destruct row.
      * apply elem_of_diff. cbn [reversed jsonPath fromValue toValue].
        naive_solver.
Qed.

(** X6: the diff is empty exactly when the two payloads render alike at
    every path.  That is less than being equal: a key with a dot in it
    renders at the path of the nesting it spells, so the diff of a payload
    with the key [a.b] against the payload with [b] nested in [a] is
    empty. *)
Theorem diff_empty_iff_rendered_alike :
  (∀ X Y,
     diffRecommendationPayloads X Y = [] ↔
     ∀ path, rendered (flattenJsonValue X "$" []) path
             = rendered (flattenJsonValue Y "$" []) path)
  ∧ (∀ a b v,
       diffRecommendationPayloads
         (JObj [(a +:+ "." +:+ b, v)]) (JObj [(a, JObj [(b, v)])]) = []).
Proof.
  split.
  - intros X Y. split.
    + intros Hnone path.
      destruct (decide (rendered (flattenJsonValue X "$" []) path
                        = rendered (flattenJsonValue Y "$" []) path))
        as [|Hne]; [done|].
      destruct (decide (path ∈ map_keys (flattenJsonValue X "$" [])))
        as [HX|HX];
        [|destruct (decide (path ∈ map_keys (flattenJsonValue Y "$" [])))
            as [HY|HY]].
      * assert ({| jsonPath := path;
                   fromValue := rendered (flattenJsonValue X "$" []) path;
                   toValue := rendered (flattenJsonValue Y "$" []) path |}
                ∈ diffRecommendationPayloads X Y) as Hin
          by (apply elem_of_diff; simpl; auto).
        rewrite Hnone in Hin. by apply elem_of_nil in Hin.
      * assert ({| jsonPath := path;
                   fromValue := rendered (flattenJsonValue X "$" []) path;
                   toValue := rendered (flattenJsonValue Y "$" []) path |}
                ∈ diffRecommendationPayloads X Y) as Hin
          by (apply elem_of_diff; simpl; auto).
        rewrite Hnone in Hin. by apply elem_of_nil in Hin.
      * by rewrite !rendered_absent.
    + intros Halike.
      destruct (diffRecommendationPayloads X Y) as [|row rest] eqn:Hrows;
        [done|].
      assert (row ∈ diffRecommendationPayloads X Y) as Hin
        by (rewrite Hrows; apply elem_of_cons; by left).
      apply elem_of_diff in Hin as (_ & _ & _ & Hne). by destruct Hne.
  - intros a b v. rewrite diff_unfold.
    assert (flattenJsonValue (JObj [(a +:+ "." +:+ b, v)]) "$" []
            = flattenJsonValue (JObj [(a, JObj [(b, v)])]) "$" []) as ->;
      [|apply rows_at_same].
    cbn [flattenJsonValue String.eqb Ascii.eqb Bool.eqb String.append].
    assert (∀ s t u : string, s +:+ (t +:+ u) = (s +:+ t) +:+ u) as Hassoc.
    { intros s t u. induction s as [|c s IH]; [done|].
      change (String c (s +:+ (t +:+ u)) = String c ((s +:+ t) +:+ u)).
      by rewrite IH. }
    change (String "$" (String "." (a +:+ "." +:+ b)))
      with ("$." +:+ (a +:+ "." +:+ b)).
    change (String "$" (String "." a)) with ("$." +:+ a).
    by rewrite Hassoc.
Qed.

End DiffProperties.

(** ** Manual company update engine *)

Section CompanyProperties.
Context `{JsRuntime} `{!JsonParser}.

(** *** Objects used as parameter records *)

Lemma obj_get_set_eq (obj : list (string * jsval)) (k : string) (v : jsval) :
  obj_get (obj_set k v obj) k = Some v.
Proof.
  induction obj as [|[k' v'] obj IH]; simpl.
  - by rewrite String.eqb_refl.
  - destruct (String.eqb k' k) eqn:E; simpl; rewrite E; done.
Qed.

Lemma obj_get_set_ne (obj : list (string * jsval)) (k k' : string) (v : jsval) :
  k ≠ k' → obj_get (obj_set k v obj) k' = obj_get obj k'.
Proof.
  intros Hne. induction obj as [|[k0 v0] obj IH]; simpl.
  - apply String.eqb_neq in Hne. by rewrite Hne.
  - destruct (String.eqb k0 k) eqn:E; simpl.
    + apply String.eqb_eq in E. subst k0.
      apply String.eqb_neq in Hne. by rewrite Hne.
    + destruct (String.eqb k0 k'); done.
Qed.

Lemma obj_set_keys (obj : list (string * jsval)) (k : string) (v : jsval) :
  ∀ x, x ∈ map fst (obj_set k v obj) ↔ x = k ∨ x ∈ map fst obj.
Proof.
  intros x. induction obj as [|[k0 v0] obj IH]; simpl.
  - rewrite list_elem_of_singleton, elem_of_nil. tauto.
  - destruct (String.eqb k0 k) eqn:E; simpl.
    + apply String.eqb_eq in E. subst. rewrite elem_of_cons. tauto.
    + rewrite !elem_of_cons, IH. tauto.
Qed.

Lemma obj_set_NoDup (obj : list (string * jsval)) (k : string) (v : jsval) :
  NoDup (map fst obj) → NoDup (map fst (obj_set k v obj)).
Proof.
  induction obj as [|[k0 v0] obj IH]; simpl; intros Hnd.
  - apply NoDup_singleton.
  - destruct (String.eqb k0 k) eqn:E; simpl; [done|].
    apply NoDup_cons in Hnd as [Hk0 Hnd]. apply NoDup_cons. split; [|auto].
    rewrite obj_set_keys. apply String.eqb_neq in E. naive_solver.
Qed.

Lemma obj_get_None (obj : list (string * jsval)) (k : string) :
  obj_get obj k = None ↔ k ∉ map fst obj.
Proof.
  induction obj as [|[k0 v0] obj IH]; simpl.
  - split; [intros _; apply not_elem_of_nil | done].
  - destruct (String.eqb k0 k) eqn:E.
    + apply String.eqb_eq in E. subst. split; [done|].
      intros Hn. exfalso. apply Hn. left.
    + apply String.eqb_neq in E. rewrite IH, not_elem_of_cons. naive_solver.
Qed.

(** *** Binding and the UPDATE statement *)

Lemma bind_all_keys (params : list (string * jsval)) (bound : list (string * cell)) :
  bind_all params = Some bound → map fst bound = map fst params.
Proof.
  revert bound. induction params as [|[k v] params IH]; simpl; intros bound.
  - by intros [= <-].
  - destruct (bind_value v) as [c|]; [|done].
    destruct (bind_all params) as [bound'|]; [|done].
    intros [= <-]. simpl. f_equal. by apply IH.
Qed.

Lemma bind_all_get (params : list (string * jsval)) (bound : list (string * cell))
  (k : string) :
  bind_all params = Some bound →
  cell_get bound k = obj_get params k ≫= bind_value.
Proof.
  revert bound. induction params as [|[k0 v] params IH]; simpl; intros bound.
  - by intros [= <-].
  - destruct (bind_value v) as [c|] eqn:Hv; [|done].
    destruct (bind_all params) as [bound'|]; [|done].
    intros [= <-]. simpl. destruct (String.eqb k0 k); [by simpl | by apply IH].
Qed.

Lemma cell_get_None (bound : list (string * cell)) (k : string) :
  k ∉ map fst bound → cell_get bound k = None.
Proof.
  induction bound as [|[k0 c] bound IH]; simpl; [done|].
  rewrite not_elem_of_cons. intros [Hne Hk].
  assert (String.eqb k0 k = false) as -> by (apply String.eqb_neq; congruence).
  auto.
Qed.

Lemma set_columns_lookup (bound : list (string * cell)) (r : gmap string cell)
  (k : string) :
  NoDup (map fst bound) →
  set_columns bound r !! k =
  match cell_get bound k with Some c => Some c | None => r !! k end.
Proof.
  unfold set_columns. revert r.
  induction bound as [|[k0 c] bound IH]; simpl; intros r Hnd; [done|].
  apply NoDup_cons in Hnd as [Hk0 Hnd]. rewrite IH by done.
  destruct (String.eqb k0 k) eqn:E.
  - apply String.eqb_eq in E. subst.
    rewrite cell_get_None by done. apply lookup_insert_eq.
  - apply String.eqb_neq in E. by rewrite lookup_insert_ne.
Qed.

(** *** The fixed tables *)

Lemma name_map_get_elem (m : list (string * string)) (k v : string) :
  name_map_get m k = Some v → (k, v) ∈ m.
Proof.
  induction m as [|[k0 v0] m IH]; simpl; [done|].
  destruct (String.eqb k0 k) eqn:E.
  - apply String.eqb_eq in E. intros [= <-]. subst. left.
  - intros Hm. right. auto.
Qed.

Lemma resolveManualColumn_editable (field column : string) :
  resolveManualColumn field = Some column →
  column ∈ MANUAL_EDITABLE_COLUMNS.
Proof.
  unfold resolveManualColumn.
  destruct (name_map_get MANUAL_FIELD_NAME_MAP field) as [c|] eqn:Hmap.
  - intros [= <-]. apply name_map_get_elem, list_elem_of_In in Hmap.
    apply list_elem_of_In. simpl in Hmap |- *.
    intuition congruence.
  - destruct (set_has MANUAL_EDITABLE_COLUMNS field) eqn:E; [|done].
    intros [= <-]. by apply set_has_elem_of in E.
Qed.

Lemma editable_not_bookkeeping (column : string) :
  column ∈ MANUAL_EDITABLE_COLUMNS →
  column ≠ "manual_change_log" ∧ column ≠ "updated_at".
Proof.
  intros Hc. apply list_elem_of_In in Hc. simpl in Hc.
  split; intros ->; intuition discriminate.
Qed.

(** *** The loop over the entries *)

Lemma scan_entry_unfold (row : gmap string cell) (ts : string) (st : scan)
  (entry : string * jsval) :
  scan_entry row ts st entry =
  match entry_error entry with
  | Some e =>
      {| changes := changes st; updatePayload := updatePayload st;
         validationErrors := validationErrors st ++ [e] |}
  | None =>
      match entry_change row entry with
      | Some (columnName, v) =>
          {| changes := changes st ++
               [{| column := columnName;
                   from := or_null (normalizedPrevious_of row columnName);
                   to := or_null v;
                   changedAt := ts |}];
             updatePayload := obj_set columnName v (updatePayload st);
             validationErrors := validationErrors st |}
      | None => st
      end
  end.
Proof.
  destruct entry as [field raw].
  unfold scan_entry, entry_error, entry_change, entry_request. simpl.
  destruct (resolveManualColumn field) as [c|]; [|done].
  destruct (error (coerceManualValue c raw)); [done|].
  destruct (shouldPersist (coerceManualValue c raw)); simpl; [|done].
  by destruct (isSame _ _).
Qed.

Lemma scan_errors (row : gmap string cell) (ts : string)
  (entries : list (string * jsval)) (st : scan) :
  validationErrors (fold_left (scan_entry row ts) entries st) =
  validationErrors st ++ omap entry_error entries.
Proof.
  revert st. induction entries as [|entry entries IH]; intros st; simpl.
  - by rewrite app_nil_r.
  - rewrite IH, scan_entry_unfold.
    destruct (entry_error entry) as [e|]; simpl.
    + by rewrite <- app_assoc.
    + by destruct (entry_change row entry) as [[c v]|].
Qed.

Lemma entry_request_column (entry : string * jsval) (c : string) (v : jsval) :
  entry_request entry = Some (c, v) →
  resolveManualColumn (fst entry) = Some c ∧ entry_error entry = None.
Proof.
  unfold entry_request, entry_error.
  destruct (resolveManualColumn (fst entry)) as [c0|]; [|done].
  destruct (error (coerceManualValue c0 (snd entry))); [done|].
  destruct (shouldPersist _); [|done]. by intros [= <- <-].
Qed.

Lemma entry_change_request (row : gmap string cell) (entry : string * jsval)
  (c : string) (v : jsval) :
  entry_change row entry = Some (c, v) →
  entry_request entry = Some (c, v)
  ∧ isSame (normalizedPrevious_of row c) v = false.
Proof.
  unfold entry_change. destruct (entry_request entry) as [[c0 v0]|]; [|done].
  destruct (isSame _ _) eqn:E; [done|]. by intros [= <- <-].
Qed.

Lemma entry_error_no_change (row : gmap string cell) (entry : string * jsval)
  (e : string) :
  entry_error entry = Some e → entry_change row entry = None.
Proof.
  intros He. destruct (entry_change row entry) as [[c v]|] eqn:E; [|done].
  apply entry_change_request in E as [E _].
  apply entry_request_column in E as [_ E]. congruence.
Qed.

Lemma scan_payload_get (row : gmap string cell) (ts : string)
  (entries : list (string * jsval)) (st : scan) (columnName : string) :
  obj_get (updatePayload (fold_left (scan_entry row ts) entries st)) columnName =
  match written row entries columnName with
  | Some v => Some v
  | None => obj_get (updatePayload st) columnName
  end.
Proof.
  revert st. induction entries as [|entry entries IH]; intros st; simpl; [done|].
  rewrite IH. destruct (written row entries columnName); [done|].
  rewrite scan_entry_unfold.
  destruct (entry_error entry) eqn:He.
  { by rewrite (entry_error_no_change _ _ _ He). }
  destruct (entry_change row entry) as [[c v]|]; [|done]. simpl.
  destruct (String.eqb c columnName) eqn:E.
  - apply String.eqb_eq in E. subst. apply obj_get_set_eq.
  - apply String.eqb_neq in E. by apply obj_get_set_ne.
Qed.

Lemma scan_payload_NoDup (row : gmap string cell) (ts : string)
  (entries : list (string * jsval)) (st : scan) :
  NoDup (map fst (updatePayload st)) →
  NoDup (map fst (updatePayload (fold_left (scan_entry row ts) entries st))).
Proof.
  revert st. induction entries as [|entry entries IH]; intros st Hnd; simpl; [done|].
  apply IH. rewrite scan_entry_unfold.
  destruct (entry_error entry); [done|].
  destruct (entry_change row entry) as [[c v]|]; [|done]. simpl.
  by apply obj_set_NoDup.
Qed.

Lemma scan_fixed (row : gmap string cell) (ts : string)
  (entries : list (string * jsval)) (st : scan) :
  (∀ entry, entry ∈ entries → scan_entry row ts st entry = st) →
  fold_left (scan_entry row ts) entries st = st.
Proof.
  induction entries as [|entry entries IH]; simpl; intros Hfix; [done|].
  rewrite Hfix by left. apply IH. intros e He. apply Hfix. by right.
Qed.


Lemma scan_changes (row : gmap string cell) (ts : string)
  (entries : list (string * jsval)) (st : scan) :
  changes (fold_left (scan_entry row ts) entries st) =
  changes st ++
  omap (fun entry =>
          match entry_change row entry with
          | Some (c, v) =>
              Some {| column := c;
                      from := or_null (normalizedPrevious_of row c);
                      to := or_null v;
                      changedAt := ts |}
          | None => None
          end) entries.
Proof.
  revert st. induction entries as [|entry entries IH]; intros st; simpl.
  - by rewrite app_nil_r.
  - rewrite IH, scan_entry_unfold.
    destruct (entry_error entry) eqn:He.
    { by rewrite (entry_error_no_change _ _ _ He). }
    destruct (entry_change row entry) as [[c v]|]; [|done]. simpl.
    by rewrite <- app_assoc.
Qed.

(** *** Validation *)

Lemma entry_error_offending (entry : string * jsval) :
  entry_error entry = offending_message entry.
Proof.
  destruct entry as [field raw]. unfold entry_error, offending_message.
  cbn [fst snd].
  destruct (resolveManualColumn field) as [c|]; [|done].
  unfold coerceManualValue.
  destruct raw as [| | |n|s| |]; try done.
  - by destruct (set_has MANUAL_NUMERIC_COLUMNS c).
  - destruct (String.eqb (trim s) ""); cbn [negb andb];
      [by rewrite andb_false_r|].
    destruct (set_has MANUAL_NUMERIC_COLUMNS c); cbn [andb]; [|done].
    destruct (Number_finite (trim s)) eqn:E; cbn [error persist].
    + by rewrite bool_decide_eq_false_2.
    + by rewrite bool_decide_eq_true_2.
Qed.

Lemma validation_errors_offending (row : gmap string cell) (ts : string)
  (entries : list (string * jsval)) :
  validationErrors (scan_entries row ts entries) = omap offending_message entries.
Proof.
  unfold scan_entries. rewrite scan_errors. simpl.
  induction entries as [|entry entries IH]; [done|].
  cbn [omap list_omap]. by rewrite entry_error_offending, IH.
Qed.

(** C2: when some entry sends a numeric column a string that is not blank
    and is no finite number, the call on an existing company throws the
    error of status 400 whose message joins the messages of all such
    entries, and the store is as it was, whatever the other entries ask. *)
Theorem invalid_numeric_string_fails_whole_request
  (d : db) (e : env) (numericId : Z) (props : list (string * jsval))
  (field s columnName : string) :
  is_Some (companies d !! numericId) →
  (field, JStr s) ∈ props →
  resolveManualColumn field = Some columnName →
  columnName ∈ MANUAL_NUMERIC_COLUMNS →
  trim s ≠ "" →
  Number_finite (trim s) = None →
  applyManualCompanyUpdates d e (Some numericId) (JObj props) =
    (Threw (status_error (join "; " (omap offending_message props)) 400), d)
  ∧ "Invalid numeric value for " +:+ columnName ∈ omap offending_message props.
Proof.
  intros [row Hrow] Hin Hcol Hnum Htrim Hparse.
  assert ("Invalid numeric value for " +:+ columnName
          ∈ omap offending_message props) as Hmsg.
  { apply list_elem_of_omap. exists (field, JStr s). split; [done|].
    unfold offending_message. cbn [fst snd]. rewrite Hcol.
    apply set_has_elem_of in Hnum. unfold set_has. rewrite Hnum.
    apply String.eqb_neq in Htrim. rewrite Htrim.
    by rewrite bool_decide_eq_true_2. }
  split; [|done].
  unfold applyManualCompanyUpdates. cbn [truthy typeof Array_isArray negb orb].
  rewrite String.eqb_refl. cbn [negb orb Object_entries]. rewrite Hrow.
  rewrite validation_errors_offending.
  destruct (omap offending_message props) as [|m ms]; [|done].
  by apply elem_of_nil in Hmsg.
Qed.

(** *** Applying the same request again *)

Lemma written_unresolved (row : gmap string cell)
  (entries : list (string * jsval)) (columnName : string) :
  columnName ∉ resolved_columns entries → written row entries columnName = None.
Proof.
  unfold resolved_columns.
  induction entries as [|entry entries IH]; [done|].
  cbn [omap list_omap written]. intros Hnot.
  destruct (entry_change row entry) as [[c v]|] eqn:Hch.
  - apply entry_change_request in Hch as [Hreq _].
    apply entry_request_column in Hreq as [Hres _]. rewrite Hres in Hnot.
    apply not_elem_of_cons in Hnot as [Hne Hnot]. rewrite (IH Hnot).
    apply String.eqb_neq in Hne. rewrite String.eqb_sym. by rewrite Hne.
  - destruct (resolveManualColumn (fst entry)).
    + apply not_elem_of_cons in Hnot as [_ Hnot]. by rewrite (IH Hnot).
    + by rewrite (IH Hnot).
Qed.

Lemma written_unique (row : gmap string cell)
  (entries : list (string * jsval)) (entry : string * jsval)
  (columnName : string) :
  NoDup (resolved_columns entries) →
  entry ∈ entries →
  resolveManualColumn (fst entry) = Some columnName →
  written row entries columnName =
  match entry_change row entry with Some (_, v) => Some v | None => None end.
Proof.
  unfold resolved_columns.
  induction entries as [|entry0 entries IH]; intros Hnd Hin Hres.
  { by apply elem_of_nil in Hin. }
  cbn [omap list_omap written] in *.
  apply elem_of_cons in Hin as [->|Hin].
  - rewrite Hres in Hnd. apply NoDup_cons in Hnd as [Hnot _].
    rewrite (written_unresolved _ _ _ Hnot).
    destruct (entry_change row entry0) as [[c v]|] eqn:Hch; [|done].
    apply entry_change_request in Hch as [Hreq _].
    apply entry_request_column in Hreq as [Hres' _].
    assert (c = columnName) as -> by congruence.
    by rewrite String.eqb_refl.
  - assert (columnName ∈ omap (λ entry, resolveManualColumn entry.1) entries)
      as Hcol by (apply list_elem_of_omap; eauto).
    destruct (resolveManualColumn (fst entry0)) as [c0|] eqn:Hres0.
    + apply NoDup_cons in Hnd as [Hnot Hnd]. rewrite (IH Hnd Hin Hres).
      destruct (entry_change row entry) as [[c v]|]; [done|].
      destruct (entry_change row entry0) as [[c v]|] eqn:Hch; [|done].
      apply entry_change_request in Hch as [Hreq _].
      apply entry_request_column in Hreq as [Hres' _].
      assert (c = c0) as -> by congruence.
      assert (String.eqb c0 columnName = false) as ->; [|done].
      apply String.eqb_neq. intros ->. done.
    + rewrite (IH Hnd Hin Hres).
      destruct (entry_change row entry) as [[c v]|]; [done|].
      destruct (entry_change row entry0) as [[c v]|] eqn:Hch; [|done].
      apply entry_change_request in Hch as [Hreq _].
      apply entry_request_column in Hreq as [Hres' _]. congruence.
Qed.

Lemma isSame_bound (v : jsval) (c : cell) :
  bind_value v = Some c → isSame (cell_to_js c) v = true.
Proof.
  destruct v; simpl; intros [= <-]; unfold isSame; simpl; try done.
  - by rewrite bool_decide_eq_true_2.
  - apply String.eqb_refl.
Qed.

Lemma cell_get_Some (bound : list (string * cell)) (k : string) :
  k ∈ map fst bound → is_Some (cell_get bound k).
Proof.
  induction bound as [|[k0 c] bound IH]; simpl.
  - intros Hk. by apply elem_of_nil in Hk.
  - destruct (String.eqb k0 k) eqn:E; [by eexists|].
    apply String.eqb_neq in E. rewrite elem_of_cons. naive_solver.
Qed.

(** What the row holds in an editable column once the UPDATE has run. *)
Lemma run_company_update_lookup (e : env) (payload : list (string * jsval))
  (logText : jsval) (row newRow : gmap string cell) (columnName : string) :
  NoDup (map fst payload) →
  run_company_update e (obj_set "manual_change_log" logText payload) row
    = inr newRow →
  columnName ∈ MANUAL_EDITABLE_COLUMNS →
  match obj_get payload columnName with
  | Some v => ∃ c, bind_value v = Some c ∧ newRow !! columnName = Some c
  | None => newRow !! columnName = row !! columnName
  end.
Proof.
  intros Hnd Hrun Hcol. apply editable_not_bookkeeping in Hcol as [Hlog Hupd].
  unfold run_company_update in Hrun.
  destruct (store_fault e 0%nat); [done|].
  destruct (bind_all _) as [bound|] eqn:Hbind; [|done].
  destruct (violates_not_null bound); [done|].
  injection Hrun as <-.
  rewrite lookup_insert_ne by done.
  rewrite set_columns_lookup
    by (rewrite (bind_all_keys _ _ Hbind); by apply obj_set_NoDup).
  pose proof (bind_all_get _ _ columnName Hbind) as Hget.
  rewrite obj_get_set_ne in Hget by done.
  destruct (obj_get payload columnName) as [v|] eqn:Hv.
  - assert (is_Some (cell_get bound columnName)) as [c Hc].
    { apply cell_get_Some. rewrite (bind_all_keys _ _ Hbind), obj_set_keys.
      right. destruct (decide (columnName ∈ map fst payload)) as [?|Hn]; [done|].
      apply obj_get_None in Hn. congruence. }
    rewrite Hc in Hget |- *. simpl in Hget. eauto.
  - simpl in Hget. by rewrite Hget.
Qed.

Lemma omap_nil_None {A B} (f : A → option B) (l : list A) (x : A) :
  omap f l = [] → x ∈ l → f x = None.
Proof.
  induction l as [|y l IH]; intros Hnil Hx; [by apply elem_of_nil in Hx|].
  cbn [omap list_omap] in Hnil. destruct (f y) eqn:Hy; [done|].
  apply elem_of_cons in Hx as [->|Hx]; auto.
Qed.

(** Once the UPDATE of a request has run, no entry of the request changes
    the row any more, when no two keys resolve to one column. *)
Lemma second_scan_fixed (row newRow : gmap string cell) (e : env)
  (ts ts' : string) (entries : list (string * jsval)) (logText : jsval)
  (st : scan) :
  NoDup (resolved_columns entries) →
  omap entry_error entries = [] →
  run_company_update e
    (obj_set "manual_change_log" logText
       (updatePayload (scan_entries row ts entries))) row = inr newRow →
  fold_left (scan_entry newRow ts') entries st = st.
Proof.
  intros Hnd Herr Hrun. apply scan_fixed. intros entry Hin.
  rewrite scan_entry_unfold. rewrite (omap_nil_None _ _ _ Herr Hin).
  destruct (entry_change newRow entry) as [[c v]|] eqn:Hch; [|done].
  exfalso. apply entry_change_request in Hch as [Hreq Hdiff].
  pose proof (entry_request_column _ _ _ Hreq) as [Hres _].
  pose proof (written_unique row _ _ _ Hnd Hin Hres) as Hw.
  pose proof (scan_payload_get row ts entries
    {| changes := []; updatePayload := []; validationErrors := [] |} c) as Hget.
  fold (scan_entries row ts entries) in Hget. rewrite Hw in Hget. simpl in Hget.
  assert (NoDup (map fst (updatePayload (scan_entries row ts entries)))) as Hkeys.
  { apply scan_payload_NoDup. simpl. apply NoDup_nil_2. }
  pose proof (run_company_update_lookup _ _ _ _ _ c Hkeys Hrun
    (resolveManualColumn_editable _ _ Hres)) as Hlook.
  unfold entry_change in Hget. rewrite Hreq in Hget.
  destruct (isSame (normalizedPrevious_of row c) v) eqn:Hold.
  - rewrite Hget in Hlook. unfold normalizedPrevious_of in Hdiff, Hold.
    rewrite Hlook in Hdiff. congruence.
  - rewrite Hget in Hlook. destruct Hlook as (stored & Hbind & Hnew).
    unfold normalizedPrevious_of in Hdiff. rewrite Hnew in Hdiff.
    rewrite (isSame_bound _ _ Hbind) in Hdiff. done.
Qed.


(** *** What a call leaves alone *)

Lemma scan_payload_keys (row : gmap string cell) (ts : string)
  (entries : list (string * jsval)) (c : string) :
  c ∉ resolved_columns entries →
  c ∉ map fst (updatePayload (scan_entries row ts entries)).
Proof.
  intros Hc. apply obj_get_None. unfold scan_entries.
  rewrite scan_payload_get, written_unresolved by done. done.
Qed.

Lemma run_company_update_other (e : env) (params : list (string * jsval))
  (row newRow : gmap string cell) (c : string) :
  NoDup (map fst params) →
  run_company_update e params row = inr newRow →
  c ∉ map fst params → c ≠ "updated_at" →
  newRow !! c = row !! c.
Proof.
  intros Hnd Hrun Hc Hupd. unfold run_company_update in Hrun.
  destruct (store_fault e 0%nat); [done|].
  destruct (bind_all _) as [bound|] eqn:Hbind; [|done].
  destruct (violates_not_null bound); [done|].
  injection Hrun as <-. rewrite lookup_insert_ne by done.
  rewrite set_columns_lookup by (by rewrite (bind_all_keys _ _ Hbind)).
  rewrite cell_get_None; [done|]. by rewrite (bind_all_keys _ _ Hbind).
Qed.

(** X1: a call of the manual company update engine never touches the
    cases, the reports or their change rows, nor any other company; in the
    company it names it leaves every column alone but those the keys of the
    request resolve to, the change log and the update stamp; and unless it
    reports [updated: true] it leaves the whole store as it was, so a call
    that throws has written nothing. *)
Theorem manual_update_leaves_the_rest_alone (d : db) (e : env)
  (companyId : option Z) (updates : jsval) :
  let result := applyManualCompanyUpdates d e companyId updates in
  let d' := snd result in
  company_cases d' = company_cases d
  ∧ investor_reports d' = investor_reports d
  ∧ investor_report_changes d' = investor_report_changes d
  ∧ (∀ other, companyId ≠ Some other →
       companies d' !! other = companies d !! other)
  ∧ (∀ id c, c ∉ resolved_columns (Object_entries updates) →
       c ≠ "manual_change_log" → c ≠ "updated_at" →
       stored d' id c = stored d id c)
  ∧ (reported_update (fst result) ≠ Some true → d' = d).
Proof.
  cbn zeta. unfold applyManualCompanyUpdates.
  destruct companyId as [numericId|]; [|done].
  destruct (negb (truthy updates) || _ || _); [done|].
  destruct (companies d !! numericId) as [row|] eqn:Hrow; [|done].
  cbn zeta.
  destruct (negb (length (validationErrors _) =? 0)%nat); [done|].
  destruct (length (updatePayload _) =? 0)%nat; [done|].
  destruct (run_company_update _ _ _) as [err|newRow] eqn:Hrun; [done|].
  cbn [fst snd companies company_cases investor_reports
       investor_report_changes reported_update updated].
  split_and!; try done.
  - intros other Hother. apply lookup_insert_ne. congruence.
  - intros id c Hc Hlog Hupd. unfold stored. cbn [companies].
    destruct (decide (numericId = id)) as [<-|Hne];
      [|by rewrite lookup_insert_ne].
    rewrite lookup_insert_eq, Hrow. cbn.
    eapply run_company_update_other; [|exact Hrun| |done].
    + apply obj_set_NoDup, scan_payload_NoDup. simpl. apply NoDup_nil_2.
    + rewrite obj_set_keys. intros [?|Hin]; [done|].
      by apply (scan_payload_keys row (js_now e)) in Hc.
Qed.

(** *** Entries the loop passes over *)

Lemma scan_entry_passed_over (row : gmap string cell) (ts : string)
  (st : scan) (entry : string * jsval) :
  passed_over entry = true → scan_entry row ts st entry = st.
Proof.
  unfold passed_over, scan_entry. destruct entry as [field rawValue].
  cbn [fst snd]. destruct (resolveManualColumn field); [|done].
  by destruct rawValue.
Qed.

Lemma scan_effective (row : gmap string cell) (ts : string)
  (entries : list (string * jsval)) (st : scan) :
  fold_left (scan_entry row ts)
    (filter (fun entry => negb (passed_over entry)) entries) st
  = fold_left (scan_entry row ts) entries st.
Proof.
  revert st. induction entries as [|entry entries IH]; intros st; [done|].
  rewrite filter_cons. destruct (passed_over entry) eqn:Hp; cbn [negb].
  - rewrite decide_False by (by intros []). cbn [fold_left].
    by rewrite scan_entry_passed_over.
  - rewrite decide_True by done. cbn [fold_left]. apply IH.
Qed.

(** X2: the entries of a request whose key names no editable column, and
    those whose value is [undefined], have no effect at all: the call
    answers, and leaves the store, as it does for the request without
    them. *)
Theorem passed_over_entries_have_no_effect (d : db) (e : env)
  (companyId : option Z) (updates : jsval) :
  applyManualCompanyUpdates d e companyId (effective_entries updates)
  = applyManualCompanyUpdates d e companyId updates.
Proof.
  destruct updates as [| | | | | |props]; try done.
  unfold applyManualCompanyUpdates, effective_entries.
  destruct companyId as [numericId|]; [|done].
  cbn [truthy typeof Array_isArray Object_entries negb orb String.eqb].
  destruct (companies d !! numericId) as [row|]; [|done].
  unfold scan_entries. by rewrite scan_effective.
Qed.

(** *** The changes a call reports *)

Lemma isSame_false_differs (row : gmap string cell) (c : string) (v : jsval) :
  isSame (normalizedPrevious_of row c) v = false →
  or_null (normalizedPrevious_of row c) ≠ or_null v.
Proof.
  unfold normalizedPrevious_of, isSame.
  destruct (row !! c) as [[|s|n]|]; destruct v as [| |b|m|t|items|props];
    cbn [cell_to_js nullish andb strict_eq or_null]; try done.
  - intros Hne ?. simplify_eq. by rewrite String.eqb_refl in Hne.
  - intros Hne ?. simplify_eq. by rewrite bool_decide_eq_false in Hne.
Qed.

Lemma company_column_previous (row : gmap string cell) (c : string) :
  company_column row c = or_null (normalizedPrevious_of row c).
Proof.
  unfold company_column, normalizedPrevious_of.
  by destruct (row !! c) as [[]|].
Qed.

Lemma bind_value_inv (v : jsval) (c : cell) :
  bind_value v = Some c → cell_to_js c = or_null v.
Proof. destruct v; simpl; intros; by simplify_eq. Qed.

(** The change the loop reports for an entry. *)
Lemma elem_of_scan_changes (row : gmap string cell) (ts : string)
  (entries : list (string * jsval)) (ch : log_entry) :
  ch ∈ changes (scan_entries row ts entries) →
  ∃ entry v, entry ∈ entries
    ∧ entry_change row entry = Some (column ch, v)
    ∧ from ch = or_null (normalizedPrevious_of row (column ch))
    ∧ to ch = or_null v ∧ changedAt ch = ts.
Proof.
  unfold scan_entries. rewrite scan_changes. cbn [changes app].
  rewrite list_elem_of_omap. intros (entry & Hin & Hch).
  destruct (entry_change row entry) as [[c v]|] eqn:Hentry; [|done].
  injection Hch as <-. by exists entry, v.
Qed.

Lemma written_None (row : gmap string cell) (ts : string)
  (entries : list (string * jsval)) (c : string) :
  c ∉ map column (changes (scan_entries row ts entries)) →
  written row entries c = None.
Proof.
  unfold scan_entries. rewrite scan_changes. cbn [changes app].
  induction entries as [|entry entries IH]; [done|].
  cbn [omap list_omap written].
  destruct (entry_change row entry) as [[c0 v]|] eqn:Hentry.
  - cbn [map column]. rewrite not_elem_of_cons. intros [Hne Hrest].
    rewrite IH by done. destruct (String.eqb c0 c) eqn:E; [|done].
    by apply String.eqb_eq in E.
  - intros Hrest. by rewrite IH.
Qed.

(** The value the loop leaves in the payload for the column of the last
    change it reports for that column. *)
Lemma written_last (row : gmap string cell) (ts : string)
  (entries : list (string * jsval)) (before after : list log_entry)
  (ch : log_entry) :
  changes (scan_entries row ts entries) = before ++ ch :: after →
  column ch ∉ map column after →
  ∃ v, written row entries (column ch) = Some v ∧ to ch = or_null v.
Proof.
  unfold scan_entries. rewrite scan_changes. cbn [changes app].
  revert before. induction entries as [|entry entries IH]; intros before Heq Hlast.
  - by destruct before.
  - cbn [omap list_omap written] in Heq |- *.
    destruct (entry_change row entry) as [[c0 v0]|] eqn:Hentry.
    + destruct before as [|first before]; cbn [app] in Heq.
      * injection Heq as <- Hafter. cbn [column to] in *.
        rewrite (written_None row ts).
        -- rewrite String.eqb_refl. by exists v0.
        -- unfold scan_entries. rewrite scan_changes. cbn [changes app].
           by rewrite Hafter.
      * injection Heq as _ Hrest.
        destruct (IH before Hrest Hlast) as (v & -> & Hto). by exists v.
    + destruct (IH before Heq Hlast) as (v & -> & Hto). by exists v.
Qed.

Lemma scan_payload_empty (row : gmap string cell) (ts : string)
  (entries : list (string * jsval)) :
  changes (scan_entries row ts entries) = [] →
  updatePayload (scan_entries row ts entries) = [].
Proof.
  intros Hnone.
  destruct (updatePayload (scan_entries row ts entries)) as [|[k v] rest] eqn:Hp;
    [done|].
  pose proof (scan_payload_get row ts entries
    {| changes := []; updatePayload := []; validationErrors := [] |} k) as Hget.
  fold (scan_entries row ts entries) in Hget. rewrite Hp in Hget.
  cbn [obj_get updatePayload] in Hget. rewrite String.eqb_refl in Hget.
  rewrite (written_None row ts) in Hget; [done|].
  rewrite Hnone. apply not_elem_of_nil.
Qed.

(** X3: the changes a call reports are what it changed.  There is at least
    one; each names a column a key of the request resolves to, carries the
    time of the call, goes from the value the record held before the call to
    a value that differs from it; and after the call the record holds, in
    each column, the [to] of the last change reported for that column. *)
Theorem reported_changes_are_what_changed (d d' : db) (e : env)
  (numericId : Z) (updates : jsval) (r : company_response)
  (row : gmap string cell) (made : list log_entry) :
  applyManualCompanyUpdates d e (Some numericId) updates = (Returned r, d') →
  companies d !! numericId = Some row →
  response_changes r = Some made →
  ∃ row',
    companies d' !! numericId = Some row'
    ∧ made ≠ []
    ∧ (∀ ch, ch ∈ made →
         column ch ∈ resolved_columns (Object_entries updates)
         ∧ from ch = company_column row (column ch)
         ∧ from ch ≠ to ch
         ∧ changedAt ch = js_now e)
    ∧ (∀ before ch after,
         made = before ++ ch :: after →
         column ch ∉ map column after →
         company_column row' (column ch) = to ch).
Proof.
  intros Hcall Hrow Hmade. unfold applyManualCompanyUpdates in Hcall.
  destruct (negb (truthy updates) || _ || _); [done|].
  rewrite Hrow in Hcall. cbn zeta in Hcall.
  destruct (negb (length (validationErrors _) =? 0)%nat); [done|].
  destruct (length (updatePayload _) =? 0)%nat eqn:Hpay.
  { injection Hcall as <- <-. done. }
  destruct (run_company_update _ _ _) as [err|newRow] eqn:Hrun; [done|].
  injection Hcall as <- <-. cbn [response_changes] in Hmade.
  injection Hmade as <-. exists newRow. cbn [companies].
  split; [by rewrite lookup_insert_eq|]. split_and!.
  - intros Hnone. apply scan_payload_empty in Hnone. by rewrite Hnone in Hpay.
  - intros ch Hch.
    apply elem_of_scan_changes in Hch as (entry & v & Hin & Hentry & Hfrom & Hto & Hat).
    apply entry_change_request in Hentry as [Hreq Hdiff].
    apply entry_request_column in Hreq as [Hres _].
    split_and!.
    + unfold resolved_columns. rewrite list_elem_of_omap. by exists entry.
    + by rewrite company_column_previous.
    + rewrite Hfrom, Hto. by apply isSame_false_differs.
    + done.
  - intros before ch after Heq Hlast.
    destruct (written_last _ _ _ _ _ _ Heq Hlast) as (v & Hw & ->).
    assert (ch ∈ changes (scan_entries row (js_now e) (Object_entries updates)))
      as Hch.
    { rewrite Heq. apply elem_of_app. right. apply elem_of_cons. by left. }
    apply elem_of_scan_changes in Hch as (entry & v' & _ & Hentry & _).
    apply entry_change_request in Hentry as [Hreq _].
    apply entry_request_column in Hreq as [Hres _].
    apply resolveManualColumn_editable in Hres.
    pose proof (scan_payload_get row (js_now e) (Object_entries updates)
      {| changes := []; updatePayload := []; validationErrors := [] |}
      (column ch)) as Hget.
    fold (scan_entries row (js_now e) (Object_entries updates)) in Hget.
    rewrite Hw in Hget.
    assert (NoDup (map fst (updatePayload
      (scan_entries row (js_now e) (Object_entries updates))))) as Hkeys.
    { apply scan_payload_NoDup. simpl. apply NoDup_nil_2. }
    pose proof (run_company_update_lookup _ _ _ _ _ _ Hkeys Hrun Hres) as Hlook.
    rewrite Hget in Hlook. destruct Hlook as (c & Hbind & Hnew).
    unfold company_column. rewrite Hnew. cbn [default].
    by apply bind_value_inv.
Qed.

(** *** The change log *)

Section Log.
Context `{!JsonLaws}.

Lemma coerced_json_value (columnName : string) (raw : jsval) :
  json_value raw = true →
  json_value (or_null (value (coerceManualValue columnName raw))) = true.
Proof.
  intros Hraw. unfold coerceManualValue.
  destruct raw as [| |b|n|s|items|props]; try done.
  - by destruct (set_has MANUAL_NUMERIC_COLUMNS columnName).
  - destruct (String.eqb (trim s) ""); [done|].
    destruct (set_has MANUAL_NUMERIC_COLUMNS columnName); [|done].
    by destruct (Number_finite (trim s)).
Qed.

Lemma parseManualLog_json_value (rawLog : option cell) :
  forallb json_value (parseManualLog rawLog) = true.
Proof.
  unfold parseManualLog. destruct rawLog as [c|]; [|done].
  destruct (negb (truthy (cell_to_js c))); [done|].
  destruct (JSON_parse (cell_text c)) as [parsed|] eqn:Hparse; [|done].
  apply JSON_parse_json_value in Hparse.
  by destruct parsed.
Qed.

Lemma parseManualLog_written (entries : list jsval) :
  forallb json_value entries = true →
  parseManualLog (Some (CText (JSON_stringify (JArr entries)))) = entries.
Proof.
  intros Hjson. unfold parseManualLog. cbn [cell_to_js truthy cell_text].
  rewrite JSON_parse_stringify by done. done.
Qed.

Lemma forallb_omap_changes (row : gmap string cell) (ts : string)
  (props : list (string * jsval)) (st : scan) :
  forallb (fun kv => json_value (snd kv)) props = true →
  forallb json_value (map log_entry_js (changes st)) = true →
  forallb json_value
    (map log_entry_js (changes (fold_left (scan_entry row ts) props st))) = true.
Proof.
  revert st. induction props as [|[field raw] props IH]; intros st Hprops Hst;
    [done|].
  cbn [forallb snd] in Hprops. apply andb_true_iff in Hprops as [Hraw Hprops].
  cbn [fold_left]. apply IH; [done|].
  rewrite scan_entry_unfold.
  destruct (entry_error (field, raw)); [done|].
  destruct (entry_change row (field, raw)) as [[c v]|] eqn:Hch; [|done].
  cbn [changes]. rewrite map_app, forallb_app, Hst. cbn [map forallb andb].
  rewrite andb_true_r.
  apply entry_change_request in Hch as [Hreq _].
  unfold entry_request in Hreq. cbn [fst snd] in Hreq.
  destruct (resolveManualColumn field) as [c0|]; [|done].
  destruct (error (coerceManualValue c0 raw)); [done|].
  destruct (shouldPersist (coerceManualValue c0 raw)); [|done].
  injection Hreq as <- <-.
  unfold log_entry_js. cbn [json_value forallb snd column from to changedAt].
  rewrite (coerced_json_value c0 raw Hraw).
  assert (json_value (or_null (normalizedPrevious_of row c0)) = true) as ->.
  { unfold normalizedPrevious_of. destruct (row !! c0) as [[]|]; done. }
  done.
Qed.

(** C7: the manual change log only grows.  Whatever the call is given and
    whatever it answers, a company record that was there is there
    afterwards, and when its stored log was the JSON text of a list of
    entries, the stored log afterwards is a JSON text of the same entries
    in the same order followed by zero or more new ones.  The empty text is
    no JSON text.  Any stored log is afterwards the log it was, or the text
    of a JSON array. *)
Theorem change_log_only_grows (d : db) (e : env) (companyId : option Z)
  (updates : jsval) (someId : Z) (row : gmap string cell) :
  JSON_parse "" = None →
  json_value updates = true →
  companies d !! someId = Some row →
  ∃ row' : gmap string cell,
    companies (snd (applyManualCompanyUpdates d e companyId updates)) !! someId
      = Some row'
    ∧ (∀ (text : string) (entries : list jsval),
         row !! "manual_change_log" = Some (CText text) →
         JSON_parse text = Some (JArr entries) →
         ∃ (text' : string) (new : list jsval),
           row' !! "manual_change_log" = Some (CText text')
           ∧ JSON_parse text' = Some (JArr (entries ++ new)))
    ∧ (row' !! "manual_change_log" = row !! "manual_change_log"
       ∨ ∃ (text' : string) (written : list jsval),
           row' !! "manual_change_log" = Some (CText text')
           ∧ JSON_parse text' = Some (JArr written)).
Proof.
  intros Hempty Hjson Hrow.
  assert (∃ row', companies d !! someId = Some row'
    ∧ (∀ text entries,
         row !! "manual_change_log" = Some (CText text) →
         JSON_parse text = Some (JArr entries) →
         ∃ text' new,
           row' !! "manual_change_log" = Some (CText text')
           ∧ JSON_parse text' = Some (JArr (entries ++ new)))
    ∧ (row' !! "manual_change_log" = row !! "manual_change_log"
       ∨ ∃ text' written,
           row' !! "manual_change_log" = Some (CText text')
           ∧ JSON_parse text' = Some (JArr written))) as Hsame.
  { exists row. split_and!; [done| |by left].
    intros text entries Htext Hentries. exists text, [].
    by rewrite app_nil_r. }
  unfold applyManualCompanyUpdates.
  destruct companyId as [numericId|]; [|done].
  destruct (negb (truthy updates) || _ || _) eqn:Hguard; [done|].
  destruct (companies d !! numericId) as [existingRow|] eqn:Hexisting; [|done].
  cbn zeta.
  destruct (negb (length (validationErrors _) =? 0)%nat); [done|].
  destruct (length (updatePayload _) =? 0)%nat; [done|].
  destruct (run_company_update _ _ _) as [err|newRow] eqn:Hrun; [done|].
  cbn [snd companies].
  destruct (decide (numericId = someId)) as [->|Hne];
    [|rewrite lookup_insert_ne by done; done].
  rewrite lookup_insert_eq. assert (existingRow = row) as -> by congruence.
  exists newRow. split; [done|].
  set (new := map log_entry_js
       (changes (scan_entries row (js_now e) (Object_entries updates)))).
  set (updatedLog := parseManualLog (row !! "manual_change_log") ++ new) in *.
  assert (newRow !! "manual_change_log"
          = Some (CText (JSON_stringify (JArr updatedLog)))) as Hstored.
  { unfold run_company_update in Hrun.
    destruct (store_fault e 0%nat); [done|].
    destruct (bind_all _) as [bound|] eqn:Hbind; [|done].
    destruct (violates_not_null bound); [done|].
    injection Hrun as <-. rewrite lookup_insert_ne by done.
    rewrite set_columns_lookup.
    - rewrite (bind_all_get _ _ "manual_change_log" Hbind), obj_get_set_eq. done.
    - rewrite (bind_all_keys _ _ Hbind). apply obj_set_NoDup.
      apply scan_payload_NoDup. simpl. apply NoDup_nil_2. }
  assert (JSON_parse (JSON_stringify (JArr updatedLog))
          = Some (JArr updatedLog)) as Hwritten.
  { apply JSON_parse_stringify. cbn [json_value]. unfold updatedLog.
    rewrite forallb_app, parseManualLog_json_value. cbn [andb].
    apply forallb_omap_changes; [|done].
    destruct updates; try done. cbn [json_value] in Hjson.
    by apply andb_true_iff in Hjson as [Hjson _]. }
  split; [|right; by exists (JSON_stringify (JArr updatedLog)), updatedLog].
  intros text entries Htext Hentries.
  exists (JSON_stringify (JArr updatedLog)), new. split; [done|].
  rewrite Hwritten. do 2 f_equal. unfold updatedLog. f_equal.
  rewrite Htext. unfold parseManualLog. cbn [cell_to_js truthy cell_text].
  destruct (String.eqb text "") eqn:Hblank.
  { apply String.eqb_eq in Hblank as ->. congruence. }
  cbn [negb]. by rewrite Hentries.
Qed.

End Log.

End CompanyProperties.

(** ** Manual investor report update engine *)

Section ReportProperties.
Context `{JsRuntime} `{!JsonParser}.

Lemma find_updated_report (reports : list report_record) (id : Z)
  (text : string) (existing : report_record) :
  find (fun r => Z.eqb (ir_id r) id) reports = Some existing →
  find (fun r => Z.eqb (ir_id r) id)
    (map (fun r => if Z.eqb (ir_id r) id then with_recommendation r text else r)
       reports)
  = Some (with_recommendation existing text).
Proof.
  induction reports as [|r reports IH]; [done|]. cbn [find map].
  destruct (Z.eqb (ir_id r) id) eqn:E.
  - intros [= <-]. cbn [find ir_id with_recommendation]. by rewrite E.
  - rewrite E. apply IH.
Qed.

(** A payload that is no object (null, a scalar, [undefined]) is refused
    before the store is read or written. *)
Lemma non_object_payload_is_refused (d : db) (e : env) (numericId : Z)
  (recommendation : jsval) :
  typeof recommendation ≠ "object" ∨ recommendation = JNull →
  applyManualInvestorReportUpdates d e (Some numericId) recommendation
  = (Threw (plain_error "recommendation payload must be an object"), d).
Proof.
  intros Hno. unfold applyManualInvestorReportUpdates.
  destruct recommendation as [| |b|n|s|items|props]; try done;
    try (by destruct (negb _));
    destruct Hno as [Hno|Hno]; done.
Qed.

(** Every array passes the checks on the payload. *)
Lemma array_payload_passes_the_checks (items : list jsval) :
  negb (truthy (JArr items))
  || negb (String.eqb (typeof (JArr items)) "object") = false.
Proof. reflexivity. Qed.

(** When the store refuses the first insertion of a change row, the call
    throws after the payload of the report has been replaced: the rows of
    the transaction are rolled back, the payload is not. *)
Lemma failed_insert_leaves_replaced_payload (d : db) (e : env) (numericId : Z)
  (recommendation : jsval) (existing : report_record) :
  truthy recommendation = true →
  typeof recommendation = "object" →
  selectInvestorReportById d numericId = Some existing →
  diffRecommendationPayloads
    (default (JObj []) (JSON_parse (ir_recommendation existing)))
    recommendation ≠ [] →
  store_fault e 0%nat = false →
  store_fault e 1%nat = true →
  ∃ d',
    applyManualInvestorReportUpdates d e (Some numericId) recommendation
      = (Threw (plain_error "SqliteError"), d')
    ∧ selectInvestorReportById d' numericId
      = Some (with_recommendation existing (JSON_stringify recommendation))
    ∧ investor_report_changes d' = investor_report_changes d.
Proof.
  intros Htruthy Htype Hexisting Hdiff Hupdate Hinsert.
  unfold applyManualInvestorReportUpdates.
  rewrite Htruthy, Htype, Hexisting, String.eqb_refl. cbn [negb orb].
  change (match JSON_parse (ir_recommendation existing) with
          | Some parsed => parsed
          | None => JObj []
          end)
    with (default (JObj []) (JSON_parse (ir_recommendation existing))).
  cbn zeta.
  destruct (diffRecommendationPayloads _ recommendation) as [|change changes];
    [done|].
  cbn [length Nat.eqb]. unfold run_report_update. rewrite Hupdate.
  unfold insertMany. cbn [insert_changes investor_report_changes].
  rewrite Hinsert. eexists. split; [reflexivity|].
  split; [|done]. unfold selectInvestorReportById. cbn [investor_reports].
  by apply find_updated_report.
Qed.

End ReportProperties.

(** ** History feed assembler *)

Section HistoryProperties.
Context `{JsRuntime} `{!JsonParser}.

Lemma insert_sorted_Permutation {A} (precedes : A → A → bool) (x : A)
  (l : list A) : insert_sorted precedes x l ≡ₚ x :: l.
Proof.
  induction l as [|y l IH]; simpl; [done|].
  destruct (precedes y x); [|done].
  rewrite IH. apply Permutation_swap.
Qed.

Lemma stable_sort_Permutation {A} (precedes : A → A → bool) (l : list A) :
  stable_sort precedes l ≡ₚ l.
Proof.
  unfold stable_sort. induction l as [|x l IH]; simpl; [done|].
  by rewrite insert_sorted_Permutation, IH.
Qed.

Lemma insert_sorted_StronglySorted {A} (R : relation A) `{!Transitive R}
  (precedes : A → A → bool) (x : A) (l : list A) :
  (∀ y, y ∈ l → if precedes y x then R y x else R x y) →
  StronglySorted R l → StronglySorted R (insert_sorted precedes x l).
Proof.
  intros Hx Hl. induction Hl as [|y l Hl IH Hy]; simpl.
  - repeat constructor.
  - pose proof (Hx y ltac:(left)) as Hyx.
    destruct (precedes y x).
    + constructor.
      * apply IH. intros z Hz. apply Hx. by right.
      * apply Forall_forall. intros z Hz.
        rewrite insert_sorted_Permutation in Hz.
        apply elem_of_cons in Hz as [->|Hz]; [done|].
        by apply (proj1 (Forall_forall _ _) Hy).
    + constructor; [by constructor|].
      constructor; [done|].
      apply Forall_forall. intros z Hz. transitivity y; [done|].
      by apply (proj1 (Forall_forall _ _) Hy).
Qed.

Lemma stable_sort_StronglySorted {A} (R : relation A) `{!Transitive R}
  (precedes : A → A → bool) (l : list A) :
  (∀ x y, x ∈ l → y ∈ l → if precedes y x then R y x else R x y) →
  StronglySorted R (stable_sort precedes l).
Proof.
  unfold stable_sort. induction l as [|x l IH]; simpl; intros Hl.
  - constructor.
  - apply insert_sorted_StronglySorted; [done| |].
    + intros y Hy. fold (stable_sort precedes l) in Hy.
      rewrite stable_sort_Permutation in Hy. apply Hl; [left | by right].
    + apply IH. intros a b Ha Hb. apply Hl; by right.
Qed.

Lemma StronglySorted_take {A} (R : relation A) (n : nat) (l : list A) :
  StronglySorted R l → StronglySorted R (take n l).
Proof.
  intros Hl. rewrite <- (take_drop n l) in Hl.
  by apply StronglySorted_app_1_l in Hl.
Qed.

#[export] Instance newer_or_same_transitive : Transitive newer_or_same.
Proof.
  intros a b c (ta & tb & Ha & Hb & Hab) (tb' & tc & Hb' & Hc & Hbc).
  exists ta, tc. split_and!; [done..|]. assert (tb = tb') by congruence. lia.
Qed.

Lemma safeLimit_bounds (limit : jsval) : 1 ≤ safeLimit_of limit ≤ 100.
Proof. unfold safeLimit_of. destruct limit; lia. Qed.

Lemma elem_of_order_by_desc {A} (key : A → string) (rows : list A) (x : A) :
  x ∈ order_by_desc key rows ↔ x ∈ rows.
Proof. unfold order_by_desc. by rewrite stable_sort_Permutation. Qed.

Lemma elem_of_index_backwards {A} (key : A → string) (rows : list A) (x : A) :
  x ∈ index_backwards key rows ↔ x ∈ rows.
Proof.
  unfold index_backwards. rewrite elem_of_order_by_desc, !list_elem_of_In.
  symmetry. apply in_rev.
Qed.

Lemma elem_of_selectRecentCases (d : db) (limit : Z)
  (row : case_record * gmap string cell) :
  row ∈ selectRecentCases d limit →
  fst row ∈ company_cases d
  ∧ companies d !! case_company_id (fst row) = Some (snd row).
Proof.
  unfold selectRecentCases. intros Hrow.
  apply elem_of_take in Hrow as (i & Hrow & _).
  apply list_elem_of_lookup_2, elem_of_index_backwards, list_elem_of_omap
    in Hrow as (cc & Hcc & Hjoin).
  destruct (companies d !! case_company_id cc) as [c|] eqn:Hc; [|done].
  injection Hjoin as <-. done.
Qed.

Lemma elem_of_selectRecentInvestorReports (d : db) (limit : Z)
  (row : report_record) :
  row ∈ selectRecentInvestorReports d limit → row ∈ investor_reports d.
Proof.
  unfold selectRecentInvestorReports. intros Hrow.
  apply elem_of_take in Hrow as (i & Hrow & _).
  by apply list_elem_of_lookup_2, elem_of_order_by_desc in Hrow.
Qed.

(** Where an entry of the feed comes from. *)
Lemma elem_of_history (d : db) (limit : jsval) (entry : history_entry) :
  entry ∈ getRecentCompanyHistory d limit →
  (∃ row, row ∈ selectRecentCases d (safeLimit_of limit)
          ∧ entry = case_entry row)
  ∨ (∃ row, row ∈ selectRecentInvestorReports d (safeLimit_of limit)
            ∧ entry = report_entry d row).
Proof.
  unfold getRecentCompanyHistory. cbn zeta. intros Hin.
  apply elem_of_take in Hin as (i & Hin & _).
  apply list_elem_of_lookup_2 in Hin. unfold Array_sort in Hin.
  rewrite stable_sort_Permutation in Hin.
  apply elem_of_app in Hin as [Hin|Hin];
    apply list_elem_of_fmap in Hin as (row & -> & Hrow); eauto.
Qed.












End HistoryProperties.

(** ** The feed shows the newest entries *)

Section Newest.
Context `{JsRuntime} `{!JsonParser}.

Lemma chronological_spec (texts : list string) (a b : string) :
  chronological texts = true → a ∈ texts → b ∈ texts →
  ∃ ta tb, Date_getTime a = Some ta ∧ Date_getTime b = Some tb
           ∧ (String.ltb a b = false → tb ≤ ta).
Proof.
  unfold chronological. rewrite forallb_forall. intros Hall Ha Hb.
  apply list_elem_of_In in Ha, Hb. specialize (Hall a Ha).
  rewrite forallb_forall in Hall. specialize (Hall b Hb).
  destruct (Date_getTime a) as [ta|]; [|done].
  destruct (Date_getTime b) as [tb|]; [|done].
  exists ta, tb. split_and!; [done..|]. intros Hlt. rewrite Hlt in Hall.
  cbn in Hall. by apply Z.leb_le.
Qed.

Lemma ltb_asymmetric (a b : string) :
  String.ltb a b = true → String.ltb b a = false.
Proof.
  unfold String.ltb. rewrite (String.compare_antisym a b).
  by destruct (String.compare b a).
Qed.

(** [ORDER BY key DESC] leaves the rows newest first when the keys are
    chronological. *)
Lemma order_by_desc_newest_first {A} (key : A → string) (rows : list A)
  (texts : list string) :
  chronological texts = true →
  (∀ a, a ∈ rows → key a ∈ texts) →
  StronglySorted (fun a b => time_of (key b) ≤ time_of (key a))
    (order_by_desc key rows).
Proof.
  intros Hchron Hkeys. unfold order_by_desc.
  apply stable_sort_StronglySorted.
  { intros a b c ??. lia. }
  intros x y Hx Hy.
  destruct (String.ltb (key x) (key y)) eqn:E.
  - apply ltb_asymmetric in E.
    destruct (chronological_spec texts (key y) (key x) Hchron)
      as (ty & tx & Hty & Htx & Hle); auto.
    unfold time_of. rewrite Hty, Htx. cbn. auto.
  - destruct (chronological_spec texts (key x) (key y) Hchron)
      as (tx & ty & Htx & Hty & Hle); auto.
    unfold time_of. rewrite Hty, Htx. cbn. auto.
Qed.

(** Of the rows merged from several lists and sorted newest first, the
    first [n] are no older than a row that [n] of the merged rows are no
    older than. *)
Lemma top_of_merge {A} (T : A → Z) (n : nat) (merged top others : list A)
  (x y : A) :
  StronglySorted (fun a b => T b ≤ T a) merged →
  merged ≡ₚ top ++ others →
  length top = n →
  (∀ z, z ∈ top → T x ≤ T z) →
  y ∈ take n merged → T x ≤ T y.
Proof.
  intros Hsorted Hperm Hlen Htop Hy.
  destruct (decide (T x ≤ T y)) as [|Hlt]; [done|]. exfalso.
  set (P := fun z => T y < T z).
  assert (length top ≤ length (filter P merged))%nat as Hmany.
  { rewrite Hperm, filter_app, length_app.
    assert (filter P top = top) as ->; [|lia].
    clear Hlen Hperm. induction top as [|z top IH]; [done|].
    rewrite filter_cons, decide_True.
    - f_equal. apply IH. intros z' Hz'. apply Htop. by right.
    - unfold P. assert (T x ≤ T z) by (apply Htop; by left). lia. }
  rewrite <- (take_drop n merged) in Hsorted, Hmany.
  rewrite filter_app, length_app in Hmany.
  assert (filter P (drop n merged) = []) as Hnone.
  { destruct (filter P (drop n merged)) as [|z rest] eqn:Hfilter; [done|].
    assert (z ∈ filter P (drop n merged)) as Hz
      by (rewrite Hfilter; by left).
    apply list_elem_of_filter in Hz as [HP Hz].
    pose proof (StronglySorted_app_1_elem_of _ _ _ _ _ Hsorted Hy Hz).
    unfold P in HP. cbn in *. lia. }
  rewrite Hnone in Hmany. cbn [length] in Hmany.
  assert (¬ P y) as HPy by (unfold P; lia).
  pose proof (length_filter_lt P (take n merged) y Hy HPy) as Hfew.
  rewrite length_take in Hfew. lia.
Qed.

Lemma createdAt_case_entry (row : case_record * gmap string cell) :
  createdAt (case_entry row) = case_created_at (fst row).
Proof. done. Qed.

Lemma createdAt_report_entry (d : db) (row : report_record) :
  createdAt (report_entry d row) = ir_created_at row.
Proof. done. Qed.

Lemma joined_case_stamp (d : db) (row : case_record * gmap string cell) :
  row ∈ joined_cases d → case_created_at (fst row) ∈ stamps d.
Proof.
  unfold joined_cases. rewrite list_elem_of_omap. intros (cc & Hcc & Hrow).
  destruct (companies d !! case_company_id cc); [|done].
  injection Hrow as <-. apply elem_of_app. left.
  apply list_elem_of_fmap. by exists cc.
Qed.

Lemma report_stamp (d : db) (row : report_record) :
  row ∈ investor_reports d → ir_created_at row ∈ stamps d.
Proof.
  intros Hrow. apply elem_of_app. right. apply list_elem_of_fmap.
  by exists row.
Qed.

Lemma entry_stamp (d : db) (entry : history_entry) :
  entry ∈ all_entries d → createdAt entry ∈ stamps d.
Proof.
  intros Hin. apply elem_of_app in Hin as [Hin|Hin];
    apply list_elem_of_fmap in Hin as (row & -> & Hrow).
  - by apply joined_case_stamp.
  - by apply report_stamp.
Qed.

(** The entries of the feed and those it leaves out. *)
Lemma history_split (d : db) (limit : jsval) :
  let n := Z.to_nat (safeLimit_of limit) in
  let cases := index_backwards (fun row => case_created_at (fst row))
                 (joined_cases d) in
  let reports := order_by_desc ir_created_at (investor_reports d) in
  let merged := Array_sort compare_createdAt
                  (map case_entry (take n cases)
                   ++ map (report_entry d) (take n reports)) in
  getRecentCompanyHistory d limit = take n merged
  ∧ all_entries d
    ≡ₚ take n merged
       ++ (drop n merged ++ map case_entry (drop n cases)
           ++ map (report_entry d) (drop n reports)).
Proof.
  cbn zeta. split; [done|].
  rewrite app_assoc, take_drop. unfold Array_sort at 1.
  rewrite stable_sort_Permutation. unfold all_entries.
  rewrite (Permutation_rev (joined_cases d)) at 1.
  rewrite <- (stable_sort_Permutation
    (fun y x => String.ltb (case_created_at (fst x)) (case_created_at (fst y)))
    (rev (joined_cases d))) at 1.
  rewrite <- (stable_sort_Permutation
    (fun y x => String.ltb (ir_created_at x) (ir_created_at y))
    (investor_reports d)) at 1.
  fold (order_by_desc (fun row => case_created_at (fst row))
          (rev (joined_cases d))).
  fold (index_backwards (fun row => case_created_at (fst row))
          (joined_cases d)).
  fold (order_by_desc ir_created_at (investor_reports d)).
  set (cases := index_backwards _ (joined_cases d)).
  set (reports := order_by_desc _ (investor_reports d)).
  rewrite <- (take_drop (Z.to_nat (safeLimit_of limit)) cases) at 1.
  rewrite <- (take_drop (Z.to_nat (safeLimit_of limit)) reports) at 1.
  rewrite !map_app.
  rewrite <- !app_assoc. apply Permutation_app_head.
  rewrite !app_assoc. apply Permutation_app_tail. apply Permutation_app_comm.
Qed.

Lemma dated_entries (d : db) (entry : history_entry) :
  chronological (stamps d) = true →
  entry ∈ all_entries d → is_Some (Date_getTime (createdAt entry)).
Proof.
  intros Hchron Hentry. apply entry_stamp in Hentry.
  destruct (chronological_spec _ _ _ Hchron Hentry Hentry)
    as (t & _ & Ht & _). by exists t.
Qed.

Lemma newer_by_time (d : db) (a b : history_entry) :
  chronological (stamps d) = true →
  a ∈ all_entries d → b ∈ all_entries d →
  time_of (createdAt b) ≤ time_of (createdAt a) →
  newer_or_same a b.
Proof.
  intros Hchron Ha Hb Hle.
  destruct (dated_entries d a Hchron Ha) as [ta Hta].
  destruct (dated_entries d b Hchron Hb) as [tb Htb].
  unfold time_of in Hle. rewrite Hta, Htb in Hle. by exists ta, tb.
Qed.

Lemma cases_newest_first (d : db) :
  chronological (stamps d) = true →
  StronglySorted
    (fun a b => time_of (case_created_at (fst b))
                ≤ time_of (case_created_at (fst a)))
    (index_backwards (fun row => case_created_at (fst row)) (joined_cases d)).
Proof.
  intros Hchron.
  apply (order_by_desc_newest_first _ _ (stamps d) Hchron).
  intros row Hrow. apply joined_case_stamp.
  by apply list_elem_of_In, in_rev, list_elem_of_In in Hrow.
Qed.

Lemma reports_newest_first (d : db) :
  chronological (stamps d) = true →
  StronglySorted
    (fun a b => time_of (ir_created_at b) ≤ time_of (ir_created_at a))
    (order_by_desc ir_created_at (investor_reports d)).
Proof.
  intros Hchron.
  apply (order_by_desc_newest_first _ _ (stamps d) Hchron).
  intros row. apply report_stamp.
Qed.

(** The entries of the feed are at least as new as those it leaves out. *)
Lemma shown_before_left_out (d : db) (limit : jsval) :
  chronological (stamps d) = true →
  let n := Z.to_nat (safeLimit_of limit) in
  let cases := index_backwards (fun row => case_created_at (fst row))
                 (joined_cases d) in
  let reports := order_by_desc ir_created_at (investor_reports d) in
  let merged := Array_sort compare_createdAt
                  (map case_entry (take n cases)
                   ++ map (report_entry d) (take n reports)) in
  ∀ shown old,
    shown ∈ take n merged →
    old ∈ drop n merged ++ map case_entry (drop n cases)
          ++ map (report_entry d) (drop n reports) →
    newer_or_same shown old.
Proof.
  intros Hchron. cbn zeta.
  destruct (history_split d limit) as [Hfeed Hall]. cbn zeta in Hfeed, Hall.
  pose proof (cases_newest_first d Hchron) as Hcases.
  pose proof (reports_newest_first d Hchron) as Hreports.
  set (n := Z.to_nat (safeLimit_of limit)) in *.
  set (cases := index_backwards _ (joined_cases d)) in *.
  set (reports := order_by_desc _ (investor_reports d)) in *.
  set (merged := Array_sort _ _) in *.
  assert (merged ≡ₚ map case_entry (take n cases)
                    ++ map (report_entry d) (take n reports)) as Hmerged
    by apply stable_sort_Permutation.
  assert (∀ entry, entry ∈ merged → entry ∈ all_entries d) as Hsub.
  { intros entry Hentry. rewrite Hall, app_assoc, take_drop.
    apply elem_of_app. by left. }
  assert (StronglySorted
            (fun a b => time_of (createdAt b) ≤ time_of (createdAt a)) merged)
    as Hsorted.
  { apply stable_sort_StronglySorted.
    { intros a b c ??. lia. }
    intros x y Hx Hy. rewrite <- Hmerged in Hx, Hy.
    destruct (dated_entries d x Hchron (Hsub x Hx)) as [tx Htx].
    destruct (dated_entries d y Hchron (Hsub y Hy)) as [ty Hty].
    unfold compare_createdAt, time_of. rewrite Htx, Hty. cbn [default id].
    destruct (0 <? ty - tx) eqn:E.
    - apply Z.ltb_lt in E. lia.
    - apply Z.ltb_ge in E. lia. }
  intros shown old Hshown Hold.
  assert (shown ∈ all_entries d) as Hshown_all.
  { rewrite Hall. apply elem_of_app. by left. }
  assert (old ∈ all_entries d) as Hold_all.
  { rewrite Hall. apply elem_of_app. by right. }
  apply (newer_by_time d); [done..|].
  apply elem_of_app in Hold as [Hold|Hold];
    [|apply elem_of_app in Hold as [Hold|Hold]].
  - rewrite <- (take_drop n merged) in Hsorted.
    apply (StronglySorted_app_1_elem_of _ _ _ _ _ Hsorted Hshown Hold).
  - apply list_elem_of_fmap in Hold as (row & -> & Hrow).
    apply (top_of_merge (fun entry => time_of (createdAt entry)) n merged
             (map case_entry (take n cases))
             (map (report_entry d) (take n reports))); try done.
    + rewrite length_map, length_take.
      assert (drop n cases ≠ []) as Hsome
        by (intros Hnil; rewrite Hnil in Hrow; by apply elem_of_nil in Hrow).
      destruct (decide (n < length cases)%nat) as [|Hshort]; [lia|].
      destruct Hsome. apply drop_ge. lia.
    + intros z Hz. apply list_elem_of_fmap in Hz as (top & -> & Htop).
      rewrite <- (take_drop n cases) in Hcases.
      apply (StronglySorted_app_1_elem_of _ _ _ _ _ Hcases Htop Hrow).
  - apply list_elem_of_fmap in Hold as (row & -> & Hrow).
    apply (top_of_merge (fun entry => time_of (createdAt entry)) n merged
             (map (report_entry d) (take n reports))
             (map case_entry (take n cases))); try done.
    + by rewrite Hmerged, Permutation_app_comm.
    + rewrite length_map, length_take.
      assert (drop n reports ≠ []) as Hsome
        by (intros Hnil; rewrite Hnil in Hrow; by apply elem_of_nil in Hrow).
      destruct (decide (n < length reports)%nat) as [|Hshort]; [lia|].
      destruct Hsome. apply drop_ge. lia.
    + intros z Hz. apply list_elem_of_fmap in Hz as (top & -> & Htop).
      rewrite <- (take_drop n reports) in Hreports.
      apply (StronglySorted_app_1_elem_of _ _ _ _ _ Hreports Htop Hrow).
Qed.

Lemma history_length (d : db) (limit : jsval) :
  length (getRecentCompanyHistory d limit)
  = (Z.to_nat (safeLimit_of limit) `min` length (all_entries d))%nat.
Proof.
  destruct (history_split d limit) as [Hfeed Hall]. cbn zeta in Hfeed, Hall.
  rewrite Hfeed.
  set (n := Z.to_nat (safeLimit_of limit)) in *.
  set (cases := index_backwards _ (joined_cases d)) in *.
  set (reports := order_by_desc _ (investor_reports d)) in *.
  set (merged := Array_sort _ _) in *.
  assert (merged ≡ₚ map case_entry (take n cases)
                    ++ map (report_entry d) (take n reports)) as Hmerged
    by apply stable_sort_Permutation.
  rewrite length_take, Hall, !length_app, length_take, !length_map.
  rewrite !length_drop. rewrite Hmerged, length_app, !length_map.
  rewrite !length_take. lia.
Qed.

(** X10: the feed shows the newest entries.  When the creation stamps of
    the store are chronological, the feed and some list of entries left out
    make up, between them, every entry the store has (one per case whose
    company exists, one per report); the feed has as many entries as the
    limit allows, or all of them when there are fewer; and every entry shown
    is at least as new as every entry left out. *)
Theorem history_shows_the_newest (d : db) (limit : jsval) :
  chronological (stamps d) = true →
  ∃ left_out,
    all_entries d ≡ₚ getRecentCompanyHistory d limit ++ left_out
    ∧ length (getRecentCompanyHistory d limit)
      = (Z.to_nat (safeLimit_of limit) `min` length (all_entries d))%nat
    ∧ ∀ shown old,
        shown ∈ getRecentCompanyHistory d limit → old ∈ left_out →
        newer_or_same shown old.
Proof.
  intros Hchron.
  destruct (history_split d limit) as [Hfeed Hall]. cbn zeta in Hfeed, Hall.
  eexists. split; [rewrite Hfeed; exact Hall|].
  split; [apply history_length|].
  rewrite Hfeed. by apply shown_before_left_out.
Qed.

Lemma latest_rows {A} (time : A → Z) (n : nat) (sorted rows : list A) :
  rows ≡ₚ sorted →
  StronglySorted (fun a b => time b ≤ time a) sorted →
  latest_of (fun a b => time b ≤ time a) n (take n sorted) rows.
Proof.
  intros Hperm Hsorted. exists (drop n sorted). split_and!.
  - by rewrite take_drop.
  - rewrite length_take, Hperm. done.
  - intros shown old Hshown Hold.
    rewrite <- (take_drop n sorted) in Hsorted.
    apply (StronglySorted_app_1_elem_of _ _ _ _ _ Hsorted Hshown Hold).
Qed.

Lemma latest_of_fmap {A B} (f : A → B) (newer : A → A → Prop)
  (newer' : B → B → Prop) (n : nat) (top rows : list A) :
  (∀ a b, a ∈ rows → b ∈ rows → newer a b → newer' (f a) (f b)) →
  latest_of newer n top rows →
  latest_of newer' n (map f top) (map f rows).
Proof.
  intros Hnewer (left_out & Hperm & Hlen & Htop). exists (map f left_out).
  split_and!.
  - by rewrite Hperm, map_app.
  - by rewrite !length_map.
  - intros shown old Hshown Hold.
    apply list_elem_of_fmap in Hshown as (a & -> & Ha).
    apply list_elem_of_fmap in Hold as (b & -> & Hb).
    apply Hnewer; [rewrite Hperm; apply elem_of_app; by left
                  |rewrite Hperm; apply elem_of_app; by right|by apply Htop].
Qed.

(** C8: the feed.  The limit in force is between 1 and 100: a number is
    floored and clamped, anything else gives 20.  The feed has at most that
    many entries, and each is tagged as a lookup with the fields of a case
    or as an investment report with the fields of a report.  When every
    stored creation time is a valid date the feed is sorted newest first.
    When the creation stamps are chronological, the feed is the head of a
    list sorted newest first that merges the latest cases and the latest
    reports, as many of each as the limit allows, and it holds the latest
    of all the entries the store has. *)
Theorem recent_history_sorted_bounded_tagged (d : db) (limit : jsval) :
  (∀ c, c ∈ company_cases d → is_Some (Date_getTime (case_created_at c))) →
  (∀ r, r ∈ investor_reports d → is_Some (Date_getTime (ir_created_at r))) →
  let history := getRecentCompanyHistory d limit in
  let safeLimit := safeLimit_of limit in
  1 ≤ safeLimit ≤ 100
  ∧ (∀ n, limit = JNum n → safeLimit = Z.min (Z.max (num_floor n) 1) 100)
  ∧ ((∀ n, limit ≠ JNum n) → safeLimit = 20)
  ∧ Z.of_nat (length history) ≤ safeLimit
  ∧ (∀ entry, entry ∈ history →
       (entryType entry = "lookup"
        ∧ ∃ caseId summary metrics log,
            body entry = CaseBody caseId summary metrics log)
       ∨ (entryType entry = "investment_report"
          ∧ ∃ reportId report log, body entry = ReportBody reportId report log))
  ∧ StronglySorted newer_or_same history
  ∧ (chronological (stamps d) = true →
     (∃ cases reports merged,
        latest_of newer_or_same (Z.to_nat safeLimit) cases
          (map case_entry (joined_cases d))
        ∧ latest_of newer_or_same (Z.to_nat safeLimit) reports
            (map (report_entry d) (investor_reports d))
        ∧ merged ≡ₚ cases ++ reports
        ∧ StronglySorted newer_or_same merged
        ∧ history = take (Z.to_nat safeLimit) merged)
     ∧ latest_of newer_or_same (Z.to_nat safeLimit) history (all_entries d)).
Proof.
  intros Hcases Hreports history safeLimit.
  assert (∀ merged,
    merged = Array_sort compare_createdAt
               (map case_entry (selectRecentCases d safeLimit)
                ++ map (report_entry d)
                     (selectRecentInvestorReports d safeLimit)) →
    StronglySorted newer_or_same merged) as Hmerged.
  { intros merged ->. unfold Array_sort.
    apply stable_sort_StronglySorted; [apply _|].
    assert (∀ x, x ∈ map case_entry (selectRecentCases d safeLimit)
                     ++ map (report_entry d)
                          (selectRecentInvestorReports d safeLimit) →
                 is_Some (Date_getTime (createdAt x))) as Hvalid.
    { intros x Hx. apply elem_of_app in Hx as [Hx|Hx];
        apply list_elem_of_fmap in Hx as (row & -> & Hrow).
      - apply elem_of_selectRecentCases in Hrow as [Hrow _]. by apply Hcases.
      - apply elem_of_selectRecentInvestorReports in Hrow. by apply Hreports. }
    intros x y Hx Hy.
    destruct (Hvalid x Hx) as [tx Htx]. destruct (Hvalid y Hy) as [ty Hty].
    unfold compare_createdAt. rewrite Htx, Hty. cbn [default id].
    destruct (0 <? ty - tx) eqn:E.
    + apply Z.ltb_lt in E. exists ty, tx. split_and!; [done..|lia].
    + apply Z.ltb_ge in E. exists tx, ty. split_and!; [done..|lia]. }
  split; [apply safeLimit_bounds|]. split_and!.
  - by intros n ->.
  - intros Hnot. unfold safeLimit, safeLimit_of. destruct limit; try done.
    by destruct (Hnot n).
  - unfold history, getRecentCompanyHistory. cbn zeta. fold safeLimit.
    rewrite length_take. pose proof (safeLimit_bounds limit). lia.
  - intros entry Hentry.
    apply elem_of_history in Hentry as [(row & _ & ->)|(row & _ & ->)].
    + left. split; [done|]. unfold case_entry. simpl. eauto.
    + right. split; [done|]. unfold report_entry. simpl. eauto.
  - unfold history, getRecentCompanyHistory. cbn zeta.
    apply StronglySorted_take. by apply Hmerged.
  - intros Hchron.
    destruct (history_split d limit) as [Hfeed Hall]. cbn zeta in Hfeed, Hall.
    split.
    + exists (map case_entry (selectRecentCases d safeLimit)),
        (map (report_entry d) (selectRecentInvestorReports d safeLimit)),
        (Array_sort compare_createdAt
           (map case_entry (selectRecentCases d safeLimit)
            ++ map (report_entry d) (selectRecentInvestorReports d safeLimit))).
      split_and!; [| | |by apply Hmerged|done].
      * apply (latest_of_fmap case_entry
                 (fun a b => time_of (case_created_at (fst b))
                             ≤ time_of (case_created_at (fst a)))).
        { intros a b Ha Hb Hle. apply (newer_by_time d _ _ Hchron);
            [apply elem_of_app; left; by apply list_elem_of_fmap_2..|done]. }
        apply (latest_rows (fun row => time_of (case_created_at (fst row)))
                 (Z.to_nat safeLimit)
                 (index_backwards (fun row => case_created_at (fst row))
                    (joined_cases d))).
        { unfold index_backwards, order_by_desc.
          by rewrite stable_sort_Permutation, <- Permutation_rev. }
        by apply cases_newest_first.
      * apply (latest_of_fmap (report_entry d)
                 (fun a b => time_of (ir_created_at b)
                             ≤ time_of (ir_created_at a))).
        { intros a b Ha Hb Hle. apply (newer_by_time d _ _ Hchron);
            [apply elem_of_app; right; by apply list_elem_of_fmap_2..|done]. }
        apply (latest_rows (fun row => time_of (ir_created_at row))
                 (Z.to_nat safeLimit)
                 (order_by_desc ir_created_at (investor_reports d))).
        { unfold order_by_desc. by rewrite stable_sort_Permutation. }
        by apply reports_newest_first.
      * apply stable_sort_Permutation.
    + eexists. split_and!.
      * unfold history. rewrite Hfeed. exact Hall.
      * apply history_length.
      * unfold history. rewrite Hfeed. by apply shown_before_left_out.
Qed.

(** A row that has to come before the rows in front of it, and that no row
    behind it has to come before, is the first of the sorted rows. *)
Lemma stable_sort_head {A} (precedes : A → A → bool) (l1 l2 : list A) (x : A) :
  (∀ y, y ∈ l1 → precedes x y = true) →
  (∀ y, y ∈ l2 → precedes y x = false) →
  head (stable_sort precedes (l1 ++ x :: l2)) = Some x.
Proof.
  intros Hfront Hback. induction l1 as [|z l1 IH].
  - cbn [app]. unfold stable_sort. cbn [fold_right].
    fold (stable_sort precedes l2).
    destruct (stable_sort precedes l2) as [|y rest] eqn:Hsorted; [done|].
    cbn [insert_sorted]. rewrite Hback; [done|].
    rewrite <- (stable_sort_Permutation precedes l2), Hsorted. by left.
  - cbn [app]. unfold stable_sort. cbn [fold_right].
    fold (stable_sort precedes (l1 ++ x :: l2)).
    assert (head (stable_sort precedes (l1 ++ x :: l2)) = Some x) as Hhead
      by (apply IH; intros y Hy; apply Hfront; by right).
    destruct (stable_sort precedes (l1 ++ x :: l2)) as [|y rest]; [done|].
    injection Hhead as ->. cbn [insert_sorted].
    rewrite Hfront by by left. done.
Qed.

Lemma none_after_spec (now stamp : string) (texts : list string) :
  none_after now texts = true → stamp ∈ texts →
  String.ltb now stamp = false
  ∧ ∃ t t_now, Date_getTime stamp = Some t ∧ Date_getTime now = Some t_now
               ∧ t ≤ t_now.
Proof.
  unfold none_after. rewrite forallb_forall. intros Hall Hin.
  apply list_elem_of_In, Hall, andb_true_iff in Hin as [Htext Hdate].
  apply negb_true_iff in Htext. split; [done|].
  destruct (Date_getTime stamp) as [t|]; [|done].
  destruct (Date_getTime now) as [t_now|]; [|done].
  exists t, t_now. split_and!; [done..|]. by apply Z.leb_le.
Qed.

Lemma all_before_spec (now stamp : string) (texts : list string) :
  all_before now texts = true → stamp ∈ texts →
  String.ltb stamp now = true
  ∧ ∃ t t_now, Date_getTime stamp = Some t ∧ Date_getTime now = Some t_now
               ∧ t < t_now.
Proof.
  unfold all_before. rewrite forallb_forall. intros Hall Hin.
  apply list_elem_of_In, Hall, andb_true_iff in Hin as [Htext Hdate].
  split; [done|].
  destruct (Date_getTime stamp) as [t|]; [|done].
  destruct (Date_getTime now) as [t_now|]; [|done].
  exists t, t_now. split_and!; [done..|]. by apply Z.ltb_lt.
Qed.

Lemma head_take {A} (n : nat) (l : list A) :
  n ≠ 0%nat → head (take n l) = head l.
Proof. destruct n; [done|]. by destruct l. Qed.

Lemma limit_allows_one (limit : jsval) : Z.to_nat (safeLimit_of limit) ≠ 0%nat.
Proof. pose proof (safeLimit_bounds limit). lia. Qed.

Lemma not_newer_than_itself (entry : history_entry) :
  (0 <? default 0 (compare_createdAt entry entry)) = false.
Proof.
  unfold compare_createdAt. destruct (Date_getTime (createdAt entry)); [|done].
  cbn [default from_option id]. apply Z.ltb_ge. lia.
Qed.

(** The case inserted last opens the feed when no stamp of the store is
    after its own. *)
Lemma newest_case_opens_feed (d : db) (older : list case_record)
  (cc : case_record) (row : gmap string cell) (limit : jsval) :
  company_cases d = older ++ [cc] →
  companies d !! case_company_id cc = Some row →
  none_after (case_created_at cc)
    (map case_created_at older ++ map ir_created_at (investor_reports d))
    = true →
  head (getRecentCompanyHistory d limit) = Some (case_entry (cc, row)).
Proof.
  intros Hcases Hrow Hclock.
  destruct (history_split d limit) as [-> _]. cbn zeta.
  pose proof (limit_allows_one limit) as Hone.
  set (n := Z.to_nat (safeLimit_of limit)) in *.
  rewrite head_take by done.
  set (joined := omap (fun cc0 =>
                   match companies d !! case_company_id cc0 with
                   | Some c => Some (cc0, c)
                   | None => None
                   end) older).
  assert (joined_cases d = joined ++ [(cc, row)]) as ->.
  { unfold joined_cases. rewrite Hcases, omap_app. cbn [omap list_omap].
    by rewrite Hrow. }
  assert (∀ y, y ∈ joined → case_created_at (fst y) ∈ map case_created_at older)
    as Hjoined.
  { intros y Hy. apply list_elem_of_omap in Hy as (cc0 & Hcc0 & Hy).
    destruct (companies d !! case_company_id cc0); [|done].
    injection Hy as <-. by apply list_elem_of_fmap_2. }
  unfold index_backwards. rewrite rev_app_distr. cbn [rev app].
  set (sorted := order_by_desc _ _).
  assert (head sorted = Some (cc, row)) as Hfirst.
  { apply (stable_sort_head _ [] (rev joined) (cc, row)).
    - intros y Hy. by apply elem_of_nil in Hy.
    - intros y Hy. apply list_elem_of_In, in_rev, list_elem_of_In in Hy.
      cbn [fst].
      apply (none_after_spec _ (case_created_at (fst y)) _ Hclock).
      apply elem_of_app. left. by apply Hjoined. }
  assert (∀ y, y ∈ sorted → y = (cc, row) ∨ y ∈ joined) as Hsorted.
  { intros y Hy. unfold sorted, order_by_desc in Hy.
    rewrite stable_sort_Permutation in Hy.
    apply elem_of_cons in Hy as [->|Hy]; [by left|right].
    by apply list_elem_of_In, in_rev, list_elem_of_In in Hy. }
  destruct sorted as [|first rest]; [done|]. injection Hfirst as ->.
  destruct n as [|n]; [done|]. cbn [take map app].
  apply (stable_sort_head _ [] _ (case_entry (cc, row))).
  { intros y Hy. by apply elem_of_nil in Hy. }
  assert (∀ stamp,
    stamp ∈ map case_created_at older ++ map ir_created_at (investor_reports d) →
    ∀ y, createdAt y = stamp →
    (0 <? default 0 (compare_createdAt (case_entry (cc, row)) y)) = false)
    as Hstamp.
  { intros stamp Hin y Hy.
    destruct (none_after_spec _ _ _ Hclock Hin) as (_ & t & t_now & Ht & Hnow & Hle).
    unfold compare_createdAt. rewrite Hy, Ht. cbn [case_entry createdAt fst].
    rewrite Hnow. cbn [default from_option id]. apply Z.ltb_ge. lia. }
  intros y Hy. apply elem_of_app in Hy as [Hy|Hy];
    apply list_elem_of_fmap in Hy as (r & -> & Hr).
  - apply elem_of_take in Hr as (i & Hr & _).
    apply list_elem_of_lookup_2 in Hr.
    destruct (Hsorted r) as [->|Hold]; [by right|apply not_newer_than_itself|].
    apply (Hstamp (case_created_at (fst r))); [|done].
    apply elem_of_app. left. by apply Hjoined.
  - apply elem_of_take in Hr as (i & Hr & _).
    apply list_elem_of_lookup_2 in Hr.
    unfold order_by_desc in Hr. rewrite stable_sort_Permutation in Hr.
    apply (Hstamp (ir_created_at r)); [|done].
    apply elem_of_app. right. by apply list_elem_of_fmap_2.
Qed.

(** The report inserted last opens the feed when every stamp of the store
    is before its own. *)
Lemma newest_report_opens_feed (d : db) (older : list report_record)
  (r : report_record) (limit : jsval) :
  investor_reports d = older ++ [r] →
  all_before (ir_created_at r)
    (map case_created_at (company_cases d) ++ map ir_created_at older)
    = true →
  head (getRecentCompanyHistory d limit) = Some (report_entry d r).
Proof.
  intros Hreports Hclock.
  destruct (history_split d limit) as [-> _]. cbn zeta.
  pose proof (limit_allows_one limit) as Hone.
  set (n := Z.to_nat (safeLimit_of limit)) in *.
  rewrite head_take by done. rewrite Hreports.
  set (sorted := order_by_desc _ (older ++ [r])).
  assert (head sorted = Some r) as Hfirst.
  { apply (stable_sort_head _ older [] r).
    - intros y Hy.
      apply (all_before_spec _ (ir_created_at y) _ Hclock).
      apply elem_of_app. right. by apply list_elem_of_fmap_2.
    - intros y Hy. by apply elem_of_nil in Hy. }
  assert (∀ y, y ∈ sorted → y = r ∨ y ∈ older) as Hsorted.
  { intros y Hy. unfold sorted, order_by_desc in Hy.
    rewrite stable_sort_Permutation in Hy.
    apply elem_of_app in Hy as [Hy|Hy]; [by right|left].
    by apply list_elem_of_singleton in Hy. }
  destruct sorted as [|first rest]; [done|]. injection Hfirst as ->.
  destruct n as [|n]; [done|]. cbn [take map].
  apply stable_sort_head.
  - intros y Hy. apply list_elem_of_fmap in Hy as (row & -> & Hrow).
    apply elem_of_take in Hrow as (i & Hrow & _).
    apply list_elem_of_lookup_2 in Hrow.
    apply elem_of_index_backwards in Hrow.
    assert (case_created_at (fst row) ∈ map case_created_at (company_cases d))
      as Hin.
    { unfold joined_cases in Hrow.
      apply list_elem_of_omap in Hrow as (cc0 & Hcc0 & Hy).
      destruct (companies d !! case_company_id cc0); [|done].
      injection Hy as <-. by apply list_elem_of_fmap_2. }
    destruct (all_before_spec _ _ _ Hclock
                (proj2 (elem_of_app _ _ _) (or_introl Hin)))
      as (_ & t & t_now & Ht & Hnow & Hlt).
    unfold compare_createdAt. cbn [case_entry report_entry createdAt].
    rewrite Ht, Hnow. cbn [default from_option id]. apply Z.ltb_lt. lia.
  - intros y Hy. apply list_elem_of_fmap in Hy as (old & -> & Hold).
    apply elem_of_take in Hold as (i & Hold & _).
    apply list_elem_of_lookup_2 in Hold.
    destruct (Hsorted old) as [->|Hin]; [by right|apply not_newer_than_itself|].
    assert (ir_created_at old ∈ map ir_created_at older) as Hstamp
      by by apply list_elem_of_fmap_2.
    destruct (all_before_spec _ _ _ Hclock
                (proj2 (elem_of_app _ _ _) (or_intror Hstamp)))
      as (_ & t & t_now & Ht & Hnow & Hlt).
    unfold compare_createdAt. cbn [report_entry createdAt].
    rewrite Ht, Hnow. cbn [default from_option id]. apply Z.ltb_ge. lia.
Qed.

(** The feed shows every entry when the limit allows as many. *)
Lemma history_shows_all (d : db) (limit : jsval) :
  (length (all_entries d) ≤ Z.to_nat (safeLimit_of limit))%nat →
  getRecentCompanyHistory d limit ≡ₚ all_entries d.
Proof.
  intros Hroom. pose proof (history_length d limit) as Hlength.
  destruct (history_split d limit) as [Hfeed Hall]. cbn zeta in Hfeed, Hall.
  rewrite <- Hfeed in Hall.
  set (left_out := drop _ _ ++ _) in Hall.
  assert (left_out = []) as Hnone.
  { apply length_zero_iff_nil.
    pose proof (Permutation_length Hall) as Hsame.
    rewrite length_app in Hsame. lia. }
  by rewrite Hall, Hnone, app_nil_r.
Qed.

End Newest.

(** ** The company engine and the feed *)

Section ResponseAndFeed.
Context `{JsRuntime} `{!JsonParser} `{!JsonLaws}.

Lemma parseManualLog_default (row : gmap string cell) :
  parseManualLog (Some (default CNull (row !! "manual_change_log")))
  = parseManualLog (row !! "manual_change_log").
Proof. by destruct (row !! "manual_change_log"). Qed.

(** The log the UPDATE leaves in the row. *)
Lemma run_company_update_log (e : env) (payload : list (string * jsval))
  (text : string) (row newRow : gmap string cell) :
  NoDup (map fst payload) →
  run_company_update e (obj_set "manual_change_log" (JStr text) payload) row
    = inr newRow →
  newRow !! "manual_change_log" = Some (CText text).
Proof.
  intros Hnd Hrun. unfold run_company_update in Hrun.
  destruct (store_fault e 0%nat); [done|].
  destruct (bind_all _) as [bound|] eqn:Hbind; [|done].
  destruct (violates_not_null bound); [done|].
  injection Hrun as <-. rewrite lookup_insert_ne by done.
  rewrite set_columns_lookup.
  - by rewrite (bind_all_get _ _ "manual_change_log" Hbind), obj_get_set_eq.
  - rewrite (bind_all_keys _ _ Hbind). by apply obj_set_NoDup.
Qed.

Lemma response_log_stored (d d' : db) (e : env) (numericId : Z)
  (updates : jsval) (r : company_response) :
  json_value updates = true →
  applyManualCompanyUpdates d e (Some numericId) updates = (Returned r, d') →
  ∃ row',
    companies d' !! numericId = Some row'
    ∧ parseManualLog (row' !! "manual_change_log") = manualChangeLog r.
Proof.
  intros Hjson Hcall. unfold applyManualCompanyUpdates in Hcall.
  destruct (negb (truthy updates) || _ || _); [done|].
  destruct (companies d !! numericId) as [row|] eqn:Hrow; [|done].
  cbn zeta in Hcall.
  destruct (negb (length (validationErrors _) =? 0)%nat); [done|].
  destruct (length (updatePayload _) =? 0)%nat.
  { injection Hcall as <- <-. by exists row. }
  destruct (run_company_update _ _ _) as [err|newRow] eqn:Hrun; [done|].
  injection Hcall as <- <-. exists newRow. cbn [companies manualChangeLog].
  split; [by rewrite lookup_insert_eq|].
  apply run_company_update_log in Hrun as ->;
    [|apply scan_payload_NoDup; simpl; apply NoDup_nil_2].
  apply parseManualLog_written.
  rewrite forallb_app, parseManualLog_json_value. cbn [andb].
  apply forallb_omap_changes; [|done].
  destruct updates; try done. cbn [json_value] in Hjson.
  by apply andb_true_iff in Hjson as [Hjson _].
Qed.

(** X4: the change log a call returns is the log the store holds after
    the call: it is what [parseManualLog] reads from the record afterwards,
    and what every case of the company shows as [manualChangeLog] in the
    history feed. *)
Theorem response_log_is_the_stored_log (d d' : db) (e : env) (numericId : Z)
  (updates : jsval) (r : company_response) :
  json_value updates = true →
  applyManualCompanyUpdates d e (Some numericId) updates = (Returned r, d') →
  (∃ row',
     companies d' !! numericId = Some row'
     ∧ parseManualLog (row' !! "manual_change_log") = manualChangeLog r)
  ∧ (∀ limit entry caseId summary metrics log,
       entry ∈ getRecentCompanyHistory d' limit →
       companyId entry = numericId →
       body entry = CaseBody caseId summary metrics log →
       log = manualChangeLog r).
Proof.
  intros Hjson Hcall.
  destruct (response_log_stored _ _ _ _ _ _ Hjson Hcall) as (row' & Hrow' & Hlog).
  split; [by exists row'|].
  intros limit entry caseId summary metrics log Hin Hid Hbody.
  apply elem_of_history in Hin as [(pair & Hpair & ->)|(pair & _ & ->)];
    [|done].
  apply elem_of_selectRecentCases in Hpair as [_ Hcompany].
  cbn [case_entry companyId body] in Hid, Hbody. rewrite Hid in Hcompany.
  assert (snd pair = row') as Hsame by congruence.
  injection Hbody as _ _ _ <-. rewrite Hsame, <- Hlog, <- parseManualLog_default.
  reflexivity.
Qed.

End ResponseAndFeed.

(** ** What the report engine writes *)

Section ReportWrites.
Context `{JsRuntime} `{!JsonParser}.

Lemma insert_changes_rows (e : env) (id : Z) (k : nat)
  (items : list report_change) (rows rows' : list change_record) :
  insert_changes e id k items rows = inr rows' →
  rows' = rows ++ map (change_row e id) items.
Proof.
  revert k rows. induction items as [|change items IH]; intros k rows Hrun.
  - cbn in Hrun. injection Hrun as <-. by rewrite app_nil_r.
  - cbn [insert_changes] in Hrun. destruct (store_fault e k); [done|].
    apply IH in Hrun as ->. by rewrite <- app_assoc.
Qed.

Lemma insert_changes_no_fault (e : env) (id : Z) (k : nat)
  (items : list report_change) (rows : list change_record) :
  (∀ j, store_fault e j = false) →
  insert_changes e id k items rows
  = inr (rows ++ map (change_row e id) items).
Proof.
  intros Hok. revert k rows.
  induction items as [|change items IH]; intros k rows.
  - cbn. by rewrite app_nil_r.
  - cbn [insert_changes]. rewrite Hok, IH. by rewrite <- app_assoc.
Qed.

Lemma find_other_report (reports : list report_record) (id other : Z)
  (text : string) :
  other ≠ id →
  find (fun r => Z.eqb (ir_id r) other)
    (map (fun r => if Z.eqb (ir_id r) id then with_recommendation r text else r)
       reports)
  = find (fun r => Z.eqb (ir_id r) other) reports.
Proof.
  intros Hne. induction reports as [|r reports IH]; [done|].
  cbn [map find]. destruct (Z.eqb (ir_id r) id) eqn:E.
  - apply Z.eqb_eq in E. cbn [with_recommendation ir_id].
    assert (Z.eqb (ir_id r) other = false) as -> by (apply Z.eqb_neq; lia).
    done.
  - by rewrite IH.
Qed.

Lemma changes_of_report_app (d : db) (e : env) (id : Z)
  (made : list report_change) (rows : list change_record) :
  rows = investor_report_changes d ++ map (change_row e id) made →
  map (fun row =>
         {| view_jsonPath := json_path row;
            view_fromValue := from_value row;
            view_toValue := to_value row;
            view_changedAt := changed_at row |})
    (order_by_desc changed_at (filter (fun row => report_id row = id) rows))
  ≡ₚ selectInvestorReportChanges d id ++ map (change_shown e) made.
Proof.
  intros ->. unfold selectInvestorReportChanges, order_by_desc.
  rewrite !stable_sort_Permutation, filter_app, map_app.
  apply Permutation_app; [done|].
  induction made as [|change made IH]; [done|].
  cbn [map]. rewrite filter_cons, decide_True by done. cbn [map].
  by constructor.
Qed.

(** X7: what a report update that reports [updated: true] has written.
    The report existed; the changes reported are the diff of the stored
    payload (an unreadable one counts as [{}]) against the new one, and there
    is at least one; afterwards the report holds the JSON text of the new
    payload, every other report is as it was, the change rows are those of
    before followed by one row per reported change, stamped with the time of
    the call, and the log in the response is the log of before together with
    those changes; companies and cases are untouched. *)
Theorem report_update_writes (d d' : db) (e : env) (numericId : Z)
  (recommendation : jsval) (r : report_response) :
  applyManualInvestorReportUpdates d e (Some numericId) recommendation
    = (Returned r, d') →
  report_updated r = true →
  ∃ existing made,
    selectInvestorReportById d numericId = Some existing
    ∧ report_changes r = Some made
    ∧ made = diffRecommendationPayloads
               (default (JObj []) (JSON_parse (ir_recommendation existing)))
               recommendation
    ∧ made ≠ []
    ∧ selectInvestorReportById d' numericId
      = Some (with_recommendation existing (JSON_stringify recommendation))
    ∧ (∀ other, other ≠ numericId →
         selectInvestorReportById d' other = selectInvestorReportById d other)
    ∧ investor_report_changes d'
      = investor_report_changes d ++ map (change_row e numericId) made
    ∧ report_manualChangeLog r
      ≡ₚ selectInvestorReportChanges d numericId ++ map (change_shown e) made
    ∧ report_recommendation r = recommendation
    ∧ companies d' = companies d
    ∧ company_cases d' = company_cases d.
Proof.
  intros Hcall Hupdated. unfold applyManualInvestorReportUpdates in Hcall.
  destruct (negb (truthy recommendation) || _); [done|].
  destruct (selectInvestorReportById d numericId) as [existing|] eqn:Hsel;
    [|done].
  cbn zeta in Hcall.
  change (match JSON_parse (ir_recommendation existing) with
          | Some parsed => parsed
          | None => JObj []
          end)
    with (default (JObj []) (JSON_parse (ir_recommendation existing))) in Hcall.
  set (made := diffRecommendationPayloads _ recommendation) in *.
  destruct (length made =? 0)%nat eqn:Hlen.
  { injection Hcall as <- <-. done. }
  unfold run_report_update in Hcall.
  destruct (store_fault e 0%nat); [done|].
  unfold insertMany in Hcall. cbn [investor_report_changes] in Hcall.
  destruct (insert_changes _ _ _ _ _) as [err|rows] eqn:Hins; [done|].
  apply insert_changes_rows in Hins.
  injection Hcall as <- <-. exists existing, made.
  cbn [report_changes report_manualChangeLog report_recommendation companies
       company_cases investor_reports investor_report_changes].
  split_and!; try done.
  - intros Hnone. by rewrite Hnone in Hlen.
  - by apply find_updated_report.
  - intros other Hother. by apply find_other_report.
  - unfold selectInvestorReportChanges at 1. cbn [investor_report_changes].
    by apply changes_of_report_app.
Qed.

(** X9: when the store refuses no statement, the report engine throws
    only for a report id that is no integer, a payload that is no object or
    a report that does not exist, and then it has written nothing. *)
Theorem report_update_throws_before_writing (d d' : db) (e : env)
  (reportId : option Z) (recommendation : jsval) (err : js_error) :
  (∀ k, store_fault e k = false) →
  applyManualInvestorReportUpdates d e reportId recommendation
    = (Threw err, d') →
  d' = d
  ∧ (err = plain_error "Valid reportId is required"
     ∨ err = plain_error "recommendation payload must be an object"
     ∨ err = status_error "Investor report not found" 404).
Proof.
  intros Hok Hcall. unfold applyManualInvestorReportUpdates in Hcall.
  destruct reportId as [numericId|]; [|injection Hcall as <- <-; auto].
  destruct (negb (truthy recommendation) || _);
    [injection Hcall as <- <-; auto|].
  destruct (selectInvestorReportById d numericId) as [existing|];
    [|injection Hcall as <- <-; auto].
  cbn zeta in Hcall. destruct (length _ =? 0)%nat; [done|].
  unfold run_report_update, insertMany in Hcall.
  rewrite Hok in Hcall. by rewrite insert_changes_no_fault in Hcall.
Qed.

Section Again.
Context `{!JsonLaws}.

(** X8: sending a report the payload it was just given changes nothing.
    When a call with a JSON payload returns, a second call with the same
    payload reports no change and leaves the store as the first call left
    it; it shows the change log the first call showed and, when the first
    call wrote the payload, reads back the payload as it was sent. *)
Theorem same_recommendation_again_changes_nothing (d d' : db) (e1 e2 : env)
  (numericId : Z) (recommendation : jsval) (r1 : report_response) :
  json_value recommendation = true →
  applyManualInvestorReportUpdates d e1 (Some numericId) recommendation
    = (Returned r1, d') →
  ∃ r2,
    applyManualInvestorReportUpdates d' e2 (Some numericId) recommendation
      = (Returned r2, d')
    ∧ report_updated r2 = false
    ∧ report_changes r2 = None
    ∧ report_manualChangeLog r2 = report_manualChangeLog r1
    ∧ (report_updated r1 = true → report_recommendation r2 = recommendation).
Proof.
  intros Hjson Hcall. unfold applyManualInvestorReportUpdates in *.
  destruct (negb (truthy recommendation) || _) eqn:Hguard; [done|].
  destruct (selectInvestorReportById d numericId) as [existing|] eqn:Hsel;
    [|done].
  cbn zeta in Hcall.
  destruct (length _ =? 0)%nat eqn:Hlen.
  { injection Hcall as <- <-. rewrite Hsel. cbn zeta. rewrite Hlen.
    eexists. split; [done|]. done. }
  unfold run_report_update in Hcall.
  destruct (store_fault e1 0%nat); [done|].
  unfold insertMany in Hcall. cbn [investor_report_changes] in Hcall.
  destruct (insert_changes _ _ _ _ _) as [err|rows] eqn:Hins; [done|].
  injection Hcall as <- <-.
  unfold selectInvestorReportById at 1. cbn [investor_reports].
  rewrite (find_updated_report _ _ _ _ Hsel). cbn zeta.
  cbn [with_recommendation ir_recommendation].
  rewrite (JSON_parse_stringify _ Hjson).
  rewrite diff_unfold, rows_at_same. cbn [length Nat.eqb].
  eexists. split; [done|]. done.
Qed.

End Again.

End ReportWrites.

(** ** Recording lookups, cases and reports *)

Section RecordingProperties.
Context `{JsRuntime} `{!JsonParser} `{!SqliteAffinity}.

(** *** Steps *)

Lemma bind_returned {A B} (m : step A) (f : A → step B) (e : env) (k k2 : nat)
  (s s2 : database) (b : B) :
  (m ≫= f) e k s = (Returned b, k2, s2) →
  ∃ a k1 s1, m e k s = (Returned a, k1, s1) ∧ f a e k1 s1 = (Returned b, k2, s2).
Proof.
  unfold mbind, step_bind.
  destruct (m e k s) as [[[a|err] k1] s1]; [|done]. intros Hf. by exists a, k1, s1.
Qed.

Lemma bind_threw {A B} (m : step A) (f : A → step B) (e : env) (k k2 : nat)
  (s s2 : database) (err : js_error) :
  (m ≫= f) e k s = (Threw err, k2, s2) →
  m e k s = (Threw err, k2, s2)
  ∨ ∃ a k1 s1, m e k s = (Returned a, k1, s1) ∧ f a e k1 s1 = (Threw err, k2, s2).
Proof.
  unfold mbind, step_bind.
  destruct (m e k s) as [[[a|err'] k1] s1]; [|intros [= -> -> ->]; by left].
  intros Hf. right. by exists a, k1, s1.
Qed.

Lemma statement_returned {A} (run : env → database → js_error + A * database)
  (e : env) (k k' : nat) (s s' : database) (a : A) :
  statement run e k s = (Returned a, k', s') →
  store_fault e k = false ∧ run e s = inr (a, s') ∧ k' = S k.
Proof.
  unfold statement. destruct (store_fault e k); [done|].
  destruct (run e s) as [err|[a' s1]]; [done|]. intros [= -> <- ->]. done.
Qed.

Lemma statement_threw {A} (run : env → database → js_error + A * database)
  (e : env) (k k' : nat) (s s' : database) (err : js_error) :
  statement run e k s = (Threw err, k', s') → s' = s.
Proof.
  unfold statement. destruct (store_fault e k); [by intros [= _ _ ->]|].
  destruct (run e s) as [err'|[a' s1]]; [|done]. by intros [= _ _ ->].
Qed.

(** *** Row ids *)

Lemma next_rowid_above (ids : list Z) (id : Z) :
  id ∈ ids → id < next_rowid ids.
Proof.
  unfold next_rowid. induction ids as [|x ids IH]; intros Hin.
  - by apply elem_of_nil in Hin.
  - cbn [foldr]. apply elem_of_cons in Hin as [->|Hin]; [lia|].
    specialize (IH Hin). lia.
Qed.

Lemma next_rowid_fresh (ids : list Z) : next_rowid ids ∉ ids.
Proof. intros Hin. apply next_rowid_above in Hin. lia. Qed.

Lemma next_company_fresh (d : db) :
  companies d !! next_rowid (map fst (map_to_list (companies d))) = None.
Proof.
  destruct (companies d !! _) as [row|] eqn:Hrow; [|done].
  apply elem_of_map_to_list in Hrow.
  destruct (next_rowid_fresh (map fst (map_to_list (companies d)))).
  apply list_elem_of_fmap. by eexists (_, row).
Qed.

(** *** Enrichment of a company *)

Lemma coalesce_columns_lookup (bound : list (string * cell))
  (r : gmap string cell) (columnName : string) :
  NoDup (map fst bound) →
  coalesce_columns bound r !! columnName =
  match cell_get bound columnName with
  | Some CNull | None => r !! columnName
  | Some c => Some (column_affinity columnName c)
  end.
Proof.
  unfold coalesce_columns. revert r.
  induction bound as [|[k c] bound IH]; intros r Hnd; [done|].
  apply NoDup_cons in Hnd as [Hk Hnd]. cbn [fold_left fst snd cell_get].
  rewrite IH by done. destruct (String.eqb k columnName) eqn:E.
  - apply String.eqb_eq in E as ->. rewrite cell_get_None by done.
    destruct c; [done| |]; by rewrite lookup_insert_eq.
  - apply String.eqb_neq in E.
    destruct c; [done| |]; by rewrite lookup_insert_ne.
Qed.

Lemma metrics_payload_get (metrics : jsval) (columnName key : string) :
  (columnName, key) ∈ METRIC_COLUMNS →
  obj_get (metrics_payload metrics) columnName
  = Some (or_null (get_property metrics key)).
Proof.
  unfold METRIC_COLUMNS. intros Hin.
  repeat (apply elem_of_cons in Hin as [[= -> ->]|Hin]; [reflexivity|]).
  by apply elem_of_nil in Hin.
Qed.

Lemma metrics_payload_keys (metrics : jsval) :
  map fst (metrics_payload metrics) = map fst METRIC_COLUMNS.
Proof. unfold metrics_payload. by rewrite map_map. Qed.

Lemma NoDup_metric_columns : NoDup (map fst METRIC_COLUMNS).
Proof. apply (bool_decide_unpack _). by compute. Qed.

(** X11: what the enrichment of a company writes.  It returns only when
    every metric it reads can be bound.  A metric that is absent or null
    leaves its column as it is, so a stored value is never erased; any other
    metric replaces what the column holds, as the affinity of the column
    stores it.  Every other column but the update stamp, among them the
    name, the tags and the change log, is left alone, and so are the other
    companies and the other tables. *)
Theorem enrichment_fills_in_and_replaces (s s' : database) (e : env)
  (k k' : nat) (companyId : Z) (metrics : jsval) (row : gmap string cell) :
  updateCompanyWithMetrics companyId metrics e k s = (Returned tt, k', s') →
  companies (tables s) !! companyId = Some row →
  ∃ row',
    companies (tables s') !! companyId = Some row'
    ∧ (∀ columnName key,
         (columnName, key) ∈ METRIC_COLUMNS →
         match bind_value (or_null (get_property metrics key)) with
         | Some CNull => row' !! columnName = row !! columnName
         | Some c => row' !! columnName = Some (column_affinity columnName c)
         | None => False
         end)
    ∧ (∀ columnName,
         columnName ∉ map fst METRIC_COLUMNS → columnName ≠ "updated_at" →
         row' !! columnName = row !! columnName)
    ∧ (∀ other, other ≠ companyId →
         companies (tables s') !! other = companies (tables s) !! other)
    ∧ company_cases (tables s') = company_cases (tables s)
    ∧ investor_reports (tables s') = investor_reports (tables s)
    ∧ investor_report_changes (tables s') = investor_report_changes (tables s)
    ∧ recommendation_rows s' = recommendation_rows s
    ∧ history_rows s' = history_rows s.
Proof.
  intros Hrun Hrow. unfold updateCompanyWithMetrics in Hrun.
  destruct (negb (truthy metrics) || _) eqn:Hguard.
  - injection Hrun as <- <-. exists row. split_and!; try done.
    intros columnName key _.
    assert (get_property metrics key = JUndefined) as ->; [|done].
    by destruct metrics.
  - apply statement_returned in Hrun as (_ & Hrun & _).
    destruct (bind_all (metrics_payload metrics)) as [bound|] eqn:Hbind;
      [|done].
    injection Hrun as <-. cbn [tables with_tables companies company_cases
      investor_reports investor_report_changes recommendation_rows
      history_rows].
    assert (NoDup (map fst bound)) as Hnd.
    { rewrite (bind_all_keys _ _ Hbind), metrics_payload_keys.
      apply NoDup_metric_columns. }
    eexists. split; [by rewrite lookup_alter_eq, Hrow|]. split_and!; try done.
    + intros columnName key Hin.
      assert (columnName ≠ "updated_at") as Hne.
      { intros ->. unfold METRIC_COLUMNS in Hin.
        repeat (apply elem_of_cons in Hin as [[=]|Hin]).
        by apply elem_of_nil in Hin. }
      rewrite lookup_insert_ne by done.
      rewrite coalesce_columns_lookup by done.
      rewrite (bind_all_get _ _ columnName Hbind).
      rewrite (metrics_payload_get _ _ _ Hin). cbn.
      destruct (bind_value (or_null (get_property metrics key)))
        as [[]|] eqn:Hvalue; try done.
      exfalso.
      pose proof (bind_all_get _ _ columnName Hbind) as Hget.
      rewrite (metrics_payload_get _ _ _ Hin) in Hget. cbn in Hget.
      rewrite Hvalue in Hget.
      assert (is_Some (cell_get bound columnName)) as [c Hc]; [|congruence].
      apply cell_get_Some.
      rewrite (bind_all_keys _ _ Hbind), metrics_payload_keys.
      apply list_elem_of_fmap. by exists (columnName, key).
    + intros columnName Hother Hne. rewrite lookup_insert_ne by done.
      rewrite coalesce_columns_lookup by done.
      rewrite cell_get_None; [done|].
      by rewrite (bind_all_keys _ _ Hbind), metrics_payload_keys.
    + intros other Hother. by rewrite lookup_alter_ne.
Qed.

(** *** Companies by name *)

Lemma elem_of_companies_named (d : db) (name : string) (id : Z) :
  id ∈ companies_named d name ↔
  ∃ row, companies d !! id = Some row ∧ has_name name row = true.
Proof.
  unfold companies_named. rewrite list_elem_of_fmap. split.
  - intros ([id' row] & -> & Hin). apply list_elem_of_filter in Hin as [Hname Hin].
    apply elem_of_map_to_list in Hin. exists row. split; [done|].
    by apply Is_true_true.
  - intros (row & Hrow & Hname). exists (id, row). split; [done|].
    apply list_elem_of_filter. split; [by apply Is_true_true|].
    by apply elem_of_map_to_list.
Qed.

Lemma least_of_list (ids : list Z) :
  match foldr (fun id found =>
                 match found with
                 | Some least => Some (Z.min id least)
                 | None => Some id
                 end) None ids with
  | Some least => least ∈ ids ∧ ∀ id, id ∈ ids → least ≤ id
  | None => ids = []
  end.
Proof.
  induction ids as [|x ids IH]; [done|]. cbn [foldr].
  destruct (foldr _ None ids) as [least|].
  - destruct IH as [Hin Hleast]. split.
    + destruct (Z.min_spec x least) as [[_ ->]|[_ ->]]; [by left|by right].
    + intros id Hid. apply elem_of_cons in Hid as [->|Hid]; [lia|].
      specialize (Hleast id Hid). lia.
  - subst ids. split; [by left|]. intros id Hid.
    apply elem_of_cons in Hid as [->|Hid]; [lia|]. by apply elem_of_nil in Hid.
Qed.

Lemma selectCompanyByName_Some (d : db) (name : string) (id : Z) :
  selectCompanyByName d name = Some id →
  (∃ row, companies d !! id = Some row ∧ has_name name row = true)
  ∧ ∀ other, other ∈ companies_named d name → id ≤ other.
Proof.
  unfold selectCompanyByName. intros Hsel.
  pose proof (least_of_list (companies_named d name)) as Hleast.
  rewrite Hsel in Hleast. destruct Hleast as [Hin Hleast].
  split; [by apply elem_of_companies_named|done].
Qed.

Lemma selectCompanyByName_None (d : db) (name : string) :
  selectCompanyByName d name = None → companies_named d name = [].
Proof.
  unfold selectCompanyByName. intros Hsel.
  pose proof (least_of_list (companies_named d name)) as Hleast.
  by rewrite Hsel in Hleast.
Qed.

Lemma selectCompanyByName_only (d : db) (name : string) (id : Z) :
  (∀ other, other ∈ companies_named d name ↔ other = id) →
  selectCompanyByName d name = Some id.
Proof.
  intros Honly.
  destruct (selectCompanyByName d name) as [found|] eqn:Hsel.
  - apply selectCompanyByName_Some in Hsel as [Hfound _].
    apply elem_of_companies_named, Honly in Hfound. by subst.
  - apply selectCompanyByName_None in Hsel.
    assert (id ∈ companies_named d name) as Hin by by apply Honly.
    rewrite Hsel in Hin. by apply elem_of_nil in Hin.
Qed.

Lemma has_name_text (name : string) (row : gmap string cell) :
  has_name name row = true ↔ row !! "name" = Some (CText name).
Proof.
  unfold has_name. destruct (row !! "name") as [[|s|n]|]; try done.
  rewrite String.eqb_eq. naive_solver.
Qed.

(** X12: get-or-create by name.  The id the call returns is that of a
    company whose name is the trimmed argument; when a company of that name
    exists the store is left as it was, and otherwise one company is added
    and no other is touched; and a later call with a name that trims to the
    same text returns the same id and changes nothing. *)
Theorem get_or_create_is_keyed_on_the_trimmed_name (s s' : database) (e : env)
  (name : string) (id : Z) :
  call (getOrCreateCompanyIdByName name) e s = (Returned id, s') →
  (∃ row, companies (tables s') !! id = Some row
          ∧ row !! "name" = Some (CText (trim name)))
  ∧ (companies_named (tables s) (trim name) ≠ [] → s' = s)
  ∧ (∀ other row, companies (tables s) !! other = Some row →
       companies (tables s') !! other = Some row)
  ∧ (∀ other, other ≠ id →
       companies (tables s') !! other = companies (tables s) !! other)
  ∧ ∀ e2 name2,
      trim name2 = trim name →
      call (getOrCreateCompanyIdByName name2) e2 s' = (Returned id, s').
Proof.
  unfold call, getOrCreateCompanyIdByName. cbn zeta.
  unfold mbind, step_bind, query at 1.
  destruct (selectCompanyByName (tables s) (trim name)) as [found|] eqn:Hsel.
  - unfold mret, step_ret. intros [= <- <-].
    pose proof Hsel as Hfound.
    apply selectCompanyByName_Some in Hfound as [(row & Hrow & Hname) _].
    apply has_name_text in Hname. split_and!; try done.
    + by exists row.
    + intros e2 name2 ->. unfold query. by rewrite Hsel.
  - destruct (insertCompany (trim name) e 0%nat s) as [[[a|err] k1] s1] eqn:Hins;
      [|done].
    intros [= -> ->].
    apply statement_returned in Hins as (_ & Hins & _).
    injection Hins as <- <-. cbn [tables with_tables companies].
    pose proof (selectCompanyByName_None _ _ Hsel) as Hnone.
    pose proof (next_company_fresh (tables s)) as Hfresh.
    set (id := next_rowid _) in *.
    split_and!.
    + exists (new_company e (trim name)). by rewrite lookup_insert_eq.
    + done.
    + intros other row Hrow. rewrite lookup_insert_ne; [done|]. congruence.
    + intros other Hother. by rewrite lookup_insert_ne.
    + intros e2 name2 ->. unfold query. cbn [tables with_tables].
      rewrite (selectCompanyByName_only _ _ id); [done|].
      intros other. rewrite elem_of_companies_named. cbn [companies]. split.
      * intros (row & Hrow & Hname).
        destruct (decide (other = id)) as [|Hne]; [done|].
        rewrite lookup_insert_ne in Hrow by done.
        assert (other ∈ companies_named (tables s) (trim name)) as Hin
          by (apply elem_of_companies_named; eauto).
        rewrite Hnone in Hin. by apply elem_of_nil in Hin.
      * intros ->. exists (new_company e (trim name)).
        split; [by rewrite lookup_insert_eq|]. by apply has_name_text.
Qed.

(** *** The statements of a lookup *)

Lemma recordBasicCase_steps (companyName : string)
  (summary metrics rawInput : jsval) :
  recordBasicCase companyName summary metrics rawInput
  = record_steps "Quick lookup" JNull "basic" "summary-basic" companyName
      summary metrics rawInput.
Proof. reflexivity. Qed.

Lemma recordDetailedCase_steps (companyName : string)
  (summary metrics extraInfo rawInput : jsval) :
  recordDetailedCase companyName summary metrics extraInfo rawInput
  = record_steps "Detailed profile" (js_or extraInfo JNull) "detailed"
      "summary-detailed" companyName summary metrics rawInput.
Proof. reflexivity. Qed.

(** What [getOrCreateCompanyIdByName] leaves: the store as it was, or one
    more company. *)
Lemma getOrCreate_step (name : string) (e : env) (k k' : nat)
  (s s' : database) (o : outcome Z) :
  getOrCreateCompanyIdByName name e k s = (o, k', s') →
  recommendation_rows s' = recommendation_rows s
  ∧ history_rows s' = history_rows s
  ∧ company_cases (tables s') = company_cases (tables s)
  ∧ investor_reports (tables s') = investor_reports (tables s)
  ∧ investor_report_changes (tables s') = investor_report_changes (tables s)
  ∧ (companies (tables s') = companies (tables s)
     ∨ ∃ id, companies (tables s) !! id = None
             ∧ o = Returned id
             ∧ companies (tables s')
               = <[id := new_company e (trim name)]> (companies (tables s)))
  ∧ ∀ id, o = Returned id →
      ∃ row, companies (tables s') !! id = Some row
             ∧ row !! "name" = Some (CText (trim name)).
Proof.
  unfold getOrCreateCompanyIdByName. cbn zeta.
  unfold mbind, step_bind, query.
  destruct (selectCompanyByName (tables s) (trim name)) as [found|] eqn:Hsel.
  - intros [= <- <- <-]. split_and!; try done; [by left|].
    intros id [= <-].
    apply selectCompanyByName_Some in Hsel as [(row & Hrow & Hname) _].
    apply has_name_text in Hname. by exists row.
  - unfold insertCompany, statement.
    destruct (store_fault e k).
    { intros [= <- <- <-]. split_and!; try done. by left. }
    intros [= <- <- <-].
    cbn [tables with_tables companies company_cases investor_reports
         investor_report_changes recommendation_rows history_rows].
    split_and!; try done.
    + right. eexists. split; [apply next_company_fresh|]. done.
    + intros id [= <-]. exists (new_company e (trim name)).
      by rewrite lookup_insert_eq.
Qed.

(** What [updateCompanyWithMetrics] leaves: the same companies under the
    same names. *)
Lemma updateCompanyWithMetrics_step (companyId : Z) (metrics : jsval)
  (e : env) (k k' : nat) (s s' : database) (o : outcome unit) :
  updateCompanyWithMetrics companyId metrics e k s = (o, k', s') →
  recommendation_rows s' = recommendation_rows s
  ∧ history_rows s' = history_rows s
  ∧ company_cases (tables s') = company_cases (tables s)
  ∧ investor_reports (tables s') = investor_reports (tables s)
  ∧ investor_report_changes (tables s') = investor_report_changes (tables s)
  ∧ (∀ other, other ≠ companyId →
       companies (tables s') !! other = companies (tables s) !! other)
  ∧ ∀ other row, companies (tables s) !! other = Some row →
      ∃ row', companies (tables s') !! other = Some row'
              ∧ row' !! "name" = row !! "name".
Proof.
  unfold updateCompanyWithMetrics.
  destruct (negb (truthy metrics) || _).
  { intros [= <- <- <-]. split_and!; try done. intros other row Hrow.
    by exists row. }
  unfold statement. destruct (store_fault e k).
  { intros [= <- <- <-]. split_and!; try done. intros other row Hrow.
    by exists row. }
  destruct (bind_all (metrics_payload metrics)) as [bound|] eqn:Hbind.
  2:{ intros [= <- <- <-]. split_and!; try done. intros other row Hrow.
      by exists row. }
  intros [= <- <- <-].
  cbn [tables with_tables companies company_cases investor_reports
       investor_report_changes recommendation_rows history_rows].
  split_and!; try done.
  - intros other Hother. by rewrite lookup_alter_ne.
  - intros other row Hrow. destruct (decide (other = companyId)) as [->|Hne].
    + eexists. split; [by rewrite lookup_alter_eq, Hrow|].
      rewrite lookup_insert_ne by done.
      rewrite coalesce_columns_lookup.
      * rewrite cell_get_None; [done|].
        rewrite (bind_all_keys _ _ Hbind), metrics_payload_keys.
        apply (bool_decide_unpack _). by compute.
      * rewrite (bind_all_keys _ _ Hbind), metrics_payload_keys.
        apply NoDup_metric_columns.
    + exists row. by rewrite lookup_alter_ne.
Qed.

(** What [insertCaseStmt] writes. *)
Lemma insertCase_step (companyId : Z) (caseInfo : list (string * jsval))
  (e : env) (k k' : nat) (s s' : database) (o : outcome Z) :
  insertCase companyId caseInfo e k s = (o, k', s') →
  recommendation_rows s' = recommendation_rows s
  ∧ history_rows s' = history_rows s
  ∧ companies (tables s') = companies (tables s)
  ∧ investor_reports (tables s') = investor_reports (tables s)
  ∧ investor_report_changes (tables s') = investor_report_changes (tables s)
  ∧ match o with
    | Returned caseId =>
        (caseId ∉ map case_id (company_cases (tables s)))
        ∧ ∃ bound,
            bind_all caseInfo = Some bound
            ∧ company_cases (tables s')
              = company_cases (tables s)
                ++ [{| case_id := caseId;
                       case_company_id := companyId;
                       company_summary_text :=
                         text_affinity
                           (default CNull
                              (cell_get bound "company_summary_text"));
                       case_created_at := sql_now e |}]
    | Threw _ => company_cases (tables s') = company_cases (tables s)
    end.
Proof.
  unfold insertCase, statement. destruct (store_fault e k).
  { by intros [= <- <- <-]. }
  destruct (bind_all caseInfo) as [bound|]; [|by intros [= <- <- <-]].
  intros [= <- <- <-].
  cbn [tables with_tables companies company_cases investor_reports
       investor_report_changes recommendation_rows history_rows].
  split_and!; try done; [apply next_rowid_fresh | by exists bound].
Qed.

Lemma insert_recommendations_step (items : list recommendation_item)
  (e : env) (k k' : nat) (s s' : database) (o : outcome unit) :
  insert_recommendations items e k s = (o, k', s') →
  tables s' = tables s
  ∧ history_rows s' = history_rows s
  ∧ ∀ done, o = Returned done →
      recommendation_rows s'
      = recommendation_rows s
        ++ map (fun item => {| rec_item := item; rec_created_at := sql_now e |})
             items.
Proof.
  revert k s. induction items as [|item items IH]; intros k s.
  - intros [= <- <- <-]. split_and!; try done. intros _ _.
    by rewrite app_nil_r.
  - cbn [insert_recommendations]. unfold mbind, step_bind.
    unfold insertRecommendation at 1, statement.
    destruct (store_fault e k); [by intros [= <- <- <-]|].
    intros Hrest. apply IH in Hrest as (Htables & Hhistory & Hrows).
    cbn [tables recommendation_rows history_rows] in *.
    split_and!; try done. intros done Hdone.
    rewrite (Hrows done Hdone). by rewrite <- app_assoc.
Qed.

(** What [insertDemoRecommendations] writes: all its rows, or none. *)
Lemma insertDemoRecommendations_step (caseId : Z) (type : string)
  (e : env) (k k' : nat) (s s' : database) (o : outcome unit) :
  insertDemoRecommendations caseId type e k s = (o, k', s') →
  tables s' = tables s
  ∧ history_rows s' = history_rows s
  ∧ match o with
    | Returned _ =>
        recommendation_rows s'
        = recommendation_rows s
          ++ demo_rows (String.eqb type "detailed") e caseId
    | Threw _ => recommendation_rows s' = recommendation_rows s
    end.
Proof.
  unfold insertDemoRecommendations, transaction. cbn zeta.
  destruct (insert_recommendations _ e k s) as [[[done|err] k1] s1] eqn:Hrun.
  - intros [= <- <- <-].
    apply insert_recommendations_step in Hrun as (Htables & Hhistory & Hrows).
    split_and!; try done. by apply (Hrows done).
  - by intros [= <- <- <-].
Qed.

Lemma recordHistory_step (companyId caseId : Z) (action : string)
  (e : env) (k k' : nat) (s s' : database) (o : outcome unit) :
  recordHistory companyId caseId action e k s = (o, k', s') →
  tables s' = tables s
  ∧ recommendation_rows s' = recommendation_rows s
  ∧ match o with
    | Returned _ =>
        history_rows s'
        = history_rows s
          ++ [{| hist_company_id := companyId;
                 hist_case_id := caseId;
                 hist_action := action;
                 hist_created_at := sql_now e |}]
    | Threw _ => history_rows s' = history_rows s
    end.
Proof.
  unfold recordHistory, statement. destruct (store_fault e k).
  { by intros [= <- <- <-]. }
  by intros [= <- <- <-].
Qed.

(** *** A lookup as a whole *)

Lemma record_case_steps (detailed : bool) (companyName : string)
  (summary metrics extraInfo rawInput : jsval) :
  record_case detailed companyName summary metrics extraInfo rawInput
  = record_steps
      (if detailed then "Detailed profile" else "Quick lookup")
      (if detailed then js_or extraInfo JNull else JNull)
      (if detailed then "detailed" else "basic")
      (if detailed then "summary-detailed" else "summary-basic")
      companyName summary metrics rawInput.
Proof. by destruct detailed. Qed.

Lemma case_info_summary (title : string) (details rawInput summary : jsval)
  (bound : list (string * cell)) :
  bind_all (case_info title details rawInput summary) = Some bound →
  cell_get bound "company_summary_text" = bind_value summary.
Proof.
  intros Hbind. by rewrite (bind_all_get _ _ "company_summary_text" Hbind).
Qed.

Lemma elem_of_joined_cases (d : db) (cc : case_record)
  (row : gmap string cell) :
  cc ∈ company_cases d → companies d !! case_company_id cc = Some row →
  (cc, row) ∈ joined_cases d.
Proof.
  intros Hcc Hrow. unfold joined_cases. apply list_elem_of_omap.
  exists cc. by rewrite Hrow.
Qed.

(** X13: what a lookup that returns has recorded.  The company it
    returns carries the trimmed name; exactly one case was added, under an
    id no case had, for that company, with the summary as it was bound and
    the time of the call; the demo recommendations of its kind (one for a
    basic lookup, two for a detailed one) and one history row were added for
    that case; no other company, no report and no change row was touched;
    and when no stamp of the store is after the time of the call, the
    case opens the history feed, whatever the limit. *)
Theorem lookup_records_a_case (s s' : database) (e : env) (detailed : bool)
  (companyName : string) (summary metrics extraInfo rawInput : jsval)
  (companyId caseId : Z) :
  call (record_case detailed companyName summary metrics extraInfo rawInput)
    e s = (Returned (companyId, caseId), s') →
  ∃ row stored_summary,
    let recorded :=
      {| case_id := caseId;
         case_company_id := companyId;
         company_summary_text := text_affinity stored_summary;
         case_created_at := sql_now e |} in
    companies (tables s') !! companyId = Some row
    ∧ row !! "name" = Some (CText (trim companyName))
    ∧ bind_value summary = Some stored_summary
    ∧ (caseId ∉ map case_id (company_cases (tables s)))
    ∧ company_cases (tables s') = company_cases (tables s) ++ [recorded]
    ∧ recommendation_rows s'
      = recommendation_rows s ++ demo_rows detailed e caseId
    ∧ history_rows s'
      = history_rows s ++ [history_of detailed e companyId caseId]
    ∧ investor_reports (tables s') = investor_reports (tables s)
    ∧ investor_report_changes (tables s') = investor_report_changes (tables s)
    ∧ (∀ other, other ≠ companyId →
         companies (tables s') !! other = companies (tables s) !! other)
    ∧ (none_after (sql_now e) (stamps (tables s)) = true →
       ∀ limit,
         head (getRecentCompanyHistory (tables s') limit)
         = Some (case_entry (recorded, row))).
Proof.
  unfold call. rewrite record_case_steps.
  destruct (record_steps _ _ _ _ _ _ _ _ e 0%nat s) as [[o k'] s0] eqn:Hrun.
  intros [= -> ->]. unfold record_steps in Hrun.
  apply bind_returned in Hrun as (id & k1 & s1 & Hcompany & Hrun).
  apply bind_returned in Hrun as ([] & k2 & s2 & Hmetrics & Hrun).
  apply bind_returned in Hrun as (cid & k3 & s3 & Hcase & Hrun).
  apply bind_returned in Hrun as ([] & k4 & s4 & Hdemo & Hrun).
  apply bind_returned in Hrun as ([] & k5 & s5 & Hhistory & Hrun).
  injection Hrun as -> -> _ ->.
  apply getOrCreate_step in Hcompany
    as (Hr1 & Hh1 & Hc1 & Hi1 & Hg1 & Hcompanies1 & Hnamed).
  destruct (Hnamed _ eq_refl) as (row1 & Hrow1 & Hname1).
  apply updateCompanyWithMetrics_step in Hmetrics
    as (Hr2 & Hh2 & Hc2 & Hi2 & Hg2 & Hothers2 & Hnames2).
  destruct (Hnames2 _ _ Hrow1) as (row & Hrow & Hname).
  apply insertCase_step in Hcase
    as (Hr3 & Hh3 & Hcompanies3 & Hi3 & Hg3 & Hfresh & bound & Hbind & Hc3).
  apply insertDemoRecommendations_step in Hdemo as (Ht4 & Hh4 & Hr4).
  apply recordHistory_step in Hhistory as (Ht5 & Hr5 & Hh5).
  pose proof (case_info_summary _ _ _ _ _ Hbind) as Hsummary.
  destruct (cell_get bound "company_summary_text") as [stored_summary|] eqn:Hcell;
    [|exfalso].
  2:{ assert (is_Some (cell_get bound "company_summary_text")) as [c Hc];
        [|congruence].
      apply cell_get_Some. rewrite (bind_all_keys _ _ Hbind).
      apply (bool_decide_unpack _). by compute. }
  cbn [default] in Hc3.
  assert (companies (tables s') !! companyId = Some row) as Hrow'.
  { by rewrite Ht5, Ht4, Hcompanies3. }
  exists row, stored_summary. cbn zeta. split_and!.
  - done.
  - by rewrite Hname.
  - done.
  - by rewrite <- Hc1, <- Hc2.
  - by rewrite Ht5, Ht4, Hc3, Hc2, Hc1.
  - rewrite Hr5, Hr4, Hr3, Hr2, Hr1. by destruct detailed.
  - rewrite Hh5, Hh4, Hh3, Hh2, Hh1. by destruct detailed.
  - by rewrite Ht5, Ht4, Hi3, Hi2, Hi1.
  - by rewrite Ht5, Ht4, Hg3, Hg2, Hg1.
  - intros other Hother. rewrite Ht5, Ht4, Hcompanies3, Hothers2 by done.
    destruct Hcompanies1 as [->|(new & _ & [= <-] & ->)]; [done|].
    by rewrite lookup_insert_ne.
  - intros Hclock limit.
    apply (newest_case_opens_feed _ (company_cases (tables s))); [|done|].
    + by rewrite Ht5, Ht4, Hc3, Hc2, Hc1.
    + cbn [case_created_at]. by rewrite Ht5, Ht4, Hi3, Hi2, Hi1.
Qed.

(** X14: what a lookup that throws leaves behind.  It has added no
    history row; of the demo recommendations it has added all of one case or
    none; it has added at most one case; it has touched no report and no
    change row; and every company is still there under its name.  (What it
    did write before it threw stays written.) *)
Theorem failed_lookup_leaves_no_history (s s' : database) (e : env)
  (detailed : bool) (companyName : string)
  (summary metrics extraInfo rawInput : jsval) (err : js_error) :
  call (record_case detailed companyName summary metrics extraInfo rawInput)
    e s = (Threw err, s') →
  history_rows s' = history_rows s
  ∧ (recommendation_rows s' = recommendation_rows s
     ∨ ∃ caseId,
         recommendation_rows s'
         = recommendation_rows s ++ demo_rows detailed e caseId)
  ∧ (company_cases (tables s') = company_cases (tables s)
     ∨ ∃ recorded,
         company_cases (tables s') = company_cases (tables s) ++ [recorded])
  ∧ investor_reports (tables s') = investor_reports (tables s)
  ∧ investor_report_changes (tables s') = investor_report_changes (tables s)
  ∧ ∀ id row, companies (tables s) !! id = Some row →
      ∃ row', companies (tables s') !! id = Some row'
              ∧ row' !! "name" = row !! "name".
Proof.
  unfold call. rewrite record_case_steps.
  destruct (record_steps _ _ _ _ _ _ _ _ e 0%nat s) as [[o k'] s0] eqn:Hrun.
  intros [= -> ->]. unfold record_steps in Hrun.
  apply bind_threw in Hrun as [Hrun|(id & k1 & s1 & Hcompany & Hrun)].
  { apply getOrCreate_step in Hrun
      as (Hr1 & Hh1 & Hc1 & Hi1 & Hg1 & Hcompanies1 & _).
    split_and!; auto.
    intros id row Hrow. exists row. split; [|done].
    destruct Hcompanies1 as [->|(new & _ & [=] & _)]. done. }
  apply getOrCreate_step in Hcompany
    as (Hr1 & Hh1 & Hc1 & Hi1 & Hg1 & Hcompanies1 & _).
  assert (∀ id' row, companies (tables s) !! id' = Some row →
                     companies (tables s1) !! id' = Some row) as Hkept1.
  { intros id' row Hrow.
    destruct Hcompanies1 as [->|(new & Hnew & _ & ->)]; [done|].
    rewrite lookup_insert_ne; [done|]. congruence. }
  clear Hcompanies1.
  assert (∀ s2,
    recommendation_rows s2 = recommendation_rows s1 →
    history_rows s2 = history_rows s1 →
    company_cases (tables s2) = company_cases (tables s1) →
    investor_reports (tables s2) = investor_reports (tables s1) →
    investor_report_changes (tables s2) = investor_report_changes (tables s1) →
    (∀ other row, companies (tables s1) !! other = Some row →
       ∃ row', companies (tables s2) !! other = Some row'
               ∧ row' !! "name" = row !! "name") →
    history_rows s2 = history_rows s
    ∧ recommendation_rows s2 = recommendation_rows s
    ∧ company_cases (tables s2) = company_cases (tables s)
    ∧ investor_reports (tables s2) = investor_reports (tables s)
    ∧ investor_report_changes (tables s2) = investor_report_changes (tables s)
    ∧ ∀ id row, companies (tables s) !! id = Some row →
        ∃ row', companies (tables s2) !! id = Some row'
                ∧ row' !! "name" = row !! "name") as Hsecond.
  { intros s2 Hr2 Hh2 Hc2 Hi2 Hg2 Hnames2. split_and!; try congruence.
    intros id' row Hrow. apply Hnames2. by apply Hkept1. }
  apply bind_threw in Hrun as [Hrun|([] & k2 & s2 & Hmetrics & Hrun)].
  { apply updateCompanyWithMetrics_step in Hrun
      as (Hr2 & Hh2 & Hc2 & Hi2 & Hg2 & _ & Hnames2).
    destruct (Hsecond _ Hr2 Hh2 Hc2 Hi2 Hg2 Hnames2)
      as (? & ? & ? & ? & ? & ?).
    split_and!; auto. }
  apply updateCompanyWithMetrics_step in Hmetrics
    as (Hr2 & Hh2 & Hc2 & Hi2 & Hg2 & _ & Hnames2).
  destruct (Hsecond _ Hr2 Hh2 Hc2 Hi2 Hg2 Hnames2)
    as (Hh & Hr & Hc & Hi & Hg & Hnames).
  clear Hsecond Hkept1 Hr1 Hh1 Hc1 Hi1 Hg1 Hr2 Hh2 Hc2 Hi2 Hg2 Hnames2.
  apply bind_threw in Hrun as [Hrun|(cid & k3 & s3 & Hcase & Hrun)].
  { apply insertCase_step in Hrun
      as (Hr3 & Hh3 & Hcompanies3 & Hi3 & Hg3 & Hc3).
    rewrite Hh3, Hr3, Hc3, Hi3, Hg3, Hcompanies3. split_and!; auto. }
  apply insertCase_step in Hcase
    as (Hr3 & Hh3 & Hcompanies3 & Hi3 & Hg3 & _ & bound & _ & Hc3).
  apply bind_threw in Hrun as [Hrun|([] & k4 & s4 & Hdemo & Hrun)].
  { apply insertDemoRecommendations_step in Hrun as (Ht4 & Hh4 & Hr4).
    rewrite Hh4, Hr4, Ht4, Hh3, Hr3, Hc3, Hi3, Hg3, Hcompanies3, Hc.
    split_and!; eauto. }
  apply insertDemoRecommendations_step in Hdemo as (Ht4 & Hh4 & Hr4).
  apply bind_threw in Hrun as [Hrun|([] & k5 & s5 & Hhistory & Hrun)];
    [|done].
  apply recordHistory_step in Hrun as (Ht5 & Hr5 & Hh5).
  rewrite Hh5, Hr5, Ht5, Hh4, Hr4, Ht4, Hh3, Hr3, Hc3, Hi3, Hg3, Hcompanies3, Hc.
  split_and!; eauto. right. exists cid. rewrite Hr. by destruct detailed.
Qed.

(** *** Consistency *)

(** A change of the companies that keeps them all, each with a name. *)
Lemma consistent_companies (s s' : database) :
  consistent s →
  company_cases (tables s') = company_cases (tables s) →
  investor_reports (tables s') = investor_reports (tables s) →
  investor_report_changes (tables s') = investor_report_changes (tables s) →
  recommendation_rows s' = recommendation_rows s →
  history_rows s' = history_rows s →
  (∀ id, is_Some (companies (tables s) !! id) →
         is_Some (companies (tables s') !! id)) →
  (∀ id row, companies (tables s') !! id = Some row →
       ∃ name, row !! "name" = Some (CText name)) →
  consistent s'.
Proof.
  intros (Hcases & Hcids & Hrids & Hchanges & Hrecs & Hhist & Hnames)
    Hc Hi Hg Hr Hh Hkept Hnames'.
  unfold consistent. cbn zeta. rewrite Hc, Hi, Hg, Hr, Hh.
  split_and!; try done. intros cc Hcc. by apply Hkept, Hcases.
Qed.

Lemma consistent_case (s s' : database) (recorded : case_record) :
  consistent s →
  companies (tables s') = companies (tables s) →
  company_cases (tables s') = company_cases (tables s) ++ [recorded] →
  investor_reports (tables s') = investor_reports (tables s) →
  investor_report_changes (tables s') = investor_report_changes (tables s) →
  recommendation_rows s' = recommendation_rows s →
  history_rows s' = history_rows s →
  case_id recorded ∉ map case_id (company_cases (tables s)) →
  is_Some (companies (tables s) !! case_company_id recorded) →
  consistent s'.
Proof.
  intros (Hcases & Hcids & Hrids & Hchanges & Hrecs & Hhist & Hnames)
    Hco Hc Hi Hg Hr Hh Hfresh Hcompany.
  unfold consistent. cbn zeta. rewrite Hco, Hc, Hi, Hg, Hr, Hh.
  split_and!; try done.
  - intros cc Hcc. apply elem_of_app in Hcc as [Hcc|Hcc]; [by apply Hcases|].
    apply list_elem_of_singleton in Hcc as ->. done.
  - rewrite map_app. apply NoDup_app. split_and!; [done| |].
    + intros id Hid Hnew. cbn in Hnew.
      apply list_elem_of_singleton in Hnew as ->. done.
    + cbn. apply NoDup_singleton.
  - intros r Hr'. rewrite map_app. apply elem_of_app. left. by apply Hrecs.
  - intros h Hh'. destruct (Hhist h Hh') as [(cc & Hcc & Hids) Hrec].
    split; [|done]. exists cc. split; [|done]. apply elem_of_app. by left.
Qed.

Lemma consistent_recommendations (s s' : database)
  (rows : list recommendation_row) :
  consistent s →
  tables s' = tables s →
  recommendation_rows s' = recommendation_rows s ++ rows →
  history_rows s' = history_rows s →
  (∀ r, r ∈ rows →
     item_case_id (rec_item r) ∈ map case_id (company_cases (tables s))) →
  consistent s'.
Proof.
  intros (Hcases & Hcids & Hrids & Hchanges & Hrecs & Hhist & Hnames)
    Ht Hr Hh Hrows.
  unfold consistent. cbn zeta. rewrite Ht, Hr, Hh.
  split_and!; try done.
  - intros r Hr'. apply elem_of_app in Hr' as [Hr'|Hr']; auto.
  - intros h Hh'. destruct (Hhist h Hh') as [Hcase (r & Hr' & Hid)].
    split; [done|]. exists r. split; [|done]. apply elem_of_app. by left.
Qed.

Lemma consistent_history (s s' : database) (h : history_row) :
  consistent s →
  tables s' = tables s →
  recommendation_rows s' = recommendation_rows s →
  history_rows s' = history_rows s ++ [h] →
  (∃ cc, cc ∈ company_cases (tables s) ∧ case_id cc = hist_case_id h
         ∧ case_company_id cc = hist_company_id h) →
  (∃ r, r ∈ recommendation_rows s
        ∧ item_case_id (rec_item r) = hist_case_id h) →
  consistent s'.
Proof.
  intros (Hcases & Hcids & Hrids & Hchanges & Hrecs & Hhist & Hnames)
    Ht Hr Hh Hcase Hrec.
  unfold consistent. cbn zeta. rewrite Ht, Hr, Hh.
  split_and!; try done.
  intros h' Hh'. apply elem_of_app in Hh' as [Hh'|Hh']; [by apply Hhist|].
  apply list_elem_of_singleton in Hh' as ->. done.
Qed.

Lemma consistent_reports (s s' : database) :
  consistent s →
  companies (tables s') = companies (tables s) →
  company_cases (tables s') = company_cases (tables s) →
  recommendation_rows s' = recommendation_rows s →
  history_rows s' = history_rows s →
  NoDup (map ir_id (investor_reports (tables s'))) →
  (∀ id, id ∈ map ir_id (investor_reports (tables s)) →
         id ∈ map ir_id (investor_reports (tables s'))) →
  (∀ ch, ch ∈ investor_report_changes (tables s') →
     ch ∈ investor_report_changes (tables s)
     ∨ report_id ch ∈ map ir_id (investor_reports (tables s'))) →
  consistent s'.
Proof.
  intros (Hcases & Hcids & Hrids & Hchanges & Hrecs & Hhist & Hnames)
    Hco Hc Hr Hh Hrids' Hkept Hchanges'.
  unfold consistent. cbn zeta. rewrite Hco, Hc, Hr, Hh.
  split_and!; try done.
  intros ch Hch. destruct (Hchanges' ch Hch) as [Hold|]; [|done].
  by apply Hkept, Hchanges.
Qed.

(** A lookup keeps the database consistent, wherever it stops. *)
Lemma record_steps_consistent (title : string) (details : jsval)
  (type action : string) (companyName : string)
  (summary metrics rawInput : jsval) (e : env) (k k' : nat)
  (s s' : database) (o : outcome (Z * Z)) :
  consistent s →
  record_steps title details type action companyName summary metrics rawInput
    e k s = (o, k', s') →
  consistent s'.
Proof.
  intros Hs Hrun. unfold record_steps in Hrun.
  unfold mbind at 1, step_bind at 1 in Hrun.
  destruct (getOrCreateCompanyIdByName companyName e k s)
    as [[o1 k1] s1] eqn:Hcompany.
  pose proof (getOrCreate_step _ _ _ _ _ _ _ Hcompany)
    as (Hr1 & Hh1 & Hc1 & Hi1 & Hg1 & Hcompanies1 & Hnamed).
  assert (consistent s1) as Hs1.
  { apply (consistent_companies s); try done.
    - intros id Hid.
      destruct Hcompanies1 as [->|(new & Hnew & _ & ->)]; [done|].
      destruct (decide (id = new)) as [->|Hne].
      + by rewrite lookup_insert_eq.
      + by rewrite lookup_insert_ne.
    - intros id row Hrow. destruct Hs as (_ & _ & _ & _ & _ & _ & Hnames).
      destruct Hcompanies1 as [Hsame|(new & Hnew & _ & Hadded)].
      + rewrite Hsame in Hrow. by apply (Hnames id).
      + rewrite Hadded in Hrow. destruct (decide (id = new)) as [->|Hne].
        * rewrite lookup_insert_eq in Hrow. injection Hrow as <-.
          by exists (trim companyName).
        * rewrite lookup_insert_ne in Hrow by done. by apply (Hnames id). }
  destruct o1 as [companyId|err]; [|by injection Hrun as <- <- <-].
  destruct (Hnamed _ eq_refl) as (row1 & Hrow1 & _).
  clear Hr1 Hh1 Hc1 Hi1 Hg1 Hcompanies1 Hnamed Hcompany Hs.
  unfold mbind at 1, step_bind at 1 in Hrun.
  destruct (updateCompanyWithMetrics companyId metrics e k1 s1)
    as [[o2 k2] s2] eqn:Hmetrics.
  pose proof (updateCompanyWithMetrics_step _ _ _ _ _ _ _ _ Hmetrics)
    as (Hr2 & Hh2 & Hc2 & Hi2 & Hg2 & Hothers2 & Hnames2).
  assert (consistent s2) as Hs2.
  { apply (consistent_companies s1); try done.
    - intros id [row Hrow]. destruct (Hnames2 _ _ Hrow) as (row' & -> & _).
      done.
    - intros id row' Hrow'.
      destruct Hs1 as (_ & _ & _ & _ & _ & _ & Hnames).
      destruct (decide (id = companyId)) as [->|Hne].
      + destruct (Hnames2 _ _ Hrow1) as (row2 & Hrow2 & Hname).
        assert (row2 = row') as -> by congruence.
        rewrite Hname. by apply (Hnames companyId).
      + rewrite Hothers2 in Hrow' by done. by apply (Hnames id). }
  destruct (Hnames2 _ _ Hrow1) as (row2 & Hrow2 & _).
  destruct o2 as [[]|err]; [|by injection Hrun as <- <- <-].
  clear Hr2 Hh2 Hc2 Hi2 Hg2 Hothers2 Hnames2 Hmetrics Hs1 Hrow1 row1.
  unfold mbind at 1, step_bind at 1 in Hrun.
  destruct (insertCase companyId _ e k2 s2) as [[o3 k3] s3] eqn:Hcase.
  pose proof (insertCase_step _ _ _ _ _ _ _ _ Hcase)
    as (Hr3 & Hh3 & Hcompanies3 & Hi3 & Hg3 & Hc3).
  destruct o3 as [caseId|err].
  2:{ injection Hrun as <- <- <-.
      apply (consistent_companies s2); try done.
      - by rewrite Hcompanies3.
      - rewrite Hcompanies3. by destruct Hs2 as (_ & _ & _ & _ & _ & _ & ?). }
  destruct Hc3 as (Hfresh & bound & _ & Hc3).
  assert (consistent s3) as Hs3.
  { by apply (consistent_case s2 s3 _ Hs2 Hcompanies3 Hc3). }
  set (recorded := {| case_id := caseId |}) in *.
  assert (recorded ∈ company_cases (tables s3)) as Hrecorded.
  { rewrite Hc3. apply elem_of_app. right. by left. }
  clear Hr3 Hh3 Hcompanies3 Hi3 Hg3 Hc3 Hfresh Hcase Hs2 Hrow2.
  unfold mbind at 1, step_bind at 1 in Hrun.
  destruct (insertDemoRecommendations caseId type e k3 s3)
    as [[o4 k4] s4] eqn:Hdemo.
  pose proof (insertDemoRecommendations_step _ _ _ _ _ _ _ _ Hdemo)
    as (Ht4 & Hh4 & Hr4).
  destruct o4 as [[]|err].
  2:{ injection Hrun as <- <- <-.
      apply (consistent_recommendations s3 s4 []); try done.
      - by rewrite app_nil_r.
      - intros r Hr. by apply elem_of_nil in Hr. }
  assert (∀ r, r ∈ demo_rows (String.eqb type "detailed") e caseId →
               item_case_id (rec_item r) = caseId) as Hrows.
  { intros r Hr. unfold demo_rows in Hr.
    apply list_elem_of_fmap in Hr as (item & -> & Hitem).
    apply elem_of_app in Hitem as [Hitem|Hitem].
    - by apply list_elem_of_singleton in Hitem as ->.
    - destruct (String.eqb type "detailed").
      + by apply list_elem_of_singleton in Hitem as ->.
      + by apply elem_of_nil in Hitem. }
  assert (consistent s4) as Hs4.
  { apply (consistent_recommendations s3 s4 _ Hs3 Ht4 Hr4 Hh4).
    intros r Hr. rewrite (Hrows r Hr). apply list_elem_of_fmap.
    by exists recorded. }
  unfold mbind at 1, step_bind at 1 in Hrun.
  destruct (recordHistory companyId caseId action e k4 s4)
    as [[o5 k5] s5] eqn:Hhistory.
  pose proof (recordHistory_step _ _ _ _ _ _ _ _ _ Hhistory)
    as (Ht5 & Hr5 & Hh5).
  assert (consistent s5) as Hs5.
  { destruct o5 as [[]|err].
    - apply (consistent_history s4 s5 _ Hs4 Ht5 Hr5 Hh5).
      + exists recorded. by rewrite Ht4.
      + eexists. split.
        * rewrite Hr4. apply elem_of_app. right. unfold demo_rows.
          cbn [app map]. by left.
        * done.
    - destruct s4, s5. cbn in *. by subst. }
  destruct o5 as [[]|err]; by injection Hrun as <- <- <-.
Qed.

Lemma recordInvestorReport_consistent (companyId : Z) (companyName : string)
  (recommendation : jsval) (e : env) (k k' : nat) (s s' : database)
  (o : outcome unit) :
  consistent s →
  recordInvestorReport companyId companyName recommendation e k s
    = (o, k', s') →
  consistent s'.
Proof.
  intros Hs. unfold recordInvestorReport, statement.
  destruct (store_fault e k); [by intros [= <- <- <-]|].
  destruct (match recommendation with JUndefined => _ | _ => _ end)
    as [err|[[] s1]] eqn:Hrun; [by intros [= <- <- <-]|].
  intros [= <- <- <-].
  assert (∃ report,
    ir_id report = next_rowid (map ir_id (investor_reports (tables s)))
    ∧ s1 = with_tables s
        {| companies := companies (tables s);
           company_cases := company_cases (tables s);
           investor_reports := investor_reports (tables s) ++ [report];
           investor_report_changes := investor_report_changes (tables s) |})
    as (report & Hid & ->).
  { destruct recommendation; try done; injection Hrun as <-;
      (eexists; split; [|reflexivity]; reflexivity). }
  pose proof Hs as (_ & _ & Hrids & Hchanges & _).
  apply (consistent_reports s); try done;
    cbn [tables with_tables investor_reports investor_report_changes].
  - rewrite map_app. apply NoDup_app. split_and!; [done| |].
    + intros id Hold Hnew. cbn in Hnew.
      apply list_elem_of_singleton in Hnew as ->. rewrite Hid in Hold.
      by apply next_rowid_fresh in Hold.
    + cbn. apply NoDup_singleton.
  - intros id Hid'. rewrite map_app. apply elem_of_app. by left.
  - intros ch Hch. by left.
Qed.

Lemma written_Some (row : gmap string cell) (entries : list (string * jsval))
  (columnName : string) (v : jsval) :
  written row entries columnName = Some v →
  ∃ entry, entry ∈ entries ∧ entry_change row entry = Some (columnName, v).
Proof.
  induction entries as [|entry entries IH]; [done|]. cbn [written].
  destruct (written row entries columnName) as [v'|].
  - intros [= ->]. destruct (IH eq_refl) as (entry' & Hin & Hchange).
    exists entry'. split; [by right|done].
  - destruct (entry_change row entry) as [[c v']|] eqn:Hchange; [|done].
    destruct (String.eqb c columnName) eqn:E; [|done].
    apply String.eqb_eq in E as ->. intros [= ->]. exists entry.
    split; [by left|done].
Qed.

(** What the engine binds to [name] is a text or [NULL]. *)
Lemma requested_name_is_text (entry : string * jsval) (v : jsval) (c : cell) :
  entry_request entry = Some ("name", v) → bind_value v = Some c →
  c = CNull ∨ ∃ text, c = CText text.
Proof.
  unfold entry_request. destruct (resolveManualColumn (fst entry)) as [column|];
    [|done].
  destruct (error (coerceManualValue column (snd entry))); [done|].
  destruct (shouldPersist (coerceManualValue column (snd entry))); [|done].
  intros [= -> <-]. unfold coerceManualValue.
  destruct (snd entry) as [| |b|n|t|items|props]; cbn; try done.
  - intros [= <-]. by left.
  - intros [= <-]. by left.
  - intros [= <-]. right. by eexists.
  - destruct (String.eqb (trim t) ""); cbn; [intros [= <-]; by left|].
    intros [= <-]. right. by eexists.
Qed.

Lemma not_null_name (bound : list (string * cell)) (c : cell) :
  violates_not_null bound = false → cell_get bound "name" = Some c →
  c ≠ CNull.
Proof.
  unfold violates_not_null. induction bound as [|[k c'] bound IH]; [done|].
  cbn [existsb cell_get fst snd]. intros Hnone Hget.
  apply orb_false_iff in Hnone as [Hhead Hrest].
  destruct (String.eqb k "name") eqn:E; [|by apply IH].
  injection Hget as <-. by destruct c'.
Qed.

(** The UPDATE of the manual engine leaves the company with a name. *)
Lemma run_company_update_name (e : env) (row newRow : gmap string cell)
  (entries : list (string * jsval)) (ts : string) (logText : jsval)
  (name : string) :
  run_company_update e
    (obj_set "manual_change_log" logText
       (updatePayload (scan_entries row ts entries))) row = inr newRow →
  row !! "name" = Some (CText name) →
  ∃ name', newRow !! "name" = Some (CText name').
Proof.
  intros Hrun Hname.
  assert (NoDup (map fst (updatePayload (scan_entries row ts entries))))
    as Hkeys.
  { apply scan_payload_NoDup. simpl. apply NoDup_nil_2. }
  assert ("name" ∈ MANUAL_EDITABLE_COLUMNS) as Heditable.
  { apply (bool_decide_unpack _). by compute. }
  pose proof (run_company_update_lookup _ _ _ _ _ _ Hkeys Hrun Heditable)
    as Hlook.
  pose proof (scan_payload_get row ts entries
    {| changes := []; updatePayload := []; validationErrors := [] |} "name")
    as Hget.
  fold (scan_entries row ts entries) in Hget.
  destruct (written row entries "name") as [v|] eqn:Hw.
  - rewrite Hget in Hlook. destruct Hlook as (c & Hbind & Hnew).
    apply written_Some in Hw as (entry & _ & Hchange).
    apply entry_change_request in Hchange as [Hreq _].
    destruct (requested_name_is_text _ _ _ Hreq Hbind) as [->|[text ->]];
      [|by exists text].
    exfalso. unfold run_company_update in Hrun.
    destruct (store_fault e 0%nat); [done|].
    destruct (bind_all _) as [bound|] eqn:Hbound; [|done].
    destruct (violates_not_null bound) eqn:Hnull; [done|].
    apply (not_null_name bound CNull Hnull); [|done].
    rewrite (bind_all_get _ _ "name" Hbound).
    rewrite obj_get_set_ne by done. rewrite Hget. cbn. done.
  - cbn in Hget. rewrite Hget in Hlook. rewrite Hlook. by exists name.
Qed.

Lemma applyManualCompanyUpdates_consistent (s : database) (e : env)
  (companyId : option Z) (updates : jsval) :
  consistent s →
  consistent
    (with_tables s
       (snd (applyManualCompanyUpdates (tables s) e companyId updates))).
Proof.
  intros Hs.
  assert (consistent (with_tables s (tables s))) as Hsame by by destruct s.
  unfold applyManualCompanyUpdates.
  destruct companyId as [numericId|]; [|done].
  destruct (negb (truthy updates) || _ || _); [done|].
  destruct (companies (tables s) !! numericId) as [row|] eqn:Hrow; [|done].
  cbn zeta.
  destruct (negb (length (validationErrors _) =? 0)%nat); [done|].
  destruct (length (updatePayload _) =? 0)%nat; [done|].
  destruct (run_company_update _ _ _) as [err|newRow] eqn:Hrun; [done|].
  cbn [snd]. pose proof Hs as (_ & _ & _ & _ & _ & _ & Hnames).
  apply (consistent_companies s); try done;
    cbn [tables with_tables companies].
  - intros id Hid. destruct (decide (id = numericId)) as [->|Hne].
    + by rewrite lookup_insert_eq.
    + by rewrite lookup_insert_ne.
  - intros id row' Hrow'. destruct (decide (id = numericId)) as [->|Hne].
    + rewrite lookup_insert_eq in Hrow'. injection Hrow' as <-.
      destruct (Hnames _ _ Hrow) as [name Hname].
      by apply (run_company_update_name _ _ _ _ _ _ _ Hrun Hname).
    + rewrite lookup_insert_ne in Hrow' by done. by apply (Hnames id).
Qed.

Lemma report_ids_after_update (reports : list report_record) (id : Z)
  (text : string) :
  map ir_id
    (map (fun r => if Z.eqb (ir_id r) id then with_recommendation r text else r)
       reports)
  = map ir_id reports.
Proof.
  rewrite map_map. apply map_ext. intros r.
  by destruct (Z.eqb (ir_id r) id).
Qed.

Lemma applyManualInvestorReportUpdates_consistent (s : database) (e : env)
  (reportId : option Z) (recommendation : jsval) :
  consistent s →
  consistent
    (with_tables s
       (snd (applyManualInvestorReportUpdates (tables s) e reportId
               recommendation))).
Proof.
  intros Hs.
  assert (consistent (with_tables s (tables s))) as Hsame by by destruct s.
  unfold applyManualInvestorReportUpdates.
  destruct reportId as [numericId|]; [|done].
  destruct (negb (truthy recommendation) || _); [done|].
  destruct (selectInvestorReportById (tables s) numericId) as [existing|]
    eqn:Hsel; [|done].
  cbn zeta. destruct (length _ =? 0)%nat; [done|].
  unfold run_report_update. destruct (store_fault e 0%nat); [done|].
  pose proof Hs as (_ & _ & Hrids & Hchanges & _).
  assert (numericId ∈ map ir_id (investor_reports (tables s))) as Hknown.
  { unfold selectInvestorReportById in Hsel.
    apply find_some in Hsel as [Hin Hid]. apply Z.eqb_eq in Hid as <-.
    apply list_elem_of_fmap. exists existing. by apply list_elem_of_In in Hin. }
  unfold insertMany. cbn [investor_report_changes].
  destruct (insert_changes _ _ _ _ _) as [err|rows] eqn:Hins; cbn [snd].
  - apply (consistent_reports s); try done;
      cbn [tables with_tables investor_reports investor_report_changes];
      rewrite report_ids_after_update; auto.
  - apply insert_changes_rows in Hins as ->.
    apply (consistent_reports s); try done;
      cbn [tables with_tables investor_reports investor_report_changes];
      rewrite report_ids_after_update; auto.
    intros ch Hch. apply elem_of_app in Hch as [Hch|Hch]; [by left|].
    right. apply list_elem_of_fmap in Hch as (change & -> & _). done.
Qed.

Lemma perform_consistent (s : database) (c : env * api_call) :
  consistent s → consistent (perform s c).
Proof.
  intros Hs. destruct c as [e [n su m r|n su m x r|id n rec|id u|id rec]];
    unfold perform; cbn [fst snd].
  - unfold call. rewrite recordBasicCase_steps.
    destruct (record_steps _ _ _ _ _ _ _ _ e 0%nat s) as [[o k'] s'] eqn:Hrun.
    by apply (record_steps_consistent _ _ _ _ _ _ _ _ _ _ _ _ _ _ Hs Hrun).
  - unfold call. rewrite recordDetailedCase_steps.
    destruct (record_steps _ _ _ _ _ _ _ _ e 0%nat s) as [[o k'] s'] eqn:Hrun.
    by apply (record_steps_consistent _ _ _ _ _ _ _ _ _ _ _ _ _ _ Hs Hrun).
  - unfold call.
    destruct (recordInvestorReport id n rec e 0%nat s) as [[o k'] s'] eqn:Hrun.
    by apply (recordInvestorReport_consistent _ _ _ _ _ _ _ _ _ Hs Hrun).
  - by apply applyManualCompanyUpdates_consistent.
  - by apply applyManualInvestorReportUpdates_consistent.
Qed.

Lemma calls_consistent (calls : list (env * api_call)) (s : database) :
  consistent s → consistent (fold_left perform calls s).
Proof.
  revert s. induction calls as [|c calls IH]; intros s Hs; [done|].
  cbn [fold_left]. by apply IH, perform_consistent.
Qed.

Lemma empty_database_consistent : consistent empty_database.
Proof.
  unfold consistent, empty_database. cbn.
  split_and!; try (intros ? Hin; by apply elem_of_nil in Hin);
    try apply NoDup_nil_2.
  intros id row Hrow. by rewrite lookup_empty in Hrow.
Qed.

Lemma joined_cases_all (d : db) :
  (∀ cc, cc ∈ company_cases d → is_Some (companies d !! case_company_id cc)) →
  length (joined_cases d) = length (company_cases d).
Proof.
  unfold joined_cases. induction (company_cases d) as [|cc cases IH];
    intros Hall; [done|].
  cbn [omap list_omap]. destruct (Hall cc) as [row ->]; [by left|].
  cbn [length]. f_equal. apply IH. intros cc' Hcc'. apply Hall. by right.
Qed.

Lemma find_report_by_id (reports : list report_record) (r : report_record) :
  NoDup (map ir_id reports) → r ∈ reports →
  find (fun x => Z.eqb (ir_id x) (ir_id r)) reports = Some r.
Proof.
  induction reports as [|x reports IH]; intros Hnd Hin.
  - by apply elem_of_nil in Hin.
  - cbn [map] in Hnd. apply NoDup_cons in Hnd as [Hx Hnd]. cbn [find].
    apply elem_of_cons in Hin as [->|Hin]; [by rewrite Z.eqb_refl|].
    destruct (Z.eqb (ir_id x) (ir_id r)) eqn:E; [|by apply IH].
    apply Z.eqb_eq in E. destruct Hx. rewrite E. apply list_elem_of_fmap.
    by exists r.
Qed.

(** X15: whatever calls of the exported functions are made on the empty
    database, at whatever times, and whatever statements the store refuses,
    the database stays consistent: every case belongs to a company that
    exists, every change row to a report, every recommendation to a case,
    every history row to a case of its company that has a recommendation, no
    two cases and no two reports share an id, and every company has a name.
    So the history feed has as many entries as the limit allows, or one
    for each case and each report when they are fewer, and then it shows
    every case, with its company, and every report; each report is found by
    its id, and each case has the profile of its company. *)
Theorem every_call_keeps_the_database_consistent
  (calls : list (env * api_call)) :
  let s := fold_left perform calls empty_database in
  consistent s
  ∧ (∀ limit,
       length (getRecentCompanyHistory (tables s) limit)
       = (Z.to_nat (safeLimit_of limit)
          `min` (length (company_cases (tables s))
                 + length (investor_reports (tables s))))%nat)
  ∧ (∀ limit,
       (length (company_cases (tables s))
        + length (investor_reports (tables s))
        ≤ Z.to_nat (safeLimit_of limit))%nat →
       (∀ cc, cc ∈ company_cases (tables s) →
          ∃ row, companies (tables s) !! case_company_id cc = Some row
                 ∧ case_entry (cc, row)
                   ∈ getRecentCompanyHistory (tables s) limit)
       ∧ (∀ r, r ∈ investor_reports (tables s) →
            report_entry (tables s) r
            ∈ getRecentCompanyHistory (tables s) limit))
  ∧ (∀ r, r ∈ investor_reports (tables s) →
       selectInvestorReportById (tables s) (ir_id r) = Some r)
  ∧ (∀ cc, cc ∈ company_cases (tables s) →
       is_Some (getCompanyProfileById (tables s) (case_company_id cc))).
Proof.
  cbn zeta.
  pose proof (calls_consistent calls _ empty_database_consistent) as Hs.
  split; [done|]. destruct Hs as (Hcases & _ & Hrids & _).
  set (s := fold_left perform calls empty_database) in *.
  assert (length (all_entries (tables s))
          = (length (company_cases (tables s))
             + length (investor_reports (tables s)))%nat) as Hlength.
  { unfold all_entries. rewrite length_app, !length_map.
    by rewrite joined_cases_all. }
  split_and!.
  - intros limit. by rewrite history_length, Hlength.
  - intros limit Hroom. rewrite <- Hlength in Hroom.
    pose proof (history_shows_all (tables s) limit Hroom) as Hall.
    split.
    + intros cc Hcc. destruct (Hcases cc Hcc) as [row Hrow]. exists row.
      split; [done|]. rewrite Hall. apply elem_of_app. left.
      apply list_elem_of_fmap_2. by apply elem_of_joined_cases.
    + intros r Hr. rewrite Hall. apply elem_of_app. right.
      by apply list_elem_of_fmap_2.
  - intros r Hr. by apply find_report_by_id.
  - intros cc Hcc. unfold getCompanyProfileById.
    by destruct (Hcases cc Hcc) as [row ->].
Qed.

(** *** The profile of a company *)

Lemma profile_key_resolves (columnName key : string) :
  (columnName, key) ∈ PROFILE_COLUMNS →
  resolveManualColumn key = Some columnName.
Proof.
  unfold PROFILE_COLUMNS, METRIC_COLUMNS. intros Hin.
  repeat (apply elem_of_cons in Hin as [[= -> ->]|Hin]; [reflexivity|]).
  by apply elem_of_nil in Hin.
Qed.

Lemma profile_key_shows_column (row : case_record * gmap string cell)
  (columnName key : string) :
  (columnName, key) ∈ PROFILE_COLUMNS →
  get_property (shapeMetricsFromRow row) key
  = company_column (snd row) columnName.
Proof.
  unfold PROFILE_COLUMNS, METRIC_COLUMNS. intros Hin.
  repeat (apply elem_of_cons in Hin as [[= -> ->]|Hin]; [reflexivity|]).
  by apply elem_of_nil in Hin.
Qed.

Lemma isSame_true_shown (row : gmap string cell) (columnName : string)
  (v : jsval) :
  isSame (normalizedPrevious_of row columnName) v = true →
  company_column row columnName = or_null v.
Proof.
  rewrite company_column_previous. unfold normalizedPrevious_of, isSame.
  destruct (row !! columnName) as [[|s|n]|]; destruct v as [| |b|m|t|items|props];
    cbn [cell_to_js nullish andb strict_eq or_null]; try done.
  - intros Heq. apply String.eqb_eq in Heq. by subst.
  - intros Heq. apply bool_decide_eq_true in Heq. by subst.
Qed.

Lemma coerced_persists (columnName : string) (v : jsval) :
  v ≠ JUndefined → error (coerceManualValue columnName v) = None →
  shouldPersist (coerceManualValue columnName v) = true.
Proof.
  intros Hv. unfold coerceManualValue. destruct v as [| |b|n|t|items|props];
    try done.
  - by destruct (set_has MANUAL_NUMERIC_COLUMNS columnName).
  - destruct (String.eqb (trim t) ""); [done|].
    destruct (set_has MANUAL_NUMERIC_COLUMNS columnName); [|done].
    by destruct (Number_finite (trim t)).
Qed.

(** The row of the company after a call that returned holds, in the column
    of each entry of the request, what the entry asks for. *)
Lemma submitted_is_stored (d d' : db) (e : env) (numericId : Z)
  (updates : jsval) (r : company_response) (entry : string * jsval)
  (columnName : string) (v : jsval) :
  NoDup (resolved_columns (Object_entries updates)) →
  applyManualCompanyUpdates d e (Some numericId) updates = (Returned r, d') →
  entry ∈ Object_entries updates →
  entry_request entry = Some (columnName, v) →
  ∃ row', companies d' !! numericId = Some row'
          ∧ company_column row' columnName = or_null v.
Proof.
  intros Hnd Hcall Hin Hreq. unfold applyManualCompanyUpdates in Hcall.
  destruct (negb (truthy updates) || _ || _); [done|].
  destruct (companies d !! numericId) as [row|] eqn:Hrow; [|done].
  cbn zeta in Hcall.
  destruct (negb (length (validationErrors _) =? 0)%nat) eqn:Herr; [done|].
  apply negb_false_iff, Nat.eqb_eq, length_zero_iff_nil in Herr.
  unfold scan_entries in Herr. rewrite scan_errors in Herr. simpl in Herr.
  pose proof (entry_request_column _ _ _ Hreq) as [Hres _].
  assert (∀ row', entry_change row' entry = None →
                  company_column row' columnName = or_null v) as Hshown.
  { intros row' Hnone. unfold entry_change in Hnone. rewrite Hreq in Hnone.
    destruct (isSame (normalizedPrevious_of row' columnName) v) eqn:Hsame;
      [|done].
    by apply isSame_true_shown. }
  destruct (length (updatePayload _) =? 0)%nat eqn:Hpay.
  - injection Hcall as <- <-. exists row. split; [done|]. apply Hshown.
    apply Nat.eqb_eq, length_zero_iff_nil in Hpay.
    pose proof (scan_payload_get row (js_now e) (Object_entries updates)
      {| changes := []; updatePayload := []; validationErrors := [] |}
      columnName) as Hget.
    fold (scan_entries row (js_now e) (Object_entries updates)) in Hget.
    rewrite Hpay in Hget. cbn [obj_get updatePayload] in Hget.
    rewrite (written_unique row _ _ _ Hnd Hin Hres) in Hget.
    by destruct (entry_change row entry) as [[]|].
  - destruct (run_company_update _ _ _) as [err|newRow] eqn:Hrun; [done|].
    injection Hcall as <- <-. exists newRow. cbn [companies].
    split; [by rewrite lookup_insert_eq|]. apply Hshown.
    pose proof (second_scan_fixed row newRow e (js_now e) (js_now e) _ _
      {| changes := []; updatePayload := []; validationErrors := [] |}
      Hnd Herr Hrun) as Hfixed.
    apply (f_equal changes) in Hfixed. rewrite scan_changes in Hfixed.
    cbn [changes app] in Hfixed.
    pose proof (omap_nil_None _ _ _ Hfixed Hin) as Hnone. cbn beta in Hnone.
    by destruct (entry_change newRow entry) as [[]|].
Qed.

(** X16: after a call of the manual company update engine that returns,
    the profile of the company shows what was submitted: for every entry of
    the request whose key is a key of the profile's metrics (all but
    [summary]), the profile shows under that key the value the engine made of
    the entry (the trimmed text, the number, or null for a blank), when no two
    keys of the request resolve to one column. *)
Theorem profile_shows_what_was_submitted (d d' : db) (e : env)
  (numericId : Z) (updates : jsval) (r : company_response)
  (key columnName : string) (v : jsval) :
  NoDup (resolved_columns (Object_entries updates)) →
  applyManualCompanyUpdates d e (Some numericId) updates = (Returned r, d') →
  (key, v) ∈ Object_entries updates →
  v ≠ JUndefined →
  (columnName, key) ∈ PROFILE_COLUMNS →
  ∃ shown,
    getCompanyProfileById d' numericId = Some shown
    ∧ profile_companyId shown = numericId
    ∧ get_property (profile_metrics shown) key
      = or_null (value (coerceManualValue columnName v)).
Proof.
  intros Hnd Hcall Hin Hv Hkey.
  pose proof (profile_key_resolves _ _ Hkey) as Hres.
  assert (entry_error (key, v) = None) as Herror.
  { unfold applyManualCompanyUpdates in Hcall.
    destruct (negb (truthy updates) || _ || _); [done|].
    destruct (companies d !! numericId) as [row|]; [|done].
    cbn zeta in Hcall.
    destruct (negb (length (validationErrors _) =? 0)%nat) eqn:Herr; [done|].
    apply negb_false_iff, Nat.eqb_eq, length_zero_iff_nil in Herr.
    unfold scan_entries in Herr. rewrite scan_errors in Herr. simpl in Herr.
    by apply (omap_nil_None _ _ _ Herr Hin). }
  assert (entry_request (key, v)
          = Some (columnName, value (coerceManualValue columnName v))) as Hreq.
  { unfold entry_request, entry_error in *. cbn [fst snd] in *.
    rewrite Hres in *. rewrite Herror.
    by rewrite (coerced_persists _ _ Hv Herror). }
  destruct (submitted_is_stored _ _ _ _ _ _ _ _ _ Hnd Hcall Hin Hreq)
    as (row' & Hrow' & Hshown).
  unfold getCompanyProfileById. rewrite Hrow'. cbn zeta.
  eexists. split; [done|]. cbn [profile_companyId profile_metrics].
  split; [done|]. by rewrite (profile_key_shows_column _ _ _ Hkey).
Qed.

(** *** Reports *)

Lemma find_appended {A} (f : A → bool) (l : list A) (x : A) :
  (∀ y, y ∈ l → f y = false) → f x = true → find f (l ++ [x]) = Some x.
Proof.
  intros Hnone Hx. induction l as [|y l IH]; cbn [app find].
  - by rewrite Hx.
  - rewrite (Hnone y) by by left. apply IH. intros z Hz. apply Hnone.
    by right.
Qed.

Section Reports.
Context `{!JsonLaws}.

(** X17: a recorded report reads back.  A call of [recordInvestorReport]
    with a JSON payload that returns has added one report, under an id no
    report had, for the company and under the name it was given, stamped
    with the time of the call, and has touched nothing else; the report is
    found by its id, its stored text parses back to the payload, it opens
    the history feed, whatever the limit, when every stamp of the store is
    before the time of the call, and sending it the same payload through
    the manual report engine reports no change. *)
Theorem recorded_report_reads_back (s s' : database) (e : env)
  (companyId : Z) (companyName : string) (recommendation : jsval) :
  json_value recommendation = true →
  call (recordInvestorReport companyId companyName recommendation) e s
    = (Returned tt, s') →
  ∃ report,
    investor_reports (tables s') = investor_reports (tables s) ++ [report]
    ∧ (ir_id report ∉ map ir_id (investor_reports (tables s)))
    ∧ ir_company_id report = companyId
    ∧ ir_company_name report = companyName
    ∧ ir_created_at report = sql_now e
    ∧ JSON_parse (ir_recommendation report) = Some recommendation
    ∧ selectInvestorReportById (tables s') (ir_id report) = Some report
    ∧ (all_before (sql_now e) (stamps (tables s)) = true →
       ∀ limit,
         head (getRecentCompanyHistory (tables s') limit)
         = Some (report_entry (tables s') report))
    ∧ companies (tables s') = companies (tables s)
    ∧ company_cases (tables s') = company_cases (tables s)
    ∧ investor_report_changes (tables s') = investor_report_changes (tables s)
    ∧ recommendation_rows s' = recommendation_rows s
    ∧ history_rows s' = history_rows s
    ∧ ∀ e2,
        truthy recommendation = true → typeof recommendation = "object" →
        ∃ r2,
          applyManualInvestorReportUpdates (tables s') e2 (Some (ir_id report))
            recommendation = (Returned r2, tables s')
          ∧ report_updated r2 = false
          ∧ report_recommendation r2 = recommendation.
Proof.
  intros Hjson. unfold call.
  destruct (recordInvestorReport _ _ _ e 0%nat s) as [[o k'] s0] eqn:Hrun.
  intros [= -> ->]. apply statement_returned in Hrun as (_ & Hrun & _).
  assert (recommendation ≠ JUndefined) as Hdefined by by intros ->.
  set (report :=
    {| ir_id := next_rowid (map ir_id (investor_reports (tables s)));
       ir_company_id := companyId;
       ir_company_name := companyName;
       ir_recommendation := JSON_stringify recommendation;
       ir_created_at := sql_now e |}).
  assert (s' = with_tables s
            {| companies := companies (tables s);
               company_cases := company_cases (tables s);
               investor_reports := investor_reports (tables s) ++ [report];
               investor_report_changes := investor_report_changes (tables s) |})
    as ->.
  { destruct recommendation; try done; by injection Hrun as <-. }
  clear Hrun. exists report.
  cbn [tables with_tables companies company_cases investor_reports
       investor_report_changes recommendation_rows history_rows].
  assert (selectInvestorReportById
            {| companies := companies (tables s);
               company_cases := company_cases (tables s);
               investor_reports := investor_reports (tables s) ++ [report];
               investor_report_changes := investor_report_changes (tables s) |}
            (ir_id report) = Some report) as Hfound.
  { unfold selectInvestorReportById. cbn [investor_reports].
    apply find_appended; [|apply Z.eqb_refl].
    intros y Hy. apply Z.eqb_neq. intros Heq.
    apply (next_rowid_fresh (map ir_id (investor_reports (tables s)))).
    change (next_rowid _) with (ir_id report). rewrite <- Heq.
    apply list_elem_of_fmap. by exists y. }
  split_and!; try done.
  - apply next_rowid_fresh.
  - by apply JSON_parse_stringify.
  - intros Hclock limit.
    by apply (newest_report_opens_feed _ (investor_reports (tables s))).
  - intros e2 Htruthy Hobject. unfold applyManualInvestorReportUpdates.
    rewrite Htruthy, Hobject. cbn [negb orb String.eqb Ascii.eqb Bool.eqb].
    rewrite Hfound. cbn zeta. cbn [report ir_recommendation].
    rewrite (JSON_parse_stringify _ Hjson).
    rewrite diff_unfold, rows_at_same. cbn [length Nat.eqb].
    eexists. split; [done|]. done.
Qed.

End Reports.

(** *** The routes of the manual engines *)





End RecordingProperties.

(** ** The editor of the front end *)

Section FrontendProperties.
Context `{JsRuntime} `{!JsonParser}.

Lemma pending_columns_sublist (buffer metrics : jsval) (fields : list string) :
  resolved_columns (flat_map (pending_field buffer metrics) fields)
  `sublist_of` omap resolveManualColumn fields.
Proof.
  unfold resolved_columns. induction fields as [|field fields IH]; [done|].
  cbn [flat_map]. rewrite omap_app. cbn [omap list_omap].
  unfold pending_field at 1. cbn zeta.
  destruct (negb _); cbn [omap list_omap fst app].
  - destruct (resolveManualColumn field); [by apply sublist_skip|done].
  - destruct (resolveManualColumn field); [by apply sublist_cons|done].
Qed.

Lemma pending_keys (buffer metrics : jsval) (fields : list string)
  (kv : string * jsval) :
  kv ∈ flat_map (pending_field buffer metrics) fields → fst kv ∈ fields.
Proof.
  intros Hin. apply list_elem_of_In, in_flat_map in Hin as (field & Hfield & Hin).
  unfold pending_field in Hin. cbn zeta in Hin. destruct (negb _); [|done].
  destruct Hin as [<-|[]]. by apply list_elem_of_In.
Qed.

(** X20: the requests the editor builds.  What [buildUpdatesPayload]
    returns has only editable fields for keys, each at most once; every key
    names an editable column of the back end, and no two keys resolve to one
    column, which is what the manual company update engine needs for a
    second application of the request to report no change. *)
Theorem editor_requests_resolve_to_distinct_columns (buffer metrics : jsval)
  (updates : list (string * jsval)) :
  buildUpdatesPayload buffer metrics = Returned updates →
  (∀ kv, kv ∈ updates →
     fst kv ∈ EDITABLE_FIELDS ∧ is_Some (resolveManualColumn (fst kv)))
  ∧ NoDup (map fst updates)
  ∧ NoDup (resolved_columns updates).
Proof.
  unfold buildUpdatesPayload. cbn zeta.
  set (b := match buffer with JUndefined => JObj [] | _ => buffer end).
  set (m := match metrics with JUndefined => JObj [] | _ => metrics end).
  intros Hcall.
  assert (updates = flat_map (pending_field b m) EDITABLE_FIELDS) as ->.
  { unfold b, m in *.
    destruct buffer, metrics; first [done | by injection Hcall as <-]. }
  clear Hcall.
  assert (NoDup (resolved_columns
                   (flat_map (pending_field b m) EDITABLE_FIELDS))) as Hnd.
  { eapply sublist_NoDup; [|apply pending_columns_sublist].
    apply (bool_decide_unpack _). by compute. }
  split_and!; [| |done].
  - intros kv Hkv. apply pending_keys in Hkv. split; [done|].
    revert Hkv. generalize (fst kv). apply Forall_forall.
    apply (bool_decide_unpack _). by compute.
  - clear Hnd. assert (NoDup EDITABLE_FIELDS) as Hfields.
    { apply (bool_decide_unpack _). by compute. }
    eapply sublist_NoDup; [exact Hfields|]. clear Hfields.
    induction EDITABLE_FIELDS as [|field fields IH]; [done|].
    cbn [flat_map]. rewrite map_app. unfold pending_field at 1. cbn zeta.
    destruct (negb _); cbn [map fst app].
    + by apply sublist_skip.
    + by apply sublist_cons.
Qed.

Lemma buffer_field (metrics : jsval) (field : string) :
  field ∈ EDITABLE_FIELDS →
  field_of (JObj (createBufferFromMetrics metrics)) field
  = (if nullish (field_of metrics field) then JStr ""
     else JStr (js_String (field_of metrics field))).
Proof.
  unfold field_of at 1, createBufferFromMetrics.
  induction EDITABLE_FIELDS as [|f fields IH]; intros Hin.
  - by apply elem_of_nil in Hin.
  - cbn [map obj_get]. destruct (String.eqb f field) eqn:E.
    + apply String.eqb_eq in E as ->. cbn [default].
      by destruct (nullish (field_of metrics field)).
    + apply String.eqb_neq in E. apply elem_of_cons in Hin as [->|Hin]; [done|].
      by apply IH.
Qed.

Lemma untouched_field (metrics : jsval) (field : string) :
  field ∈ EDITABLE_FIELDS →
  prints_trimmed (field_of metrics field) = true →
  pending_field (JObj (createBufferFromMetrics metrics)) metrics field = [].
Proof.
  intros Hin Htrimmed. unfold pending_field. cbn zeta.
  rewrite (buffer_field _ _ Hin).
  destruct (field_of metrics field) as [| |b|n|s|items|props];
    cbn [nullish normalizeForComparison js_String] in *.
  - done.
  - done.
  - by destruct b.
  - cbn [prints_trimmed js_String] in Htrimmed.
    apply String.eqb_eq in Htrimmed. rewrite Htrimmed.
    by rewrite String.eqb_refl.
  - by rewrite String.eqb_refl.
  - cbn [prints_trimmed] in Htrimmed. apply String.eqb_eq in Htrimmed.
    cbn [js_String] in Htrimmed. rewrite Htrimmed.
    by rewrite String.eqb_refl.
  - done.
Qed.

(** X21: an editor that was not touched sends nothing.  For the buffer
    [createBufferFromMetrics] makes of the metrics, [buildUpdatesPayload]
    returns the empty request, when the numbers among the metrics print
    without white space around them (and the arrays, of which the back end
    sends none). *)
Theorem untouched_editor_sends_nothing (metrics : jsval) :
  metrics ≠ JNull →
  forallb (fun field => prints_trimmed (field_of metrics field))
    EDITABLE_FIELDS = true →
  buildUpdatesPayload (JObj (createBufferFromMetrics metrics)) metrics
  = Returned [].
Proof.
  intros Hnull Htrimmed. unfold buildUpdatesPayload. cbn zeta.
  assert (∀ m, (∀ field, field_of m field = field_of metrics field) →
            flat_map (pending_field (JObj (createBufferFromMetrics metrics)) m)
              EDITABLE_FIELDS = []) as Hnone.
  { intros m Hm. rewrite forallb_forall in Htrimmed.
    assert (∀ field, field ∈ EDITABLE_FIELDS →
                     prints_trimmed (field_of metrics field) = true) as Hall.
    { intros field Hin. by apply Htrimmed, list_elem_of_In. }
    clear Htrimmed.
    assert (∀ fields, (∀ field, field ∈ fields → field ∈ EDITABLE_FIELDS) →
              flat_map (pending_field (JObj (createBufferFromMetrics metrics)) m)
                fields = []) as Hfields; [|by apply Hfields].
    induction fields as [|field fields IH]; intros Hsub; [done|].
    cbn [flat_map]. rewrite IH by (intros f Hf; apply Hsub; by right).
    rewrite app_nil_r.
    assert (field ∈ EDITABLE_FIELDS) as Hin by (apply Hsub; by left).
    pose proof (untouched_field metrics field Hin (Hall field Hin)) as Hfield.
    unfold pending_field in *. cbn zeta in *. by rewrite Hm. }
  destruct metrics; try done; by rewrite Hnone.
Qed.

(** X28: the relative time of an entry.  For a timestamp that is a date,
    what is shown depends on the age alone, in whole hours, days and months
    of thirty days: an age below one hour, a future timestamp among them,
    shows as less than an hour; below a day, the whole hours, which are
    between 1 and 23; below two days, one day; below thirty days, the whole
    days; and from there on the whole months, of which there is at least
    one.  Nothing is ever shown as zero hours, days or months. *)
Theorem relative_time_counts_whole_units (now created : Z) (text : string) :
  text ≠ "" →
  Date_getTime text = Some created →
  let age := now - created in
  let shown := formatRelativeTime now (Some text) in
  (age < HOUR_MS → shown = "<1 hour ago")
  ∧ (HOUR_MS ≤ age < DAY_MS →
     1 ≤ age / HOUR_MS < 24
     ∧ shown = integer_String (age / HOUR_MS) +:+ " hour"
               +:+ (if age / HOUR_MS =? 1 then "" else "s") +:+ " ago")
  ∧ (DAY_MS ≤ age < 2 * DAY_MS → shown = "1 day ago")
  ∧ (2 * DAY_MS ≤ age < 30 * DAY_MS →
     2 ≤ age / DAY_MS < 30
     ∧ shown = integer_String (age / DAY_MS) +:+ " days ago")
  ∧ (MONTH_MS ≤ age →
     1 ≤ age / MONTH_MS
     ∧ shown = if age / MONTH_MS =? 1 then "1 month ago"
               else integer_String (age / MONTH_MS) +:+ " months ago").
Proof.
  intros Htext Hdate. cbn zeta. unfold formatRelativeTime.
  destruct text as [|c text]; [done|]. rewrite Hdate. cbn zeta.
  set (age := now - created).
  assert (age / 60000 / 60 = age / HOUR_MS) as Hhours.
  { rewrite Z.div_div by lia. done. }
  assert (age / 60000 / 60 / 24 = age / DAY_MS) as Hdays.
  { rewrite Hhours. unfold HOUR_MS, DAY_MS. rewrite Z.div_div by lia. done. }
  assert (age / 60000 / 60 / 24 / 30 = age / MONTH_MS) as Hmonths.
  { rewrite Hdays. unfold DAY_MS, MONTH_MS. rewrite Z.div_div by lia. done. }
  rewrite Hmonths, Hdays, Hhours.
  assert (age / 60000 < 60 ↔ age < HOUR_MS) as Hminute.
  { unfold HOUR_MS. split; intros Hlt.
    - apply Z.nle_gt. intros Hge.
      assert (60 ≤ age / 60000); [|lia].
      apply Z.div_le_lower_bound; lia.
    - apply Z.div_lt_upper_bound; lia. }
  unfold HOUR_MS, DAY_MS, MONTH_MS in *.
  split_and!.
  - intros Hage. apply Hminute in Hage.
    by rewrite (proj2 (Z.ltb_lt _ _) Hage).
  - intros [Hlow Hhigh].
    assert (1 ≤ age / 3600000 < 24) as Hbound.
    { split; [apply Z.div_le_lower_bound; lia|].
      apply Z.div_lt_upper_bound; lia. }
    split; [done|].
    rewrite (proj2 (Z.ltb_ge _ _)) by (rewrite <-Z.nlt_ge, Hminute; lia).
    by rewrite (proj2 (Z.ltb_lt _ _)) by lia.
  - intros [Hlow Hhigh].
    assert (age / 86400000 = 1) as Hone.
    { apply Z.le_antisymm.
      - assert (age / 86400000 < 2); [|lia]. apply Z.div_lt_upper_bound; lia.
      - apply Z.div_le_lower_bound; lia. }
    assert (24 ≤ age / 3600000) by (apply Z.div_le_lower_bound; lia).
    rewrite (proj2 (Z.ltb_ge _ _)) by (rewrite <-Z.nlt_ge, Hminute; lia).
    rewrite (proj2 (Z.ltb_ge _ _)) by lia.
    by rewrite Hone.
  - intros [Hlow Hhigh].
    assert (2 ≤ age / 86400000 < 30) as Hbound.
    { split; [apply Z.div_le_lower_bound; lia|].
      apply Z.div_lt_upper_bound; lia. }
    split; [done|].
    assert (24 ≤ age / 3600000) by (apply Z.div_le_lower_bound; lia).
    rewrite (proj2 (Z.ltb_ge _ _)) by (rewrite <-Z.nlt_ge, Hminute; lia).
    rewrite (proj2 (Z.ltb_ge _ _)) by lia.
    rewrite (proj2 (Z.eqb_neq _ _)) by lia.
    by rewrite (proj2 (Z.ltb_lt _ _)) by lia.
  - intros Hlow.
    assert (1 ≤ age / 2592000000) as Hbound.
    { apply Z.div_le_lower_bound; lia. }
    split; [done|].
    assert (24 ≤ age / 3600000) by (apply Z.div_le_lower_bound; lia).
    assert (30 ≤ age / 86400000) by (apply Z.div_le_lower_bound; lia).
    rewrite (proj2 (Z.ltb_ge _ _)) by (rewrite <-Z.nlt_ge, Hminute; lia).
    rewrite (proj2 (Z.ltb_ge _ _)) by lia.
    rewrite (proj2 (Z.eqb_neq _ _)) by lia.
    by rewrite (proj2 (Z.ltb_ge _ _)) by lia.
Qed.

End FrontendProperties.

(** ** Reading the reply of the model *)

Section ReplyProperties.
Context `{JsRuntime} `{!JsonParser}.

Lemma after_whitespace_shorter (backwards : bool) (cs rest : list ascii) :
  after_whitespace backwards cs = Some rest →
  rest `suffix_of` cs ∧ (length rest < length cs)%nat.
Proof.
  destruct cs as [|c1 [|c2 [|c3 cs]]]; cbn [after_whitespace]; try done.
  - destruct (is_js_whitespace c1); [|done]. intros [= <-].
    split; [by exists [c1]|cbn; lia].
  - destruct (is_js_whitespace c1).
    { intros [= <-]. split; [by exists [c1]|cbn; lia]. }
    destruct (if backwards then _ else _); [|done]. intros [= <-].
    split; [by exists [c1; c2]|cbn; lia].
  - destruct (is_js_whitespace c1).
    { intros [= <-]. split; [by exists [c1]|cbn; lia]. }
    destruct (if backwards then is_js_whitespace2 _ _ else _).
    { intros [= <-]. split; [by exists [c1; c2]|cbn; lia]. }
    destruct (if backwards then is_js_whitespace3 _ _ _ else _); [|done].
    intros [= <-]. split; [by exists [c1; c2; c3]|cbn; lia].
Qed.

Lemma after_whitespace_app (backwards : bool) (cs rest more : list ascii) :
  after_whitespace backwards cs = Some rest →
  after_whitespace backwards (cs ++ more) = Some (rest ++ more).
Proof.
  destruct cs as [|c1 [|c2 [|c3 cs]]]; cbn [after_whitespace app]; try done.
  - destruct (is_js_whitespace c1); [|done]. by intros [= <-].
  - destruct (is_js_whitespace c1); [by intros [= <-]|].
    destruct (if backwards then _ else _); [|done]. by intros [= <-].
  - destruct (is_js_whitespace c1); [by intros [= <-]|].
    destruct (if backwards then is_js_whitespace2 _ _ else _);
      [by intros [= <-]|].
    destruct (if backwards then is_js_whitespace3 _ _ _ else _); [|done].
    by intros [= <-].
Qed.

Lemma drop_whitespace_suffix (backwards : bool) (fuel : nat)
  (cs : list ascii) :
  drop_whitespace backwards fuel cs `suffix_of` cs.
Proof.
  revert cs. induction fuel as [|fuel IH]; intros cs; [done|].
  cbn [drop_whitespace].
  destruct (after_whitespace backwards cs) as [rest|] eqn:Hafter; [|done].
  apply after_whitespace_shorter in Hafter as [Hsuffix _].
  etrans; [apply IH|done].
Qed.

Lemma drop_whitespace_none (backwards : bool) (fuel : nat) (cs : list ascii) :
  after_whitespace backwards cs = None →
  drop_whitespace backwards fuel cs = cs.
Proof. intros Hnone. destruct fuel; [done|]. cbn. by rewrite Hnone. Qed.

Lemma drop_whitespace_done (backwards : bool) (fuel : nat) (cs : list ascii) :
  (length cs ≤ fuel)%nat →
  after_whitespace backwards (drop_whitespace backwards fuel cs) = None.
Proof.
  revert cs. induction fuel as [|fuel IH]; intros cs Hfuel.
  - destruct cs; [done|cbn in Hfuel; lia].
  - cbn [drop_whitespace].
    destruct (after_whitespace backwards cs) as [rest|] eqn:Hafter; [|done].
    apply IH. apply after_whitespace_shorter in Hafter as [_ Hshorter]. lia.
Qed.

Lemma drop_whitespace_fuel (backwards : bool) (fuel fuel' : nat)
  (cs : list ascii) :
  (length cs ≤ fuel)%nat → (length cs ≤ fuel')%nat →
  drop_whitespace backwards fuel cs = drop_whitespace backwards fuel' cs.
Proof.
  revert fuel' cs. induction fuel as [|fuel IH]; intros fuel' cs Hfuel Hfuel'.
  - destruct cs; [|cbn in Hfuel; lia]. by destruct fuel'.
  - destruct fuel' as [|fuel'].
    { destruct cs; [done|cbn in Hfuel'; lia]. }
    cbn [drop_whitespace].
    destruct (after_whitespace backwards cs) as [rest|] eqn:Hafter; [|done].
    apply after_whitespace_shorter in Hafter as [_ Hshorter].
    apply IH; lia.
Qed.

(** A byte of ASCII that is no white space is part of no white space. *)
Lemma ascii_byte_is_no_part (c : ascii) :
  (nat_of_ascii c < 128)%nat →
  ∀ x y, is_js_whitespace2 c x = false ∧ is_js_whitespace2 x c = false
         ∧ is_js_whitespace3 c x y = false ∧ is_js_whitespace3 x c y = false
         ∧ is_js_whitespace3 x y c = false.
Proof.
  intros Hc x y. unfold is_js_whitespace2, is_js_whitespace3. cbn zeta.
  assert (∀ k, (128 ≤ k)%nat → (nat_of_ascii c =? k)%nat = false) as Hne.
  { intros k Hk. apply Nat.eqb_neq. lia. }
  assert ((128 <=? nat_of_ascii c)%nat = false) as Hle.
  { apply Nat.leb_gt. lia. }
  rewrite !Hne, ?Hle by lia.
  rewrite ?andb_false_r, ?andb_false_l, ?orb_false_r, ?orb_false_l.
  rewrite ?andb_false_r, ?andb_false_l, ?orb_false_r, ?orb_false_l.
  done.
Qed.

Lemma after_whitespace_stops (backwards : bool) (cs rest : list ascii)
  (c : ascii) :
  (nat_of_ascii c < 128)%nat →
  is_js_whitespace c = false →
  after_whitespace backwards (cs ++ c :: rest)
  = (fun left => left ++ c :: rest) <$> after_whitespace backwards cs.
Proof.
  intros Hascii Hc.
  pose proof (ascii_byte_is_no_part c Hascii) as Hpart.
  destruct cs as [|c1 [|c2 [|c3 cs]]]; cbn [after_whitespace app].
  - rewrite Hc. destruct rest as [|x [|y rest]]; [done| |].
    + destruct (Hpart x x) as (H1 & H2 & _). rewrite H1, H2.
      by destruct backwards.
    + destruct (Hpart x y) as (H1 & H2 & H3 & _).
      destruct (Hpart y x) as (_ & _ & _ & _ & H5).
      rewrite H1, H2, H3, H5. by destruct backwards.
  - destruct (is_js_whitespace c1); [done|].
    destruct (Hpart c1 c1) as (H1 & H2 & _). rewrite H1, H2.
    destruct rest as [|x rest]; [by destruct backwards|].
    destruct (Hpart c1 x) as (_ & _ & _ & H4 & _).
    destruct (Hpart x c1) as (_ & _ & _ & H4' & _).
    rewrite H4, H4'. by destruct backwards.
  - destruct (is_js_whitespace c1); [done|].
    destruct (if backwards then is_js_whitespace2 _ _ else _); [done|].
    destruct (Hpart c1 c2) as (_ & _ & H3 & _ & H5).
    destruct (Hpart c2 c1) as (_ & _ & H3' & _ & H5').
    rewrite H3', H5. by destruct backwards.
  - destruct (is_js_whitespace c1); [done|].
    destruct (if backwards then is_js_whitespace2 _ _ else _); [done|].
    by destruct (if backwards then is_js_whitespace3 _ _ _ else _).
Qed.

Lemma drop_whitespace_stops (backwards : bool) (fuel : nat)
  (cs rest : list ascii) (c : ascii) :
  (nat_of_ascii c < 128)%nat →
  is_js_whitespace c = false →
  drop_whitespace backwards fuel (cs ++ c :: rest)
  = drop_whitespace backwards fuel cs ++ c :: rest.
Proof.
  intros Hascii Hc. revert cs. induction fuel as [|fuel IH]; intros cs; [done|].
  cbn [drop_whitespace]. rewrite after_whitespace_stops by done.
  destruct (after_whitespace backwards cs) as [left|]; cbn; [apply IH|done].
Qed.

Lemma trim_again (s : string) : trim (trim s) = trim s.
Proof.
  unfold trim. cbn zeta. rewrite list_ascii_of_string_of_list_ascii.
  set (cs := list_ascii_of_string s).
  set (start := drop_whitespace false (length cs) cs).
  set (kept := drop_whitespace true (length start) (rev start)).
  assert (after_whitespace true kept = None) as Hend.
  { apply drop_whitespace_done. by rewrite length_rev. }
  assert (after_whitespace false (rev kept) = None) as Hstart.
  { destruct (drop_whitespace_suffix true (length start) (rev start))
      as [dropped Hdropped]. fold kept in Hdropped.
    assert (start = rev kept ++ rev dropped) as Hsplit.
    { by rewrite <-rev_app_distr, <-Hdropped, rev_involutive. }
    destruct (after_whitespace false (rev kept)) as [rest|] eqn:Hafter;
      [|done].
    apply (after_whitespace_app _ _ _ (rev dropped)) in Hafter.
    rewrite <-Hsplit in Hafter. unfold start in Hafter.
    by rewrite drop_whitespace_done in Hafter. }
  rewrite (drop_whitespace_none false _ _ Hstart), rev_involutive.
  by rewrite (drop_whitespace_none true _ _ Hend).
Qed.

Lemma list_ascii_app (s t : string) :
  list_ascii_of_string (s +:+ t)
  = list_ascii_of_string s ++ list_ascii_of_string t.
Proof.
  induction s as [|c s IH]; [done|].
  change (String c s +:+ t) with (String c (s +:+ t)).
  cbn [list_ascii_of_string]. by rewrite IH.
Qed.

Lemma string_of_list_app (l1 l2 : list ascii) :
  string_of_list_ascii (l1 ++ l2)
  = string_of_list_ascii l1 +:+ string_of_list_ascii l2.
Proof.
  induction l1 as [|c l1 IH]; [done|].
  cbn [app string_of_list_ascii]. by rewrite IH.
Qed.

Lemma trim_around (before inner after : string) :
  trim (before +:+ String "{" (inner +:+ String "}" after))
  = trimmed_start before
    +:+ String "{" (inner +:+ String "}" (trimmed_end after)).
Proof.
  unfold trim, trimmed_start, trimmed_end. cbn zeta.
  rewrite list_ascii_app. cbn [list_ascii_of_string].
  rewrite list_ascii_app. cbn [list_ascii_of_string].
  set (b := list_ascii_of_string before).
  set (i := list_ascii_of_string inner).
  set (a := list_ascii_of_string after).
  rewrite drop_whitespace_stops by first [reflexivity | apply Nat.ltb_lt; reflexivity].
  rewrite (drop_whitespace_fuel false _ (length b) b)
    by (rewrite ?length_app; cbn [length]; rewrite ?length_app;
        cbn [length]; lia).
  set (b' := drop_whitespace false (length b) b).
  assert (rev (b' ++ "{"%char :: i ++ "}"%char :: a)
          = rev a ++ "}"%char :: (rev i ++ "{"%char :: rev b')) as ->.
  { rewrite rev_app_distr. cbn [rev]. rewrite rev_app_distr. cbn [rev].
    rewrite <-!app_assoc. done. }
  rewrite drop_whitespace_stops by first [reflexivity | apply Nat.ltb_lt; reflexivity].
  rewrite (drop_whitespace_fuel true _ (length a) (rev a))
    by (rewrite ?length_app, ?length_rev; cbn [length];
        rewrite ?length_app; cbn [length]; lia).
  set (a' := drop_whitespace true (length a) (rev a)).
  rewrite rev_app_distr. cbn [rev]. rewrite rev_app_distr. cbn [rev].
  rewrite !rev_involutive, <-!app_assoc. cbn [app].
  rewrite string_of_list_app. cbn [string_of_list_ascii].
  rewrite string_of_list_app. cbn [string_of_list_ascii].
  unfold i. rewrite string_of_list_ascii_of_string. done.
Qed.

Lemma indexOf_None (c : ascii) (s : string) :
  indexOf c s = None ↔ c ∉ list_ascii_of_string s.
Proof.
  induction s as [|x s IH]; cbn [indexOf list_ascii_of_string].
  - split; [intros _; apply not_elem_of_nil|done].
  - rewrite not_elem_of_cons. destruct (Ascii.eqb x c) eqn:E.
    + apply Ascii.eqb_eq in E as ->. split; [done|]. by intros [? _].
    + apply Ascii.eqb_neq in E. destruct (indexOf c s); cbn [fmap option_fmap option_map].
      * split; [done|]. intros [_ Hnot]. by apply IH in Hnot.
      * split; [|done]. intros _. split; [done|]. by apply IH.
Qed.

Lemma lastIndexOf_None (c : ascii) (s : string) :
  lastIndexOf c s = None ↔ c ∉ list_ascii_of_string s.
Proof.
  induction s as [|x s IH]; cbn [lastIndexOf list_ascii_of_string].
  - split; [intros _; apply not_elem_of_nil|done].
  - rewrite not_elem_of_cons. destruct (lastIndexOf c s).
    + split; [done|]. intros [_ Hnot]. by apply IH in Hnot.
    + destruct (Ascii.eqb x c) eqn:E.
      * apply Ascii.eqb_eq in E as ->. split; [done|]. by intros [? _].
      * apply Ascii.eqb_neq in E. split; [|done]. intros _.
        split; [done|]. by apply IH.
Qed.

Lemma indexOf_first (c : ascii) (s rest : string) :
  indexOf c s = None →
  indexOf c (s +:+ String c rest) = Some (String.length s).
Proof.
  induction s as [|x s IH]; cbn [indexOf String.length].
  - intros _. change (indexOf c (String c rest) = Some 0%nat).
    cbn [indexOf]. by rewrite Ascii.eqb_refl.
  - change (String x s +:+ String c rest) with (String x (s +:+ String c rest)).
    cbn [indexOf]. destruct (Ascii.eqb x c); [done|].
    destruct (indexOf c s) eqn:E; [done|]. intros _. by rewrite IH.
Qed.

Lemma lastIndexOf_last (c : ascii) (s rest : string) :
  lastIndexOf c rest = None →
  lastIndexOf c (s +:+ String c rest) = Some (String.length s).
Proof.
  intros Hrest. induction s as [|x s IH]; cbn [String.length].
  - change (lastIndexOf c (String c rest) = Some 0%nat).
    cbn [lastIndexOf]. by rewrite Hrest, Ascii.eqb_refl.
  - change (String x s +:+ String c rest) with (String x (s +:+ String c rest)).
    cbn [lastIndexOf]. by rewrite IH.
Qed.

Lemma length_of_append (s t : string) :
  String.length (s +:+ t) = (String.length s + String.length t)%nat.
Proof.
  induction s as [|x s IH]; [done|].
  change (String x s +:+ t) with (String x (s +:+ t)).
  cbn [String.length]. by rewrite IH.
Qed.

Lemma substring_prefix (s t : string) :
  substring 0 (String.length s) (s +:+ t) = s.
Proof.
  induction s as [|x s IH].
  - cbn [String.length]. change (EmptyString +:+ t) with t. by destruct t.
  - change (String x s +:+ t) with (String x (s +:+ t)).
    cbn [String.length substring]. by rewrite IH.
Qed.

Lemma slice_middle (before middle after : string) :
  slice (before +:+ middle +:+ after) (String.length before)
    (String.length before + String.length middle)
  = middle.
Proof.
  unfold slice.
  replace (String.length before + String.length middle - String.length before)%nat
    with (String.length middle) by lia.
  induction before as [|x before IH].
  - change (EmptyString +:+ middle +:+ after) with (middle +:+ after).
    apply substring_prefix.
  - change (String x before +:+ middle +:+ after)
      with (String x (before +:+ middle +:+ after)).
    cbn [String.length substring]. apply IH.
Qed.

Lemma append_assoc_3 (s t u : string) : (s +:+ t) +:+ u = s +:+ (t +:+ u).
Proof.
  induction s as [|x s IH]; [done|].
  change (String x ((s +:+ t) +:+ u) = String x (s +:+ (t +:+ u))).
  by rewrite IH.
Qed.

(** X22: an object wrapped in prose is recovered.  When the reply of the
    model is an object in braces with text before it that has no opening
    brace, and text after it that has no closing brace, both [tryParse]
    read the object out of it, unless the reply as a whole is JSON, in
    which case they read the whole. *)
Theorem wrapped_object_is_recovered (before inner after : string)
  (parsed : jsval) :
  let object := String "{" (inner +:+ "}") in
  let text := before +:+ object +:+ after in
  JSON_parse object = Some parsed →
  indexOf "{" before = None →
  lastIndexOf "}" after = None →
  tryParse text = Succeeded (default parsed (JSON_parse (trim text)))
  ∧ parse_or_slice (trim text)
    = Succeeded (default parsed (JSON_parse (trim text))).
Proof.
  cbn zeta. intros Hparsed Hbefore Hafter.
  assert (String "{" (inner +:+ "}") +:+ after
          = String "{" (inner +:+ String "}" after)) as ->.
  { change (String "{" ((inner +:+ "}") +:+ after)
            = String "{" (inner +:+ String "}" after)).
    by rewrite append_assoc_3. }
  pose proof (trim_around before inner after) as Htrim.
  set (start := trimmed_start before) in *.
  set (finish := trimmed_end after) in *.
  set (text := before +:+ String "{" (inner +:+ String "}" after)) in *.
  set (trimmed := start +:+ String "{" (inner +:+ String "}" finish)) in *.
  assert (indexOf "{" start = None) as Hstart.
  { apply indexOf_None. apply indexOf_None in Hbefore.
    unfold start, trimmed_start. cbn zeta.
    rewrite list_ascii_of_string_of_list_ascii.
    set (cs := list_ascii_of_string before) in *.
    intros Hin. apply Hbefore.
    destruct (drop_whitespace_suffix false (length cs) cs) as [l Hl].
    rewrite Hl. apply elem_of_app. by right. }
  assert (lastIndexOf "}" finish = None) as Hfinish.
  { apply lastIndexOf_None. apply lastIndexOf_None in Hafter.
    unfold finish, trimmed_end. cbn zeta.
    rewrite list_ascii_of_string_of_list_ascii.
    set (cs := list_ascii_of_string after) in *.
    intros Hin. apply Hafter. apply list_elem_of_In, in_rev.
    apply list_elem_of_In, in_rev in Hin.
    destruct (drop_whitespace_suffix true (length cs) (rev cs)) as [l Hl].
    rewrite Hl. apply in_or_app. by right. }
  assert (indexOf "{" trimmed = Some (String.length start)) as Hfirst.
  { by apply indexOf_first. }
  assert (lastIndexOf "}" trimmed
          = Some (String.length (start +:+ String "{" inner))) as Hlast.
  { assert (trimmed = (start +:+ String "{" inner) +:+ String "}" finish)
      as ->.
    { by rewrite append_assoc_3. }
    by apply lastIndexOf_last. }
  assert (slice trimmed (String.length start)
            (String.length (start +:+ String "{" inner) + 1)
          = String "{" (inner +:+ "}")) as Hmiddle.
  { assert (trimmed = start +:+ String "{" (inner +:+ "}") +:+ finish) as ->.
    { unfold trimmed. f_equal.
      change (String "{" (inner +:+ String "}" finish)
              = String "{" ((inner +:+ "}") +:+ finish)).
      by rewrite append_assoc_3. }
    replace (String.length (start +:+ String "{" inner) + 1)%nat
      with (String.length start
            + String.length (String "{" (inner +:+ "}")))%nat.
    2:{ rewrite length_of_append. cbn [String.length]. rewrite length_of_append.
        cbn [String.length]. lia. }
    apply slice_middle. }
  assert (parse_or_slice (trim text)
          = Succeeded (default parsed (JSON_parse (trim text)))) as Hslice.
  { unfold parse_or_slice.
    destruct (JSON_parse (trim text)) as [whole|] eqn:Hwhole; [done|].
    cbn [default]. by rewrite Htrim, Hfirst, Hlast, Hmiddle, Hparsed. }
  split; [|done]. unfold tryParse.
  destruct (String.eqb text "") eqn:Hempty.
  { apply String.eqb_eq in Hempty. unfold text in Hempty. by destruct before. }
  destruct (String.eqb (trim text) "") eqn:Htrimmed; [|done].
  apply String.eqb_eq in Htrimmed. rewrite Htrim in Htrimmed.
  unfold trimmed in Htrimmed. by destruct start.
Qed.

Section Enrichment.
Context `{!JsonLaws}.

Lemma parse_or_slice_json (text : string) (parsed : jsval) :
  parse_or_slice text = Succeeded parsed → json_value parsed = true.
Proof.
  unfold parse_or_slice.
  destruct (JSON_parse text) as [whole|] eqn:Hwhole.
  { intros [= <-]. by apply JSON_parse_json_value in Hwhole. }
  destruct (indexOf "{" text); [|done].
  destruct (lastIndexOf "}" text); [|done].
  destruct (JSON_parse (slice _ _ _)) as [part|] eqn:Hpart; [|done].
  intros [= <-]. by apply JSON_parse_json_value in Hpart.
Qed.

Lemma tryParse_json (text : string) (parsed : jsval) :
  tryParse text = Succeeded parsed → json_value parsed = true.
Proof.
  unfold tryParse. destruct (String.eqb text ""); [by intros [= <-]|].
  cbn zeta. destruct (String.eqb (trim text) ""); [by intros [= <-]|].
  apply parse_or_slice_json.
Qed.

Lemma first_parsed_found (blocks : list jsval) (parsed : jsval) :
  first_parsed blocks = Succeeded parsed →
  truthy parsed = true ∧ json_value parsed = true.
Proof.
  induction blocks as [|block blocks IH]; [done|].
  cbn [first_parsed]. cbn zeta.
  destruct (negb (truthy _)); [done|].
  destruct (match block with JUndefined | JNull => JUndefined
            | _ => field_of block "content" end)
    as [| | | | |items|]; try done.
  destruct (text_chunks items) as [chunks|]; [|done].
  cbn [mbind attempt_bind].
  destruct (tryParse _) as [found|] eqn:Hfound; cbn [mbind attempt_bind];
    [|done].
  destruct (truthy found) eqn:Htruthy; [|exact IH].
  intros [= <-]. split; [done|]. by apply tryParse_json in Hfound.
Qed.

Lemma extractJsonPayload_found (response parsed : jsval) :
  extractJsonPayload response = Succeeded parsed →
  truthy parsed = true ∧ json_value parsed = true.
Proof.
  unfold extractJsonPayload.
  destruct (property response "output_text") as [output_text|]; [|done].
  cbn [mbind attempt_bind].
  destruct (match output_text with
            | JArr (item :: items) => tryParse (Array_join line_feed (item :: items))
            | _ => mret JNull
            end) as [found|] eqn:Hfound; cbn [mbind attempt_bind]; [|done].
  destruct (truthy found) eqn:Htruthy.
  - intros [= <-]. split; [done|].
    destruct output_text as [| | | | |[|item items]|];
      try (by injection Hfound as <-).
    by apply tryParse_json in Hfound.
  - destruct (field_of response "output"); try done.
    apply first_parsed_found.
Qed.

(** X23: the enrichment answers whenever its agent is configured.
    [inferCompanyBaseMetrics] throws only for a [LOOKUP_AGENT] that is
    missing or empty, and then with the code the routes look for.
    Otherwise it returns metrics that are truthy, so that the routes may
    read [metrics.summary]: either what [extractJsonPayload] read out of
    the reply, a JSON value of which [raw] is the text, so that [raw]
    parses back to the metrics; or, when the call was rejected or nothing
    could be read out of the reply, the fallback metrics with [raw]
    [null]. *)
Theorem enrichment_answers_whenever_configured (LOOKUP_AGENT : option string)
  (reply : attempt jsval) (companyName : string) :
  match inferCompanyBaseMetrics LOOKUP_AGENT reply companyName with
  | Raised err =>
      (LOOKUP_AGENT = None ∨ LOOKUP_AGENT = Some "")
      ∧ raised_code err = Some "MISSING_LOOKUP_AGENT"
  | Succeeded (metrics, raw) =>
      (∃ agent, LOOKUP_AGENT = Some agent ∧ agent ≠ "")
      ∧ truthy metrics = true
      ∧ ((∃ response,
            reply = Succeeded response
            ∧ extractJsonPayload response = Succeeded metrics
            ∧ raw = JStr (JSON_stringify metrics)
            ∧ json_value metrics = true
            ∧ JSON_parse (JSON_stringify metrics) = Some metrics)
         ∨ (metrics = fallback_metrics companyName
            ∧ raw = JNull
            ∧ ∀ response,
                reply = Succeeded response →
                ∃ err, extractJsonPayload response = Raised err))
  end.
Proof.
  unfold inferCompanyBaseMetrics, buildEnrichmentPrompt.
  destruct LOOKUP_AGENT as [[|c agent]|]; cbn [mbind attempt_bind mret attempt_ret];
    [by split; [right|] | | by split; [left|]].
  destruct reply as [response|err]; cbn [mbind attempt_bind].
  - destruct (extractJsonPayload response) as [parsed|err] eqn:Hparsed.
    + apply extractJsonPayload_found in Hparsed as Hfound.
      destruct Hfound as [Htruthy Hjson].
      split; [by eexists|]. split; [done|]. left. exists response.
      split_and!; try done. by apply JSON_parse_stringify.
    + split; [by eexists|]. split; [done|]. right. split_and!; try done.
      intros ? [= <-]. by exists err.
  - split; [by eexists|]. split; [done|]. right. split_and!; try done.
Qed.

End Enrichment.

(** ** The shape of a recommendation *)

Lemma json_value_field (payload : jsval) (key : string) :
  json_value payload = true →
  field_of payload key = JUndefined
  ∨ json_value (field_of payload key) = true.
Proof.
  destruct payload as [| | | | | |props]; try (by left).
  cbn [json_value field_of]. intros Hjson.
  apply andb_true_iff in Hjson as [Hprops _].
  induction props as [|[k v] props IH]; [by left|].
  cbn [forallb snd] in Hprops. apply andb_true_iff in Hprops as [Hv Hprops].
  cbn [obj_get]. destruct (String.eqb k key); [by right|]. by apply IH.
Qed.

Lemma json_value_or_null (value : jsval) :
  value = JUndefined ∨ json_value value = true →
  json_value (or_null value) = true.
Proof. intros [->|Hjson]; [done|]. by destruct value. Qed.

Lemma json_value_or_empty (value : jsval) :
  value = JUndefined ∨ json_value value = true →
  json_value (or_empty value) = true.
Proof. intros [->|Hjson]; [done|]. by destruct value. Qed.

Lemma json_value_array_or_empty (value : jsval) :
  value = JUndefined ∨ json_value value = true →
  json_value (array_or_empty value) = true.
Proof. intros [->|Hjson]; [done|]. by destruct value. Qed.

Lemma or_null_twice (value : jsval) : or_null (or_null value) = or_null value.
Proof. by destruct value. Qed.

Lemma or_empty_twice (value : jsval) :
  or_empty (or_empty value) = or_empty value.
Proof. by destruct value. Qed.

Lemma array_or_empty_twice (value : jsval) :
  array_or_empty (array_or_empty value) = array_or_empty value.
Proof. by destruct value. Qed.

Lemma shaped_is_an_object (payload : jsval) :
  ∃ props,
    coerceRecommendationShape payload = JObj props
    ∧ map fst props = RECOMMENDATION_KEYS.
Proof.
  unfold coerceRecommendationShape.
  destruct (negb (truthy payload) || _); by eexists.
Qed.

Lemma shaped_again (payload : jsval) :
  coerceRecommendationShape (coerceRecommendationShape payload)
  = coerceRecommendationShape payload.
Proof.
  unfold coerceRecommendationShape at 2 3.
  destruct (negb (truthy payload) || _); [reflexivity|].
  unfold coerceRecommendationShape.
  cbn [truthy typeof negb orb String.eqb Ascii.eqb Bool.eqb field_of obj_get
       default].
  unfold id.
  by rewrite !or_null_twice, !or_empty_twice, !array_or_empty_twice.
Qed.

Lemma shaped_json_value (payload : jsval) :
  json_value payload = true →
  json_value (coerceRecommendationShape payload) = true.
Proof.
  intros Hjson. unfold coerceRecommendationShape.
  destruct (negb (truthy payload) || _); [done|].
  cbn [json_value forallb snd fst map].
  rewrite !json_value_or_null, !json_value_or_empty,
    !json_value_array_or_empty by by apply json_value_field.
  cbn [andb]. apply bool_decide_eq_true_2. apply (bool_decide_unpack _).
  by compute.
Qed.

(** X24: the shape of a recommendation.  Whatever the payload,
    [coerceRecommendationShape] returns an object with the eight keys of a
    recommendation in their order, none of them [undefined], the two lists
    of which are arrays; it returns a recommendation of that shape as it
    is; and what it makes of a JSON value is a JSON value. *)
Theorem coerced_recommendation_has_the_shape (payload : jsval) :
  let shaped := coerceRecommendationShape payload in
  (∃ props, shaped = JObj props ∧ map fst props = RECOMMENDATION_KEYS)
  ∧ (∀ key, key ∈ RECOMMENDATION_KEYS → field_of shaped key ≠ JUndefined)
  ∧ Array_isArray (field_of shaped "funding_instrument_mix") = true
  ∧ Array_isArray (field_of shaped "recommended_investors") = true
  ∧ coerceRecommendationShape shaped = shaped
  ∧ (json_value payload = true → json_value shaped = true).
Proof.
  cbn zeta. split; [apply shaped_is_an_object|].
  split_and!; [| | |apply shaped_again|apply shaped_json_value].
  - intros key Hkey. unfold coerceRecommendationShape.
    destruct (negb (truthy payload) || _); unfold RECOMMENDATION_KEYS in Hkey.
    + repeat (apply elem_of_cons in Hkey as [->|Hkey]; [done|]).
      by apply elem_of_nil in Hkey.
    + repeat (apply elem_of_cons in Hkey as [->|Hkey];
              [cbn [field_of obj_get String.eqb Ascii.eqb Bool.eqb default];
               by destruct (field_of payload _)|]).
      by apply elem_of_nil in Hkey.
  - unfold coerceRecommendationShape.
    destruct (negb (truthy payload) || _); [done|].
    cbn [field_of obj_get String.eqb Ascii.eqb Bool.eqb default].
    by destruct (field_of payload _).
  - unfold coerceRecommendationShape.
    destruct (negb (truthy payload) || _); [done|].
    cbn [field_of obj_get String.eqb Ascii.eqb Bool.eqb default].
    by destruct (field_of payload _).
Qed.

Section Advisor.
Context `{!JsonLaws}.

(** X25: what the investor advisor returns and what it throws.  A
    recommendation [recommendInvestorsForCompany] returns is a JSON value
    of the shape above, made of what was read out of the reply; it throws
    for a profile that is no object, for a [FUNDING_ADVISOR_AGENT] that is
    missing or empty, with the code the routes look for, and otherwise
    only what the call of the model rejected with or what reading its reply
    threw. *)
Theorem advisor_returns_a_recordable_recommendation
  (FUNDING_ADVISOR_AGENT : option string) (reply : attempt jsval)
  (companyProfile : jsval) :
  match recommendInvestorsForCompany FUNDING_ADVISOR_AGENT reply
          companyProfile with
  | Succeeded recommendation =>
      (∃ response parsed,
         reply = Succeeded response
         ∧ advisor_extractJsonPayload response = Succeeded parsed
         ∧ recommendation = coerceRecommendationShape parsed)
      ∧ json_value recommendation = true
      ∧ coerceRecommendationShape recommendation = recommendation
      ∧ truthy recommendation = true
      ∧ typeof recommendation = "object"
      ∧ JSON_parse (JSON_stringify recommendation) = Some recommendation
  | Raised err =>
      (err = error_of "Company profile is required"
       ∧ (truthy companyProfile = false ∨ typeof companyProfile ≠ "object"))
      ∨ (raised_code err = Some "MISSING_FUNDING_ADVISOR_AGENT"
         ∧ (FUNDING_ADVISOR_AGENT = None ∨ FUNDING_ADVISOR_AGENT = Some ""))
      ∨ reply = Raised err
      ∨ ∃ response,
          reply = Succeeded response
          ∧ advisor_extractJsonPayload response = Raised err
  end.
Proof.
  unfold recommendInvestorsForCompany.
  destruct (negb (truthy companyProfile) || _) eqn:Hguard.
  { left. split; [done|]. apply orb_true_iff in Hguard as [Hfalsy|Htype].
    - left. by apply negb_true_iff in Hfalsy.
    - right. by apply negb_true_iff, String.eqb_neq in Htype. }
  unfold investor_prompt_ready.
  destruct FUNDING_ADVISOR_AGENT as [[|c agent]|];
    cbn [mbind attempt_bind mret attempt_ret];
    [right; left; by split; [|right] | | right; left; by split; [|left]].
  destruct reply as [response|err]; cbn [mbind attempt_bind];
    [|by right; right; left].
  destruct (advisor_extractJsonPayload response) as [parsed|err] eqn:Hparsed;
    [|right; right; right; by exists response].
  assert (json_value parsed = true) as Hjson.
  { unfold advisor_extractJsonPayload in Hparsed.
    destruct (property response "output_text"); [|done].
    cbn [mbind attempt_bind] in Hparsed.
    destruct (match field_of response "output" with
              | JArr blocks => advisor_block_chunks blocks
              | _ => mret []
              end); [|done].
    cbn [mbind attempt_bind] in Hparsed. cbn zeta in Hparsed.
    destruct (String.eqb _ ""); [done|].
    by apply parse_or_slice_json in Hparsed. }
  destruct (shaped_is_an_object parsed) as (props & Hprops & _).
  split; [by exists response, parsed|].
  split; [by apply shaped_json_value|]. split; [apply shaped_again|].
  rewrite Hprops. split_and!; try done. rewrite <-Hprops.
  by apply JSON_parse_stringify, shaped_json_value.
Qed.

End Advisor.

End ReplyProperties.

(** ** The lookup routes *)

Section LookupProperties.
Context `{JsRuntime} `{!JsonParser} `{!SqliteAffinity}.

Lemma statement_threw_why {A} (run : env → database → js_error + A * database)
  (e : env) (k k' : nat) (s s' : database) (err : js_error) :
  statement run e k s = (Threw err, k', s') →
  store_fault e k = true ∨ run e s = inl err.
Proof.
  unfold statement. destruct (store_fault e k); [by left|].
  destruct (run e s) as [err'|[a s1]]; [|done]. intros [= -> _ _]. by right.
Qed.

Lemma getOrCreate_threw (name : string) (e : env) (k k' : nat)
  (s s' : database) (err : js_error) :
  getOrCreateCompanyIdByName name e k s = (Threw err, k', s') →
  ∃ j, store_fault e j = true.
Proof.
  unfold getOrCreateCompanyIdByName. cbn zeta.
  unfold mbind, step_bind, query.
  destruct (selectCompanyByName (tables s) (trim name)); [done|].
  unfold insertCompany. intros Hrun.
  apply statement_threw_why in Hrun as [Hfault|Hrun]; [by exists k|done].
Qed.

Lemma updateCompanyWithMetrics_threw (companyId : Z) (metrics : jsval)
  (e : env) (k k' : nat) (s s' : database) (err : js_error) :
  updateCompanyWithMetrics companyId metrics e k s = (Threw err, k', s') →
  (∃ j, store_fault e j = true) ∨ bind_all (metrics_payload metrics) = None.
Proof.
  unfold updateCompanyWithMetrics. destruct (negb (truthy metrics) || _); [done|].
  intros Hrun. apply statement_threw_why in Hrun as [Hfault|Hrun].
  - left. by exists k.
  - right. by destruct (bind_all (metrics_payload metrics)).
Qed.

Lemma insertCase_threw (companyId : Z) (caseInfo : list (string * jsval))
  (e : env) (k k' : nat) (s s' : database) (err : js_error) :
  insertCase companyId caseInfo e k s = (Threw err, k', s') →
  (∃ j, store_fault e j = true) ∨ bind_all caseInfo = None.
Proof.
  unfold insertCase. intros Hrun.
  apply statement_threw_why in Hrun as [Hfault|Hrun].
  - left. by exists k.
  - right. by destruct (bind_all caseInfo).
Qed.

Lemma insert_recommendations_threw (items : list recommendation_item)
  (e : env) (k k' : nat) (s s' : database) (err : js_error) :
  insert_recommendations items e k s = (Threw err, k', s') →
  ∃ j, store_fault e j = true.
Proof.
  revert k s. induction items as [|item items IH]; intros k s; [done|].
  cbn [insert_recommendations]. unfold mbind, step_bind.
  unfold insertRecommendation at 1, statement.
  destruct (store_fault e k) eqn:Hfault; [by exists k|]. apply IH.
Qed.

Lemma insertDemoRecommendations_threw (caseId : Z) (type : string)
  (e : env) (k k' : nat) (s s' : database) (err : js_error) :
  insertDemoRecommendations caseId type e k s = (Threw err, k', s') →
  ∃ j, store_fault e j = true.
Proof.
  unfold insertDemoRecommendations, transaction. cbn zeta.
  destruct (insert_recommendations _ e k s) as [[[finished|err'] k1] s1] eqn:Hrun;
    [done|].
  intros _. by apply insert_recommendations_threw in Hrun.
Qed.

Lemma recordHistory_threw (companyId caseId : Z) (action : string)
  (e : env) (k k' : nat) (s s' : database) (err : js_error) :
  recordHistory companyId caseId action e k s = (Threw err, k', s') →
  ∃ j, store_fault e j = true.
Proof.
  unfold recordHistory. intros Hrun.
  apply statement_threw_why in Hrun as [Hfault|Hrun]; [by exists k|done].
Qed.

Lemma case_info_unbound (title : string) (details rawInput summary : jsval) :
  bind_all (case_info title details rawInput summary) = None →
  bind_value details = None ∨ bind_value summary = None.
Proof.
  unfold case_info. cbn [bind_all bind_value].
  destruct (bind_value details); [|by left].
  destruct (bind_value summary); [|by right].
  by destruct (truthy rawInput).
Qed.

(** Why a lookup throws: the store refused a statement, or a metric or the
    summary cannot be bound. *)
Lemma record_case_threw (detailed : bool) (companyName extra : string)
  (summary metrics rawInput : jsval) (e : env) (s s' : database)
  (err : js_error) :
  call (record_case detailed companyName summary metrics (JStr extra) rawInput)
    e s = (Threw err, s') →
  (∃ j, store_fault e j = true)
  ∨ bind_all (metrics_payload metrics) = None
  ∨ bind_value summary = None.
Proof.
  unfold call. rewrite record_case_steps.
  destruct (record_steps _ _ _ _ _ _ _ _ e 0%nat s) as [[o k'] s0] eqn:Hrun.
  intros [= -> ->]. unfold record_steps in Hrun.
  apply bind_threw in Hrun as [Hrun|(id & k1 & s1 & _ & Hrun)].
  { left. by apply getOrCreate_threw in Hrun. }
  apply bind_threw in Hrun as [Hrun|([] & k2 & s2 & _ & Hrun)].
  { apply updateCompanyWithMetrics_threw in Hrun as [Hfault|Hbind]; auto. }
  apply bind_threw in Hrun as [Hrun|(cid & k3 & s3 & _ & Hrun)].
  { apply insertCase_threw in Hrun as [Hfault|Hbind]; [by left|].
    apply case_info_unbound in Hbind as [Hdetails|Hsummary]; [|auto].
    destruct detailed; [|done]. unfold js_or in Hdetails.
    by destruct (truthy (JStr extra)). }
  apply bind_threw in Hrun as [Hrun|([] & k4 & s4 & _ & Hrun)].
  { left. by apply insertDemoRecommendations_threw in Hrun. }
  apply bind_threw in Hrun as [Hrun|([] & k5 & s5 & _ & Hrun)]; [|done].
  left. by apply recordHistory_threw in Hrun.
Qed.

Lemma named_body (body : jsval) (companyName : string) :
  names_company body companyName →
  (if truthy body then body else JObj []) = body.
Proof.
  intros [Hname _]. destruct (truthy body) eqn:Htruthy; [done|].
  by destruct body.
Qed.

(** X26: the statuses of the two lookup routes.  A request that names no
    company is answered 400 and writes nothing.  A request that names one is
    answered 500 with the message of the missing agent, and writes nothing,
    when [LOOKUP_AGENT] is not configured; otherwise the model is asked,
    and the answer is 200 with the ids of the recorded case exactly when
    the recording returns, and else 500, and that only when the store
    refused a statement or when a metric or the summary of the model is a
    value that cannot be bound.  A reply of the model that cannot be read
    is no reason for a 500. *)
Theorem lookup_route_statuses (detailed : bool) (LOOKUP_AGENT : option string)
  (reply : attempt jsval) (body : jsval) (e : env) (s : database) :
  let answer := summary_route detailed LOOKUP_AGENT reply body e s in
  (lookup_status (fst answer) = 400
   ∧ snd answer = s
   ∧ ¬ ∃ companyName, names_company body companyName)
  ∨ ∃ companyName,
      names_company body companyName
      ∧ ((fst answer
          = {| lookup_status := 500;
               lookup_answer :=
                 LookupFailure "Missing LOOKUP_AGENT configuration"
                   (Some "Set LOOKUP_AGENT in backend/.env to enable company lookup.") |}
          ∧ snd answer = s
          ∧ (LOOKUP_AGENT = None ∨ LOOKUP_AGENT = Some ""))
         ∨ ∃ metrics raw,
             inferCompanyBaseMetrics LOOKUP_AGENT reply
               (lookup_asks detailed body companyName)
             = Succeeded (metrics, raw)
             ∧ ((∃ companyId caseId,
                   call (lookup_records detailed body companyName metrics raw)
                     e s
                   = (Returned (companyId, caseId), snd answer)
                   ∧ fst answer
                     = lookup_done detailed body companyName metrics
                         companyId caseId)
                ∨ (fst answer
                   = {| lookup_status := 500;
                        lookup_answer :=
                          LookupFailure "Failed to enrich company information"
                            None |}
                   ∧ (∃ err,
                        call (lookup_records detailed body companyName
                                metrics raw) e s
                        = (Threw err, snd answer))
                   ∧ ((∃ j, store_fault e j = true)
                      ∨ bind_all (metrics_payload metrics) = None
                      ∨ bind_value
                          (summary_of detailed (trim companyName) metrics)
                        = None)))).
Proof.
  cbn zeta. unfold summary_route. cbn zeta.
  destruct (field_of (if truthy body then body else JObj []) "companyName")
    as [| | | |companyName| |] eqn:Hname;
    try (left; split_and!; try done; intros (name & Hnamed & _); congruence).
  destruct (String.eqb companyName "") eqn:Hempty.
  { apply String.eqb_eq in Hempty as ->. left. split_and!; try done.
    intros (name & Hnamed & Hfilled). congruence. }
  apply String.eqb_neq in Hempty. right. exists companyName.
  assert (names_company body companyName) as Hnamed by done.
  split; [done|]. rewrite (named_body _ _ Hnamed).
  unfold lookup_asks, lookup_records, lookup_done.
  unfold inferCompanyBaseMetrics, buildEnrichmentPrompt.
  destruct LOOKUP_AGENT as [[|c agent]|];
    cbn [mbind attempt_bind mret attempt_ret raised_code respondIfAgentMissing
         String.eqb Ascii.eqb Bool.eqb];
    [left; split_and!; try done; by right | | left; split_and!; try done; by left].
  right.
  destruct (reply ≫= _) as [parsed|err'].
  - cbn [mret attempt_ret]. eexists _, _. split; [reflexivity|].
    match goal with
    | |- context [call ?m e s] =>
        destruct (call m e s) as [[[companyId caseId]|err] s'] eqn:Hcall
    end.
    + left. by exists companyId, caseId.
    + right. split_and!; try done; [by exists err|].
      by apply record_case_threw in Hcall.
  - cbn [mret attempt_ret]. eexists _, _. split; [reflexivity|].
    match goal with
    | |- context [call ?m e s] =>
        destruct (call m e s) as [[[companyId caseId]|err] s'] eqn:Hcall
    end.
    + left. by exists companyId, caseId.
    + right. split_and!; try done; [by exists err|].
      by apply record_case_threw in Hcall.
Qed.

Lemma record_case_returns (detailed : bool) (companyName extra : string)
  (summary metrics rawInput : jsval) (e : env) (s : database) :
  (∀ j, store_fault e j = false) →
  is_Some (bind_all (metrics_payload metrics)) →
  is_Some (bind_value summary) →
  ∃ companyId caseId s',
    call (record_case detailed companyName summary metrics (JStr extra)
            rawInput) e s
    = (Returned (companyId, caseId), s').
Proof.
  intros Hstore [bound Hbound] [cell Hcell].
  destruct (call _ e s) as [[[companyId caseId]|err] s'] eqn:Hcall;
    [by eexists _, _, _|].
  apply record_case_threw in Hcall as [[j Hfault]|[Hbind|Hbind]]; [|congruence..].
  by rewrite Hstore in Hfault.
Qed.

Lemma updateCompanyWithMetrics_returned (companyId : Z) (metrics : jsval)
  (e : env) (k k' : nat) (s s' : database) :
  updateCompanyWithMetrics companyId metrics e k s = (Returned tt, k', s') →
  truthy metrics = true →
  typeof metrics = "object" →
  ∃ bound,
    bind_all (metrics_payload metrics) = Some bound
    ∧ companies (tables s')
      = alter (fun r =>
                 <["updated_at" := CText (sql_now e)]>
                   (coalesce_columns bound r))
          companyId (companies (tables s)).
Proof.
  intros Hrun Htruthy Htype. unfold updateCompanyWithMetrics in Hrun.
  rewrite Htruthy, Htype in Hrun. cbn [negb orb] in Hrun.
  rewrite String.eqb_refl in Hrun. cbn [negb] in Hrun.
  apply statement_returned in Hrun as (_ & Hrun & _).
  destruct (bind_all (metrics_payload metrics)) as [bound|]; [|done].
  injection Hrun as <-. by exists bound.
Qed.

(** X27: a reply that cannot be read still records the lookup.  When the
    agent is configured, the call of the model is rejected or nothing can be
    read out of its reply, and the store refuses nothing, a lookup that names
    a company is answered 200 with the fallback metrics and the fallback
    summary; the company carries the trimmed name, its country is now
    [Finland], whatever it was, and the case recorded for it holds the
    fallback summary. *)
Theorem unreadable_reply_still_records (detailed : bool) (agent : string)
  (reply : attempt jsval) (body : jsval) (companyName : string) (e : env)
  (s : database) :
  agent ≠ "" →
  names_company body companyName →
  (∀ j, store_fault e j = false) →
  (∀ response,
     reply = Succeeded response →
     ∃ err, extractJsonPayload response = Raised err) →
  let answer := summary_route detailed (Some agent) reply body e s in
  let asked := lookup_asks detailed body companyName in
  ∃ companyId caseId row,
    fst answer
    = lookup_done detailed body companyName (fallback_metrics asked)
        companyId caseId
    ∧ summary_of detailed (trim companyName) (fallback_metrics asked)
      = JStr (fallbackSummary asked)
    ∧ companies (tables (snd answer)) !! companyId = Some row
    ∧ row !! "name" = Some (CText (trim companyName))
    ∧ row !! "country" = Some (CText "Finland")
    ∧ {| case_id := caseId;
         case_company_id := companyId;
         company_summary_text := CText (fallbackSummary asked);
         case_created_at := sql_now e |}
      ∈ company_cases (tables (snd answer)).
Proof.
  cbn zeta. intros Hagent Hnamed Hstore Hreply.
  pose proof Hnamed as [Hname Hfilled].
  unfold summary_route. cbn zeta. rewrite Hname.
  destruct (String.eqb companyName "") eqn:Hempty.
  { by apply String.eqb_eq in Hempty. }
  rewrite (named_body _ _ Hnamed). unfold lookup_done.
  fold (lookup_asks detailed body companyName).
  set (asked := lookup_asks detailed body companyName).
  set (extra := extra_context (field_of body "extraInfo")).
  assert (inferCompanyBaseMetrics (Some agent) reply asked
          = Succeeded (fallback_metrics asked, JNull)) as ->.
  { unfold inferCompanyBaseMetrics, buildEnrichmentPrompt.
    destruct agent; [done|]. cbn [mbind attempt_bind mret attempt_ret].
    destruct reply as [response|err]; cbn [mbind attempt_bind]; [|done].
    by destruct (Hreply response eq_refl) as [err ->]. }
  assert (summary_of detailed (trim companyName) (fallback_metrics asked)
          = JStr (fallbackSummary asked)) as ->.
  { reflexivity. }
  destruct (record_case_returns detailed (trim companyName) extra
              (JStr (fallbackSummary asked)) (fallback_metrics asked)
              (raw_input body (fallback_metrics asked) JNull) e s Hstore)
    as (companyId & caseId & s' & Hcall); [by eexists..|].
  rewrite Hcall. cbn [fst snd].
  exists companyId, caseId.
  unfold call in Hcall. rewrite record_case_steps in Hcall.
  destruct (record_steps _ _ _ _ _ _ _ _ e 0%nat s) as [[o k'] s0] eqn:Hrun.
  injection Hcall as -> ->. unfold record_steps in Hrun.
  apply bind_returned in Hrun as (id & k1 & s1 & Hcompany & Hrun).
  apply bind_returned in Hrun as ([] & k2 & s2 & Hmetrics & Hrun).
  apply bind_returned in Hrun as (cid & k3 & s3 & Hcase & Hrun).
  apply bind_returned in Hrun as ([] & k4 & s4 & Hdemo & Hrun).
  apply bind_returned in Hrun as ([] & k5 & s5 & Hhistory & Hrun).
  injection Hrun as -> -> _ ->.
  apply getOrCreate_step in Hcompany as (_ & _ & _ & _ & _ & _ & Hnamed1).
  destruct (Hnamed1 _ eq_refl) as (row1 & Hrow1 & Hname1).
  rewrite trim_again in Hname1.
  apply updateCompanyWithMetrics_returned in Hmetrics
    as (bound2 & Hbound2 & Hcompanies2); [|done..].
  assert (cell_get bound2 "country" = Some (CText "Finland")
          ∧ cell_get bound2 "name" = None
          ∧ NoDup (map fst bound2)) as (Hcountry & Hnone & Hnd).
  { assert (bind_all (metrics_payload (fallback_metrics asked))
            = Some (map (fun ck =>
                           (fst ck,
                            if String.eqb (fst ck) "country"
                            then CText "Finland" else CNull))
                      METRIC_COLUMNS)) as Hall by reflexivity.
    rewrite Hall in Hbound2. injection Hbound2 as <-.
    split_and!; try reflexivity. apply (bool_decide_unpack _). by compute. }
  apply insertCase_step in Hcase
    as (_ & _ & Hcompanies3 & _ & _ & _ & bound & Hbind & Hcases3).
  apply insertDemoRecommendations_step in Hdemo as (Ht4 & _ & _).
  apply recordHistory_step in Hhistory as (Ht5 & _ & _).
  pose proof (case_info_summary _ _ _ _ _ Hbind) as Hsummary.
  rewrite Ht5, Ht4, Hcompanies3, Hcases3, Hsummary, Hcompanies2.
  cbn [bind_value default text_affinity].
  rewrite lookup_alter_eq, Hrow1. cbn [fmap option_fmap option_map].
  eexists. split; [reflexivity|]. split; [reflexivity|].
  split; [reflexivity|]. split_and!.
  - rewrite lookup_insert_ne by done.
    by rewrite coalesce_columns_lookup, Hnone by done.
  - rewrite lookup_insert_ne by done.
    by rewrite coalesce_columns_lookup, Hcountry by done.
  - apply elem_of_app. right. by apply list_elem_of_singleton.
Qed.

End LookupProperties.

(** ** The runtime of the examples obeys the laws *)

Module IntRuntimeLaws.
Import IntRuntime.

(** *** Numbers *)

Lemma append_String (c : ascii) (s rest : string) :
  String c s +:+ rest = String c (s +:+ rest).
Proof. reflexivity. Qed.

Lemma read_digits_digit (c : ascii) (s : string) :
  is_digit c = true →
  read_digits (String c s) =
  let '(d, rest) := read_digits s in (cons_digit c d, rest).
Proof. intros Hc. cbn [read_digits]. by rewrite Hc. Qed.

Lemma read_digits_printed (d : uint) (rest : string) :
  delimited rest →
  read_digits (NilEmpty.string_of_uint d +:+ rest) = (d, rest).
Proof.
  intros Hrest. induction d; cbn [NilEmpty.string_of_uint];
    try (rewrite append_String, read_digits_digit, IHd by reflexivity;
         reflexivity).
  change (EmptyString +:+ rest) with rest.
  destruct rest as [|c rest]; [done|].
  cbn [read_digits]. destruct Hrest as [->|[->| ->]]; reflexivity.
Qed.

Lemma to_uint_first_digit (p : positive) :
  match Pos.to_uint p with Nil | D0 _ => False | _ => True end.
Proof.
  pose proof (Unsigned.to_uint_nonnil p) as Hnil.
  pose proof (Unsigned.to_uint_nonzero p) as Hzero.
  pose proof (to_of (Pos (Pos.to_uint p))) as Hnorm.
  change (Z.of_int (Pos (Pos.to_uint p))) with (Z.of_int (Z.to_int (Z.pos p)))
    in Hnorm.
  rewrite of_to in Hnorm. cbn [Z.to_int norm] in Hnorm.
  injection Hnorm as Hnorm.
  destruct (Pos.to_uint p) as [|d| | | | | | | | |] eqn:E; try done.
  rewrite unorm_D0 in Hnorm.
  assert (d ≠ Nil) as Hd by (intros ->; by destruct Hzero).
  pose proof (nb_digits_unorm d Hd) as Hle.
  rewrite <- Hnorm in Hle. cbn [nb_digits] in Hle. lia.
Qed.

Lemma parse_digits_printed (d : uint) (rest : string) :
  delimited rest → d ≠ Nil → leading_zero d = false →
  parse_digits (NilEmpty.string_of_uint d +:+ rest) = Some (Z.of_uint d, rest).
Proof.
  intros Hrest Hnil Hzero. unfold parse_digits.
  rewrite read_digits_printed by done.
  assert (continues rest = false) as Hcont.
  { destruct rest as [|c tail]; [done|].
    destruct Hrest as [->|[->| ->]]; reflexivity. }
  rewrite Hzero, Hcont. by destruct d.
Qed.

Lemma parse_number_printed (z : Z) (rest : string) :
  delimited rest →
  parse_number (int_toString z +:+ rest) = Some (z, rest).
Proof.
  intros Hrest. unfold int_toString.
  destruct z as [|p|p]; cbn [Z.to_int NilZero.string_of_int].
  - change (NilZero.string_of_uint zero) with (NilEmpty.string_of_uint zero).
    change (parse_number (NilEmpty.string_of_uint zero +:+ rest))
      with (parse_digits (NilEmpty.string_of_uint zero +:+ rest)).
    by rewrite parse_digits_printed.
  - pose proof (to_uint_first_digit p) as Hfirst.
    pose proof (Unsigned.to_uint_nonnil p) as Hnil.
    replace (Z.pos p) with (Z.of_uint (Pos.to_uint p))
      by (unfold Z.of_uint; by rewrite DecimalPos.Unsigned.of_to).
    destruct (Pos.to_uint p) as [|d|d|d|d|d|d|d|d|d|d]; try done;
      match goal with
      | |- parse_number (NilZero.string_of_uint ?u +:+ _) = _ =>
          change (parse_number (NilZero.string_of_uint u +:+ rest))
            with (parse_digits (NilEmpty.string_of_uint u +:+ rest))
      end;
      by rewrite parse_digits_printed.
  - pose proof (to_uint_first_digit p) as Hfirst.
    pose proof (Unsigned.to_uint_nonnil p) as Hnil.
    replace (Z.neg p) with (- Z.of_uint (Pos.to_uint p))
      by (unfold Z.of_uint; by rewrite DecimalPos.Unsigned.of_to).
    rewrite append_String.
    change (parse_number (String "-" ?s))
      with ('(z, rest') ← parse_digits s; Some (- z, rest')).
    assert (NilZero.string_of_uint (Pos.to_uint p)
            = NilEmpty.string_of_uint (Pos.to_uint p)) as ->
      by (by destruct (Pos.to_uint p)).
    rewrite parse_digits_printed; [done..|].
    by destruct (Pos.to_uint p).
Qed.
(** *** Strings *)

Lemma append_assoc (a b c : string) : (a +:+ b) +:+ c = a +:+ (b +:+ c).
Proof. induction a as [|x a IH]; [done|]. rewrite !append_String. by rewrite IH. Qed.

Lemma append_empty_r (a : string) : a +:+ EmptyString = a.
Proof. induction a as [|x a IH]; [done|]. rewrite !append_String. by rewrite IH. Qed.

Lemma length_append (a b : string) :
  String.length (a +:+ b) = (String.length a + String.length b)%nat.
Proof.
  induction a as [|x a IH]; [done|]. rewrite append_String.
  cbn [String.length]. by rewrite IH.
Qed.

Lemma parse_chars_quote_char (c : ascii) (tail : string) :
  parse_chars (quote_char c +:+ tail) = prepend c (parse_chars tail).
Proof. destruct c as [[] [] [] [] [] [] [] []]; reflexivity. Qed.

Lemma parse_chars_quoted (s rest : string) :
  parse_chars (quote_chars s +:+ String dquote rest) = Some (s, rest).
Proof.
  induction s as [|c s IH]; [reflexivity|].
  cbn [quote_chars]. by rewrite append_assoc, parse_chars_quote_char, IH.
Qed.
(** *** Values *)

Lemma parse_value_head (fuel : nat) (c : ascii) (tail : string) :
  is_json_whitespace c = false →
  parse_value (S fuel) (String c tail) =
  let n := nat_of_ascii c in
  if (n =? 110)%nat then rest' ← expect "ull" tail; Some (JNull, rest')
  else if (n =? 116)%nat then rest' ← expect "rue" tail; Some (JBool true, rest')
  else if (n =? 102)%nat then
    rest' ← expect "alse" tail; Some (JBool false, rest')
  else if (n =? 34)%nat then
    '(text, rest') ← parse_chars tail; Some (JStr text, rest')
  else if (n =? 91)%nat then
    match skip_whitespace tail with
    | String "]" rest' => Some (JArr [], rest')
    | _ =>
        '(items, rest') ←
          parse_items (parse_value fuel) (String.length tail) tail [];
        Some (JArr items, rest')
    end
  else if (n =? 123)%nat then
    match skip_whitespace tail with
    | String "}" rest' => Some (JObj [], rest')
    | _ =>
        '(props, rest') ←
          parse_members (parse_value fuel) (String.length tail) tail [];
        Some (JObj props, rest')
    end
  else '(z, rest') ← parse_number (String c tail); Some (JNum z, rest').
Proof. intros Hc. cbn [parse_value skip_whitespace]. by rewrite Hc. Qed.

Lemma int_toString_head (z : Z) :
  ∃ c tail, int_toString z = String c tail
            ∧ In c ["-"; "0"; "1"; "2"; "3"; "4"; "5"; "6"; "7"; "8"; "9"]%char.
Proof.
  unfold int_toString. destruct z as [|p|p]; cbn [Z.to_int NilZero.string_of_int].
  - eexists _, _. split; [reflexivity|]. simpl. tauto.
  - pose proof (Unsigned.to_uint_nonnil p).
    destruct (Pos.to_uint p); [done|..];
      (eexists _, _; split; [reflexivity|]; simpl; tauto).
  - eexists _, _. split; [reflexivity|]. simpl. tauto.
Qed.

Lemma stringify_head (v : jsval) :
  ∃ c tail, JSON_stringify v = String c tail ∧ value_head c.
Proof.
  unfold value_head.
  destruct v as [| |[]|z|s|items|props]; cbn [JSON_stringify];
    try (eexists _, _; split; [reflexivity|]; simpl; tauto).
  destruct (int_toString_head z) as (c & tail & Hz & Hc).
  exists c, tail. split; [done|]. simpl in Hc |- *. tauto.
Qed.

Lemma value_head_not_space (c : ascii) :
  value_head c → is_json_whitespace c = false.
Proof. unfold value_head. simpl. intuition subst; reflexivity. Qed.

Lemma parse_value_number (fuel : nat) (z : Z) (rest : string) :
  delimited rest →
  parse_value (S fuel) (int_toString z +:+ rest) = Some (JNum z, rest).
Proof.
  intros Hrest. pose proof (parse_number_printed z rest Hrest) as Hnum.
  destruct (int_toString_head z) as (c & tail & Hz & Hc).
  rewrite Hz in Hnum |- *. rewrite append_String in Hnum |- *.
  rewrite parse_value_head
    by (simpl in Hc; intuition subst; reflexivity).
  cbv zeta.
  assert ((nat_of_ascii c =? 110)%nat = false ∧ (nat_of_ascii c =? 116)%nat = false
          ∧ (nat_of_ascii c =? 102)%nat = false ∧ (nat_of_ascii c =? 34)%nat = false
          ∧ (nat_of_ascii c =? 91)%nat = false ∧ (nat_of_ascii c =? 123)%nat = false)
    as (-> & -> & -> & -> & -> & ->)
    by (simpl in Hc; intuition subst; reflexivity).
  by rewrite Hnum.
Qed.

Lemma stringify_length (v : jsval) : (1 ≤ String.length (JSON_stringify v))%nat.
Proof.
  destruct (stringify_head v) as (c & tail & -> & _). cbn [String.length]. lia.
Qed.

Lemma join_length_elem (sep part : string) (parts : list string) :
  part ∈ parts → (String.length part ≤ String.length (join sep parts))%nat.
Proof.
  induction parts as [|p parts IH]; intros Hin; [by apply elem_of_nil in Hin|].
  cbn [join]. destruct parts as [|q parts].
  - apply list_elem_of_singleton in Hin. by subst.
  - rewrite !length_append. apply elem_of_cons in Hin as [->|Hin]; [lia|].
    specialize (IH Hin). lia.
Qed.

Lemma join_length_parts (sep : string) (parts : list string) :
  (∀ part, part ∈ parts → (1 ≤ String.length part)%nat) →
  (length parts ≤ String.length (join sep parts))%nat.
Proof.
  induction parts as [|p parts IH]; intros Hparts; [done|].
  cbn [join]. destruct parts as [|q parts].
  - cbn [length]. apply Hparts. left.
  - rewrite !length_append. pose proof (Hparts p ltac:(left)).
    assert (length (q :: parts) ≤ String.length (join sep (q :: parts)))%nat
      by (apply IH; intros part Hpart; apply Hparts; by right).
    cbn [length] in *. lia.
Qed.
Lemma skip_whitespace_comma (s : string) :
  skip_whitespace (String "," s) = String "," s.
Proof. reflexivity. Qed.

Lemma skip_whitespace_colon (s : string) :
  skip_whitespace (String ":" s) = String ":" s.
Proof. reflexivity. Qed.

Lemma skip_whitespace_quote (s : string) :
  skip_whitespace (String dquote s) = String dquote s.
Proof. reflexivity. Qed.

Lemma skip_whitespace_brace (s : string) :
  skip_whitespace (String "}" s) = String "}" s.
Proof. reflexivity. Qed.

Lemma parse_items_printed (pv : string → option (jsval * string))
  (xs : list jsval) :
  ∀ (x : jsval) (acc : list jsval) (n : nat) (rest : string),
    (∀ y r, y ∈ x :: xs → delimited r →
            pv (JSON_stringify y +:+ r) = Some (y, r)) →
    (length (x :: xs) ≤ n)%nat →
    parse_items pv n
      (join "," (map JSON_stringify (x :: xs)) +:+ String "]" rest) acc
    = Some (acc ++ x :: xs, rest).
Proof.
  induction xs as [|y ys IH]; intros x acc n rest Hpv Hn;
    (destruct n as [|n]; [cbn [length] in Hn; lia|]).
  - cbn [map join parse_items].
    rewrite (Hpv x _ ltac:(left)) by (simpl; tauto). reflexivity.
  - change (join "," (map JSON_stringify (x :: y :: ys)))
      with (JSON_stringify x +:+ "," +:+
            join "," (map JSON_stringify (y :: ys))).
    rewrite !append_assoc. cbn [parse_items].
    rewrite (Hpv x _ ltac:(left)) by (simpl; tauto).
    rewrite append_String. change (EmptyString +:+ ?s) with s.
    rewrite skip_whitespace_comma. cbv beta iota.
    rewrite IH.
    + by rewrite <- app_assoc.
    + intros z r Hz Hr. apply Hpv; [by right | done].
    + cbn [length] in *. lia.
Qed.

Lemma stringify_members (props : list (string * jsval)) :
  forallb (fun kv => json_value (snd kv)) props = true →
  flat_map (fun kv =>
     match snd kv with
     | JUndefined => []
     | _ => [quote_string (fst kv) +:+ ":" +:+ JSON_stringify (snd kv)]
     end) props = map member_text props.
Proof.
  induction props as [|[k v] props IH]; [done|].
  cbn [forallb flat_map map snd fst]. intros Hjson.
  apply andb_true_iff in Hjson as [Hv Hprops]. rewrite (IH Hprops).
  by destruct v.
Qed.

Lemma obj_set_fresh (acc : list (string * jsval)) (k : string) (v : jsval) :
  k ∉ map fst acc → obj_set k v acc = acc ++ [(k, v)].
Proof.
  induction acc as [|[k0 v0] acc IH]; [done|].
  cbn [map fst obj_set]. rewrite not_elem_of_cons. intros [Hne Hk].
  assert (String.eqb k0 k = false) as -> by (apply String.eqb_neq; congruence).
  by rewrite IH.
Qed.

Lemma member_text_unfold (kv : string * jsval) (rest : string) :
  member_text kv +:+ rest =
  String dquote
    (quote_chars (fst kv) +:+
     String dquote (String ":" (JSON_stringify (snd kv) +:+ rest))).
Proof.
  unfold member_text, quote_string.
  rewrite !append_String, !append_assoc. by rewrite !append_String.
Qed.

Lemma parse_members_printed (pv : string → option (jsval * string))
  (props : list (string * jsval)) :
  ∀ (kv : string * jsval) (acc : list (string * jsval)) (n : nat)
    (rest : string),
    (∀ p r, p ∈ kv :: props → delimited r →
            pv (JSON_stringify (snd p) +:+ r) = Some (snd p, r)) →
    (length (kv :: props) ≤ n)%nat →
    NoDup (map fst (acc ++ kv :: props)) →
    parse_members pv n
      (join "," (map member_text (kv :: props)) +:+ String "}" rest) acc
    = Some (acc ++ kv :: props, rest).
Proof.
  induction props as [|kv' props IH]; intros [k v] acc n rest Hpv Hn Hnd;
    (destruct n as [|n]; [cbn [length] in Hn; lia|]);
    assert (k ∉ map fst acc) as Hfresh
      by (rewrite map_app in Hnd; apply NoDup_app in Hnd as (_ & Hd & _);
          intros Hk; apply (Hd k Hk); left).
  - cbn [map join]. rewrite member_text_unfold. cbn [fst snd parse_members].
    rewrite skip_whitespace_quote.
    cbv beta iota. change (Ascii.eqb dquote dquote) with true. cbn [negb].
    rewrite parse_chars_quoted, skip_whitespace_colon.
    cbv beta iota.
    rewrite (Hpv (k, v) _ ltac:(left)) by (simpl; tauto).
    rewrite skip_whitespace_brace.
    cbv beta iota. by rewrite obj_set_fresh.
  - change (join "," (map member_text ((k, v) :: kv' :: props)))
      with (member_text (k, v) +:+ "," +:+
            join "," (map member_text (kv' :: props))).
    rewrite !append_assoc, member_text_unfold. cbn [fst snd parse_members].
    rewrite skip_whitespace_quote.
    cbv beta iota. change (Ascii.eqb dquote dquote) with true. cbn [negb].
    rewrite parse_chars_quoted, skip_whitespace_colon.
    cbv beta iota.
    rewrite (Hpv (k, v) _ ltac:(left)) by (simpl; tauto).
    rewrite append_String. change (EmptyString +:+ ?s) with s.
    rewrite skip_whitespace_comma.
    cbv beta iota. rewrite obj_set_fresh by done.
    rewrite IH.
    + by rewrite <- app_assoc.
    + intros p r Hp Hr. apply Hpv; [by right | done].
    + cbn [length] in *. lia.
    + by rewrite <- app_assoc.
Qed.
Lemma append_empty_l (s : string) : EmptyString +:+ s = s.
Proof. reflexivity. Qed.

Ltac norm_append :=
  repeat (rewrite append_assoc || rewrite append_String
          || rewrite append_empty_l).

Lemma join_value_head (x : jsval) (xs : list jsval) (rest : string) :
  ∃ c tail,
    join "," (map JSON_stringify (x :: xs)) +:+ rest = String c tail
    ∧ value_head c.
Proof.
  destruct (stringify_head x) as (c & tail & Hx & Hc).
  cbn [map join]. destruct (map JSON_stringify xs);
    rewrite Hx, ?append_String; eauto.
Qed.

Lemma array_branch {A} (c : ascii) (tail : string)
  (empty : string → A) (other : A) :
  value_head c →
  match skip_whitespace (String c tail) with
  | String "]" rest' => empty rest'
  | _ => other
  end = other.
Proof. unfold value_head. simpl. intuition subst; reflexivity. Qed.

Lemma object_branch {A} (tail : string) (empty : string → A) (other : A) :
  match skip_whitespace (String dquote tail) with
  | String "}" rest' => empty rest'
  | _ => other
  end = other.
Proof. reflexivity. Qed.

Lemma parse_value_array (fuel : nat) (items : list jsval) (rest : string) :
  (∀ y r, y ∈ items → delimited r →
          parse_value fuel (JSON_stringify y +:+ r) = Some (y, r)) →
  parse_value (S fuel) (JSON_stringify (JArr items) +:+ rest)
  = Some (JArr items, rest).
Proof.
  intros Hitems. cbn [JSON_stringify].
  norm_append.
  rewrite parse_value_head by reflexivity.
  change (nat_of_ascii "[") with 91%nat. cbv zeta. cbn [Nat.eqb].
  destruct items as [|x xs]; [reflexivity|].
  destruct (join_value_head x xs (String "]" rest)) as (c & tail & Hj & Hc).
  rewrite Hj at 1. rewrite array_branch by done.
  rewrite parse_items_printed; [done..| |].
  - done.
  - rewrite length_append, <- (length_map JSON_stringify).
    pose proof (join_length_parts "," (map JSON_stringify (x :: xs))) as Hlen.
    cbn [String.length].
    assert (length (map JSON_stringify (x :: xs))
            ≤ String.length (join "," (map JSON_stringify (x :: xs))))%nat.
    { apply Hlen. intros part Hpart.
      apply list_elem_of_fmap in Hpart as (y & -> & _). apply stringify_length. }
    lia.
Qed.

Lemma parse_value_object (fuel : nat) (props : list (string * jsval))
  (rest : string) :
  forallb (fun kv => json_value (snd kv)) props = true →
  NoDup (map fst props) →
  (∀ p r, p ∈ props → delimited r →
          parse_value fuel (JSON_stringify (snd p) +:+ r) = Some (snd p, r)) →
  parse_value (S fuel) (JSON_stringify (JObj props) +:+ rest)
  = Some (JObj props, rest).
Proof.
  intros Hjson Hnd Hprops. cbn [JSON_stringify].
  rewrite stringify_members by done.
  norm_append.
  rewrite parse_value_head by reflexivity.
  change (nat_of_ascii "{") with 123%nat. cbv zeta. cbn [Nat.eqb].
  destruct props as [|kv props]; [reflexivity|].
  assert (∃ tail, join "," (map member_text (kv :: props)) +:+ String "}" rest
                  = String dquote tail) as [tail Htail].
  { cbn [map join]. destruct (map member_text props);
      rewrite ?append_assoc, member_text_unfold; eauto. }
  rewrite Htail at 1. rewrite object_branch.
  rewrite parse_members_printed; [done..| | |].
  - done.
  - rewrite length_append, <- (length_map member_text).
    pose proof (join_length_parts "," (map member_text (kv :: props))) as Hlen.
    cbn [String.length].
    assert (length (map member_text (kv :: props))
            ≤ String.length (join "," (map member_text (kv :: props))))%nat.
    { apply Hlen. intros part Hpart.
      apply list_elem_of_fmap in Hpart as (y & -> & _).
      unfold member_text, quote_string. rewrite append_String.
      cbn [String.length]. lia. }
    lia.
  - done.
Qed.

Lemma stringify_item_length (x : jsval) (items : list jsval) :
  x ∈ items →
  (String.length (JSON_stringify x) < String.length (JSON_stringify (JArr items)))%nat.
Proof.
  intros Hx. cbn [JSON_stringify]. rewrite !length_append.
  cbn [String.length].
  pose proof (join_length_elem "," (JSON_stringify x) (map JSON_stringify items)
    ltac:(by apply list_elem_of_fmap_2)). lia.
Qed.

Lemma stringify_member_length (p : string * jsval)
  (props : list (string * jsval)) :
  forallb (fun kv => json_value (snd kv)) props = true →
  p ∈ props →
  (String.length (JSON_stringify (snd p))
   < String.length (JSON_stringify (JObj props)))%nat.
Proof.
  intros Hjson Hp. cbn [JSON_stringify]. rewrite stringify_members by done.
  rewrite !length_append. cbn [String.length].
  pose proof (join_length_elem "," (member_text p) (map member_text props)
    ltac:(by apply list_elem_of_fmap_2)) as Hlen.
  unfold member_text in Hlen at 1. rewrite !length_append in Hlen. lia.
Qed.

Lemma parse_value_stringify (v : jsval) :
  json_value v = true →
  ∀ fuel rest,
    (String.length (JSON_stringify v) < fuel)%nat → delimited rest →
    parse_value fuel (JSON_stringify v +:+ rest) = Some (v, rest).
Proof.
  induction v as [| |b|z|s|items IH|props IH] using jsval_nested_ind;
    intros Hjson fuel rest Hfuel Hrest;
    (destruct fuel as [|fuel]; [lia|]); try done.
  - by destruct b.
  - by apply parse_value_number.
  - cbn [JSON_stringify]. unfold quote_string.
    norm_append.
    rewrite parse_value_head by reflexivity.
    change (nat_of_ascii dquote) with 34%nat. cbv zeta. cbn [Nat.eqb].
    by rewrite parse_chars_quoted.
  - apply parse_value_array. intros y r Hy Hr.
    cbn [json_value] in Hjson.
    apply (proj1 (Forall_forall _ _) IH y Hy); [|..|done].
    + by apply (proj1 (forallb_forall _ _) Hjson), list_elem_of_In.
    + pose proof (stringify_item_length y items Hy). lia.
  - cbn [json_value] in Hjson. apply andb_true_iff in Hjson as [Hjson Hnd].
    apply bool_decide_eq_true in Hnd.
    apply parse_value_object; [done..|]. intros p r Hp Hr.
    apply (proj1 (Forall_forall _ _) IH p Hp); [|..|done].
    + by apply (proj1 (forallb_forall _ _) Hjson), list_elem_of_In.
    + pose proof (stringify_member_length p props Hjson Hp). lia.
Qed.
Lemma obj_set_json_value (acc : list (string * jsval)) (k : string) (v : jsval) :
  json_value v = true →
  forallb (fun kv => json_value (snd kv)) acc = true →
  forallb (fun kv => json_value (snd kv)) (obj_set k v acc) = true.
Proof.
  intros Hv. induction acc as [|[k0 v0] acc IH]; cbn [obj_set forallb snd].
  - by rewrite Hv.
  - intros Hacc. apply andb_true_iff in Hacc as [Hv0 Hacc].
    destruct (String.eqb k0 k); cbn [forallb snd].
    + by rewrite Hv, Hacc.
    + by rewrite Hv0, IH.
Qed.

Lemma parse_items_json_value (pv : string → option (jsval * string)) :
  (∀ s v r, pv s = Some (v, r) → json_value v = true) →
  ∀ n s acc items rest,
    forallb json_value acc = true →
    parse_items pv n s acc = Some (items, rest) →
    forallb json_value items = true.
Proof.
  intros Hpv. induction n as [|n IH]; intros s acc items rest Hacc; [done|].
  cbn [parse_items].
  destruct (pv s) as [[v r]|] eqn:Hv; [|done].
  assert (forallb json_value (acc ++ [v]) = true) as Hacc'.
  { rewrite forallb_app, Hacc. cbn [forallb]. by rewrite (Hpv _ _ _ Hv). }
  repeat case_match; try done.
  - by intros [= <- _].
  - by apply IH.
Qed.

Lemma parse_members_json_value (pv : string → option (jsval * string)) :
  (∀ s v r, pv s = Some (v, r) → json_value v = true) →
  ∀ n s acc props rest,
    forallb (fun kv => json_value (snd kv)) acc = true →
    NoDup (map fst acc) →
    parse_members pv n s acc = Some (props, rest) →
    forallb (fun kv => json_value (snd kv)) props = true
    ∧ NoDup (map fst props).
Proof.
  intros Hpv. induction n as [|n IH]; intros s acc props rest Hacc Hnd; [done|].
  cbn [parse_members].
  destruct (skip_whitespace s) as [|q tail]; [done|].
  destruct (negb (Ascii.eqb q dquote)); [done|].
  destruct (parse_chars tail) as [[key rest1]|]; [|done].
  destruct (skip_whitespace rest1) as [|c1 rest2] eqn:H1; [done|].
  destruct (pv rest2) as [[v rest3]|] eqn:Hv.
  - pose proof (obj_set_json_value acc key v (Hpv _ _ _ Hv) Hacc) as Hacc'.
    pose proof (obj_set_NoDup acc key v Hnd) as Hnd'.
    repeat case_match; try done.
    + by intros [= <- _].
    + by apply IH.
  - repeat case_match; done.
Qed.

Lemma parse_value_json_value (fuel : nat) :
  ∀ s v rest, parse_value fuel s = Some (v, rest) → json_value v = true.
Proof.
  induction fuel as [|fuel IH]; intros s v rest; [done|].
  cbn [parse_value]. destruct (skip_whitespace s) as [|c tail]; [done|].
  cbv zeta.
  destruct (nat_of_ascii c =? 110)%nat;
    [intros; by simplify_option_eq|].
  destruct (nat_of_ascii c =? 116)%nat;
    [intros; by simplify_option_eq|].
  destruct (nat_of_ascii c =? 102)%nat;
    [intros; by simplify_option_eq|].
  destruct (nat_of_ascii c =? 34)%nat.
  { destruct (parse_chars tail) as [[text r]|]; [|done]. by intros [= <- _]. }
  destruct (nat_of_ascii c =? 91)%nat.
  { destruct (parse_items (parse_value fuel) (String.length tail) tail [])
      as [[items r]|] eqn:Hitems.
    - apply parse_items_json_value in Hitems; [|done..].
      repeat case_match; by intros [= <- _].
    - repeat case_match; try done; by intros [= <- _]. }
  destruct (nat_of_ascii c =? 123)%nat.
  { destruct (parse_members (parse_value fuel) (String.length tail) tail [])
      as [[props r]|] eqn:Hprops.
    - apply parse_members_json_value in Hprops as [Hjson Hnd];
        [|done| done | apply NoDup_nil_2].
      repeat case_match; try (by intros [= <- _]);
        (intros [= <- _]; cbn [json_value]; rewrite Hjson;
         by apply bool_decide_eq_true).
    - repeat case_match; try done; by intros [= <- _]. }
  destruct (parse_number (String c tail)) as [[z r]|]; [|done].
  by intros [= <- _].
Qed.

#[export] Instance laws : JsonLaws.
Proof.
  split.
  - intros s v. cbn [JSON_parse parser]. unfold int_JSON_parse.
    destruct (parse_value _ s) as [[v' rest]|] eqn:Hv; [|done].
    destruct (skip_whitespace rest); [|done]. intros [= <-].
    by apply parse_value_json_value in Hv.
  - intros v Hv. cbn [JSON_parse parser]. unfold int_JSON_parse.
    pose proof (parse_value_stringify v Hv
      (S (String.length (JSON_stringify v))) EmptyString) as Hparse.
    rewrite append_empty_r in Hparse. rewrite Hparse; [done|lia|done].
Qed.

End IntRuntimeLaws.

(** ** The scenarios of the specification *)

Module Scenarios.
Import IntRuntime IntRuntimeLaws ScenarioData.

(** The first scenario: the head count goes from unknown to 12, the stage,
    sent as it is stored, is left alone. *)
Example head_count_scenario :
  applyManualCompanyUpdates store0 morning (Some 1) head_count
  = (Returned head_count_response, after_head_count)
  ∧ stored after_head_count 1 "employee_count" = Some (CNum 12)
  ∧ stored after_head_count 1 "stage" = Some (CText "seed").
Proof. split_and!; reflexivity. Qed.

(** The second scenario: one change row, at the summary. *)
Example new_summary_scenario :
  diffRecommendationPayloads
    (JObj [("search_summary", JStr "a"); ("recommended_investors", JArr [])])
    new_summary
  = [{| jsonPath := "$.search_summary";
        fromValue := quote_string "a";
        toValue := quote_string "b" |}].
Proof. reflexivity. Qed.

(** C5: the diff of [{a: 1}] against [{a: "1"}] is one row, at [$.a], from
    the text of the number to the text of the string, which differ by the
    quotes. *)
Theorem diff_tells_number_from_string :
  diffRecommendationPayloads (JObj [("a", number 1)]) (JObj [("a", JStr "1")])
  = [{| jsonPath := "$.a";
        fromValue := "1";
        toValue := String dquote (String "1" (String dquote "")) |}]
  ∧ JSON_stringify (number 1) ≠ JSON_stringify (JStr "1").
Proof. split; [reflexivity | discriminate]. Qed.



(** C2 at a request with a valid change of stage and two numeric columns
    sent words. *)
Lemma invalid_numeric_string_fails_whole_request_witness :
  applyManualCompanyUpdates store0 morning (Some 1) (JObj bad_numbers) =
    (Threw (status_error (join "; " (omap offending_message bad_numbers)) 400),
     store0)
  ∧ "Invalid numeric value for " +:+ "employee_count"
    ∈ omap offending_message bad_numbers.
Proof.
  apply (invalid_numeric_string_fails_whole_request store0 morning 1
           bad_numbers "employee_count" "twelve" "employee_count").
  - exists acme. reflexivity.
  - unfold bad_numbers. repeat constructor.
  - reflexivity.
  - apply (bool_decide_unpack _). exact I.
  - discriminate.
  - reflexivity.
Defined.

(** C7 at a company whose log holds an entry: the entry stays first, and
    the change of the head count follows it. *)
Lemma change_log_only_grows_witness :
  ∃ (text' : string) (new : list jsval),
    companies (snd (applyManualCompanyUpdates logged_store morning (Some 1)
                      head_count)) !! 1 ≫= (.!! "manual_change_log")
    = Some (CText text')
    ∧ JSON_parse text' = Some (JArr ([earlier_entry] ++ new))
    ∧ text' = JSON_stringify
                (JArr [earlier_entry;
                       JObj [("column", JStr "employee_count"); ("from", JNull);
                             ("to", number 12);
                             ("changedAt", JStr "2025-03-02T08:00:00.000Z")]]).
Proof.
  pose proof (change_log_only_grows logged_store morning (Some 1) head_count 1
                acme_logged) as Hthm.
  destruct Hthm as (row' & Hrow' & Hgrows & _);
    [reflexivity | reflexivity | reflexivity |].
  destruct (Hgrows (JSON_stringify (JArr [earlier_entry])) [earlier_entry])
    as (text' & new & Hstored & Hparsed); [reflexivity | reflexivity |].
  exists text', new. rewrite Hrow'. cbn [mbind option_bind].
  split_and!; [exact Hstored | exact Hparsed |].
  assert (companies (snd (applyManualCompanyUpdates logged_store morning
                            (Some 1) head_count)) !! 1
          ≫= (.!! "manual_change_log")
          = Some (CText (JSON_stringify
                (JArr [earlier_entry;
                       JObj [("column", JStr "employee_count"); ("from", JNull);
                             ("to", number 12);
                             ("changedAt", JStr "2025-03-02T08:00:00.000Z")]]))))
    as Hcode by reflexivity.
  rewrite Hrow' in Hcode. cbn [mbind option_bind] in Hcode. congruence.
Defined.

(** C8 at the third scenario: limit 5 over three cases and four reports.
    The feed shows the five latest of the seven entries, and leaves out the
    case of the first of March and the report of the second. *)
Lemma recent_history_sorted_bounded_tagged_witness :
  safeLimit_of (number 5) = 5
  ∧ length (getRecentCompanyHistory busy_store (number 5)) = 5%nat
  ∧ StronglySorted newer_or_same (getRecentCompanyHistory busy_store (number 5))
  ∧ map entryType (getRecentCompanyHistory busy_store (number 5))
    = ["investment_report"; "investment_report"; "lookup";
       "investment_report"; "lookup"]
  ∧ map createdAt (getRecentCompanyHistory busy_store (number 5))
    = ["2025-03-07 09:00:00"; "2025-03-06 09:00:00"; "2025-03-05 09:00:00";
       "2025-03-04 09:00:00"; "2025-03-03 09:00:00"]
  ∧ latest_of newer_or_same 5 (getRecentCompanyHistory busy_store (number 5))
      (all_entries busy_store).
Proof.
  assert (∀ c, c ∈ company_cases busy_store →
               is_Some (Date_getTime (case_created_at c))) as Hcases.
  { intros c Hc. unfold busy_store in Hc. cbn [company_cases] in Hc.
    repeat (apply elem_of_cons in Hc as [->|Hc]; [eexists; reflexivity|]).
    by apply elem_of_nil in Hc. }
  assert (∀ r, r ∈ investor_reports busy_store →
               is_Some (Date_getTime (ir_created_at r))) as Hreports.
  { intros r Hr. unfold busy_store in Hr. cbn [investor_reports] in Hr.
    repeat (apply elem_of_cons in Hr as [->|Hr]; [eexists; reflexivity|]).
    by apply elem_of_nil in Hr. }
  pose proof (recent_history_sorted_bounded_tagged busy_store (number 5)
                Hcases Hreports) as (_ & _ & _ & _ & _ & Hsorted & Hlatest).
  destruct Hlatest as [_ Hlatest]; [reflexivity|].
  split_and!;
    [reflexivity | reflexivity | exact Hsorted | reflexivity | reflexivity
    | exact Hlatest].
Defined.


(** C3 fails on the code: when the store refuses the first insertion of a
    change row, the call throws, the payload of the report is already the
    new one, and no change row is there. *)
Theorem replaced_payload_without_change_rows :
  diffRecommendationPayloads
    (JObj [("search_summary", JStr "a"); ("recommended_investors", JArr [])])
    new_summary ≠ []
  ∧ fst (applyManualInvestorReportUpdates store0 disk_full (Some 1) new_summary)
    = Threw (plain_error "SqliteError")
  ∧ ir_recommendation <$>
      selectInvestorReportById
        (snd (applyManualInvestorReportUpdates store0 disk_full (Some 1)
                new_summary)) 1
    = Some (JSON_stringify new_summary)
  ∧ JSON_stringify new_summary ≠ ir_recommendation report1
  ∧ selectInvestorReportChanges
      (snd (applyManualInvestorReportUpdates store0 disk_full (Some 1)
              new_summary)) 1 = [].
Proof. split_and!; [discriminate | reflexivity | reflexivity | discriminate | reflexivity]. Qed.

(** C9 fails on the code: an array is no JSON object, and the call takes
    it, reports an update and stores it as the payload of the report. *)
Theorem array_payload_is_stored :
  Array_isArray (JArr (H := runtime) []) = true
  ∧ report_updated <$>
      match fst (applyManualInvestorReportUpdates store0 morning (Some 1)
                   (JArr [])) with
      | Returned r => Some r
      | Threw _ => None
      end = Some true
  ∧ ir_recommendation <$>
      selectInvestorReportById
        (snd (applyManualInvestorReportUpdates store0 morning (Some 1)
                (JArr []))) 1
    = Some "[]".
Proof. split_and!; reflexivity. Qed.

(** X3 at the first scenario: the one change reported is the head count,
    and the record holds 12 afterwards. *)
Lemma reported_changes_are_what_changed_witness :
  ∃ row',
    companies after_head_count !! 1 = Some row'
    ∧ company_column row' "employee_count" = number 12.
Proof.
  destruct (reported_changes_are_what_changed store0 after_head_count morning
              1 head_count head_count_response acme
              [{| column := "employee_count"; from := JNull; to := number 12;
                  changedAt := "2025-03-02T08:00:00.000Z" |}]
              eq_refl eq_refl eq_refl) as (row' & Hrow' & _ & _ & Hlast).
  exists row'. split; [exact Hrow'|].
  apply (Hlast [] {| column := "employee_count"; from := JNull;
                     to := number 12;
                     changedAt := "2025-03-02T08:00:00.000Z" |} []).
  - reflexivity.
  - apply not_elem_of_nil.
Defined.

(** X7 at the second scenario: the report holds the new payload and one
    change row was written. *)
Lemma report_update_writes_witness :
  selectInvestorReportById after_new_summary 1
  = Some (with_recommendation report1 (JSON_stringify new_summary))
  ∧ investor_report_changes after_new_summary
    = [change_row morning 1 summary_change].
Proof.
  assert (applyManualInvestorReportUpdates store0 morning (Some 1) new_summary
          = (Returned new_summary_response, after_new_summary)) as Hcall
    by reflexivity.
  destruct (report_update_writes store0 after_new_summary morning 1
              new_summary new_summary_response Hcall eq_refl)
    as (existing & made & Hexisting & Hmade & _ & _ & Hstored & _ & Hrows & _).
  injection Hexisting as <-. injection Hmade as <-.
  split; [exact Hstored | exact Hrows].
Defined.

(** X8 at the second scenario: the new summary sent again at noon. *)
Lemma same_recommendation_again_changes_nothing_witness :
  ∃ r2,
    applyManualInvestorReportUpdates after_new_summary noon (Some 1) new_summary
      = (Returned r2, after_new_summary)
    ∧ report_updated r2 = false
    ∧ report_changes r2 = None
    ∧ report_manualChangeLog r2 = [change_shown morning summary_change]
    ∧ (true = true → report_recommendation r2 = new_summary).
Proof.
  apply (same_recommendation_again_changes_nothing store0 after_new_summary
           morning noon 1 new_summary new_summary_response).
  - reflexivity.
  - reflexivity.
Defined.

(** X9 at a report that does not exist. *)
Lemma report_update_throws_before_writing_witness :
  store0 = store0
  ∧ (status_error "Investor report not found" 404
       = plain_error "Valid reportId is required"
     ∨ status_error "Investor report not found" 404
       = plain_error "recommendation payload must be an object"
     ∨ status_error "Investor report not found" 404
       = status_error "Investor report not found" 404).
Proof.
  apply (report_update_throws_before_writing store0 store0 morning (Some 7)
           new_summary (status_error "Investor report not found" 404)).
  - intros k. reflexivity.
  - reflexivity.
Defined.

(** X4 at the first scenario. *)
Lemma response_log_is_the_stored_log_witness :
  ∃ row',
    companies after_head_count !! 1 = Some row'
    ∧ parseManualLog (row' !! "manual_change_log")
      = manualChangeLog head_count_response.
Proof.
  apply (response_log_is_the_stored_log store0 after_head_count morning 1
           head_count head_count_response).
  - reflexivity.
  - reflexivity.
Defined.

(** X10 at the third scenario: limit 5 over three cases and four reports
    leaves out the two oldest entries. *)
Lemma history_shows_the_newest_witness :
  ∃ left_out,
    all_entries busy_store
    ≡ₚ getRecentCompanyHistory busy_store (number 5) ++ left_out
    ∧ length (getRecentCompanyHistory busy_store (number 5))
      = (Z.to_nat (safeLimit_of (number 5))
         `min` length (all_entries busy_store))%nat
    ∧ ∀ shown old,
        shown ∈ getRecentCompanyHistory busy_store (number 5) →
        old ∈ left_out →
        newer_or_same shown old.
Proof.
  apply (history_shows_the_newest busy_store (number 5)). reflexivity.
Defined.





(** X11 at the company of the scenarios: the head count is filled in, the
    stage is replaced, and the country, which the enrichment did not find,
    and the name are as they were. *)
Lemma enrichment_fills_in_and_replaces_witness :
  ∃ row',
    companies (tables enriched) !! 1 = Some row'
    ∧ row' !! "employee_count"
      = Some (column_affinity "employee_count" (CNum 40))
    ∧ row' !! "stage" = Some (column_affinity "stage" (CText "growth"))
    ∧ row' !! "country" = acme !! "country"
    ∧ row' !! "name" = acme !! "name".
Proof.
  assert (updateCompanyWithMetrics 1 found_metrics morning 0%nat base0
          = (Returned tt, 1%nat, enriched)) as Hrun by reflexivity.
  destruct (enrichment_fills_in_and_replaces base0 enriched morning 0 1 1
              found_metrics acme Hrun eq_refl)
    as (row' & Hrow' & Hmetric & Hother & _).
  exists row'. split_and!.
  - exact Hrow'.
  - apply (Hmetric "employee_count" "employee_count").
    unfold METRIC_COLUMNS. repeat constructor.
  - apply (Hmetric "stage" "stage"). unfold METRIC_COLUMNS. repeat constructor.
  - apply (Hmetric "country" "country").
    unfold METRIC_COLUMNS. repeat constructor.
  - apply (Hother "name"); [|discriminate].
    apply (bool_decide_unpack _). exact I.
Defined.

(** X12 at the company of the scenarios, looked up with blanks and
    no-break spaces around its name and then without. *)
Lemma get_or_create_is_keyed_on_the_trimmed_name_witness :
  trim padded_acme = "Acme"
  ∧ call (getOrCreateCompanyIdByName padded_acme) morning base0
    = (Returned 1, base0)
  ∧ call (getOrCreateCompanyIdByName "Acme") noon base0 = (Returned 1, base0).
Proof.
  destruct (get_or_create_is_keyed_on_the_trimmed_name base0 base0 morning
              padded_acme 1 eq_refl) as (_ & _ & _ & _ & Hagain).
  split_and!; [reflexivity | reflexivity |].
  apply (Hagain noon "Acme"). reflexivity.
Defined.

(** X13 at a basic lookup of a company the store does not have, within
    the same second as the lookup before it: with room for one entry, the
    feed shows the new case and not the one before. *)
Lemma lookup_records_a_case_witness :
  ∃ row stored_summary,
    let recorded :=
      {| case_id := 2;
         case_company_id := 3;
         company_summary_text := text_affinity stored_summary;
         case_created_at := sql_now morning |} in
    companies (tables after_second_lookup) !! 3 = Some row
    ∧ row !! "name" = Some (CText "Gamma Ab")
    ∧ bind_value (JStr "Gamma in short.") = Some stored_summary
    ∧ (2 ∉ map case_id (company_cases (tables after_lookup)))
    ∧ map case_created_at (company_cases (tables after_lookup))
      = [sql_now morning]
    ∧ company_cases (tables after_second_lookup)
      = company_cases (tables after_lookup) ++ [recorded]
    ∧ recommendation_rows after_second_lookup
      = recommendation_rows after_lookup ++ demo_rows false morning 2
    ∧ history_rows after_second_lookup
      = history_rows after_lookup ++ [history_of false morning 3 2]
    ∧ investor_reports (tables after_second_lookup)
      = investor_reports (tables after_lookup)
    ∧ investor_report_changes (tables after_second_lookup)
      = investor_report_changes (tables after_lookup)
    ∧ (∀ other, other ≠ 3 →
         companies (tables after_second_lookup) !! other
         = companies (tables after_lookup) !! other)
    ∧ getRecentCompanyHistory (tables after_second_lookup) (number 1)
      = [case_entry (recorded, row)].
Proof.
  destruct (lookup_records_a_case after_lookup after_second_lookup morning
              false "Gamma Ab" (JStr "Gamma in short.") found_metrics
              JUndefined JNull 3 2)
    as (row & stored_summary & Hrow & Hname & Hbound & Hfresh & Hcases
        & Hdemo & Hhistory & Hreports & Hchanges & Hothers & Hfeed);
    [reflexivity|].
  exists row, stored_summary.
  split_and!;
    [exact Hrow | exact Hname | exact Hbound | exact Hfresh | reflexivity
    | exact Hcases | exact Hdemo | exact Hhistory | exact Hreports
    | exact Hchanges | exact Hothers |].
  specialize (Hfeed eq_refl (number 1)).
  assert (length (getRecentCompanyHistory (tables after_second_lookup)
                    (number 1)) = 1%nat) as Hone by reflexivity.
  destruct (getRecentCompanyHistory (tables after_second_lookup) (number 1))
    as [|first [|second rest]]; [discriminate Hone| |discriminate Hone].
  injection Hfeed as ->. reflexivity.
Defined.

(** X14 at the same lookup when the store refuses the insertion of the
    case: no history row and no case, and the company the lookup created is
    there. *)
Lemma failed_lookup_leaves_no_history_witness :
  history_rows after_failed_lookup = history_rows base0
  ∧ company_cases (tables after_failed_lookup) = []
  ∧ companies (tables base0) !! 2 = None
  ∧ is_Some (companies (tables after_failed_lookup) !! 2).
Proof.
  assert (call (record_case false " Beta Oy " (JStr "Beta in short.")
                  found_metrics JUndefined JNull) third_refused base0
          = (Threw (plain_error "SqliteError"), after_failed_lookup)) as Hcall
    by reflexivity.
  destruct (failed_lookup_leaves_no_history base0 after_failed_lookup
              third_refused false " Beta Oy " (JStr "Beta in short.")
              found_metrics JUndefined JNull (plain_error "SqliteError") Hcall)
    as (Hhistory & _).
  split_and!; [exact Hhistory | reflexivity | reflexivity |].
  eexists. reflexivity.
Defined.

(** X16 at the first scenario, the head count sent as a text with blanks
    and no-break spaces around it: the profile shows the number 12. *)
Lemma profile_shows_what_was_submitted_witness :
  or_null (value (coerceManualValue "employee_count"
                    (JStr (no_break_space +:+ "12 " +:+ no_break_space))))
  = number 12
  ∧ ∃ shown,
      getCompanyProfileById after_head_count 1 = Some shown
      ∧ profile_companyId shown = 1
      ∧ get_property (profile_metrics shown) "employee_count"
        = or_null (value (coerceManualValue "employee_count"
                            (JStr (no_break_space +:+ "12 "
                                   +:+ no_break_space)))).
Proof.
  split; [reflexivity|].
  apply (profile_shows_what_was_submitted store0 after_head_count morning 1
           padded_head_count head_count_response "employee_count"
           "employee_count"
           (JStr (no_break_space +:+ "12 " +:+ no_break_space))).
  - apply (bool_decide_unpack _). exact I.
  - reflexivity.
  - unfold padded_head_count. cbn [Object_entries]. repeat constructor.
  - discriminate.
  - unfold PROFILE_COLUMNS, METRIC_COLUMNS. repeat constructor.
Defined.

(** X17 at a report on the company of the scenarios, a day after the
    report the store had: with room for one entry, the feed shows the new
    report. *)
Lemma recorded_report_reads_back_witness :
  ∃ report,
    investor_reports (tables after_report) = [report1; report]
    ∧ ir_id report = 2
    ∧ JSON_parse (ir_recommendation report) = Some new_summary
    ∧ selectInvestorReportById (tables after_report) 2 = Some report
    ∧ head (getRecentCompanyHistory (tables after_report) (number 1))
      = Some (report_entry (tables after_report) report).
Proof.
  destruct (recorded_report_reads_back base0 after_report morning 1 "Acme"
              new_summary eq_refl eq_refl)
    as (report & Hreports & _ & _ & _ & _ & Hparse & Hfound & Hfeed & _).
  exists report.
  assert (ir_id report = 2) as Hid.
  { assert (last (investor_reports (tables after_report)) = Some report)
      as Hlast by (rewrite Hreports; apply last_snoc).
    injection Hlast as <-. reflexivity. }
  rewrite Hid in Hfound.
  split_and!;
    [exact Hreports | exact Hid | exact Hparse | exact Hfound
    | apply Hfeed; reflexivity].
Defined.

(** X20 at an editor in which the stage was changed. *)
Lemma editor_requests_resolve_to_distinct_columns_witness :
  (∀ kv, kv ∈ [("stage", JStr " growth ")] →
     fst kv ∈ EDITABLE_FIELDS ∧ is_Some (resolveManualColumn (fst kv)))
  ∧ NoDup (map fst [("stage", JStr " growth ")])
  ∧ NoDup (resolved_columns [("stage", JStr " growth ")]).
Proof.
  apply (editor_requests_resolve_to_distinct_columns edited_stage
           shown_metrics_12).
  reflexivity.
Defined.

(** X21 at the metrics of the first scenario, the head count 12 among
    them. *)
Lemma untouched_editor_sends_nothing_witness :
  buildUpdatesPayload (JObj (createBufferFromMetrics shown_metrics_12))
    shown_metrics_12
  = Returned [].
Proof.
  apply (untouched_editor_sends_nothing shown_metrics_12).
  - discriminate.
  - reflexivity.
Defined.

(** X22 at a reply in prose that ends in a no-break space: the space is
    trimmed, and the row between the braces is read. *)
Lemma wrapped_object_is_recovered_witness :
  trim wrapped_reply
  = "Here is the row: " +:+ String "{" (row_text +:+ "}") +:+ " Done."
  ∧ tryParse wrapped_reply
    = Succeeded
        (default (JObj [("city", JStr "Espoo")])
           (JSON_parse (trim wrapped_reply)))
  ∧ parse_or_slice (trim wrapped_reply)
    = Succeeded
        (default (JObj [("city", JStr "Espoo")])
           (JSON_parse (trim wrapped_reply))).
Proof.
  split; [reflexivity|].
  apply (wrapped_object_is_recovered "Here is the row: " row_text
           (" Done." +:+ no_break_space)
           (JObj [("city", JStr "Espoo")])); reflexivity.
Defined.

(** X27 at a response of the model that holds no row, for a lookup that
    names the company of the scenarios with blanks and no-break spaces
    around the name. *)
Lemma unreadable_reply_still_records_witness :
  ∃ companyId caseId row,
    fst fallback_answer
    = lookup_done false lookup_acme padded_acme (fallback_metrics asked_acme)
        companyId caseId
    ∧ summary_of false (trim padded_acme) (fallback_metrics asked_acme)
      = JStr (fallbackSummary asked_acme)
    ∧ companies (tables (snd fallback_answer)) !! companyId = Some row
    ∧ row !! "name" = Some (CText (trim padded_acme))
    ∧ row !! "country" = Some (CText "Finland")
    ∧ {| case_id := caseId;
         case_company_id := companyId;
         company_summary_text := CText (fallbackSummary asked_acme);
         case_created_at := sql_now noon |}
      ∈ company_cases (tables (snd fallback_answer)).
Proof.
  apply (unreadable_reply_still_records false "Look the company up."
           no_row lookup_acme padded_acme noon base0).
  - done.
  - split; [reflexivity|done].
  - reflexivity.
  - intros response [= <-]. eexists. reflexivity.
Defined.

(** X23 at a reply in prose that comes in two chunks: the chunks are
    joined by a line feed, and the metrics are the row inside. *)
Lemma enrichment_answers_whenever_configured_witness :
  inferCompanyBaseMetrics (Some "Look the company up.") prose_response "Acme"
  = Succeeded
      (JObj [("city", JStr "Espoo")],
       JStr (JSON_stringify (JObj [("city", JStr "Espoo")])))
  ∧ JSON_parse (JSON_stringify (JObj [("city", JStr "Espoo")]))
    = Some (JObj [("city", JStr "Espoo")]).
Proof.
  pose proof (enrichment_answers_whenever_configured
                (Some "Look the company up.") prose_response "Acme") as Hthm.
  assert (inferCompanyBaseMetrics (Some "Look the company up.")
            prose_response "Acme"
          = Succeeded
              (JObj [("city", JStr "Espoo")],
               JStr (JSON_stringify (JObj [("city", JStr "Espoo")]))))
    as Hcall by reflexivity.
  rewrite Hcall in Hthm.
  destruct Hthm as (_ & _ & [(response & _ & _ & _ & _ & Hback)|(Hfallback & _)]).
  - split; [reflexivity|exact Hback].
  - discriminate Hfallback.
Defined.

(** X25 at the same reply: nothing in it is a field of a recommendation. *)
Lemma advisor_returns_a_recordable_recommendation_witness :
  recommendInvestorsForCompany (Some "Advise the company.") prose_response
    shown_metrics_12
  = Succeeded EMPTY_RECOMMENDATION
  ∧ JSON_parse (JSON_stringify EMPTY_RECOMMENDATION)
    = Some EMPTY_RECOMMENDATION.
Proof.
  pose proof (advisor_returns_a_recordable_recommendation
                (Some "Advise the company.") prose_response shown_metrics_12)
    as Hthm.
  assert (recommendInvestorsForCompany (Some "Advise the company.")
            prose_response shown_metrics_12
          = Succeeded EMPTY_RECOMMENDATION) as Hcall by reflexivity.
  rewrite Hcall in Hthm.
  destruct Hthm as (_ & _ & _ & _ & _ & Hback).
  split; [reflexivity|exact Hback].
Defined.

(** X28 at an entry two hours old. *)
Lemma relative_time_counts_whole_units_witness :
  formatRelativeTime (time_of "2025-03-01 10:00:00" + 7200000)
    (Some "2025-03-01 10:00:00")
  = "2 hours ago".
Proof.
  destruct (relative_time_counts_whole_units
              (time_of "2025-03-01 10:00:00" + 7200000)
              (time_of "2025-03-01 10:00:00") "2025-03-01 10:00:00")
    as (_ & Hhours & _).
  - discriminate.
  - reflexivity.
  - destruct Hhours as [_ Hshown].
    + unfold HOUR_MS, DAY_MS. lia.
    + rewrite Hshown.
      replace (time_of "2025-03-01 10:00:00" + 7200000
               - time_of "2025-03-01 10:00:00") with 7200000 by lia.
      reflexivity.
Defined.

End Scenarios.
